(* ===== verification/_CoqProject ===== *)
-Q . S2P
Prelude.v
GoStrings.v
Tags.v
Types.v
Metadata.v
Regex.v
ServiceId.v
NewService.v
Fixtures.v
Bridge.v
BridgeLemmas.v
BridgeInv.v
BridgeProps.v
ServiceSync.v
SyncLemmas.v
SyncProps.v
System.v
Threads.v
Concurrency.v
Sections.v
Interleavings.v
Liveness.v
Termination.v
Convergence.v
Races.v
Main.v
Backend.v
KvBackends.v
Zookeeper.v
Consul.v
ConsulAgent.v
Aws.v
Health.v
Elb.v
ElbProps.v
ElbSearch.v
ElbReg.v
Eureka.v
EurekaProps.v
EurekaSafe.v
ExtPoints.v
Factories.v
Program.v
ProgramProps.v
Registry.v
