(* ===== verification/Prelude.v ===== *)
(** * Registrator: a verification development

    Registrator watches Docker on one host and keeps a service registry in step
    with the containers that run there. This library models its Go code as Rocq
    functions and proves what they do.

    ** The program and its model

    - The bridge (src/bridge/bridge.go) owns the tables of tracked services and of
      dead containers, under one mutex, and calls the registry backend. Bridge.v
      models its struct as the record [Bridge.t] and each method as a function of
      the same name; NewService.v models [newService], with ServiceId.v for the
      service IDs and their pattern, and Tags.v and Metadata.v for the parsing of
      tags, labels, environment and ports (src/bridge/util.go). Types.v holds the
      structs of src/bridge/types.go and those of the Docker client.
    - Synchronisation (src/bridge/servicesync.go) re-registers, starts additions
      and removals, and cleans up dangling services: ServiceSync.v.
    - The goroutines. System.v runs each call of the bridge as a whole. Threads.v
      cuts every operation into the sections between which a goroutine gives way
      ([prog]), and Concurrency.v lets any number of them interleave ([gstep],
      [istep]), with the message loop [channelRun], its channel and its wait group.
    - The main program (src/registrator.go) checks flags, makes the bridge, connects
      to the backend and calls the bridge on events and timers: Main.v for its
      parts and for the address lookup of src/bridge/util.go, Program.v for [main]
      as a whole: up to its first sync message ([main_start]), then [main], the
      goroutine of each timer and the events as steps ([pstep]), and the ends of the
      process ([ends]); and src/logging.
    - The factories. ExtPoints.v models the table of extension points
      (src/bridge/extpoints.go), its mutexes and the points on a heap; Factories.v
      the [init] functions and factories of the backends, src/modules.go and
      [bridge.New].
    - The backends implement the interface [RegistryAdapter] of Types.v:
      KvBackends.v (src/consulkv, src/etcd, src/skydns2), Consul.v (src/consul),
      Zookeeper.v (src/zookeeper), Eureka.v (src/eureka). Registry.v has the value
      of the interface that the bridge holds, one of the six, with which the program
      is complete.
    - The AWS part of the Eureka backend (src/aws): Aws.v (the package's variables,
      the cache, the EC2 metadata, sessions), Health.v (health checks), Elb.v (the
      search for the load balancer of a container through the AWS API) and ElbReg.v
      (registration and heartbeat of load balancers).

    Effects: stateful code is a [GoM], a function from a state to an outcome and a
    state; an [outcome] is a result, a run-time panic, waiting for a mutex that is
    held, or the end of the process. Go's maps are [gmap]s, and the order of
    [range] is the interface [MapOrder], whose one law is that every entry is
    visited once: what is proved holds for every order. Integers are [Z] with the
    wrap-around of 64 bits where the code computes with them. Strings are byte
    strings (GoStrings.v); regular expressions are run by the backtracking matcher
    of Regex.v, which is proved to decide the language of an expression. Log
    output is left out, except that slices evaluated for it can panic.

    Docker, the registry's server, AWS, Eureka and HTTP answers are parameters; a
    call of the bridge sees Docker's answers as functions of the container ID. The
    third-party clients are type classes ([KvClient], [ZkConn], [ConsulClient],
    [EurekaClient]); what a theorem relies on of them is a class of its own
    ([KvCallsReturn], [KvHistory], [ConsulAgent], [ZkServer], [EurekaCallsReturn]), with
    an instance in memory that the concrete runs use.

    ** What is proved

    - Tags.v, Metadata.v, ServiceId.v, NewService.v: the parsers against reference
      definitions, round trips, independence of the map order, every field of a
      new service and the conditions under which one is made.
    - BridgeProps.v, on the lemmas of BridgeLemmas.v: the exact effect of adding,
      removing, refreshing and pruning on the tables and the registry calls, past
      the registry's errors; adding and removing as a round trip.
    - BridgeInv.v and System.v: an invariant of the tables; which calls leave the
      mutex held.
    - Threads.v: the sections of an operation, run in a row, are the operation.
    - Sections.v: each section of each operation, from what the goroutine knows while
      it holds the mutex ([verif]): it keeps the invariant of the tables and, when
      Docker's answers are ones the code can take ([docker_handled]) and the registry
      is in a state from which its calls return ([RegistrySafe]), does not panic.
      [docker_handled] asks for IDs of twelve characters at least, the one in a network
      mode too, a name for each container, a label map if it has an environment, and
      environment entries with an equals sign. Docker does not promise the last:
      [newService_guards] shows the panic.
    - Interleavings.v and Liveness.v put them together: the invariant holds in every
      interleaving, for any configuration (but the bounds on a dead container's TTL need
      a TTL and a refresh interval that are not negative, [timed], which the code does
      not check); under the conditions of Sections.v no goroutine panics; all work can be finished, unless the process
      ends or the mutex is never released; and a mutex once leaked is not.
    - Termination.v: every run of the goroutines without new events, ticks and messages
      is finite, and where it ends all work is done, with the same two exceptions.
    - Convergence.v: each goroutine that a sync message starts works on the entries of
      one container ([owns]), and in every interleaving of them the tables come to
      agree with what Docker lists.
    - Races.v: two interleavings inside [add] that register a container twice or lose
      its removal.
    - SyncLemmas.v and SyncProps.v: the exact effect of a sync message; cleanup
      removes what it should and nothing else; a failed move is never retried.
    - Backend.v: the entries of a backend are those that the trace of the bridge's calls
      amounts to, against the interface [KeyedBackend]. ConsulAgent.v discharges it with
      the services of the agent; KvBackends.v with what was last written under a key,
      and with which TTL, which is not what etcd has once the TTL has passed.
    - ConsulAgent.v: what a cleanup leaves of the services of a Consul agent, the one
      backend that lists its services.
    - Main.v and Program.v: the address pattern, the flags that are accepted, the
      end of the retry loops, the periods of the timers.
    - ProgramProps.v: what [main] comes to before its first sync message, and a
      forward simulation: every step of the program is matched by steps of the
      interleaved system ([implements]), whose invariants it has; how many timers
      are at work and how many messages wait.
    - Registry.v: the adapters of five backends discharge [RegistrySafe] when the calls
      of their clients return, and hence the codes with which the process over any of
      them can end; Consul's store needs a path. For Eureka the same takes answers of
      AWS that are complete ([complete], EurekaSafe.v), which AWS does not promise: the
      adapter panics on a group without balancer, on a failing later page
      (ElbProps.v) and without a session.
    - ExtPoints.v and Factories.v: what registering does to the table; that exactly nine
      schemes have a factory, for which URIs of eight of them there is a bridge and
      with which adapter ([dialled]), and that consul-tls never gives one.
    - Consul.v, Zookeeper.v: the checks built for Consul; which errors ZooKeeper's
      adapter reports, and what becomes of the znodes ([ZkServer]).
    - Aws.v, Health.v, ElbProps.v, ElbSearch.v, EurekaProps.v: the cache and the
      types of the values in it, paging, the search for a load balancer on each of
      its ways and its failures, the status a load balancer is registered with, and
      how long a registration takes. EurekaSafe.v: every operation of the Eureka
      adapter returns when the answers of AWS are complete.

    Fixtures.v and the modules named Runs hold the concrete inputs the witnesses
    evaluate the definitions on.

    ** Fuel

    [rec_parse] and [escaped_loop] (Tags.v) take one more than the length of the
    string as fuel, and [recParseEscapedComma_spec] shows that it is enough for every
    string. [lookup_loop] and [connect] (Main.v) are proved to end within one
    round more than the number of attempts; [main_start] (Program.v) passes its
    fuel on to [connect]. [swap_loop] (KvBackends.v) gets the length of the list,
    twice what it uses. [more_pages] (Elb.v) asks for at most [Cloud.pages] more pages
    of target groups, any number; [getAllTargetGroups_spec] shows that it returns
    them all when there are no more. Everything else recurses on its data.

    ** What is not modelled

    Time: a timer may tick at any moment, but not before its goroutine is done with
    the last tick. The process has one bridge, as [main] makes one. Between two
    sections of a goroutine, Docker may answer anything new to the next operation
    but not to the same one. The parsing of command line and URIs, HTTP, TLS and the
    clients of the backends are parameters; so is what becomes of the registry while
    [main] sleeps between two pings. The return of [main] is the end of the process:
    the channel [quit], closed just before it, stops no timer. What a store does with
    an entry when its TTL has passed is not modelled, nor are other clients of the
    registry at work at the same time. The helper [retry] of src/bridge/util.go, which nothing calls, and
    the text, format and output of the log are left out. *)

From Stdlib Require Export Ascii ZArith Lia.
From stdpp Require Export base gmap list strings fin_maps sorting.

#[global] Open Scope stdpp_scope.

(** ** Outcomes of Go code

    A piece of Go code returns, panics at run time, never goes on (it waits for a
    mutex that is already held, or loops for longer than it is given fuel for),
    or ends the process ([os.Exit] and [log.Fatal]). *)
Inductive outcome (A : Type) : Type :=
| Ok (a : A)
| Panicked
| Blocked
| Exited (code : Z).
Arguments Ok {A} a.
Arguments Panicked {A}.
Arguments Blocked {A}.
Arguments Exited {A} code.

#[export] Instance outcome_ret : MRet outcome := λ A a, Ok a.

#[export] Instance outcome_bind : MBind outcome := λ A B f m,
  match m with
  | Ok a => f a
  | Panicked => Panicked
  | Blocked => Blocked
  | Exited c => Exited c
  end.

Definition is_Ok {A} (o : outcome A) : bool :=
  match o with Ok _ => true | _ => false end.

(** ** Stateful Go code: state in, outcome and state out.

    The state reached so far is kept when the code does not return. *)
Definition GoM (S A : Type) : Type := S → outcome A * S.

#[export] Instance GoM_ret {S} : MRet (GoM S) := λ A a s, (Ok a, s).

#[export] Instance GoM_bind {S} : MBind (GoM S) := λ A B f m s,
  match m s with
  | (Ok a, s') => f a s'
  | (Panicked, s') => (Panicked, s')
  | (Blocked, s') => (Blocked, s')
  | (Exited c, s') => (Exited c, s')
  end.

Definition get_state {S} : GoM S S := λ s, (Ok s, s).

Definition modify {S} (f : S → S) : GoM S unit := λ s, (Ok (), f s).

(** [x, err := m; if err != nil { return err }; k] for code that returns a value
    or an error. *)
Definition try_bind {S A B} (m : GoM S (A + string)) (k : A → GoM S (B + string))
    : GoM S (B + string) :=
  r ← m;
  match r with inl x => k x | inr err => mret (inr err) end.

Declare Scope go_scope.
Delimit Scope go_scope with go.
Notation "x ←? m ; k" := (try_bind m (λ x, k))
  (at level 20, m at level 100, k at level 200, only parsing) : go_scope.
Notation "' x ←? m ; k" := (try_bind m (λ x, k))
  (at level 20, x pattern, m at level 100, k at level 200, only parsing) : go_scope.
#[global] Open Scope go_scope.

(** Code without state effects, run inside stateful code. *)
Definition lift_outcome {S A} (o : outcome A) : GoM S A := λ s, (o, s).

(** [for _, x := range xs { body }] *)
Fixpoint for_each {S A} (body : A → GoM S unit) (xs : list A) : GoM S unit :=
  match xs with
  | [] => mret ()
  | x :: xs => _ ← body x; for_each body xs
  end.

(** The same loop with variables the body assigns, over stateless code. *)
Fixpoint fold_outcome {A B} (body : B → A → outcome B) (b : B) (xs : list A)
    : outcome B :=
  match xs with
  | [] => Ok b
  | x :: xs => b' ← body b x; fold_outcome body b' xs
  end.

(** ** Machine integers

    Go's [int] and [int64] are 64 bits wide on the platforms registrator is
    built for; a value is a [Z] in the two's complement range. *)
Definition int64_min : Z := (- 2 ^ 63)%Z.
Definition int64_max : Z := (2 ^ 63 - 1)%Z.
Definition wrap64 (z : Z) : Z := ((z + 2 ^ 63) mod 2 ^ 64 - 2 ^ 63)%Z.
Definition sub64 (a b : Z) : Z := wrap64 (a - b).
Definition add64 (a b : Z) : Z := wrap64 (a + b).
(** The conversions [uint64(x)] and [int32(x)]. *)
Definition to_uint64 (z : Z) : Z := (z mod 2 ^ 64)%Z.
Definition to_int32 (z : Z) : Z := ((z + 2 ^ 31) mod 2 ^ 32 - 2 ^ 31)%Z.

Definition in_int64 (z : Z) : Prop := (int64_min ≤ z ≤ int64_max)%Z.

(** ** Go maps

    A Go map is a [gmap] keyed by string. The order in which [range] visits a
    map is unspecified: the model takes it as an interface whose only law is
    that every entry is visited once. Results that depend on the order are
    therefore not provable from the interface. *)
Class MapOrder := {
  range : ∀ {V : Type}, gmap string V → list (string * V);
  range_perm : ∀ {V : Type} (m : gmap string V), range m ≡ₚ map_to_list m
}.

(** Two executable orders, used to evaluate the model on concrete inputs. *)
Definition ascending : MapOrder :=
  {| range V m := map_to_list m; range_perm V m := reflexivity _ |}.

Definition descending : MapOrder :=
  {| range V m := reverse (map_to_list m);
     range_perm V m := reverse_Permutation (map_to_list m) |}.

(** [m[k]] for a map of strings: the zero value when the key is absent. *)
Definition map_get (m : gmap string string) (k : string) : string :=
  default "" (m !! k).

(** ** Automation *)
Create HintDb registrator.

(** Split the goal on every [match] and [if] it computes by. *)
Ltac flatten :=
  repeat (case_match; simplify_eq/=; try done).

(** Split a hypothesis on every [match] it computes by, and use the result. *)
Ltac flatten_in H :=
  repeat (case_match; simplify_eq/=; try done);
  try (injection H; intros; clear H; subst).

(** Run stateful code: unfold the monad and compute. *)
Ltac go_unfold :=
  simpl in *;
  unfold mbind, mret, GoM_bind, GoM_ret, outcome_bind, outcome_ret,
    get_state, modify, lift_outcome in *; simpl in *.

(** ** Lemmas on machine integers *)
Lemma wrap64_id z : in_int64 z → wrap64 z = z.
Proof.
  unfold in_int64, int64_min, int64_max, wrap64. intros Hz.
  rewrite Z.mod_small; lia.
Qed.

Lemma wrap64_range z : in_int64 (wrap64 z).
Proof.
  unfold in_int64, int64_min, int64_max, wrap64.
  pose proof (Z.mod_pos_bound (z + 2 ^ 63) (2 ^ 64) ltac:(lia)). lia.
Qed.

Lemma sub64_pos a b : in_int64 a → (0 ≤ a)%Z → (0 ≤ b)%Z → in_int64 b →
  sub64 a b = (a - b)%Z.
Proof.
  unfold sub64. intros Ha ? ? Hb. apply wrap64_id.
  revert Ha Hb. unfold in_int64, int64_min, int64_max. lia.
Qed.

Lemma to_uint64_nonneg z : in_int64 z → (0 ≤ z)%Z → to_uint64 z = z.
Proof.
  unfold in_int64, int64_min, int64_max, to_uint64. intros. apply Z.mod_small. lia.
Qed.

Lemma to_uint64_neg z : in_int64 z → (z < 0)%Z → to_uint64 z = (z + 2 ^ 64)%Z.
Proof.
  unfold in_int64, int64_min, int64_max, to_uint64. intros.
  symmetry. apply Z.mod_unique_pos with (-1)%Z; lia.
Qed.

#[export] Hint Resolve wrap64_range : registrator.

(** ** Lemmas on map orders *)
Section map_order.
Context `{O : MapOrder} {V : Type}.
Implicit Types m : gmap string V.

Lemma range_elem m k v : (k, v) ∈ range m ↔ m !! k = Some v.
Proof. rewrite range_perm. apply elem_of_map_to_list. Qed.

Lemma range_fst_NoDup m : NoDup (range m).*1.
Proof. rewrite range_perm. apply NoDup_fst_map_to_list. Qed.

Lemma range_NoDup m : NoDup (range m).
Proof. rewrite range_perm. apply NoDup_map_to_list. Qed.

Lemma range_length m : length (range m) = size m.
Proof. rewrite range_perm. apply length_map_to_list. Qed.

Lemma range_empty : range (∅ : gmap string V) = [].
Proof. apply Permutation_nil_r. by rewrite range_perm, map_to_list_empty. Qed.

Lemma range_list_to_map m : list_to_map (range m) = m.
Proof.
  rewrite <- (list_to_map_to_list m) at 2.
  apply list_to_map_proper; [apply range_fst_NoDup | apply range_perm].
Qed.

Lemma range_singleton k (v : V) :
  range ({[k := v]} : gmap string V) = [(k, v)].
Proof. apply Permutation_singleton_r. by rewrite range_perm, map_to_list_singleton. Qed.
End map_order.

#[export] Hint Resolve @range_fst_NoDup @range_NoDup : registrator.

(** ** Lemmas on sequencing and loops *)
Lemma GoM_bind_Ok {S A B} (m : GoM S A) (f : A → GoM S B) s a s' :
  m s = (Ok a, s') → (m ≫= f) s = f a s'.
Proof. unfold mbind, GoM_bind. by intros ->. Qed.

Lemma GoM_bind_assoc {S A B D} (m : GoM S A) (f : A → GoM S B) (g : B → GoM S D) s :
  ((m ≫= f) ≫= g) s = (m ≫= λ x, f x ≫= g) s.
Proof. unfold mbind, GoM_bind. by destruct (m s) as [[] s']. Qed.

Lemma GoM_bind_Blocked {S A B} (m : GoM S A) (f : A → GoM S B) s s' :
  m s = (Blocked, s') → (m ≫= f) s = (Blocked, s').
Proof. unfold mbind, GoM_bind. by intros ->. Qed.

Lemma GoM_bind_ext {S A B} (m : GoM S A) (f g : A → GoM S B) s :
  (∀ a s', f a s' = g a s') → (m ≫= f) s = (m ≫= g) s.
Proof. intros Hfg. unfold mbind, GoM_bind. by destruct (m s) as [[] s']. Qed.

Lemma try_bind_inl {S A B} (m : GoM S (A + string)) (k : A → GoM S (B + string)) s a s' :
  m s = (Ok (inl a), s') → try_bind m k s = k a s'.
Proof. unfold try_bind. intros Hm. by rewrite (GoM_bind_Ok _ _ _ _ _ Hm). Qed.

Lemma try_bind_inr {S A B} (m : GoM S (A + string)) (k : A → GoM S (B + string)) s e s' :
  m s = (Ok (inr e), s') → try_bind m k s = (Ok (inr e), s').
Proof. unfold try_bind. intros Hm. by rewrite (GoM_bind_Ok _ _ _ _ _ Hm). Qed.

(** What a run that returns went through. *)
Lemma GoM_bind_inv {S A B} (m : GoM S A) (f : A → GoM S B) s b s' :
  (m ≫= f) s = (Ok b, s') → ∃ a s1, m s = (Ok a, s1) ∧ f a s1 = (Ok b, s').
Proof. unfold mbind, GoM_bind. destruct (m s) as [[] s1]; naive_solver. Qed.

Lemma try_bind_inv {S A B} (m : GoM S (A + string)) (k : A → GoM S (B + string)) s b s' :
  try_bind m k s = (Ok (inl b), s') → ∃ a s1, m s = (Ok (inl a), s1) ∧ k a s1 = (Ok (inl b), s').
Proof.
  unfold try_bind. intros (r & s1 & Hm & Hk)%GoM_bind_inv. destruct r as [a|e]; [eauto|done].
Qed.

Lemma for_each_cons {S A} (body : A → GoM S unit) x xs s s' :
  body x s = (Ok (), s') → for_each body (x :: xs) s = for_each body xs s'.
Proof. simpl. unfold mbind, GoM_bind. by intros ->. Qed.

Lemma for_each_app {S A} (body : A → GoM S unit) xs ys s :
  for_each body (xs ++ ys) s =
  match for_each body xs s with
  | (Ok _, s') => for_each body ys s'
  | r => r
  end.
Proof.
  revert s. induction xs as [|x xs IH]; intros s; [done|].
  simpl. unfold mbind, GoM_bind. destruct (body x s) as [[] ?]; auto.
Qed.

(** An invariant of the state, kept by a body that always returns. *)
Lemma for_each_inv {S A} (P : S → Prop) (body : A → GoM S unit) xs s :
  (∀ x s, x ∈ xs → P s → ∃ s', body x s = (Ok (), s') ∧ P s') →
  P s → ∃ s', for_each body xs s = (Ok (), s') ∧ P s'.
Proof.
  revert s. induction xs as [|x xs IH]; intros s Hbody Hs; [by exists s|].
  destruct (Hbody x s) as (s' & Hx & Hs'); [left|done|].
  go_unfold. rewrite Hx. apply IH; [|done]. intros; apply Hbody; [by right|done].
Qed.

(** A body that returns acts as a left fold of its effect on the state. *)
Lemma for_each_foldl {S A} (f : S → A → S) (body : A → GoM S unit) xs s :
  (∀ x s, x ∈ xs → body x s = (Ok (), f s x)) →
  for_each body xs s = (Ok (), foldl f s xs).
Proof.
  revert s. induction xs as [|x xs IH]; intros s Hbody; [done|].
  go_unfold. rewrite Hbody by left. apply IH. intros; apply Hbody; by right.
Qed.

(** A left fold over pairwise commuting steps does not depend on the order. *)
Lemma foldl_perm {A B} (f : B → A → B) (b : B) (l1 l2 : list A) :
  NoDup l1 →
  (∀ x y b, x ∈ l1 → y ∈ l1 → x ≠ y → f (f b x) y = f (f b y) x) →
  l1 ≡ₚ l2 → foldl f b l1 = foldl f b l2.
Proof.
  intros Hnd Hcomm Hp. revert b. induction Hp as [|x l l' Hp IH|x y l|l l' l'' H1 IH1 H2 IH2];
    intros b; simpl; auto.
  - apply IH; [by inversion Hnd|]. intros; apply Hcomm; by try right.
  - rewrite Hcomm; [done|set_solver..|]. inversion Hnd; set_solver.
  - rewrite IH1 by done. apply IH2; [by rewrite <- H1|].
    intros x y b' Hx Hy. apply Hcomm; by rewrite H1.
Qed.

(** ** Invariants of stateful code

    [keeps P m Q]: whatever way [m] ends, [P] holds of the state it leaves, and
    if it returns, the result satisfies [Q]. *)
Definition keeps {S A} (P : S → Prop) (m : GoM S A) (Q : A → Prop) : Prop :=
  ∀ s, P s → P (m s).2 ∧ ∀ a, (m s).1 = Ok a → Q a.

Section keeps.
Context {S : Type} (P : S → Prop).

Lemma keeps_ret {A} (a : A) (Q : A → Prop) : Q a → keeps P (mret a) Q.
Proof. intros Ha s Hs. split; [done|]. by intros ? [= <-]. Qed.

Lemma keeps_bind {A B} (m : GoM S A) (f : A → GoM S B) Q1 Q2 :
  keeps P m Q1 → (∀ a, Q1 a → keeps P (f a) Q2) → keeps P (m ≫= f) Q2.
Proof.
  intros Hm Hf s Hs. destruct (Hm s Hs) as [Hs' Ha]. unfold mbind, GoM_bind.
  destruct (m s) as [[] s']; simpl in *; try (split; [done|intros ? [=]]).
  apply Hf; auto.
Qed.

Lemma keeps_get : keeps P get_state P.
Proof. intros s Hs. split; [done|]. by intros ? [= <-]. Qed.

Lemma keeps_modify f : (∀ s, P s → P (f s)) → keeps P (modify f) (λ _, True).
Proof. intros Hf s Hs. split; [by apply Hf|done]. Qed.

Lemma keeps_lift {A} (o : outcome A) (Q : A → Prop) :
  (∀ a, o = Ok a → Q a) → keeps P (lift_outcome o) Q.
Proof. intros Ho s Hs. by split. Qed.

Lemma keeps_weaken {A} (m : GoM S A) (Q Q' : A → Prop) :
  keeps P m Q → (∀ a, Q a → Q' a) → keeps P m Q'.
Proof. intros Hm HQ s Hs. destruct (Hm s Hs). split; auto. Qed.

Lemma keeps_try {A B} (m : GoM S (A + string)) (k : A → GoM S (B + string)) Q1 Q2 :
  keeps P m (λ r, ∀ a, r = inl a → Q1 a) →
  (∀ a, Q1 a → keeps P (k a) (λ r, ∀ b, r = inl b → Q2 b)) →
  keeps P (try_bind m k) (λ r, ∀ b, r = inl b → Q2 b).
Proof.
  intros Hm Hk. apply keeps_bind with (λ r, ∀ a, r = inl a → Q1 a); [done|].
  intros [a|e] Ha; [by apply Hk, Ha|]. apply keeps_ret. by intros.
Qed.

Lemma keeps_for_each {A} (body : A → GoM S unit) xs :
  (∀ x, x ∈ xs → keeps P (body x) (λ _, True)) → keeps P (for_each body xs) (λ _, True).
Proof.
  induction xs as [|x xs IH]; intros Hb; [by apply keeps_ret|].
  apply keeps_bind with (λ _, True); [apply Hb; left|].
  intros _ _. apply IH. intros y Hy. apply Hb. by right.
Qed.
End keeps.

#[export] Hint Resolve keeps_ret keeps_get keeps_lift : registrator.

(** ** Code that returns

    From every state that satisfies [P] the code returns, in such a state and with
    a result that satisfies [Q]. *)
Definition settles {S A} (P : S → Prop) (m : GoM S A) (Q : A → Prop) : Prop :=
  ∀ s, P s → ∃ a s', m s = (Ok a, s') ∧ P s' ∧ Q a.

Section settles.
Context {S : Type} (P : S → Prop).

Lemma settles_ret {A} (a : A) (Q : A → Prop) : Q a → settles P (mret a) Q.
Proof. intros Ha s Hs. by exists a, s. Qed.

Lemma settles_bind {A B} (m : GoM S A) (f : A → GoM S B) Q1 Q2 :
  settles P m Q1 → (∀ a, Q1 a → settles P (f a) Q2) → settles P (m ≫= f) Q2.
Proof.
  intros Hm Hf s Hs. destruct (Hm s Hs) as (a & s' & Hrun & Hs' & Ha).
  rewrite (GoM_bind_Ok _ _ _ _ _ Hrun). by apply Hf.
Qed.

Lemma settles_get : settles P get_state P.
Proof. intros s Hs. by exists s, s. Qed.

Lemma settles_modify f : (∀ s, P s → P (f s)) → settles P (modify f) (λ _, True).
Proof. intros Hf s Hs. exists (), (f s). auto. Qed.

Lemma settles_lift {A} (o : outcome A) a (Q : A → Prop) : o = Ok a → Q a → settles P (lift_outcome o) Q.
Proof. intros -> Ha s Hs. by exists a, s. Qed.

Lemma settles_weaken {A} (m : GoM S A) (Q Q' : A → Prop) :
  settles P m Q → (∀ a, Q a → Q' a) → settles P m Q'.
Proof. intros Hm HQ s Hs. destruct (Hm s Hs) as (a & s' & ? & ? & ?). eauto 6. Qed.

Lemma settles_try {A B} (m : GoM S (A + string)) (k : A → GoM S (B + string)) Q1 Q2 :
  settles P m (λ r, ∀ a, r = inl a → Q1 a) →
  (∀ a, Q1 a → settles P (k a) (λ r, ∀ b, r = inl b → Q2 b)) →
  settles P (try_bind m k) (λ r, ∀ b, r = inl b → Q2 b).
Proof.
  intros Hm Hk. apply settles_bind with (λ r, ∀ a, r = inl a → Q1 a); [done|].
  intros [a|e] Ha; [by apply Hk, Ha|]. apply settles_ret. by intros.
Qed.

(** What a call that settles is to its caller. *)
Lemma settles_safe {A} (m : GoM S A) Q s : settles P m Q → P s →
  is_Ok (m s).1 = true ∧ P (m s).2.
Proof. intros Hm Hs. destruct (Hm s Hs) as (a & s' & -> & Hs' & _). done. Qed.
End settles.
