(* ===== verification/GoStrings.v ===== *)
(** * The parts of Go's [strings], [strconv], [path] and [net] that registrator uses

    A Go string is a byte string, here [string] (a sequence of 8-bit [ascii]
    values). Case mapping is modelled on the ASCII letters; other bytes are left
    alone, which is Go's behaviour on ASCII text. Every call in registrator to
    [Split], [SplitN], [Index] and [LastIndex] has a one-byte separator, so the
    separator is an [ascii]. *)
From S2P Require Import Prelude.

(** ** Slices [s[:n]] and [s[n:]]; a bound past the end panics. *)
Fixpoint stake (n : nat) (s : string) : string :=
  match n, s with
  | S n, String c s => String c (stake n s)
  | _, _ => ""
  end.

Fixpoint sdrop (n : nat) (s : string) : string :=
  match n, s with
  | O, _ => s
  | S n, String c s => sdrop n s
  | S _, EmptyString => ""
  end.

Definition slice_to (s : string) (n : nat) : outcome string :=
  if decide (n ≤ String.length s) then Ok (stake n s) else Panicked.

Definition slice_from (s : string) (n : nat) : outcome string :=
  if decide (n ≤ String.length s) then Ok (sdrop n s) else Panicked.

(** ** Searching *)
Fixpoint Index (s : string) (c : ascii) : option nat :=
  match s with
  | "" => None
  | String a s => if decide (a = c) then Some 0 else S <$> Index s c
  end.

Fixpoint LastIndex (s : string) (c : ascii) : option nat :=
  match s with
  | "" => None
  | String a s =>
      match LastIndex s c with
      | Some i => Some (S i)
      | None => if decide (a = c) then Some 0 else None
      end
  end.

Definition has_byte (c : ascii) (s : string) : bool :=
  bool_decide (is_Some (Index s c)).

Definition HasPrefix (s p : string) : bool := String.prefix p s.

Definition TrimPrefix (s p : string) : string :=
  if HasPrefix s p then sdrop (String.length p) s else s.

Fixpoint Contains (s sub : string) : bool :=
  String.prefix sub s ||
  match s with "" => false | String _ s => Contains s sub end.

(** ** Splitting and joining *)
Fixpoint Split (s : string) (sep : ascii) : list string :=
  match s with
  | "" => [""]
  | String c s =>
      if decide (c = sep) then "" :: Split s sep
      else match Split s sep with
           | p :: ps => String c p :: ps
           | [] => [String c ""]
           end
  end.

(** The text before the first separator and, if there is one, the text after. *)
Fixpoint cut (s : string) (sep : ascii) : string * option string :=
  match s with
  | "" => ("", None)
  | String c s =>
      if decide (c = sep) then ("", Some s)
      else let '(before, after) := cut s sep in (String c before, after)
  end.

(** [strings.SplitN(s, sep, 2)] *)
Definition SplitN2 (s : string) (sep : ascii) : list string :=
  match cut s sep with
  | (before, Some after) => [before; after]
  | (before, None) => [before]
  end.

Fixpoint Join (parts : list string) (sep : string) : string :=
  match parts with
  | [] => ""
  | [p] => p
  | p :: ps => p +:+ sep +:+ Join ps sep
  end.

(** [strings.Replace(s, old, new, -1)] for a non-empty [old]; [skip] counts the
    bytes of a replaced occurrence that are still to be passed over. *)
Fixpoint replace_from (old new : string) (s : string) (skip : nat) : string :=
  match s with
  | "" => ""
  | String c s' =>
      match skip with
      | S skip => replace_from old new s' skip
      | O => if String.prefix old s
             then new +:+ replace_from old new s' (String.length old - 1)
             else String c (replace_from old new s' 0)
      end
  end.

Definition Replace (s old new : string) : string := replace_from old new s 0.

(** ** Case mapping *)
Definition lower_byte (c : ascii) : ascii :=
  let n := nat_of_ascii c in
  if decide (65 ≤ n ≤ 90) then ascii_of_nat (n + 32) else c.

Definition upper_byte (c : ascii) : ascii :=
  let n := nat_of_ascii c in
  if decide (97 ≤ n ≤ 122) then ascii_of_nat (n - 32) else c.

Fixpoint smap (f : ascii → ascii) (s : string) : string :=
  match s with "" => "" | String c s => String (f c) (smap f s) end.

Definition ToLower : string → string := smap lower_byte.
Definition ToUpper : string → string := smap upper_byte.
Definition EqualFold (s t : string) : bool := bool_decide (ToLower s = ToLower t).

(** ** Numbers *)
Inductive num_error := ErrSyntax | ErrRange.

Definition digit (c : ascii) : option Z :=
  let n := nat_of_ascii c in
  if decide (48 ≤ n ≤ 57) then Some (Z.of_nat n - 48)%Z else None.

(** The digit loop of [strconv.ParseUint] in base 10: a byte that is no digit is
    a syntax error, a value past [max] a range error, whichever comes first. *)
Fixpoint parse_digits (max acc : Z) (s : string) : Z * option num_error :=
  match s with
  | "" => (acc, None)
  | String c s =>
      match digit c with
      | None => (0%Z, Some ErrSyntax)
      | Some d =>
          let n := (acc * 10 + d)%Z in
          if decide (max < n)%Z then (max, Some ErrRange)
          else parse_digits max n s
      end
  end.

Definition ParseUint (bits : Z) (s : string) : Z * option num_error :=
  match s with
  | "" => (0%Z, Some ErrSyntax)
  | _ => parse_digits (2 ^ bits - 1) 0 s
  end.

(** [strconv.Atoi]: an optional sign, then digits, clamped to the 64-bit range. *)
Definition Atoi (s : string) : Z * option num_error :=
  let '(neg, rest) :=
    match s with
    | String "+" rest => (false, rest)
    | String "-" rest => (true, rest)
    | _ => (false, s)
    end in
  match ParseUint 64 rest with
  | (_, Some ErrSyntax) => (0%Z, Some ErrSyntax)
  | (un, _) =>
      if neg then
        if decide (2 ^ 63 < un)%Z then (int64_min, Some ErrRange) else ((- un)%Z, None)
      else
        if decide (2 ^ 63 ≤ un)%Z then (int64_max, Some ErrRange) else (un, None)
  end.

(** [strconv.Itoa] and [%d]: the decimal digits, most significant first. The
    fuel is the number of bits plus one, never less than the number of digits. *)
Definition digit_char (d : Z) : ascii := ascii_of_nat (48 + Z.to_nat d).

Fixpoint digits_fuel (fuel : nat) (n : Z) (acc : string) : string :=
  match fuel with
  | O => acc
  | S fuel =>
      let acc := String (digit_char (n mod 10)%Z) acc in
      if decide (n < 10)%Z then acc else digits_fuel fuel (n / 10)%Z acc
  end.

Definition digits (n : Z) : string := digits_fuel (S (Z.to_nat (Z.log2 n))) n "".

Definition Itoa (n : Z) : string :=
  if decide (n < 0)%Z then String "-" (digits (- n)) else digits n.

Definition ParseBool (s : string) : bool * bool (* value, error *) :=
  if decide (s ∈ ["1"; "t"; "T"; "TRUE"; "true"; "True"]) then (true, false)
  else if decide (s ∈ ["0"; "f"; "F"; "FALSE"; "false"; "False"]) then (false, false)
  else (false, true).

(** ** [path.Base] and [net.JoinHostPort] *)
Fixpoint strip_slashes (s : string) : string :=
  match s with
  | "" => ""
  | String c s =>
      match strip_slashes s with
      | "" => if decide (c = "/"%char) then "" else String c ""
      | t => String c t
      end
  end.

Definition path_Base (p : string) : string :=
  match p with
  | "" => "."
  | _ =>
      let p := strip_slashes p in
      let p := match LastIndex p "/" with Some i => sdrop (S i) p | None => p end in
      match p with "" => "/" | _ => p end
  end.

Definition JoinHostPort (host port : string) : string :=
  if has_byte ":" host || has_byte "%" host
  then "[" +:+ host +:+ "]:" +:+ port
  else host +:+ ":" +:+ port.

(** ** Lemmas on strings *)
Lemma sapp_nil_l s : "" +:+ s = s.
Proof. done. Qed.

Lemma sapp_cons c s t : String c s +:+ t = String c (s +:+ t).
Proof. done. Qed.

Lemma sapp_nil_r s : s +:+ "" = s.
Proof. induction s as [|c s IH]; [done|]. by rewrite sapp_cons, IH. Qed.

Lemma sapp_assoc s t u : (s +:+ t) +:+ u = s +:+ t +:+ u.
Proof. induction s as [|c s IH]; [done|]. by rewrite !sapp_cons, IH. Qed.

Lemma slength_app s t : String.length (s +:+ t) = String.length s + String.length t.
Proof. induction s as [|c s IH]; [done|]. rewrite sapp_cons. simpl. by rewrite IH. Qed.

Lemma stake_app s t : stake (String.length s) (s +:+ t) = s.
Proof. induction s as [|c s IH]; [by destruct t|]. rewrite sapp_cons. simpl. by rewrite IH. Qed.

Lemma sdrop_app s t : sdrop (String.length s) (s +:+ t) = t.
Proof. induction s as [|c s IH]; [done|]. rewrite sapp_cons. by simpl. Qed.

Lemma sdrop_app_plus n s t : sdrop (String.length s + n) (s +:+ t) = sdrop n t.
Proof. induction s as [|c s IH]; [done|]. rewrite sapp_cons. by simpl. Qed.

Lemma stake_app_plus n s t : stake (String.length s + n) (s +:+ t) = s +:+ stake n t.
Proof. induction s as [|c s IH]; [done|]. rewrite !sapp_cons. simpl. by rewrite IH. Qed.

Lemma stake_sdrop n s : stake n s +:+ sdrop n s = s.
Proof.
  revert s. induction n as [|n IH]; intros [|c s]; try done.
  simpl. rewrite sapp_cons. by rewrite IH.
Qed.

Lemma slength_stake n s : n ≤ String.length s → String.length (stake n s) = n.
Proof.
  revert s. induction n as [|n IH]; intros [|c s]; simpl; intros; try lia.
  rewrite IH; lia.
Qed.

Lemma slength_sdrop n s : String.length (sdrop n s) = String.length s - n.
Proof. revert s. induction n as [|n IH]; intros [|c s]; simpl; auto. Qed.

Lemma slength_zero s : String.length s = 0 → s = "".
Proof. by destruct s. Qed.

#[global] Instance sapp_inj_l s : Inj (=) (=) (String.append s).
Proof. induction s as [|c s IH]; intros t u; rewrite ?sapp_cons; [done|].
  intros [= ?]. by apply IH.
Qed.

Lemma sapp_inj_r s t u : s +:+ u = t +:+ u → s = t.
Proof.
  revert t. induction s as [|c s IH]; intros [|d t] H; try done.
  - apply (f_equal String.length) in H. rewrite !slength_app in H. simpl in H. lia.
  - apply (f_equal String.length) in H. rewrite !slength_app in H. simpl in H. lia.
  - rewrite !sapp_cons in H. injection H as -> H. f_equal. by apply IH.
Qed.

Lemma sapp_eq_nil s t : s +:+ t = "" → s = "" ∧ t = "".
Proof. destruct s; [done|]. by rewrite sapp_cons. Qed.

(** A non-empty string has a last byte. *)
Lemma string_last s : s ≠ "" → ∃ t c, s = t +:+ String c "".
Proof.
  induction s as [|c s IH]; [done|]. intros _. destruct s as [|d s].
  - by exists "", c.
  - destruct IH as (t & e & ->); [done|]. by exists (String c t), e.
Qed.

(** Induction on the length of a string. *)
Lemma string_len_ind (P : string → Prop) :
  (∀ s, (∀ t, String.length t < String.length s → P t) → P s) → ∀ s, P s.
Proof.
  intros H s. remember (String.length s) as n eqn:Hn. revert s Hn.
  induction (lt_wf n) as [n _ IH]. intros s ->. apply H. intros t Ht. by apply (IH _ Ht).
Qed.

(** *** Bytes of a string *)
Lemma Index_Some s c i : Index s c = Some i →
  ∃ p t, s = p +:+ String c t ∧ String.length p = i ∧ Index p c = None.
Proof.
  revert i. induction s as [|a s IH]; intros i Hi; [done|]. simpl in Hi.
  case_decide; simplify_eq.
  - by exists "", s.
  - destruct (Index s c) as [j|] eqn:Hj; [|done]. simplify_eq/=.
    destruct (IH j) as (p & t & -> & <- & Hp); [done|].
    exists (String a p), t. rewrite sapp_cons. simpl. split; [done|]. split; [done|].
    rewrite decide_False by done. by rewrite Hp.
Qed.

Lemma Index_None_app s t c : Index (s +:+ t) c = None ↔ Index s c = None ∧ Index t c = None.
Proof.
  induction s as [|a s IH]; [naive_solver|]. rewrite sapp_cons. simpl.
  case_decide; [naive_solver|]. rewrite !fmap_None. done.
Qed.

Lemma Index_app_None s t c : Index s c = None →
  Index (s +:+ t) c = (λ i, String.length s + i) <$> Index t c.
Proof.
  induction s as [|a s IH]; intros Hs.
  - rewrite sapp_nil_l. by destruct (Index t c).
  - rewrite sapp_cons. simpl in *. case_decide; [done|].
    apply fmap_None in Hs. rewrite IH by done. by destruct (Index t c).
Qed.

Lemma has_byte_false c s : has_byte c s = false ↔ Index s c = None.
Proof.
  unfold has_byte. rewrite bool_decide_eq_false, <- eq_None_not_Some. done.
Qed.

Lemma has_byte_true c s : has_byte c s = true ↔ ∃ p t, s = p +:+ String c t ∧ has_byte c p = false.
Proof.
  unfold has_byte at 1. rewrite bool_decide_eq_true. split.
  - intros [i (p & t & -> & _ & Hp)%Index_Some]. exists p, t. by rewrite has_byte_false.
  - intros (p & t & -> & Hp%has_byte_false). rewrite Index_app_None by done. simpl.
    rewrite decide_True by done. simpl. by eexists.
Qed.

Lemma has_byte_app c s t : has_byte c (s +:+ t) = has_byte c s || has_byte c t.
Proof.
  apply eq_true_iff_eq. rewrite orb_true_iff, <- !not_false_iff_true, !has_byte_false.
  rewrite Index_None_app. destruct (Index s c), (Index t c); naive_solver.
Qed.

Lemma has_byte_cons c a s : has_byte c (String a s) = bool_decide (a = c) || has_byte c s.
Proof.
  unfold has_byte. simpl. case_decide; subst.
  - by rewrite (bool_decide_eq_true_2 (c = c)).
  - rewrite (bool_decide_eq_false_2 (a = c)) by done. simpl.
    apply bool_decide_ext. by rewrite fmap_is_Some.
Qed.

(** *** Cutting at a separator *)
Lemma cut_app s t c : has_byte c s = false → cut (s +:+ String c t) c = (s, Some t).
Proof.
  induction s as [|a s IH]; intros Hs.
  - rewrite sapp_nil_l. simpl. by rewrite decide_True.
  - rewrite sapp_cons. rewrite has_byte_cons in Hs.
    apply orb_false_iff in Hs as [Ha%bool_decide_eq_false Hs].
    simpl. rewrite decide_False by done. by rewrite IH.
Qed.

Lemma cut_None s c : has_byte c s = false → cut s c = (s, None).
Proof.
  induction s as [|a s IH]; [done|]. rewrite has_byte_cons.
  intros [Ha%bool_decide_eq_false Hs]%orb_false_iff.
  simpl. rewrite decide_False by done. by rewrite IH.
Qed.

(** Either the byte is absent, or the string splits at its first occurrence. *)
Lemma cut_spec s c :
  (has_byte c s = false ∧ cut s c = (s, None)) ∨
  (∃ p t, s = p +:+ String c t ∧ has_byte c p = false ∧ cut s c = (p, Some t)).
Proof.
  destruct (has_byte c s) eqn:Hs.
  - right. apply has_byte_true in Hs as (p & t & -> & Hp).
    exists p, t. rewrite cut_app by done. done.
  - left. by rewrite cut_None.
Qed.

Lemma Split_nonempty s c : Split s c ≠ [].
Proof. destruct s; simpl; [done|]. case_decide; [done|]. by destruct (Split s c). Qed.

Lemma Split_app s t c : has_byte c s = false → Split (s +:+ String c t) c = s :: Split t c.
Proof.
  induction s as [|a s IH]; intros Hs.
  - rewrite sapp_nil_l. simpl. by rewrite decide_True.
  - rewrite sapp_cons. rewrite has_byte_cons in Hs.
    apply orb_false_iff in Hs as [Ha%bool_decide_eq_false Hs].
    simpl. rewrite decide_False by done. by rewrite IH.
Qed.

Lemma Split_None s c : has_byte c s = false → Split s c = [s].
Proof.
  induction s as [|a s IH]; [done|]. rewrite has_byte_cons.
  intros [Ha%bool_decide_eq_false Hs]%orb_false_iff.
  simpl. rewrite decide_False by done. by rewrite IH.
Qed.

Lemma Join_cons p q ps sep : Join (p :: q :: ps) sep = p +:+ sep +:+ Join (q :: ps) sep.
Proof. done. Qed.

Lemma Join_Split s c : Join (Split s c) (String c "") = s.
Proof.
  induction s as [|a s IH]; [done|]. simpl. case_decide as Ha; subst.
  - destruct (Split s c) as [|p ps] eqn:Hs; [by apply Split_nonempty in Hs|].
    rewrite Join_cons, IH. by rewrite sapp_nil_l, sapp_cons, sapp_nil_l.
  - destruct (Split s c) as [|p ps] eqn:Hs; [by apply Split_nonempty in Hs|].
    destruct ps as [|q ps]; [simpl in *; by rewrite IH|].
    rewrite Join_cons in IH |- *. by rewrite sapp_cons, IH.
Qed.

Lemma Split_Join parts c : parts ≠ [] → Forall (λ p, has_byte c p = false) parts →
  Split (Join parts (String c "")) c = parts.
Proof.
  intros Hne. induction 1 as [|p parts Hp Hps IH]; [done|].
  destruct parts as [|q parts]; [by apply Split_None|].
  rewrite Join_cons, sapp_cons, sapp_nil_l, Split_app by done. f_equal. by apply IH.
Qed.

Lemma Split_has_byte s c d : has_byte d s = false →
  Forall (λ p, has_byte d p = false) (Split s c).
Proof.
  induction s as [|a s IH]; intros Hs; [by repeat constructor|].
  rewrite has_byte_cons in Hs. apply orb_false_iff in Hs as [Ha Hs]. specialize (IH Hs). simpl.
  destruct (decide (a = c)); [by constructor|].
  destruct (Split s c) as [|p ps]; inversion IH; subst.
  - repeat constructor. by rewrite has_byte_cons, Ha.
  - constructor; [|done]. rewrite has_byte_cons, Ha. done.
Qed.

Lemma prefix_app p s : String.prefix p (p +:+ s) = true.
Proof.
  induction p as [|c p IH]; [by destruct s|]. rewrite sapp_cons. simpl.
  by destruct (ascii_dec c c).
Qed.

Lemma prefix_true p s : String.prefix p s = true → s = p +:+ sdrop (String.length p) s.
Proof.
  revert s. induction p as [|c p IH]; intros s; [done|].
  destruct s as [|a s]; simpl; [done|]. destruct (ascii_dec c a); [|done]. subst.
  intros Hp. rewrite sapp_cons. f_equal. by apply IH.
Qed.

Lemma snoc_inj s t a b : s +:+ String a "" = t +:+ String b "" → s = t ∧ a = b.
Proof.
  revert t. induction s as [|c s IH]; intros [|d t] H; rewrite ?sapp_cons, ?sapp_nil_l in H.
  - by injection H.
  - injection H as -> H. symmetry in H. by apply sapp_eq_nil in H as [_ [=]].
  - injection H as -> H. by apply sapp_eq_nil in H as [_ [=]].
  - injection H as -> H. apply IH in H as [-> ->]. done.
Qed.

(** The number of occurrences of a byte. *)
Fixpoint count_byte (c : ascii) (s : string) : nat :=
  match s with
  | "" => 0
  | String a s => (if decide (a = c) then 1 else 0) + count_byte c s
  end.

Lemma count_byte_app c s t : count_byte c (s +:+ t) = count_byte c s + count_byte c t.
Proof. induction s as [|a s IH]; [done|]. rewrite sapp_cons. simpl. rewrite IH. lia. Qed.

Lemma count_byte_zero c s : has_byte c s = false → count_byte c s = 0.
Proof.
  induction s as [|a s IH]; [done|]. rewrite has_byte_cons.
  intros [Ha%bool_decide_eq_false Hs]%orb_false_iff. simpl.
  rewrite decide_False, IH by done. done.
Qed.

(** *** Parsed numbers are in range *)
Lemma digit_range c d : digit c = Some d → (0 ≤ d ≤ 9)%Z.
Proof. unfold digit. case_decide; [|done]. intros [= <-]. lia. Qed.

Lemma parse_digits_range max acc s :
  (0 ≤ acc ≤ max)%Z → (0 ≤ (parse_digits max acc s).1 ≤ max)%Z.
Proof.
  revert acc. induction s as [|c s IH]; intros acc Hacc; [done|]. simpl.
  destruct (digit c) as [d|] eqn:Hd; [|simpl; lia]. apply digit_range in Hd.
  case_decide; [simpl; lia|]. apply IH. lia.
Qed.

Lemma ParseUint_range s : (0 ≤ (ParseUint 64 s).1 ≤ 2 ^ 64 - 1)%Z.
Proof.
  unfold ParseUint. destruct s; [simpl; lia|]. apply parse_digits_range. lia.
Qed.

Lemma Atoi_range s : in_int64 (Atoi s).1.
Proof.
  unfold Atoi, in_int64, int64_min, int64_max.
  destruct (match s with "" => _ | _ => _ end) as [neg rest].
  pose proof (ParseUint_range rest) as Hr. destruct (ParseUint 64 rest) as [un [[]|]]; simpl in *.
  all: destruct neg; repeat case_decide; simpl; lia.
Qed.
