(* ===== verification/Tags.v ===== *)
(** * Tag lists: [recParseEscapedComma] and [combineTags] of bridge/util.go

    The parser rewrites the string it scans while it scans it; [tag_tokens] is
    the reference: one left-to-right pass in which a backslash before a comma
    makes the comma literal, another comma ends a tag, and empty tags vanish. *)
From S2P Require Import Prelude GoStrings.

Definition comma : ascii := ",".
Definition backslash : ascii := "\".

(** What one run of the [for] loop ends with: the string is one tag, or the
    unescaped comma splits it into the text after it and the tag before it. *)
Inductive loop_result :=
| Whole (str : string)
| Cut (rest tag : string).

(** The loop [for len(str[offset:]) > 0]. The one-byte slice before the comma,
    [str[offset+index-1:offset+index]], panics when the comma is the first byte.
    [None]: out of fuel. *)
Fixpoint escaped_loop (fuel : nat) (str : string) (offset : nat)
    : option (outcome loop_result) :=
  match fuel with
  | O => None
  | S fuel =>
      let tail := sdrop offset str in
      if decide (tail = "") then Some (Ok (Whole str)) else
      match Index tail comma with
      | None => Some (Ok (Whole str))
      | Some index =>
          match offset + index with
          | O => Some Panicked
          | S before =>
              if decide (stake 1 (sdrop before str) ≠ String backslash "") then
                Some (Ok (Cut (sdrop (S (offset + index)) str)
                              (stake (offset + index) str)))
              else
                escaped_loop fuel (stake before str +:+ sdrop (offset + index) str)
                  (offset + index)
          end
      end
  end.

Fixpoint rec_parse (fuel : nat) (str : string) : option (outcome (list string)) :=
  match fuel with
  | O => None
  | S fuel =>
      match str with
      | "" => Some (Ok [])
      | String c rest =>
          if decide (c = comma) then rec_parse fuel rest
          else
            match escaped_loop (S (String.length str)) str 0 with
            | None => None
            | Some (Ok (Whole s)) => Some (Ok [s])
            | Some (Ok (Cut rest tag)) =>
                match rec_parse fuel rest with
                | Some (Ok tags) => Some (Ok (tags ++ [tag]))
                | r => r
                end
            | Some _ => Some Panicked
            end
      end
  end.

(** Fuel one above the length is enough for both recursions
    ([recParseEscapedComma_spec]); without it the call would not return. *)
Definition recParseEscapedComma (str : string) : outcome (list string) :=
  default Blocked (rec_parse (S (String.length str)) str).

(** [combineTags(tagParts ...string)] *)
Fixpoint combineTags (tagParts : list string) : outcome (list string) :=
  match tagParts with
  | [] => Ok []
  | element :: tagParts =>
      tags ← recParseEscapedComma element;
      rest ← combineTags tagParts;
      mret (tags ++ rest)
  end.

(** ** The reference definition *)
Definition add_tag (tag : string) (tags : list string) : list string :=
  match tag with "" => tags | _ => tag :: tags end.

Fixpoint tag_tokens (s tag : string) : list string :=
  match s with
  | "" => add_tag tag []
  | String c s1 =>
      if decide (c = comma) then add_tag tag (tag_tokens s1 "")
      else match s1 with
           | String d s2 =>
               if decide (c = backslash ∧ d = comma)
               then tag_tokens s2 (tag +:+ String comma "")
               else tag_tokens s1 (tag +:+ String c "")
           | "" => tag_tokens s1 (tag +:+ String c "")
           end
  end.

(** The printer the round trip is stated with: commas in a tag are escaped. *)
Fixpoint escape_tag (tag : string) : string :=
  match tag with
  | "" => ""
  | String c tag =>
      if decide (c = comma)
      then String backslash (String comma (escape_tag tag))
      else String c (escape_tag tag)
  end.

Fixpoint print_tags (tags : list string) : string :=
  match tags with
  | [] => ""
  | [tag] => escape_tag tag
  | tag :: tags => escape_tag tag +:+ String comma (print_tags tags)
  end.

(** A tag that can be printed: not empty, and no backslash at its end, which
    would escape the separator. *)
Fixpoint ends_with (c : ascii) (s : string) : bool :=
  match s with
  | "" => false
  | String a "" => bool_decide (a = c)
  | String _ s => ends_with c s
  end.

Definition printable_tag (tag : string) : bool :=
  bool_decide (tag ≠ "") && negb (ends_with backslash tag).

(** ** Scanning one tag *)
Fixpoint scan (s tag : string) : string * option string :=
  match s with
  | "" => (tag, None)
  | String c s1 =>
      if decide (c = comma) then (tag, Some s1)
      else match s1 with
           | String d s2 =>
               if decide (c = backslash ∧ d = comma)
               then scan s2 (tag +:+ String comma "")
               else scan s1 (tag +:+ String c "")
           | "" => scan s1 (tag +:+ String c "")
           end
  end.

Definition loop_of_scan (r : string * option string) : loop_result :=
  match r with
  | (tag, None) => Whole tag
  | (tag, Some rest) => Cut rest tag
  end.

Lemma ends_with_snoc c s a : ends_with c (s +:+ String a "") = bool_decide (a = c).
Proof.
  induction s as [|b s IH]; [done|]. rewrite sapp_cons. simpl.
  destruct s; [done|]. by rewrite sapp_cons in *.
Qed.

(** A byte that is no comma and escapes none is added to the tag. *)
Lemma scan_byte c s tag : c ≠ comma → (c ≠ backslash ∨ ∀ t, s ≠ String comma t) →
  scan (String c s) tag = scan s (tag +:+ String c "").
Proof.
  intros Hc He. simpl. rewrite decide_False by done.
  destruct s as [|d s]; [done|]. rewrite decide_False; [done|].
  intros [-> ->]. destruct He as [He|He]; [done|]. by apply (He s).
Qed.

Lemma scan_escape s tag :
  scan (String backslash (String comma s)) tag = scan s (tag +:+ String comma "").
Proof. done. Qed.

Lemma scan_comma s tag : scan (String comma s) tag = (tag, Some s).
Proof. done. Qed.

(** Text without commas is taken over as it is, unless its last byte escapes
    what follows. *)
Lemma scan_app p t tag :
  has_byte comma p = false → (ends_with backslash p = false ∨ t = "") →
  scan (p +:+ t) tag = scan t (tag +:+ p).
Proof.
  revert tag. induction p as [|c p IH]; intros tag Hp Ht.
  { by rewrite sapp_nil_r. }
  rewrite has_byte_cons in Hp. apply orb_false_iff in Hp as [Hc%bool_decide_eq_false Hp].
  rewrite sapp_cons, scan_byte; [|done|].
  - rewrite IH; [by rewrite sapp_assoc|done|]. destruct Ht; [left|by right]. by destruct p.
  - destruct p as [|d p].
    + rewrite sapp_nil_l. destruct Ht as [Ht| ->]; [left|by right].
      by apply bool_decide_eq_false in Ht.
    + right. intros u. rewrite sapp_cons. intros [= -> _].
      by rewrite has_byte_cons, bool_decide_eq_true_2 in Hp.
Qed.

Lemma scan_app_escaped p t tag : has_byte comma p = false →
  scan (p +:+ String backslash (String comma t)) tag =
  scan t (tag +:+ p +:+ String comma "").
Proof.
  revert tag. induction p as [|c p IH]; intros tag Hp; [done|].
  rewrite has_byte_cons in Hp. apply orb_false_iff in Hp as [Hc%bool_decide_eq_false Hp].
  rewrite sapp_cons, scan_byte; [|done|].
  - rewrite IH by done. by rewrite !sapp_assoc.
  - right. intros u. destruct p as [|d p]; [done|]. rewrite sapp_cons. intros [= -> _].
    by rewrite has_byte_cons, bool_decide_eq_true_2 in Hp.
Qed.

(** One round of the loop: without a comma the string is a tag ... *)
Lemma escaped_loop_none fuel tag s : has_byte comma s = false →
  escaped_loop (S fuel) (tag +:+ s) (String.length tag) = Some (Ok (Whole (tag +:+ s))).
Proof.
  intros Hs%has_byte_false. cbn [escaped_loop]. cbv zeta. rewrite sdrop_app, Hs. by case_decide.
Qed.

(** ... and with one, the byte [c] before it decides. *)
Lemma escaped_loop_comma fuel tag p t q c :
  has_byte comma p = false → tag +:+ p = q +:+ String c "" →
  escaped_loop (S fuel) (tag +:+ p +:+ String comma t) (String.length tag) =
  if decide (c ≠ backslash) then Some (Ok (Cut t (tag +:+ p)))
  else escaped_loop fuel (q +:+ String comma t) (S (String.length q)).
Proof.
  intros Hp%has_byte_false Hq. cbn [escaped_loop]. cbv zeta.
  assert (p +:+ String comma t ≠ "") as Hne by (intros [_ ?]%sapp_eq_nil; done).
  rewrite sdrop_app, decide_False, Index_app_None by done. simpl Index.
  assert (String.length tag + (String.length p + 0) = S (String.length q)) as Hlen.
  { rewrite Nat.add_0_r, <- slength_app, Hq, slength_app. simpl. lia. }
  simpl fmap. cbv beta iota. rewrite Hlen. cbv iota.
  assert (tag +:+ p +:+ String comma t = q +:+ String c (String comma t)) as ->.
  { by rewrite <- sapp_assoc, Hq, sapp_assoc. }
  replace (S (S (String.length q))) with (String.length q + 2) by lia.
  replace (S (String.length q)) with (String.length q + 1) by lia.
  rewrite !sdrop_app_plus, stake_app_plus, sdrop_app, stake_app, Hq. simpl sdrop.
  destruct (decide (c = backslash)) as [->|Hc].
  - rewrite !decide_False by (intros []; done). done.
  - rewrite !decide_True by (simpl; congruence). done.
Qed.

(** The loop of [recParseEscapedComma] scans one tag: [tag] is the part before
    [offset], already unescaped, and [s] the part it has not seen. *)
Lemma escaped_loop_spec fuel tag s :
  String.length s < fuel →
  ends_with backslash tag = false →
  (tag = "" → ∀ t, s ≠ String comma t) →
  escaped_loop fuel (tag +:+ s) (String.length tag) =
  Some (Ok (loop_of_scan (scan s tag))).
Proof.
  revert tag s. induction fuel as [|fuel IH]; intros tag s Hfuel Hbs Hfirst; [lia|].
  destruct (has_byte comma s) eqn:Hs.
  2:{ rewrite escaped_loop_none by done.
      replace (scan s tag) with (scan (s +:+ "") tag) by (by rewrite sapp_nil_r).
      by rewrite scan_app by auto. }
  apply has_byte_true in Hs as (p & t & -> & Hp).
  destruct (decide (p = "")) as [->|Hne].
  - destruct (string_last tag) as (q & c & ->); [naive_solver|].
    rewrite ends_with_snoc in Hbs. apply bool_decide_eq_false in Hbs.
    erewrite escaped_loop_comma by (done || by rewrite sapp_nil_r).
    by rewrite decide_True, sapp_nil_r by done.
  - destruct (string_last p) as (p' & c & ->); [done|].
    erewrite escaped_loop_comma by (done || by rewrite <- sapp_assoc).
    case_decide as Hc.
    + rewrite scan_app; [done|done|left].
      by rewrite ends_with_snoc, bool_decide_eq_false_2.
    + subst c.
      rewrite has_byte_app in Hp. apply orb_false_iff in Hp as [Hp _].
      rewrite (sapp_assoc p' (String backslash "")), sapp_cons, sapp_nil_l, scan_app_escaped by done.
      rewrite <- IH.
      * f_equal; [by rewrite !sapp_assoc|]. rewrite !slength_app. simpl. lia.
      * rewrite !slength_app in Hfuel. simpl in Hfuel. lia.
      * by rewrite <- sapp_assoc, ends_with_snoc.
      * intros [_ [_ [=]]%sapp_eq_nil]%sapp_eq_nil.
Qed.

(** What [scan] does with a first byte that is no comma: it goes on with a
    longer tag on a shorter string. *)
Lemma scan_cons_cases c s tag : c ≠ comma →
  ∃ s' a, scan (String c s) tag = scan s' (tag +:+ String a "") ∧
          tag_tokens (String c s) tag = tag_tokens s' (tag +:+ String a "") ∧
          String.length s' < String.length (String c s).
Proof.
  intros Hc. simpl. rewrite !decide_False by done.
  destruct s as [|d s]; [by eauto with lia|].
  case_decide; [exists s, comma | exists (String d s), c]; auto with lia.
Qed.

Lemma scan_rest_length s tag t r : scan s tag = (t, Some r) →
  String.length r < String.length s.
Proof.
  revert tag. induction s as [s IH] using string_len_ind; intros tag.
  destruct s as [|c s]; [done|]. destruct (decide (c = comma)) as [->|Hc].
  - rewrite scan_comma. intros; simplify_eq/=. lia.
  - destruct (scan_cons_cases c s tag Hc) as (s' & a & -> & _ & Hl).
    intros Hr%IH; [lia|done].
Qed.

Lemma scan_tag_length s tag : String.length tag ≤ String.length (scan s tag).1.
Proof.
  revert tag. induction s as [s IH] using string_len_ind; intros tag.
  destruct s as [|c s]; [done|]. destruct (decide (c = comma)) as [->|Hc]; [done|].
  destruct (scan_cons_cases c s tag Hc) as (s' & a & -> & _ & Hl).
  etrans; [|by apply IH]. rewrite slength_app. lia.
Qed.

(** A first byte that is no comma goes into the tag, so the tag is not empty. *)
Lemma scan_tag_nonempty c s : c ≠ comma → (scan (String c s) "").1 ≠ "".
Proof.
  intros Hc Hnil. destruct (scan_cons_cases c s "" Hc) as (s' & a & Hs & _).
  pose proof (scan_tag_length s' ("" +:+ String a "")) as Hl.
  rewrite <- Hs, Hnil in Hl. simpl in Hl. lia.
Qed.

(** The reference definition is the iteration of [scan]. *)
Lemma tag_tokens_scan s tag :
  tag_tokens s tag =
  match scan s tag with
  | (t, None) => add_tag t []
  | (t, Some rest) => add_tag t (tag_tokens rest "")
  end.
Proof.
  revert tag. induction s as [s IH] using string_len_ind; intros tag.
  destruct s as [|c s]; [done|]. destruct (decide (c = comma)) as [->|Hc]; [done|].
  destruct (scan_cons_cases c s tag Hc) as (s' & a & -> & -> & Hl). by apply IH.
Qed.

Lemma rec_parse_spec fuel s : String.length s < fuel →
  rec_parse fuel s = Some (Ok (reverse (tag_tokens s ""))).
Proof.
  revert s. induction fuel as [|fuel IH]; intros s Hfuel; [lia|].
  destruct s as [|c s]; [done|]. cbn [rec_parse]. case_decide as Hc.
  { subst. rewrite IH by (simpl in Hfuel; lia). done. }
  pose proof (escaped_loop_spec (S (String.length (String c s))) "" (String c s)) as Hloop.
  rewrite sapp_nil_l in Hloop. change (String.length "") with 0 in Hloop. rewrite Hloop; [|lia|done|intros _ t [=]; done].
  pose proof (scan_tag_nonempty c s Hc) as Hne. rewrite tag_tokens_scan.
  destruct (scan (String c s) "") as [t [r|]] eqn:Hscan; cbn [fst loop_of_scan] in *.
  - apply scan_rest_length in Hscan. rewrite IH by (simpl in *; lia).
    unfold add_tag. destruct t; [done|]. by rewrite reverse_cons.
  - unfold add_tag. by destruct t.
Qed.

(** The parser returns, without panicking, the tags of the reference definition
    in reverse order. *)
Lemma recParseEscapedComma_spec s :
  recParseEscapedComma s = Ok (reverse (tag_tokens s "")).
Proof. unfold recParseEscapedComma. rewrite rec_parse_spec by lia. done. Qed.

(** ** Round trip *)
Lemma escape_tag_cons c s :
  escape_tag (String c s) =
  if decide (c = comma) then String backslash (String comma (escape_tag s))
  else String c (escape_tag s).
Proof. done. Qed.

Lemma escape_tag_first s t : escape_tag s ≠ String comma t.
Proof.
  destruct s as [|c s]; [done|]. simpl. unfold comma, backslash in *. case_decide; congruence.
Qed.

(** Scanning a printed tag gives the tag back; what follows is scanned after it,
    provided the tag's last byte does not escape it. *)
Lemma scan_escape_tag s t tag :
  ends_with backslash s = false ∨ t = "" →
  scan (escape_tag s +:+ t) tag = scan t (tag +:+ s).
Proof.
  revert tag. induction s as [|c s IH]; intros tag Ht; [by rewrite sapp_nil_r|].
  assert (ends_with backslash s = false ∨ t = "") as Ht'.
  { destruct Ht; [left|by right]. by destruct s. }
  rewrite escape_tag_cons. case_decide as Hc.
  - subst. rewrite !sapp_cons, scan_escape, IH by done. by rewrite sapp_assoc.
  - rewrite sapp_cons, scan_byte; [|done|]; [rewrite IH by done; by rewrite sapp_assoc|].
    destruct s as [|d s]; [|right; intros u Hu].
    2:{ rewrite escape_tag_cons in Hu. case_decide; rewrite sapp_cons in Hu;
          unfold comma, backslash in *; congruence. }
    destruct Ht as [Ht| ->]; [left|by right]. by apply bool_decide_eq_false in Ht.
Qed.

Lemma print_tags_tokens tags : Forall printable_tag tags →
  tag_tokens (print_tags tags) "" = tags.
Proof.
  unfold printable_tag.
  induction tags as [|tag tags IH]; intros Htags; [done|].
  apply Forall_cons in Htags as [[Hne%bool_decide_unpack He%Is_true_true%negb_true_iff]%andb_True Htags].
  assert (∀ l, add_tag tag l = tag :: l) as Hadd by (by destruct tag).
  destruct tags as [|tag' tags].
  - simpl. rewrite tag_tokens_scan, <- (sapp_nil_r (escape_tag tag)), scan_escape_tag by auto.
    apply Hadd.
  - cbn [print_tags]. rewrite tag_tokens_scan, scan_escape_tag, scan_comma, Hadd by auto.
    f_equal. by apply IH.
Qed.

(** ** Properties *)

(** C24: on every input string [recParseEscapedComma] terminates within its fuel
    without panicking, and returns exactly the tags of the one-pass reference
    definition [tag_tokens], last tag first. *)
Theorem recParseEscapedComma_reference s :
  recParseEscapedComma s = Ok (reverse (tag_tokens s "")).
Proof. apply recParseEscapedComma_spec. Qed.

(** C25: printing a list of tags (commas escaped, tags separated by commas) and
    parsing it gives the tags back, in reverse order. *)
Theorem tags_roundtrip tags :
  Forall printable_tag tags →
  recParseEscapedComma (print_tags tags) = Ok (reverse tags).
Proof. intros Ht. by rewrite recParseEscapedComma_spec, print_tags_tokens. Qed.

Lemma tags_roundtrip_witness :
  recParseEscapedComma "master,a\,b,x" = Ok ["x"; "a,b"; "master"].
Proof. apply (tags_roundtrip ["master"; "a,b"; "x"]). repeat constructor. Defined.

(** [combineTags] returns for every list of parts: the tags of each part,
    part by part, each part's tags in reverse order. *)
Lemma combineTags_tokens parts :
  combineTags parts = Ok (concat (map (λ p, reverse (tag_tokens p "")) parts)).
Proof.
  induction parts as [|p parts IH]; [done|].
  simpl. rewrite recParseEscapedComma_spec. simpl. by rewrite IH.
Qed.
