(* ===== verification/Types.v ===== *)
(** * Data model of bridge/types.go and of the Docker structures it uses

    A module per Go struct, so that fields keep their Go names. The Docker
    structs hold the fields registrator reads. [docker inspect] always fills
    [Config], [HostConfig] and [NetworkSettings], so these pointers are values;
    [Config.Labels] can be a nil map, and writing to it then panics. *)
From S2P Require Import Prelude.

(** ** github.com/fsouza/go-dockerclient *)
Module PortBinding.
Record t := mk { HostIP : string; HostPort : string }.
#[global] Instance eq_dec : EqDecision t.
Proof. solve_decision. Defined.
End PortBinding.

Module NetworkSettings.
Record t := mk {
  (** [Networks[name].IPAddress] *)
  Networks : gmap string string;
  IPAddress : string;
  Ports : gmap string (list PortBinding.t)
}.
#[global] Instance eq_dec : EqDecision t.
Proof. solve_decision. Defined.
End NetworkSettings.

Module DockerConfig.
Record t := mk {
  Hostname : string;
  Image : string;
  Env : list string;
  (** [None]: the nil map. *)
  Labels : option (gmap string string);
  ExposedPorts : gmap string unit
}.
#[global] Instance eq_dec : EqDecision t.
Proof. solve_decision. Defined.
Definition set_Labels (l : option (gmap string string)) (c : t) : t :=
  {| Hostname := Hostname c; Image := Image c; Env := Env c; Labels := l;
     ExposedPorts := ExposedPorts c |}.
End DockerConfig.

Module Container.
Record t := mk {
  ID : string;
  Name : string;
  Config : DockerConfig.t;
  (** [State.Running] and [State.ExitCode] *)
  Running : bool;
  ExitCode : Z;
  NetworkSettings : NetworkSettings.t;
  (** [HostConfig.NetworkMode] *)
  NetworkMode : string
}.
#[global] Instance eq_dec : EqDecision t.
Proof. solve_decision. Defined.
Definition set_Config (cfg : DockerConfig.t) (c : t) : t :=
  {| ID := ID c; Name := Name c; Config := cfg; Running := Running c;
     ExitCode := ExitCode c; NetworkSettings := NetworkSettings c;
     NetworkMode := NetworkMode c |}.
End Container.

Inductive DockerError :=
| NoSuchContainer
| OtherDockerError (msg : string).

(** [ListContainersOptions]: no filter, or the status filter of
    bridge/servicesync.go (created, restarting, running, paused). *)
Inductive ListOptions := NoFilters | StatusFilters.

(** The interface [DockerClient] of bridge/bridge.go. A value of this type is
    Docker as one operation of the bridge sees it. *)
Module DockerClient.
Record t := mk {
  InspectContainer : string → Container.t + DockerError;
  (** The IDs of the listed containers. *)
  ListContainers : ListOptions → list string + DockerError
}.
End DockerClient.

(** ** bridge/types.go *)
Module Config.
Record t := mk {
  HostIp : string;
  Internal : bool;
  UseIpFromLabel : string;
  ForceTags : string;
  RefreshTtl : Z;
  RefreshInterval : Z;
  DeregisterCheck : string;
  Cleanup : bool;
  RequireLabel : bool;
  ExitOnIPLookupFailure : bool
}.
#[global] Instance eq_dec : EqDecision t.
Proof. solve_decision. Defined.
End Config.

Module ServicePort.
Record t := mk {
  HostPort : string;
  HostIP : string;
  ExposedPort : string;
  ExposedIP : string;
  PortType : string;
  ContainerHostname : string;
  ContainerID : string;
  ContainerName : string;
  (** A pointer; nil in the zero value. *)
  container : option Container.t
}.
#[global] Instance eq_dec : EqDecision t.
Proof. solve_decision. Defined.
Definition set_HostIP (ip : string) (p : t) : t :=
  {| HostPort := HostPort p; HostIP := ip; ExposedPort := ExposedPort p;
     ExposedIP := ExposedIP p; PortType := PortType p;
     ContainerHostname := ContainerHostname p; ContainerID := ContainerID p;
     ContainerName := ContainerName p; container := container p |}.
Definition zero : t := mk "" "" "" "" "" "" "" "" None.
Definition set_container (c : Container.t) (p : t) : t :=
  {| HostPort := HostPort p; HostIP := HostIP p; ExposedPort := ExposedPort p;
     ExposedIP := ExposedIP p; PortType := PortType p;
     ContainerHostname := ContainerHostname p; ContainerID := ContainerID p;
     ContainerName := ContainerName p; container := Some c |}.
End ServicePort.

Module Service.
Record t := mk {
  ID : string;
  Name : string;
  Port : Z;
  IP : string;
  UseExposedPorts : bool;
  Tags : list string;
  Attrs : gmap string string;
  TTL : Z;
  Origin : ServicePort.t
}.
#[global] Instance eq_dec : EqDecision t.
Proof. solve_decision. Defined.
(** [service.IP = ip; service.Origin.HostIP = ip] *)
Definition set_IPs (ip : string) (s : t) : t :=
  {| ID := ID s; Name := Name s; Port := Port s; IP := ip;
     UseExposedPorts := UseExposedPorts s; Tags := Tags s; Attrs := Attrs s;
     TTL := TTL s; Origin := ServicePort.set_HostIP ip (Origin s) |}.
End Service.

(** [service.Attrs[key]] *)
Definition attr (service : Service.t) (k : string) : string := map_get (Service.Attrs service) k.

Module DeadContainer.
Record t := mk { TTL : Z; Services : list Service.t }.
#[global] Instance eq_dec : EqDecision t.
Proof. solve_decision. Defined.
End DeadContainer.

Module SyncMessage.
Record t := mk { Quiet : bool; IP : string }.
#[global] Instance eq_dec : EqDecision t.
Proof. solve_decision. Defined.
End SyncMessage.

(** A Go [error]: nil, or its message. *)
Abbreviation error := (option string).

(** The interface [RegistryAdapter]: what a registry backend of state [R] does. *)
Class RegistryAdapter (R : Type) := {
  Ping : GoM R error;
  Register : Service.t → GoM R error;
  Deregister : Service.t → GoM R error;
  Refresh : Service.t → GoM R error;
  Services : GoM R (list Service.t * error)
}.

(** What the bridge relies on: a backend call returns, with or without error. *)
Class RegistryReturns (R : Type) `{RegistryAdapter R} := {
  Register_returns s r : is_Ok (Register s r).1 = true;
  Deregister_returns s r : is_Ok (Deregister s r).1 = true;
  Refresh_returns s r : is_Ok (Refresh s r).1 = true;
  Services_returns r : is_Ok (Services r).1 = true
}.

(** What cleaning up needs of it. *)
Class RegistryDrops (R : Type) `{RegistryAdapter R} := {
  drops_Deregister s r : is_Ok (Deregister s r).1 = true;
  drops_Services r : is_Ok (Services r).1 = true
}.
#[export] Instance returns_drops `{RegistryReturns R} : RegistryDrops R.
Proof. split; [apply Deregister_returns|apply Services_returns]. Qed.

(** The same for a backend that does so from some states only, which its calls do
    not leave, and for services of containers with an ID of full length. *)
Definition full_origin (s : Service.t) : Prop :=
  12 ≤ String.length (ServicePort.ContainerID (Service.Origin s)).

Definition safe_call {R A} (good : R → Prop) (op : GoM R A) : Prop :=
  ∀ r, good r → is_Ok (op r).1 = true ∧ good (op r).2.

Class RegistrySafe {R : Type} `{RegistryAdapter R} (good : R → Prop) : Prop := {
  Ping_safe r : good r → good (Ping r).2;
  Register_safe s : full_origin s → safe_call good (Register s);
  Deregister_safe s : safe_call good (Deregister s);
  Refresh_safe s : safe_call good (Refresh s);
  Services_safe : safe_call good Services
}.

Lemma RegistryReturns_safe {R} `{RegistryReturns R} : RegistrySafe (λ _ : R, True).
Proof.
  split; try done; intros; intros r _; (split; [|done]);
    first [apply Register_returns|apply Deregister_returns|apply Refresh_returns|apply Services_returns].
Qed.
