(* ===== verification/Metadata.v ===== *)
(** * Service metadata: bridge/util.go

    Environment variables and labels with the prefix [SERVICE_] become the
    metadata of a service; a key with a port number in it applies to that port
    only and wins over the key without. The maps are visited in an arbitrary
    order ([MapOrder]), and [serviceMetaData] writes the environment into the
    container's own label map, which its callers see. *)
From S2P Require Import Prelude GoStrings Types.

Definition mapDefault (m : gmap string string) (key default_ : string) : string :=
  match m !! key with
  | Some v => if decide (v = "") then default_ else v
  | None => default_
  end.

(** The first variable of that name, whatever its case; [str[1]] panics when the
    entry has no equals sign. *)
Fixpoint lookup_env (env : list string) (key : string) : outcome string :=
  match env with
  | [] => Ok ""
  | v :: env =>
      match SplitN2 v "=" with
      | name :: rest =>
          if EqualFold name key
          then match rest with value :: _ => Ok value | [] => Panicked end
          else lookup_env env key
      | [] => Panicked
      end
  end.

Definition lookupMetaData (config : DockerConfig.t) (key : string) : outcome string :=
  lookup_env (DockerConfig.Env config) key.

(** [meta[str[0]] = str[1]] for an entry of the environment: panics without an
    equals sign, and on a nil map. *)
Definition set_env_entry (meta : option (gmap string string)) (v : string)
    : outcome (option (gmap string string)) :=
  match SplitN2 v "=", meta with
  | [name; value], Some m => Ok (Some (<[name := value]> m))
  | _, _ => Panicked
  end.

Definition merge_env (meta : option (gmap string string)) (env : list string)
    : outcome (option (gmap string string)) :=
  fold_outcome set_env_entry meta env.

(** One round of the loop over the merged map. *)
Definition metadata_step (port : string)
    (acc : gmap string string * gset string) (kv : string * string)
    : gmap string string * gset string :=
  let '(metadata, metadataFromPort) := acc in
  let '(ks, v) := kv in
  if HasPrefix ks "SERVICE_" && bool_decide (1 < String.length ks) then
    let key := ToLower (TrimPrefix ks "SERVICE_") in
    if decide (key ∈ metadataFromPort) then acc else
    match cut key "_" with
    | (number, Some field) =>
        if decide ((Atoi number).2 = None) then
          if decide (number ≠ port) then acc
          else (<[field := v]> metadata, {[field]} ∪ metadataFromPort)
        else (<[key := v]> metadata, metadataFromPort)
    | (_, None) => (<[key := v]> metadata, metadataFromPort)
    end
  else acc.

Definition metadata_loop (port : string) (entries : list (string * string))
    : gmap string string * gset string :=
  foldl (metadata_step port) (∅, ∅) entries.

(** Returns the configuration with its label map as the call leaves it, the
    metadata, and the fields that came from a key with the port in it. *)
Definition serviceMetaData `{MapOrder} (config : DockerConfig.t) (port : string)
    : outcome (DockerConfig.t * (gmap string string * gset string)) :=
  meta ← merge_env (DockerConfig.Labels config) (DockerConfig.Env config);
  let entries := match meta with Some m => range m | None => [] end in
  mret (DockerConfig.set_Labels meta config, metadata_loop port entries).

(** [Port.Port()] and the protocol part of a port such as [80/tcp]. *)
Definition port_number (port : string) : string :=
  match Split port "/" with p :: _ => p | [] => "" end.

Definition port_type (port : string) : string :=
  match Split port "/" with [_; t] => t | _ => "tcp" end.

(** The address of the last network visited. *)
Definition last_network_ip `{MapOrder} (networks : gmap string string) : string :=
  foldl (λ _ kv, kv.2) "" (range networks).

Definition servicePort `{MapOrder} (container : Container.t) (port : string)
    (published : list PortBinding.t) : ServicePort.t :=
  let hp := match published with b :: _ => PortBinding.HostPort b | [] => "" end in
  let hip := match published with b :: _ => PortBinding.HostIP b | [] => "" end in
  let hip := if decide (hip = "") then "0.0.0.0" else hip in
  let nm := Container.NetworkMode container in
  let ns := Container.NetworkSettings container in
  let hip := if decide (nm ≠ "bridge" ∧ nm ≠ "default" ∧ nm ≠ "host")
             then map_get (NetworkSettings.Networks ns) nm else hip in
  let eip := NetworkSettings.IPAddress ns in
  let eip := if decide (eip = "")
             then last_network_ip (NetworkSettings.Networks ns) else eip in
  {| ServicePort.HostPort := hp;
     ServicePort.HostIP := hip;
     ServicePort.ExposedPort := port_number port;
     ServicePort.ExposedIP := eip;
     ServicePort.PortType := port_type port;
     ServicePort.ContainerID := Container.ID container;
     ServicePort.ContainerName := Container.Name container;
     ServicePort.ContainerHostname := DockerConfig.Hostname (Container.Config container);
     ServicePort.container := Some container |}.

(** ** What the keys mean

    [classify port ks] is the field a key sets for the service on [port], and
    whether it names the port; [None] for a key that says nothing about it. *)
Definition classify (port ks : string) : option (bool * string) :=
  if HasPrefix ks "SERVICE_" then
    let key := ToLower (TrimPrefix ks "SERVICE_") in
    match cut key "_" with
    | (number, Some field) =>
        if decide ((Atoi number).2 = None)
        then if decide (number ≠ port) then None else Some (true, field)
        else Some (false, key)
    | (_, None) => Some (false, key)
    end
  else None.

(** A field that itself starts with a number and an underscore. *)
Definition numbered (field : string) : bool :=
  match cut field "_" with
  | (number, Some _) => bool_decide ((Atoi number).2 = None)
  | (_, None) => false
  end.

(** No two keys set the same field (they would if they differed in case only),
    and no port key sets a field that is numbered itself. *)
Definition unambiguous (port : string) (meta : gmap string string) : Prop :=
  (∀ k1 k2 c, is_Some (meta !! k1) → is_Some (meta !! k2) →
     classify port k1 = Some c → classify port k2 = Some c → k1 = k2) ∧
  (∀ k f, is_Some (meta !! k) → classify port k = Some (true, f) → numbered f = false).

(** The condition is decidable: it speaks of the entries of [meta] only. *)
Definition unambiguous_entries (port : string) (meta : gmap string string) : Prop :=
  map_Forall (λ k1 _, map_Forall (λ k2 _,
    classify port k1 = None ∨ classify port k1 ≠ classify port k2 ∨ k1 = k2) meta) meta ∧
  map_Forall (λ k _,
    match classify port k with Some (true, f) => numbered f = false | _ => True end) meta.

Lemma unambiguous_entries_iff port meta :
  unambiguous_entries port meta ↔ unambiguous port meta.
Proof.
  unfold unambiguous_entries, unambiguous, map_Forall. split; intros [Hinj Hnum]; split.
  - intros k1 k2 c [v1 H1] [v2 H2] Hc1 Hc2.
    destruct (Hinj k1 v1 H1 k2 v2 H2) as [|[|]]; congruence.
  - intros k f [v Hk] Hc. specialize (Hnum k v Hk). by rewrite Hc in Hnum.
  - intros k1 v1 H1 k2 v2 H2. destruct (classify port k1) as [c|] eqn:Hc; [right|by left].
    destruct (decide (Some c = classify port k2)) as [Heq|]; [right|by left].
    by apply (Hinj k1 k2 c).
  - intros k v Hk. destruct (classify port k) as [[[] f]|] eqn:Hc; [|done..].
    by apply (Hnum k).
Qed.

#[export] Instance unambiguous_dec port meta : Decision (unambiguous port meta).
Proof.
  assert (Decision (unambiguous_entries port meta)) as [H|H].
  { apply and_dec; [apply _|]. apply map_Forall_dec. intros k _.
    destruct (classify port k) as [[[] ?]|]; apply _. }
  - left. by apply unambiguous_entries_iff.
  - right. by rewrite <- unambiguous_entries_iff.
Defined.

(** The value the rules of docs/user/services.md give a field: of the port key
    if there is one, else of the key without port. *)
Definition field_from (port : string) (meta : gmap string string) (from_port : bool)
    (f v : string) : Prop :=
  ∃ k, meta !! k = Some v ∧ classify port k = Some (from_port, f).

Definition field_value (port : string) (meta : gmap string string) (f v : string) : Prop :=
  field_from port meta true f v ∨
  (field_from port meta false f v ∧ ∀ v', ¬ field_from port meta true f v').

(** ** The loop computes these values in every order *)
Section loop.
Context (port : string).

(** The invariant of the loop, over the entries visited so far. *)
Definition loop_inv (visited : list (string * string))
    (acc : gmap string string * gset string) : Prop :=
  (∀ f, f ∈ acc.2 ↔ ∃ kv, kv ∈ visited ∧ classify port kv.1 = Some (true, f)) ∧
  (∀ f v, acc.1 !! f = Some v ↔
     (∃ k, (k, v) ∈ visited ∧ classify port k = Some (true, f)) ∨
     ((∃ k, (k, v) ∈ visited ∧ classify port k = Some (false, f)) ∧ f ∉ acc.2)).

(** A step in terms of the class of its key. *)
Lemma metadata_step_classify acc ks v :
  (∀ f, f ∈ acc.2 → numbered f = false) →
  metadata_step port acc (ks, v) =
  match classify port ks with
  | Some (true, f) => (<[f := v]> acc.1, {[f]} ∪ acc.2)
  | Some (false, f) => if decide (f ∈ acc.2) then acc else (<[f := v]> acc.1, acc.2)
  | None => acc
  end.
Proof.
  intros Hnum. unfold metadata_step, classify. destruct acc as [md fp]. simpl in *.
  destruct (HasPrefix ks "SERVICE_") eqn:Hpre; [|done].
  assert (1 < String.length ks) as Hlen.
  { apply prefix_true in Hpre. rewrite Hpre, slength_app. simpl. lia. }
  rewrite bool_decide_eq_true_2 by done. simpl.
  set (key := ToLower _). destruct (cut key "_") as [number [field|]] eqn:Hcut; [|done].
  destruct (decide (key ∈ fp)) as [Hin|Hin]; [|by repeat case_decide].
  destruct (decide ((Atoi number).2 = None)) as [Hn|Hn]; [|by rewrite decide_True].
  apply Hnum in Hin. unfold numbered in Hin. rewrite Hcut, bool_decide_eq_true_2 in Hin; done.
Qed.

Lemma loop_inv_step visited acc k v :
  loop_inv visited acc →
  (∀ f, f ∈ acc.2 → numbered f = false) →
  (∀ kv c, kv ∈ visited → classify port kv.1 = Some c → classify port k ≠ Some c) →
  loop_inv (visited ++ [(k, v)]) (metadata_step port acc (k, v)).
Proof.
  intros [Hfp Hmd] Hnum Hnew. rewrite metadata_step_classify by done.
  destruct acc as [md fp]; simpl in *.
  destruct (classify port k) as [[[] f]|] eqn:Hk; [|case_decide as Hf|].
  - split; simpl; intros g.
    + rewrite elem_of_union, elem_of_singleton, Hfp. set_solver.
    + intros w. destruct (decide (f = g)) as [->|Hne].
      * rewrite lookup_insert_eq. split; [intros [= ->]; left; set_solver|].
        intros [(k' & [Hin|[=-> ->]%list_elem_of_singleton]%elem_of_app & Hc)|[_ []]]; [|done|set_solver].
        by destruct (Hnew _ _ Hin Hc).
      * rewrite lookup_insert_ne, Hmd by done. set_solver.
  - split; simpl; intros g; [rewrite Hfp; set_solver|].
    intros w. rewrite Hmd. set_solver.
  - split; simpl; intros g; [rewrite Hfp; set_solver|].
    intros w. destruct (decide (f = g)) as [->|Hne].
    + rewrite lookup_insert_eq. split; [intros [= ->]; right; set_solver|].
      intros [(k' & [Hin|[=-> ->]%list_elem_of_singleton]%elem_of_app & Hc)
             |[(k' & [Hin|[=-> ->]%list_elem_of_singleton]%elem_of_app & Hc) _]]; try done.
      * destruct Hf. apply Hfp. by exists (k', w).
      * by destruct (Hnew _ _ Hin Hc).
    + rewrite lookup_insert_ne, Hmd by done. set_solver.
  - split; simpl; intros g; [rewrite Hfp; set_solver|].
    intros w. rewrite Hmd. set_solver.
Qed.

Lemma loop_inv_foldl l visited acc meta :
  visited ++ l ≡ₚ map_to_list meta → unambiguous port meta →
  loop_inv visited acc →
  loop_inv (visited ++ l) (foldl (metadata_step port) acc l).
Proof.
  intros Hp [Hinj Hnum]. revert visited acc Hp.
  induction l as [|[k v] l IH]; intros visited acc Hp Hinv; [by rewrite app_nil_r|].
  assert (∀ k' v', (k', v') ∈ visited ++ (k, v) :: l → is_Some (meta !! k')) as Hin.
  { intros k' v'. rewrite Hp, elem_of_map_to_list. by eexists. }
  pose proof (NoDup_fst_map_to_list meta) as Hnd. rewrite <- Hp, fmap_app in Hnd.
  apply NoDup_app in Hnd as (_ & Hnd & _).
  rewrite cons_middle, app_assoc. simpl. apply IH; [by rewrite <- app_assoc|].
  apply loop_inv_step; [done|..].
  - intros f [[k' v'] [Hk Hc]]%Hinv. apply (Hnum k'); [|done].
    apply (Hin k' v'). set_solver.
  - intros [k' v'] c Hk Hc Hc'.
    assert (k' = k) as ->; [eapply Hinj; [..|done|done]|].
    + apply (Hin k' v'). set_solver.
    + apply (Hin k v). set_solver.
    + apply (Hnd k); [|set_solver]. by apply (list_elem_of_fmap_2 fst) in Hk.
Qed.

(** The result, for any order of the entries of [meta]. *)
Lemma metadata_loop_spec entries meta :
  entries ≡ₚ map_to_list meta → unambiguous port meta →
  (∀ f v, (metadata_loop port entries).1 !! f = Some v ↔ field_value port meta f v) ∧
  (∀ f, f ∈ (metadata_loop port entries).2 ↔ ∃ v, field_from port meta true f v).
Proof.
  intros Hp Hu.
  destruct (loop_inv_foldl entries [] (∅, ∅) meta) as [Hfp Hmd]; [done|done| |].
  { split; simpl; set_solver. }
  simpl in Hfp, Hmd. fold (metadata_loop port entries) in Hfp, Hmd.
  assert (∀ k v, (k, v) ∈ entries ↔ meta !! k = Some v) as Hin.
  { intros k v. by rewrite Hp, elem_of_map_to_list. }
  assert (∀ b f v, (∃ k, (k, v) ∈ entries ∧ classify port k = Some (b, f)) ↔
                   field_from port meta b f v) as Hfrom.
  { intros b f v. unfold field_from. by setoid_rewrite Hin. }
  assert (∀ f, f ∈ (metadata_loop port entries).2 ↔ ∃ v, field_from port meta true f v)
    as Hport.
  { intros f. rewrite Hfp. setoid_rewrite <- Hfrom. split.
    - intros [[k v] ?]. by exists v, k.
    - intros (v & k & ?). by exists (k, v). }
  split; [|done]. intros f v. rewrite Hmd, !Hfrom. unfold field_value.
  rewrite Hport. naive_solver.
Qed.
End loop.

(** ** The merged label map *)
Definition env_entry (v : string) : option (string * string) :=
  match cut v "=" with
  | (name, Some value) => Some (name, value)
  | (_, None) => None
  end.

Definition well_formed_env (env : list string) : bool :=
  forallb (λ v, bool_decide (is_Some (env_entry v))) env.

Definition merged (env : list string) (labels : gmap string string) : gmap string string :=
  foldl (λ m v, match env_entry v with
                | Some (name, value) => <[name := value]> m
                | None => m
                end) labels env.

(** The value the environment gives a name: the last entry counts. *)
Fixpoint last_env (env : list string) (name : string) : option string :=
  match env with
  | [] => None
  | v :: env =>
      match last_env env name, env_entry v with
      | Some value, _ => Some value
      | None, Some (name', value) => if decide (name' = name) then Some value else None
      | None, None => None
      end
  end.

Lemma set_env_entry_spec meta v :
  set_env_entry meta v =
  match env_entry v, meta with
  | Some (name, value), Some m => Ok (Some (<[name := value]> m))
  | _, _ => Panicked
  end.
Proof.
  unfold set_env_entry, SplitN2, env_entry. by destruct (cut v "=") as [? []], meta.
Qed.

(** Merging the environment into the labels succeeds exactly when every entry
    has an equals sign, and the labels are no nil map unless there is nothing to
    merge. *)
Lemma merge_env_spec meta env :
  merge_env meta env =
  match env, meta with
  | [], _ => Ok meta
  | _, None => Panicked
  | _, Some l => if well_formed_env env then Ok (Some (merged env l)) else Panicked
  end.
Proof.
  unfold merge_env.
  destruct meta as [l|]; [|destruct env as [|v env]; [done|]; simpl;
                           rewrite set_env_entry_spec; by destruct (env_entry v) as [[]|]].
  assert (fold_outcome set_env_entry (Some l) env =
          if well_formed_env env then Ok (Some (merged env l)) else Panicked) as ->.
  2:{ by destruct env. }
  revert l. induction env as [|v env IH]; intros l; [done|].
  simpl. rewrite set_env_entry_spec. destruct (env_entry v) as [[name value]|] eqn:Hv; [|done].
  simpl. rewrite IH. done.
Qed.

Lemma merged_lookup env labels name :
  merged env labels !! name =
  match last_env env name with Some value => Some value | None => labels !! name end.
Proof.
  revert labels. induction env as [|v env IH]; intros labels; [done|].
  simpl. rewrite IH. destruct (last_env env name); [done|].
  destruct (env_entry v) as [[name' value]|]; [|done].
  rewrite lookup_insert. by case_decide.
Qed.

Lemma merged_idemp env labels : merged env (merged env labels) = merged env labels.
Proof.
  apply map_eq. intros name. rewrite !merged_lookup. by destruct (last_env env name).
Qed.

Lemma merge_env_idemp meta env meta' :
  merge_env meta env = Ok meta' → merge_env meta' env = Ok meta'.
Proof.
  rewrite !merge_env_spec. destruct env as [|v env]; [by intros [= ->]|].
  destruct meta as [l|]; [|done].
  destruct (well_formed_env (v :: env)) eqn:Hwf; [|done].
  intros [= <-]. by rewrite <- (merged_idemp (v :: env) l) at 2.
Qed.

Section properties.
Implicit Types O : MapOrder.

Lemma serviceMetaData_run O config port labels :
  DockerConfig.Labels config = Some labels →
  well_formed_env (DockerConfig.Env config) = true →
  serviceMetaData config port =
  Ok (DockerConfig.set_Labels (Some (merged (DockerConfig.Env config) labels)) config,
      metadata_loop port (range (merged (DockerConfig.Env config) labels))).
Proof.
  intros Hl Hwf. unfold serviceMetaData. rewrite merge_env_spec, Hl.
  destruct (DockerConfig.Env config); [done|]. by rewrite Hwf.
Qed.

(** C22: with labels present and every environment entry of the form NAME=VALUE,
    [serviceMetaData] returns; for every visiting order of the maps each field
    has the value of its port-specific key if there is one, else of its generic
    key, and exactly the port-specific fields are reported as such. *)
Theorem serviceMetaData_precedence O config port labels :
  DockerConfig.Labels config = Some labels →
  well_formed_env (DockerConfig.Env config) = true →
  unambiguous port (merged (DockerConfig.Env config) labels) →
  ∃ config' metadata fromPort,
    serviceMetaData config port = Ok (config', (metadata, fromPort)) ∧
    (∀ f v, metadata !! f = Some v ↔
            field_value port (merged (DockerConfig.Env config) labels) f v) ∧
    (∀ f, f ∈ fromPort ↔
          ∃ v, field_from port (merged (DockerConfig.Env config) labels) true f v).
Proof.
  intros Hl Hwf Hu. rewrite (serviceMetaData_run O config port labels) by done.
  destruct (metadata_loop_spec port (range (merged (DockerConfig.Env config) labels))
              (merged (DockerConfig.Env config) labels) (range_perm _) Hu) as [Hmd Hfp].
  destruct (metadata_loop _ _) as [md fp]. by eexists _, md, fp.
Qed.

(** A container with a generic and a port-specific key for the same field. *)
Definition example_config : DockerConfig.t :=
  {| DockerConfig.Hostname := "h"; DockerConfig.Image := "img";
     DockerConfig.Env := ["SERVICE_FOO=b"; "SERVICE_BAR=c"; "NOT_ME=d"; "SERVICE_1234_FOO=e"];
     DockerConfig.Labels := Some {["SERVICE_FOO" := "a"]};
     DockerConfig.ExposedPorts := ∅ |}.

Lemma serviceMetaData_precedence_witness :
  ∃ config' metadata fromPort,
    @serviceMetaData descending example_config "1234" = Ok (config', (metadata, fromPort)) ∧
    metadata !! "foo" = Some "e".
Proof.
  destruct (serviceMetaData_precedence descending example_config "1234"
              {["SERVICE_FOO" := "a"]}) as (c & md & fp & Hrun & Hmd & Hfp).
  - reflexivity.
  - vm_compute. reflexivity.
  - apply (bool_decide_unpack _). vm_compute. exact I.
  - exists c, md, fp. split; [exact Hrun|]. apply Hmd. left. exists "SERVICE_1234_FOO".
    split; vm_compute; reflexivity.
Defined.

(** C23: the result does not depend on the order in which Go visits the map. *)
Theorem serviceMetaData_order O1 O2 config port labels :
  DockerConfig.Labels config = Some labels →
  unambiguous port (merged (DockerConfig.Env config) labels) →
  @serviceMetaData O1 config port = @serviceMetaData O2 config port.
Proof.
  intros Hl Hu. unfold serviceMetaData. rewrite merge_env_spec, Hl.
  assert (∀ m, m = merged (DockerConfig.Env config) labels →
    metadata_loop port (@range O1 _ m) = metadata_loop port (@range O2 _ m)) as Hloop.
  { intros m ->.
    destruct (metadata_loop_spec port _ _ (@range_perm O1 _ _) Hu) as [Hmd1 Hfp1].
    destruct (metadata_loop_spec port _ _ (@range_perm O2 _ _) Hu) as [Hmd2 Hfp2].
    destruct (metadata_loop port (@range O1 _ _)) as [md1 fp1],
             (metadata_loop port (@range O2 _ _)) as [md2 fp2]. simpl in *.
    f_equal; [|apply set_eq; intros f; by rewrite Hfp1, Hfp2].
    apply map_eq. intros f. apply option_eq. intros v. by rewrite Hmd1, Hmd2. }
  destruct (DockerConfig.Env config) as [|v env] eqn:Henv; unfold mbind, outcome_bind.
  - by rewrite (Hloop labels eq_refl).
  - destruct (well_formed_env (v :: env)); [|done]. by rewrite (Hloop _ eq_refl).
Qed.

Lemma serviceMetaData_order_witness :
  @serviceMetaData ascending example_config "1234" =
  @serviceMetaData descending example_config "1234".
Proof.
  apply (serviceMetaData_order ascending descending example_config "1234"
           {["SERVICE_FOO" := "a"]}).
  - reflexivity.
  - apply (bool_decide_unpack _). vm_compute. exact I.
Defined.

(** [serviceMetaData] panics exactly when the environment is not empty and
    some entry has no equals sign or the container's label map is nil. *)
Theorem serviceMetaData_panics O config port :
  serviceMetaData config port = Panicked ↔
  DockerConfig.Env config ≠ [] ∧
  (DockerConfig.Labels config = None ∨ well_formed_env (DockerConfig.Env config) = false).
Proof.
  unfold serviceMetaData. rewrite merge_env_spec.
  destruct (DockerConfig.Env config) as [|v env] eqn:Henv; [naive_solver|].
  destruct (DockerConfig.Labels config) as [l|]; [|naive_solver].
  destruct (well_formed_env (v :: env)); naive_solver.
Qed.

(** The environment overrides the labels, its last entry counts, and the
    merge happens in the container's own label map: a second call on the
    configuration the first one leaves changes nothing more. *)
Theorem serviceMetaData_env_wins O config port config' r labels :
  serviceMetaData config port = Ok (config', r) →
  DockerConfig.Labels config = Some labels →
  (∀ name, (DockerConfig.Labels config' ≫= lookup name) =
     match last_env (DockerConfig.Env config) name with
     | Some value => Some value
     | None => labels !! name
     end) ∧
  serviceMetaData config' port = Ok (config', r).
Proof.
  intros Hrun Hl.
  assert (well_formed_env (DockerConfig.Env config) = true) as Hwf.
  { unfold serviceMetaData in Hrun. rewrite merge_env_spec, Hl in Hrun.
    destruct (DockerConfig.Env config); [done|]. by destruct (well_formed_env _). }
  rewrite (serviceMetaData_run O config port labels) in Hrun by done. simplify_eq.
  split.
  - intros name. simpl. apply merged_lookup.
  - erewrite serviceMetaData_run by done. simpl. rewrite merged_idemp. done.
Qed.

Lemma serviceMetaData_env_wins_witness :
  ∃ config' r, @serviceMetaData ascending example_config "80" = Ok (config', r) ∧
    @serviceMetaData ascending config' "80" = Ok (config', r).
Proof.
  destruct (@serviceMetaData ascending example_config "80") as [[config' r]| | |] eqn:Hrun;
    [|vm_compute in Hrun; discriminate..].
  exists config', r. split; [reflexivity|].
  apply (serviceMetaData_env_wins ascending example_config "80" config' r
           {["SERVICE_FOO" := "a"]} Hrun).
  reflexivity.
Defined.
End properties.
