(* ===== verification/Regex.v ===== *)
(** * Anchored regular expressions as Go's [regexp] matches them

    [regexp] returns the leftmost match that a backtracking search in the order
    written finds first: alternatives from left to right, [*] longest first,
    [*?] shortest first. [run] is that search in continuation-passing style. The
    expressions of registrator repeat character classes only, so the search
    recurses on the expression and on the string, and needs no fuel. *)
From S2P Require Import Prelude GoStrings.

Definition captures := list string.
Definition cont := string → captures → option captures.

Inductive regex :=
| Class (p : ascii → bool)
| Seq (r1 r2 : regex)
| Alt (r1 r2 : regex)
| Opt (r : regex)
| Many (p : ascii → bool)
| ManyLazy (p : ascii → bool)
| Group (r : regex).

Definition Lit (c : ascii) : regex := Class (λ a, bool_decide (a = c)).
Definition Many1 (p : ascii → bool) : regex := Seq (Class p) (Many p).
Definition Many1Lazy (p : ascii → bool) : regex := Seq (Class p) (ManyLazy p).

Definition or_else {A} (o1 o2 : option A) : option A :=
  match o1 with Some _ => o1 | None => o2 end.

Fixpoint many (p : ascii → bool) (s : string) (caps : captures) (k : cont) : option captures :=
  match s with
  | "" => k "" caps
  | String c s' => or_else (if p c then many p s' caps k else None) (k s caps)
  end.

Fixpoint many_lazy (p : ascii → bool) (s : string) (caps : captures) (k : cont)
    : option captures :=
  match s with
  | "" => k "" caps
  | String c s' => or_else (k s caps) (if p c then many_lazy p s' caps k else None)
  end.

(** The part of [s] before its suffix [rest]. *)
Definition consumed (s rest : string) : string :=
  stake (String.length s - String.length rest) s.

Fixpoint run (r : regex) (s : string) (caps : captures) (k : cont) : option captures :=
  match r with
  | Class p =>
      match s with
      | "" => None
      | String c s => if p c then k s caps else None
      end
  | Seq r1 r2 => run r1 s caps (λ s caps, run r2 s caps k)
  | Alt r1 r2 => or_else (run r1 s caps k) (run r2 s caps k)
  | Opt r => or_else (run r s caps k) (k s caps)
  | Many p => many p s caps k
  | ManyLazy p => many_lazy p s caps k
  | Group r => run r s caps (λ rest caps, k rest (caps ++ [consumed s rest]))
  end.

(** [FindStringSubmatch] of an expression between [^] and [$]: the groups. *)
Definition find_submatch (r : regex) (s : string) : option captures :=
  run r s [] (λ rest caps, if decide (rest = "") then Some caps else None).

Definition match_string (r : regex) (s : string) : bool :=
  bool_decide (is_Some (find_submatch r s)).

(** ** Lemmas *)
Fixpoint sforall (p : ascii → bool) (s : string) : bool :=
  match s with "" => true | String c s => p c && sforall p s end.

Lemma sforall_app p s t : sforall p (s +:+ t) = sforall p s && sforall p t.
Proof.
  induction s as [|c s IH]; [done|]. rewrite sapp_cons. simpl. by rewrite IH, andb_assoc.
Qed.

Lemma sforall_has_byte p c s : sforall p s = true → p c = false → has_byte c s = false.
Proof.
  induction s as [|a s IH]; [done|]. simpl. intros [Ha Hs]%andb_true_iff Hc.
  rewrite has_byte_cons, IH by done. apply orb_false_iff. split; [|done].
  apply bool_decide_eq_false. congruence.
Qed.

Lemma or_else_None {A} (o : option A) : or_else o None = o.
Proof. by destruct o. Qed.

Lemma consumed_app s t : consumed (s +:+ t) t = s.
Proof.
  unfold consumed. rewrite slength_app.
  replace (String.length s + String.length t - String.length t) with (String.length s) by lia.
  apply stake_app.
Qed.

(** When the continuation cannot start with a byte of the class, repetition
    takes all of them. *)
Lemma many_maximal p s t caps k :
  sforall p s = true →
  (∀ c u caps, p c = true → k (String c u) caps = None) →
  (∀ c u, t = String c u → p c = false) →
  many p (s +:+ t) caps k = k t caps.
Proof.
  intros Hs Hk Ht. induction s as [|c s IH].
  - rewrite sapp_nil_l. destruct t as [|c u]; [done|]. simpl. by rewrite (Ht c u).
  - simpl in Hs. apply andb_true_iff in Hs as [Hc Hs]. rewrite sapp_cons. simpl.
    rewrite Hc, IH, Hk by done. apply or_else_None.
Qed.

(** If such a repetition matches, it did so at the end of the class. *)
Lemma many_inv p s caps k r :
  (∀ c u caps, p c = true → k (String c u) caps = None) →
  many p s caps k = Some r →
  ∃ s1 t, s = s1 +:+ t ∧ sforall p s1 = true ∧ k t caps = Some r.
Proof.
  intros Hk. induction s as [|c s IH]; simpl; intros Hr; [by exists "", ""|].
  destruct (p c) eqn:Hc.
  - rewrite Hk, or_else_None in Hr by done. destruct (IH Hr) as (s1 & t & -> & Hs1 & Ht).
    exists (String c s1), t. simpl. by rewrite Hc, Hs1.
  - by exists "", (String c s).
Qed.

(** A lazy repetition stops at the first place where the continuation matches. *)
Lemma many_lazy_first p s t caps k r :
  sforall p s = true →
  (∀ u c v, s = u +:+ String c v → k (String c v +:+ t) caps = None) →
  k t caps = Some r →
  many_lazy p (s +:+ t) caps k = Some r.
Proof.
  intros Hs Hk Ht. induction s as [|c s IH].
  - rewrite sapp_nil_l. destruct t; simpl; [done|]. by rewrite Ht.
  - simpl in Hs. apply andb_true_iff in Hs as [Hc Hs]. rewrite sapp_cons. simpl.
    rewrite <- sapp_cons, (Hk "" c s eq_refl), Hc. simpl. apply IH; [done|].
    intros u d v ->. by apply (Hk (String c u)).
Qed.

Lemma many_lazy_inv p s caps k r :
  many_lazy p s caps k = Some r →
  ∃ s1 t, s = s1 +:+ t ∧ sforall p s1 = true ∧ k t caps = Some r.
Proof.
  induction s as [|c s IH]; simpl; intros Hr; [by exists "", ""|].
  destruct (k (String c s) caps) as [r'|] eqn:Hk; simpl in Hr.
  - simplify_eq. by exists "", (String c s).
  - destruct (p c) eqn:Hc; [|done]. destruct (IH Hr) as (s1 & t & -> & Hs1 & Ht).
    exists (String c s1), t. simpl. by rewrite Hc, Hs1.
Qed.

(** ** The language of an expression

    The search finds a match exactly when the string is in the language; the
    order of the search only decides which groups are reported. *)
Fixpoint lang (r : regex) (u : string) : Prop :=
  match r with
  | Class p => ∃ c, p c = true ∧ u = String c ""
  | Seq r1 r2 => ∃ u1 u2, u = u1 +:+ u2 ∧ lang r1 u1 ∧ lang r2 u2
  | Alt r1 r2 => lang r1 u ∨ lang r2 u
  | Opt r => lang r u ∨ u = ""
  | Many p | ManyLazy p => sforall p u = true
  | Group r => lang r u
  end.

(** A continuation that accepts or not, whatever the groups so far. *)
Definition accepts (k : cont) (ok : string → Prop) : Prop :=
  ∀ s caps, is_Some (k s caps) ↔ ok s.

Lemma or_else_Some {A} (o1 o2 : option A) :
  is_Some (or_else o1 o2) ↔ is_Some o1 ∨ is_Some o2.
Proof. destruct o1, o2; unfold is_Some; simpl; naive_solver. Qed.

Lemma many_accepts p k ok s caps : accepts k ok →
  is_Some (many p s caps k) ↔ ∃ u t, s = u +:+ t ∧ sforall p u = true ∧ ok t.
Proof.
  intros Hk. induction s as [|c s IH]; simpl.
  - rewrite (Hk "" caps). split; [by exists "", ""|].
    intros (u & t & Hst & Hu & Ht). destruct u, t; try discriminate Hst. done.
  - rewrite or_else_Some, (Hk _ caps). split.
    + intros [Hm|Hok]; [|by exists "", (String c s)].
      destruct (p c) eqn:Hc; [|by destruct Hm].
      apply IH in Hm as (u & t & -> & Hu & Ht). exists (String c u), t.
      rewrite sapp_cons. simpl. by rewrite Hc.
    + intros (u & t & Hst & Hu & Ht). destruct u as [|a u].
      * right. rewrite sapp_nil_l in Hst. by subst.
      * rewrite sapp_cons in Hst. injection Hst as <- ->. simpl in Hu.
        apply andb_true_iff in Hu as [Hc Hu]. rewrite Hc. left. apply IH. by exists u, t.
Qed.

Lemma many_lazy_accepts p k ok s caps : accepts k ok →
  is_Some (many_lazy p s caps k) ↔ ∃ u t, s = u +:+ t ∧ sforall p u = true ∧ ok t.
Proof.
  intros Hk. rewrite <- (many_accepts p k ok s caps Hk).
  induction s as [|c s IH]; simpl; [done|]. rewrite !or_else_Some.
  destruct (p c); [rewrite IH; tauto|]. tauto.
Qed.

Lemma run_accepts r k ok s caps : accepts k ok →
  is_Some (run r s caps k) ↔ ∃ u t, s = u +:+ t ∧ lang r u ∧ ok t.
Proof.
  revert k ok s caps. induction r as [p|r1 IH1 r2 IH2|r1 IH1 r2 IH2|r IH|p|p|r IH];
    intros k ok s caps Hk; simpl.
  - split.
    + destruct s as [|c s]; [by intros []|]. destruct (p c) eqn:Hc; [|by intros []].
      intros Hs%(Hk s caps). exists (String c ""), s. split; [done|]. split; [by exists c|done].
    + intros (u & t & -> & (c & Hc & ->) & Ht). rewrite sapp_cons, sapp_nil_l, Hc. by apply Hk.
  - rewrite (IH1 _ (λ s, ∃ u t, s = u +:+ t ∧ lang r2 u ∧ ok t)).
    2: { intros s' caps'. by apply IH2. }
    split.
    + intros (u1 & ? & -> & H1 & u2 & t & -> & H2 & Ht). exists (u1 +:+ u2), t.
      rewrite sapp_assoc. naive_solver.
    + intros (? & t & -> & (u1 & u2 & -> & H1 & H2) & Ht). exists u1, (u2 +:+ t).
      rewrite sapp_assoc. naive_solver.
  - rewrite or_else_Some, (IH1 k ok), (IH2 k ok) by done. naive_solver.
  - rewrite or_else_Some, (IH k ok), (Hk s caps) by done. split.
    + intros [?|Hs]; [naive_solver|]. exists "", s. naive_solver.
    + intros (u & t & -> & [Hu| ->] & Ht); [naive_solver|]. right. by rewrite sapp_nil_l.
  - by apply many_accepts.
  - by apply many_lazy_accepts.
  - apply IH. intros s' caps'. by apply Hk.
Qed.

Lemma match_string_lang r s : match_string r s = true ↔ lang r s.
Proof.
  unfold match_string, find_submatch. rewrite bool_decide_eq_true.
  rewrite (run_accepts r _ (λ t, t = "")).
  - split; [|intros Hs; exists s, ""; by rewrite sapp_nil_r].
    intros (u & t & -> & Hu & ->). by rewrite sapp_nil_r.
  - intros s' caps'. case_decide; split; intros; [done|by eexists|by destruct H0|done].
Qed.

(** Expressions without repetition, and all the strings they match. *)
Definition all_bytes : list ascii := ascii_of_nat <$> seq 0 256.

Fixpoint finite (r : regex) : bool :=
  match r with
  | Class _ => true
  | Seq r1 r2 | Alt r1 r2 => finite r1 && finite r2
  | Opt r | Group r => finite r
  | Many _ | ManyLazy _ => false
  end.

Fixpoint strings_of (r : regex) : list string :=
  match r with
  | Class p => (λ c, String c "") <$> List.filter p all_bytes
  | Seq r1 r2 => u ← strings_of r1; v ← strings_of r2; [u +:+ v]
  | Alt r1 r2 => strings_of r1 ++ strings_of r2
  | Opt r => strings_of r ++ [""]
  | Group r => strings_of r
  | Many _ | ManyLazy _ => []
  end.

Lemma all_bytes_elem c : c ∈ all_bytes.
Proof.
  apply list_elem_of_fmap. exists (nat_of_ascii c). split; [by rewrite ascii_nat_embedding|].
  apply elem_of_seq. pose proof (nat_ascii_bounded c). lia.
Qed.

Lemma strings_of_lang r u : finite r = true → lang r u ↔ u ∈ strings_of r.
Proof.
  revert u. induction r as [p|r1 IH1 r2 IH2|r1 IH1 r2 IH2|r IH|p|p|r IH];
    intros u Hf; cbn [lang strings_of finite] in *; try discriminate Hf;
    try apply andb_true_iff in Hf as [Hf1 Hf2].
  - rewrite list_elem_of_fmap. split.
    + intros (c & Hc & ->). exists c. split; [done|].
      apply list_elem_of_In, filter_In. split; [apply list_elem_of_In, all_bytes_elem|done].
    + intros (c & -> & [_ Hc]%list_elem_of_In%filter_In). by exists c.
  - rewrite list_elem_of_bind. setoid_rewrite list_elem_of_bind.
    setoid_rewrite list_elem_of_singleton. split.
    + intros (u1 & u2 & -> & H1 & H2). exists u1. split; [|by apply IH1].
      exists u2. split; [done|by apply IH2].
    + intros (u1 & (u2 & -> & H2) & H1). exists u1, u2.
      split; [done|]. split; [by apply IH1|by apply IH2].
  - rewrite elem_of_app, IH1, IH2 by done. done.
  - rewrite elem_of_app, IH, list_elem_of_singleton by done. done.
  - by apply IH.
Qed.
