(* ===== verification/ServiceId.v ===== *)
(** * Service identifiers: the ID of bridge/bridge.go and [serviceIDPattern]

    [newService] names a service <hostname>:<container>:<port>[:udp]; cleanup
    finds out with [serviceIDPattern] whether a listed service is one of this
    host's, and which container it belongs to. *)
From S2P Require Import Prelude GoStrings Regex.

(** Byte ranges of the pattern. *)
Definition between (lo hi : nat) (c : ascii) : bool :=
  bool_decide (lo ≤ nat_of_ascii c ≤ hi).
Definition is_digit : ascii → bool := between 48 57.
Definition is_alnum (c : ascii) : bool :=
  between 97 122 c || between 65 90 c || is_digit c.
Definition is_name_byte (c : ascii) : bool :=
  is_alnum c || bool_decide (c ∈ ["_"; "."; "-"]%char).
(** [.] matches anything but a newline. *)
Definition any_byte (c : ascii) : bool := negb (between 10 10 c).

(** [:([a-zA-Z0-9][a-zA-Z0-9_.-]+):[0-9]+(?::udp)?] *)
Definition id_tail : regex :=
  Seq (Lit ":") (Seq (Group (Seq (Class is_alnum) (Many1 is_name_byte)))
  (Seq (Lit ":") (Seq (Many1 is_digit)
  (Opt (Seq (Lit ":") (Seq (Lit "u") (Seq (Lit "d") (Lit "p")))))))).

(** [^(.+?):([a-zA-Z0-9][a-zA-Z0-9_.-]+):[0-9]+(?::udp)?$] *)
Definition serviceIDPattern : regex := Seq (Group (Many1Lazy any_byte)) id_tail.

(** The hostname and the container name, when [len(matches) == 3]. *)
Definition parse_service_id (id : string) : option (string * string) :=
  match find_submatch serviceIDPattern id with
  | Some [host; name] => Some (host, name)
  | _ => None
  end.

(** [hostname + ":" + container.Name[1:] + ":" + port.ExposedPort], with
    [":udp"] added for a UDP port. *)
Definition service_id (hostname name exposed_port port_type : string) : string :=
  let id := hostname +:+ ":" +:+ name +:+ ":" +:+ exposed_port in
  if decide (port_type = "udp") then id +:+ ":udp" else id.

(** A name Docker gives a container, after its slash: an alphanumeric byte and
    then at least one byte of the name class. *)
Definition docker_name (s : string) : bool :=
  match s with
  | String a (String b s) => is_alnum a && is_name_byte b && sforall is_name_byte s
  | _ => false
  end.

Definition number (s : string) : bool := bool_decide (s ≠ "") && sforall is_digit s.

Definition single_line (s : string) : bool := sforall any_byte s.

Definition udp_suffix (u : string) : Prop := u = "" ∨ u = ":udp".

(** ** The tail of the pattern *)
Definition at_end : cont := λ rest caps, if decide (rest = "") then Some caps else None.

Lemma run_lit c s caps k :
  run (Lit c) s caps k =
  match s with
  | String a s => if decide (a = c) then k s caps else None
  | "" => None
  end.
Proof. destruct s as [|a s]; [done|]. unfold Lit. simpl. by repeat case_decide. Qed.

Lemma run_udp s caps :
  run (Seq (Lit ":") (Seq (Lit "u") (Seq (Lit "d") (Lit "p")))) s caps at_end =
  if decide (s = ":udp") then Some caps else None.
Proof.
  cbn [run]. rewrite run_lit. destruct s as [|a s]; [done|]. case_decide as Ha.
  2:{ rewrite decide_False; [done|congruence]. }
  subst. rewrite run_lit. destruct s as [|a s]; [done|]. case_decide as Ha.
  2:{ rewrite decide_False; [done|congruence]. }
  subst. rewrite run_lit. destruct s as [|a s]; [done|]. case_decide as Ha.
  2:{ rewrite decide_False; [done|congruence]. }
  subst. rewrite run_lit. destruct s as [|a s]; [done|]. case_decide as Ha.
  2:{ rewrite decide_False; [done|congruence]. }
  subst. unfold at_end. case_decide; [by subst|]. rewrite decide_False; [done|congruence].
Qed.

#[export] Instance udp_suffix_dec u : Decision (udp_suffix u).
Proof. unfold udp_suffix. apply _. Defined.


Lemma run_opt_udp s caps :
  run (Opt (Seq (Lit ":") (Seq (Lit "u") (Seq (Lit "d") (Lit "p"))))) s caps at_end =
  if decide (udp_suffix s) then Some caps else None.
Proof.
  cbn [run]. fold run. change (run (Lit ":") s caps _) with
    (run (Seq (Lit ":") (Seq (Lit "u") (Seq (Lit "d") (Lit "p")))) s caps at_end).
  rewrite run_udp. unfold udp_suffix, at_end. repeat case_decide; naive_solver.
Qed.

Lemma udp_not_digit c u : is_digit c = true → ¬ udp_suffix (String c u).
Proof. intros Hc [[=]|[= -> _]]. by vm_compute in Hc. Qed.

(** [[0-9]+(?::udp)?] up to the end of the string. *)
Lemma run_number s caps r :
  run (Seq (Many1 is_digit)
        (Opt (Seq (Lit ":") (Seq (Lit "u") (Seq (Lit "d") (Lit "p")))))) s caps at_end = Some r ↔
  r = caps ∧ ∃ p u, s = p +:+ u ∧ number p = true ∧ udp_suffix u.
Proof.
  unfold Many1. cbn [run].
  set (k := λ s caps, or_else _ (at_end s caps)).
  assert (∀ s caps, k s caps = if decide (udp_suffix s) then Some caps else None) as Hk.
  { intros s' caps'. apply run_opt_udp. }
  assert (∀ c u caps, is_digit c = true → k (String c u) caps = None) as Hdig.
  { intros c u caps' Hc. rewrite Hk, decide_False; [done|]. by apply udp_not_digit. }
  destruct s as [|c s]; [split; [done|]|].
  { intros (-> & p & u & Hp & Hn & _). symmetry in Hp. apply sapp_eq_nil in Hp as [-> ->].
    by vm_compute in Hn. }
  destruct (is_digit c) eqn:Hc; simpl.
  - split.
    + intros (s1 & t & -> & Hs1 & Ht)%many_inv; [|done]. rewrite Hk in Ht.
      case_decide; [|done]. simplify_eq. split; [done|]. exists (String c s1), t.
      rewrite sapp_cons. unfold number. simpl. by rewrite Hc, Hs1.
    + intros (-> & p & u & Hp & Hn & Hu). unfold number in Hn.
      apply andb_true_iff in Hn as [Hne%bool_decide_eq_true Hn].
      destruct p as [|c' p]; [done|]. rewrite sapp_cons in Hp. injection Hp as <- ->.
      simpl in Hn. apply andb_true_iff in Hn as [_ Hn].
      rewrite many_maximal; [by rewrite Hk, decide_True|done|done|].
      intros c' u' ->. destruct (is_digit c') eqn:Hc'; [|done]. by apply udp_not_digit in Hu.
  - split; [done|]. intros (-> & p & u & Hp & Hn & Hu). unfold number in Hn.
    apply andb_true_iff in Hn as [Hne%bool_decide_eq_true Hn].
    destruct p as [|c' p]; [done|]. rewrite sapp_cons in Hp. injection Hp as <- ->.
    simpl in Hn. by rewrite Hc in Hn.
Qed.

Lemma colon_not_name : is_name_byte ":" = false.
Proof. by vm_compute. Qed.

Lemma docker_name_bytes name : docker_name name = true → sforall is_name_byte name = true.
Proof.
  destruct name as [|a [|b s]]; [done|done|]. simpl.
  intros [[Ha Hb]%andb_true_iff Hs]%andb_true_iff. rewrite Hb, Hs, andb_true_r.
  unfold is_name_byte. by rewrite Ha.
Qed.

(** [([a-zA-Z0-9][a-zA-Z0-9_.-]+)] before a colon. *)
Lemma run_name s caps (k : cont) r :
  run (Group (Seq (Class is_alnum) (Many1 is_name_byte))) s caps
      (λ s caps, run (Lit ":") s caps k) = Some r ↔
  ∃ name t, s = name +:+ String ":" t ∧ docker_name name = true ∧
            k t (caps ++ [name]) = Some r.
Proof.
  unfold Many1. cbn [run].
  assert (∀ (f : string → string) c u (caps : captures), is_name_byte c = true →
    run (Lit ":") (String c u) (caps ++ [f (String c u)]) k = None) as Hk.
  { intros f c u caps' Hc. rewrite run_lit, decide_False; [done|]. intros ->.
    by rewrite colon_not_name in Hc. }
  split.
  - destruct s as [|a s]; [done|]. destruct (is_alnum a) eqn:Ha; [|done].
    destruct s as [|b s]; [done|]. destruct (is_name_byte b) eqn:Hb; [|done].
    intros (s1 & t & -> & Hs1 & Ht)%many_inv.
    2:{ intros c u caps' Hc. by apply (Hk (consumed _)). }
    rewrite run_lit in Ht. destruct t as [|c t]; [done|]. case_decide; [|done]. subst.
    rewrite <- !sapp_cons in Ht. rewrite <- !sapp_cons.
    rewrite consumed_app in Ht.
    exists (String a (String b s1)), t. split; [done|]. split; [|done].
    simpl. by rewrite Ha, Hb, Hs1.
  - intros (name & t & -> & Hn & Ht). destruct name as [|a [|b name]]; [done|done|].
    simpl in Hn. apply andb_true_iff in Hn as [[Ha Hb]%andb_true_iff Hn].
    rewrite !sapp_cons, Ha, Hb, many_maximal; [|done| |].
    + rewrite run_lit, decide_True by done. rewrite <- !sapp_cons, consumed_app. done.
    + intros c u caps' Hc. by apply (Hk (consumed _)).
    + intros c u [= <- _]. by apply colon_not_name.
Qed.

Lemma run_id_tail s caps r :
  run id_tail s caps at_end = Some r ↔
  ∃ name port u, s = String ":" (name +:+ String ":" (port +:+ u)) ∧
    docker_name name = true ∧ number port = true ∧ udp_suffix u ∧ r = caps ++ [name].
Proof.
  unfold id_tail. set (num := Seq (Many1 is_digit) _).
  change (run (Seq (Lit ":") _) s caps at_end) with
    (run (Lit ":") s caps (λ s caps,
       run (Group (Seq (Class is_alnum) (Many1 is_name_byte))) s caps
         (λ s caps, run (Lit ":") s caps (λ s caps, run num s caps at_end)))).
  rewrite run_lit. destruct s as [|c s]; [naive_solver|]. case_decide as Hc.
  2:{ split; [done|]. intros (name & port & u & [= ? _] & _). congruence. }
  subst. rewrite run_name. unfold num. setoid_rewrite run_number. naive_solver.
Qed.

(** ** The whole pattern *)
Lemma find_submatch_sound s caps :
  find_submatch serviceIDPattern s = Some caps →
  ∃ host name port u,
    s = host +:+ ":" +:+ name +:+ ":" +:+ port +:+ u ∧ caps = [host; name] ∧
    host ≠ "" ∧ single_line host = true ∧ docker_name name = true ∧
    number port = true ∧ udp_suffix u.
Proof.
  unfold find_submatch, serviceIDPattern, Many1Lazy. cbn [run]. fold at_end.
  destruct s as [|c s]; [done|]. destruct (any_byte c) eqn:Hc; [|done].
  intros (s1 & t & -> & Hs1 & Ht)%many_lazy_inv.
  apply run_id_tail in Ht as (name & port & u & -> & Hn & Hp & Hu & ->).
  rewrite <- sapp_cons, consumed_app.
  exists (String c s1), name, port, u. unfold single_line. simpl. rewrite Hc, Hs1.
  by rewrite sapp_cons.
Qed.

(** Cutting the hostname too early leaves text the tail does not match: it has
    too many colons, or ends like a port and not like [":udp"]. *)
Lemma id_tail_unique v name port u caps :
  docker_name name = true → number port = true → udp_suffix u → v ≠ "" →
  run id_tail (v +:+ ":" +:+ name +:+ ":" +:+ port +:+ u) caps at_end = None.
Proof.
  intros Hn Hp Hu Hv. destruct (run id_tail _ _ _) as [r|] eqn:Hrun; [exfalso|done].
  apply run_id_tail in Hrun as (name' & port' & u' & Heq & Hn' & Hp' & Hu' & _).
  assert (∀ p, number p = true → has_byte ":" p = false) as Hnum.
  { intros p [_ H]%andb_true_iff. eapply sforall_has_byte; [done|]. by vm_compute. }
  assert (∀ m, docker_name m = true → has_byte ":" m = false) as Hname.
  { intros m Hm%docker_name_bytes. eapply sforall_has_byte; [done|]. by vm_compute. }
  destruct v as [|c v]; [done|]. rewrite sapp_cons in Heq. injection Heq as -> Heq.
  pose proof (f_equal (count_byte ":") Heq) as Hcount.
  assert (∀ s, count_byte ":" (String ":" s) = S (count_byte ":" s)) as Hcolon by done.
  rewrite !count_byte_app, !Hcolon, !count_byte_app in Hcount.
  change (count_byte ":" "") with 0 in Hcount.
  rewrite (count_byte_zero _ name), (count_byte_zero _ port),
    (count_byte_zero _ name'), (count_byte_zero _ port') in Hcount by auto.
  destruct Hu as [-> | ->], Hu' as [-> | ->]; simpl in Hcount; try lia.
  apply andb_true_iff in Hp as [Hne%bool_decide_eq_true Hp].
  apply string_last in Hne as (port0 & d & ->).
  rewrite sforall_app in Hp. apply andb_true_iff in Hp as [_ Hd].
  rewrite sapp_nil_r in Heq. change ":udp" with (":ud" +:+ String "p" "") in Heq.
  rewrite <- !sapp_cons, <- !sapp_assoc in Heq. apply snoc_inj in Heq as [_ ->].
  by vm_compute in Hd.
Qed.

Lemma find_submatch_complete host name port u :
  host ≠ "" → single_line host = true → docker_name name = true →
  number port = true → udp_suffix u →
  find_submatch serviceIDPattern (host +:+ ":" +:+ name +:+ ":" +:+ port +:+ u) =
  Some [host; name].
Proof.
  intros Hne Hl Hn Hp Hu. destruct host as [|c host]; [done|].
  unfold find_submatch, serviceIDPattern, Many1Lazy. cbn [run]. fold at_end.
  rewrite sapp_cons. unfold single_line in Hl. simpl in Hl.
  apply andb_true_iff in Hl as [Hc Hl]. rewrite Hc.
  apply many_lazy_first; [done|..].
  - intros w d v _. by apply id_tail_unique.
  - rewrite <- sapp_cons, consumed_app. apply run_id_tail. by exists name, port, u.
Qed.

Lemma service_id_shape hostname name port pt :
  ∃ u, udp_suffix u ∧
    service_id hostname name port pt = hostname +:+ ":" +:+ name +:+ ":" +:+ port +:+ u.
Proof.
  unfold service_id. case_decide; [exists ":udp"|exists ""]; unfold udp_suffix.
  - split; [auto|]. by rewrite !sapp_assoc.
  - split; [auto|]. by rewrite sapp_nil_r.
Qed.

Lemma parse_service_id_complete hostname name port pt :
  hostname ≠ "" → single_line hostname = true → docker_name name = true →
  number port = true →
  parse_service_id (service_id hostname name port pt) = Some (hostname, name).
Proof.
  intros Hne Hl Hn Hp. destruct (service_id_shape hostname name port pt) as (u & Hu & ->).
  unfold parse_service_id. by rewrite find_submatch_complete.
Qed.

(** The ID registrator gives a service is recognised by [serviceIDPattern],
    and gives back the hostname and the container name, whatever colons the
    hostname contains. *)
Theorem service_id_roundtrip hostname name port pt :
  hostname ≠ "" → single_line hostname = true →
  docker_name name = true → number port = true →
  parse_service_id (service_id hostname name port pt) = Some (hostname, name).
Proof. apply parse_service_id_complete. Qed.

Lemma service_id_roundtrip_witness :
  parse_service_id "fe80::1:redis.0:53:udp" = Some ("fe80::1", "redis.0").
Proof. apply (service_id_roundtrip "fe80::1" "redis.0" "53" "udp"); done. Defined.

(** An ID the pattern accepts has the shape registrator generates: the
    cleanup never takes another identifier for one of its own. *)
Theorem parse_service_id_sound id host name :
  parse_service_id id = Some (host, name) →
  ∃ port pt, id = service_id host name port pt ∧ host ≠ "" ∧
    docker_name name = true ∧ number port = true.
Proof.
  unfold parse_service_id. destruct (find_submatch serviceIDPattern id) eqn:Hm; [|done].
  apply find_submatch_sound in Hm as (h & n & port & u & -> & -> & Hne & _ & Hn & Hp & Hu).
  intros [= -> ->]. destruct Hu as [-> | ->].
  - exists port, "tcp". rewrite sapp_nil_r. done.
  - exists port, "udp". unfold service_id. rewrite decide_True by done.
    by rewrite !sapp_assoc.
Qed.

Lemma parse_service_id_sound_witness :
  ∃ port pt, "test:test:0" = service_id "test" "test" port pt ∧ "test" ≠ "" ∧
    docker_name "test" = true ∧ number port = true.
Proof. apply (parse_service_id_sound "test:test:0" "test" "test"). vm_compute. reflexivity. Defined.
