(* ===== verification/NewService.v ===== *)
(** * From a container port to a service: [newService] of bridge/bridge.go

    [newService] reads Docker (for a container that shares another one's
    network), the configuration and the host; its one side effect is on the
    container's label map, which [serviceMetaData] merges the environment into.
    The container is shared by all ports of one [add] and by the services made
    from them, so the definition returns it as the call leaves it. *)
From S2P Require Import Prelude GoStrings Types Tags Metadata ServiceId.

(** The variable [Hostname], and [net.ResolveIPAddr] as the host answers it. *)
Module Host.
Record t := mk {
  Hostname : string;
  ResolveIPAddr : string → option string
}.
End Host.

(** [strings.Split(path.Base(container.Config.Image), ":")[0]] *)
Definition default_name (image : string) : string :=
  match Split (path_Base image) ":" with n :: _ => n | [] => "" end.

Definition service_hostname (host : Host.t) (port : ServicePort.t) : string :=
  if decide (Host.Hostname host = "") then ServicePort.HostIP port
  else Host.Hostname host.

(** The host address of the port: the resolved hostname in place of
    [0.0.0.0], and above all the configured one. *)
Definition host_ip (config : Config.t) (host : Host.t) (port : ServicePort.t) : string :=
  let ip :=
    if decide (ServicePort.HostIP port = "0.0.0.0")
    then default (ServicePort.HostIP port)
           (Host.ResolveIPAddr host (service_hostname host port))
    else ServicePort.HostIP port in
  if decide (Config.HostIp config ≠ "") then Config.HostIp config else ip.

(** A port that does not parse is logged, and left at 0. *)
Definition convert_port (text : string) : Z :=
  match Atoi text with (p, None) => p | (_, Some _) => 0%Z end.

(** The text before the last slash of the label's value. *)
Definition label_ip (containerIp : string) : string :=
  match LastIndex containerIp "/" with
  | Some slashIndex => stake slashIndex containerIp
  | None => containerIp
  end.

Definition ip_from_label (config : Config.t) (labels : option (gmap string string))
    (ip : string) : string :=
  if decide (Config.UseIpFromLabel config ≠ "") then
    let containerIp := map_get (default ∅ labels) (Config.UseIpFromLabel config) in
    if decide (containerIp ≠ "") then label_ip containerIp else ip
  else ip.

(** The address of the container whose network this one uses, if any. *)
Definition ip_from_network (docker : DockerClient.t) (networkMode ip : string)
    : outcome string :=
  if HasPrefix networkMode "container:" then
    let networkContainerId :=
      match Split networkMode ":" with _ :: id :: _ => id | _ => "" end in
    _ ← slice_to networkContainerId 12;
    match DockerClient.InspectContainer docker networkContainerId with
    | inr _ => mret ip
    | inl networkContainer =>
        mret (NetworkSettings.IPAddress (Container.NetworkSettings networkContainer))
    end
  else mret ip.

(** The loop that copies the ECS labels into the metadata. *)
Definition add_ecs_labels (metadata : gmap string string) (labels : list (string * string))
    : gmap string string :=
  foldl (λ md kv, if Contains kv.1 "com.amazonaws.ecs" then <[kv.1 := kv.2]> md else md)
    metadata labels.

(** The guards of [newService]: no ignore flag, the register label when it is
    required, and a name of its own. *)
Definition ignored (metadata : gmap string string) : bool :=
  bool_decide (mapDefault metadata "ignore" "" ≠ "").

Definition register_missing (config : Config.t) (metadata : gmap string string) : bool :=
  Config.RequireLabel config &&
  bool_decide (ToLower (mapDefault metadata "register" "false") = "false").

Definition newService `{MapOrder} (config : Config.t) (host : Host.t)
    (docker : DockerClient.t) (container : Container.t) (port : ServicePort.t)
    (isgroup : bool) : outcome (Container.t * option Service.t) :=
  let defaultName := default_name (DockerConfig.Image (Container.Config container)) in
  let hostname := service_hostname host port in
  let port := ServicePort.set_HostIP (host_ip config host port) port in
  '(cfg, (metadata, metadataFromPort)) ←
    serviceMetaData (Container.Config container) (ServicePort.ExposedPort port);
  let container := Container.set_Config cfg container in
  let port := ServicePort.set_container container port in
  if ignored metadata then mret (container, None) else
  if register_missing config metadata then mret (container, None) else
  containerName ← slice_from (Container.Name container) 1;
  let id := hostname +:+ ":" +:+ containerName +:+ ":" +:+ ServicePort.ExposedPort port in
  let name := mapDefault metadata "name" defaultName in
  if decide (name = defaultName) then mret (container, None) else
  let useExposedPorts :=
    bool_decide (ToLower (mapDefault metadata "use_exposed_ports" "false") = "true") in
  let name :=
    if isgroup && negb (bool_decide ("name" ∈ metadataFromPort))
    then name +:+ "-" +:+ ServicePort.ExposedPort port else name in
  let ip := if Config.Internal config then ServicePort.ExposedIP port
            else ServicePort.HostIP port in
  let convertedPort :=
    if Config.Internal config || useExposedPorts
    then convert_port (ServicePort.ExposedPort port)
    else convert_port (ServicePort.HostPort port) in
  let ip := ip_from_label config (DockerConfig.Labels cfg) ip in
  ip ← ip_from_network docker (Container.NetworkMode container) ip;
  let udp := bool_decide (ServicePort.PortType port = "udp") in
  tags ← combineTags ([mapDefault metadata "tags" ""; Config.ForceTags config] ++
                      (if udp then ["udp"] else []));
  let id := if udp then id +:+ ":udp" else id in
  let metadata := add_ecs_labels metadata (range (default ∅ (DockerConfig.Labels cfg))) in
  let override := mapDefault metadata "id" "" in
  let id := if decide (override ≠ "") then override else id in
  let attrs := delete "name" (delete "tags" (delete "id" metadata)) in
  mret (container, Some
    {| Service.ID := id;
       Service.Name := name;
       Service.Port := convertedPort;
       Service.IP := ip;
       Service.UseExposedPorts := useExposedPorts;
       Service.Tags := tags;
       Service.Attrs := attrs;
       Service.TTL := Config.RefreshTtl config;
       Service.Origin := port |}).

(** ** What [newService] returns *)
Section newService.
Context `{O : MapOrder} (config : Config.t) (host : Host.t) (docker : DockerClient.t).
Implicit Types (container : Container.t) (port : ServicePort.t) (s : Service.t).

(** The container as [newService] leaves it. *)
Definition with_labels (container : Container.t) (labels : option (gmap string string))
    : Container.t :=
  Container.set_Config (DockerConfig.set_Labels labels (Container.Config container)) container.

(** [n] is what [s] has before its first colon. *)
Definition before_colon (s n : string) : Prop :=
  has_byte ":" n = false ∧ (s = n ∨ ∃ t, s = n +:+ String ":" t).

(** An environment that cannot be merged into the labels: there is no label map to
    write to, or an entry has no equals sign. Docker documents such entries. *)
Definition unreadable_env (cfg : DockerConfig.t) : Prop :=
  DockerConfig.Env cfg ≠ [] ∧
  (DockerConfig.Labels cfg = None ∨ ∃ v, v ∈ DockerConfig.Env cfg ∧ has_byte "=" v = false).

(** The network is that of a container whose ID is cut short. *)
Definition short_network container : Prop :=
  ∃ rest id, Container.NetworkMode container = "container:" +:+ rest ∧ before_colon rest id ∧
             String.length id < 12.

(** A container on which [newService] does not panic: its environment can be read, it
    has a name, and the container whose network it may share is given by a full ID. *)
Definition inspectable container : Prop :=
  ¬ unreadable_env (Container.Config container) ∧ Container.Name container ≠ "" ∧
  ¬ short_network container.

(** The metadata do not say to ignore the container, and say to register it if that
    is required. *)
Definition wanted (metadata : gmap string string) : Prop :=
  (∀ v, metadata !! "ignore" = Some v → v = "") ∧
  (Config.RequireLabel config = true →
   ∃ v, metadata !! "register" = Some v ∧ v ≠ "" ∧ ToLower v ≠ "false").

(** They give a name, and it is not that of the image without its path and tag. *)
Definition own_name (metadata : gmap string string) (image : string) : Prop :=
  ∃ n, metadata !! "name" = Some n ∧ n ≠ "" ∧ ¬ before_colon (path_Base image) n.

Lemma before_colon_Split (s n : string) : before_colon s n ↔ ∃ l, Split s ":" = n :: l.
Proof.
  split.
  - intros [Hn [->|[t ->]]]; [rewrite Split_None by done|rewrite Split_app by done]; by eexists.
  - destruct (cut_spec s ":") as [[Hs _]|(p & t & -> & Hp & _)].
    + rewrite Split_None by done. intros [l [= <- _]]. split; [done|by left].
    + rewrite Split_app by done. intros [l [= <- _]]. split; [done|right; by eexists].
Qed.

Lemma default_name_before image n : default_name image = n ↔ before_colon (path_Base image) n.
Proof.
  rewrite before_colon_Split. unfold default_name.
  destruct (Split (path_Base image) ":") as [|m l] eqn:Hs; [by apply Split_nonempty in Hs|].
  split; [intros <-; by eexists|by intros [? [= -> _]]].
Qed.

Lemma unreadable_merge cfg :
  (unreadable_env cfg ∧ merge_env (DockerConfig.Labels cfg) (DockerConfig.Env cfg) = Panicked) ∨
  (¬ unreadable_env cfg ∧ well_formed_env (DockerConfig.Env cfg) = true ∧
   ∃ labels, merge_env (DockerConfig.Labels cfg) (DockerConfig.Env cfg) = Ok labels).
Proof.
  assert (∀ v, env_entry v = None ↔ has_byte "=" v = false) as Hentry.
  { intros v. unfold env_entry. destruct (cut_spec v "=") as [[Hv ->]|(p & t & -> & _ & ->)]; [done|].
    split; [done|]. by rewrite has_byte_app, has_byte_cons, bool_decide_eq_true_2, orb_true_r by done. }
  rewrite merge_env_spec. unfold unreadable_env. destruct (DockerConfig.Env cfg) as [|v env] eqn:He.
  { right. split; [by intros [? _]|]. split; [done|by eexists]. }
  destruct (DockerConfig.Labels cfg) as [l|]; [|left; split; [|done]; split; [done|by left]].
  rewrite <- He. destruct (well_formed_env (DockerConfig.Env cfg)) eqn:Hw.
  - right. split; [|split; [done|by eexists]]. intros [_ [[=]|(w & Hin & Hb)]].
    apply Hentry in Hb. unfold well_formed_env in Hw. rewrite forallb_forall in Hw.
    apply list_elem_of_In, Hw in Hin. apply bool_decide_eq_true in Hin as [? ?]. congruence.
  - left. split; [|done]. split; [by rewrite He|right]. apply not_true_iff_false in Hw.
    destruct (decide (Forall (λ w, is_Some (env_entry w)) (DockerConfig.Env cfg))) as [Ha|Ha].
    { destruct Hw. apply forallb_forall. intros w Hin%list_elem_of_In.
      apply bool_decide_eq_true. by eapply Forall_forall in Ha. }
    apply not_Forall_Exists, Exists_exists in Ha as (w & Hin & Hn); [|apply _].
    exists w. split; [done|]. by apply Hentry, eq_None_not_Some.
Qed.

(** The ID that the network mode names. *)
Lemma network_id container :
  (HasPrefix (Container.NetworkMode container) "container:" = false ∧ ¬ short_network container) ∨
  (HasPrefix (Container.NetworkMode container) "container:" = true ∧
   (short_network container ↔
    String.length (match Split (Container.NetworkMode container) ":" with
                   | _ :: id :: _ => id | _ => "" end) < 12)).
Proof.
  unfold short_network. destruct (HasPrefix _ _) eqn:Hp; [right|left]; (split; [done|]).
  - apply prefix_true in Hp. rewrite Hp.
    generalize (sdrop (String.length "container:") (Container.NetworkMode container)). intros rest. clear Hp.
    change ("container:" +:+ rest) with ("container" +:+ String ":" rest). rewrite Split_app by done.
    destruct (Split rest ":") as [|id l] eqn:Hs; [by apply Split_nonempty in Hs|].
    split.
    + intros (rest' & id' & Heq & Hb & Hl). apply (inj (String.append "container:")) in Heq as <-.
      apply before_colon_Split in Hb as [l' Hb]. rewrite Hs in Hb. by simplify_eq.
    + intros Hl. exists rest, id. split; [done|]. split; [|done]. apply before_colon_Split. by eexists.
  - intros (rest & id & Hm & _). rewrite Hm in Hp. unfold HasPrefix in Hp. by rewrite prefix_app in Hp.
Qed.

Lemma wanted_guards md : wanted md ↔ ignored md = false ∧ register_missing config md = false.
Proof.
  unfold wanted, ignored, register_missing, mapDefault. rewrite andb_false_iff, !bool_decide_eq_false.
  apply Morphisms_Prop.and_iff_morphism.
  - destruct (md !! "ignore") as [v|]; [|naive_solver]. case_decide; naive_solver.
  - destruct (Config.RequireLabel config); [|naive_solver].
    destruct (md !! "register") as [v|]; [|naive_solver]. case_decide; naive_solver.
Qed.

Lemma own_name_guard md image :
  own_name md image ↔ mapDefault md "name" (default_name image) ≠ default_name image.
Proof.
  unfold own_name, mapDefault. destruct (md !! "name") as [v|]; [|naive_solver].
  setoid_rewrite <- default_name_before. case_decide; naive_solver.
Qed.

Lemma serviceMetaData_config cfg p cfg' r :
  serviceMetaData cfg p = Ok (cfg', r) →
  ∃ labels, cfg' = DockerConfig.set_Labels labels cfg ∧
    merge_env (DockerConfig.Labels cfg) (DockerConfig.Env cfg) = Ok labels.
Proof.
  unfold serviceMetaData. destruct (merge_env _ _) as [labels| | |] eqn:Hm; simpl; try done.
  intros [= <- <-]. by exists labels.
Qed.

Lemma slice_from_1 (s t : string) : slice_from s 1 = Ok t → ∃ c, s = String c t.
Proof.
  unfold slice_from. case_decide as Hl; [|done]. destruct s as [|c s]; [simpl in Hl; lia|].
  simpl. intros [= ->]. by exists c.
Qed.

(** The fields of a service that was made, and the guards it passed. *)
Lemma newService_inv container port isgroup container' s :
  newService config host docker container port isgroup = Ok (container', Some s) →
  ∃ cfg metadata fromPort slash name ip0 ip,
    let ep := ServicePort.ExposedPort port in
    let port' := ServicePort.set_container container'
                   (ServicePort.set_HostIP (host_ip config host port) port) in
    let useExposed :=
      bool_decide (ToLower (mapDefault metadata "use_exposed_ports" "false") = "true") in
    let all := add_ecs_labels metadata (range (default ∅ (DockerConfig.Labels cfg))) in
    serviceMetaData (Container.Config container) ep = Ok (cfg, (metadata, fromPort)) ∧
    container' = Container.set_Config cfg container ∧
    ignored metadata = false ∧ register_missing config metadata = false ∧
    Container.Name container = String slash name ∧
    mapDefault metadata "name" (default_name (DockerConfig.Image (Container.Config container)))
      ≠ default_name (DockerConfig.Image (Container.Config container)) ∧
    ip0 = ip_from_label config (DockerConfig.Labels cfg)
            (if Config.Internal config then ServicePort.ExposedIP port
             else host_ip config host port) ∧
    ip_from_network docker (Container.NetworkMode container) ip0 = Ok ip ∧
    Service.ID s = (if decide (mapDefault all "id" "" ≠ "") then mapDefault all "id" ""
                    else service_id (service_hostname host port) name ep
                           (ServicePort.PortType port)) ∧
    Service.Name s =
      (let n := mapDefault metadata "name"
                  (default_name (DockerConfig.Image (Container.Config container))) in
       if isgroup && negb (bool_decide ("name" ∈ fromPort)) then n +:+ "-" +:+ ep else n) ∧
    Service.Port s = convert_port (if Config.Internal config || useExposed then ep
                                   else ServicePort.HostPort port) ∧
    Service.IP s = ip ∧
    Service.UseExposedPorts s = useExposed ∧
    combineTags ([mapDefault metadata "tags" ""; Config.ForceTags config] ++
      (if bool_decide (ServicePort.PortType port = "udp") then ["udp"] else []))
      = Ok (Service.Tags s) ∧
    Service.Attrs s = delete "name" (delete "tags" (delete "id" all)) ∧
    Service.TTL s = Config.RefreshTtl config ∧
    Service.Origin s = port'.
Proof.
  unfold newService. cbn [ServicePort.ExposedPort ServicePort.set_HostIP].
  destruct (serviceMetaData _ _) as [[cfg [md fp]]| | |] eqn:Hmd; try done.
  unfold mbind, outcome_bind, mret, outcome_ret.
  destruct (ignored md) eqn:Hign; [done|].
  destruct (register_missing config md) eqn:Hreg; [done|].
  destruct (slice_from _ _) as [name| | |] eqn:Hname; try done.
  apply slice_from_1 in Hname as [slash Hname]. case_decide as Hdef; [done|].
  destruct (ip_from_network _ _ _) as [ip| | |] eqn:Hip; try done.
  destruct (combineTags _) as [tags| | |] eqn:Htags; try done.
  intros [= <- <-]. eexists cfg, md, fp, slash, name, _, ip. simpl in *.
  repeat (split; [done|]). split; [|split; [done|]; split; [by destruct (_ || _)|done]].
  f_equal. unfold service_id.
  destruct (decide (ServicePort.PortType port = "udp")); [by rewrite bool_decide_eq_true_2|].
  by rewrite bool_decide_eq_false_2.
Qed.

Lemma add_ecs_labels_lookup metadata labels k :
  Contains k "com.amazonaws.ecs" = false →
  add_ecs_labels metadata labels !! k = metadata !! k.
Proof.
  intros Hk. unfold add_ecs_labels. revert metadata.
  induction labels as [|[k' v] labels IH]; intros metadata; [done|]. simpl. rewrite IH.
  destruct (Contains k' "com.amazonaws.ecs") eqn:Hk'; [|done].
  apply lookup_insert_ne. congruence.
Qed.

Lemma mapDefault_ecs metadata labels k d :
  Contains k "com.amazonaws.ecs" = false →
  mapDefault (add_ecs_labels metadata labels) k d = mapDefault metadata k d.
Proof. intros Hk. unfold mapDefault. by rewrite add_ecs_labels_lookup. Qed.

Lemma convert_port_range text : in_int64 (convert_port text).
Proof.
  unfold convert_port. pose proof (Atoi_range text) as Hr.
  destruct (Atoi text) as [p [e|]]; [|done]. unfold in_int64, int64_min, int64_max. lia.
Qed.

(** The outcome in each case. *)
Lemma newService_cases container port isgroup :
  let image := DockerConfig.Image (Container.Config container) in
  let out := newService config host docker container port isgroup in
  (unreadable_env (Container.Config container) ∧ out = Panicked) ∨
  (¬ unreadable_env (Container.Config container) ∧
   ∃ cfg metadata fromPort,
     serviceMetaData (Container.Config container) (ServicePort.ExposedPort port) =
       Ok (cfg, (metadata, fromPort)) ∧
     ((¬ wanted metadata ∧ ∃ c, out = Ok (c, None)) ∨
      (wanted metadata ∧ Container.Name container = "" ∧ out = Panicked) ∨
      (wanted metadata ∧ Container.Name container ≠ "" ∧
       ((¬ own_name metadata image ∧ ∃ c, out = Ok (c, None)) ∨
        (own_name metadata image ∧ short_network container ∧ out = Panicked) ∨
        (own_name metadata image ∧ ¬ short_network container ∧ ∃ c s, out = Ok (c, Some s)))))).
Proof.
  intros image out. subst out. unfold newService. cbn [ServicePort.ExposedPort ServicePort.set_HostIP].
  destruct (unreadable_merge (Container.Config container)) as [[Hu Hm]|(Hu & _ & labels & Hm)];
    [left|right]; (split; [done|]); unfold serviceMetaData; rewrite Hm; [done|].
  unfold mbind, outcome_bind, mret, outcome_ret. destruct (metadata_loop _ _) as [md fp].
  eexists _, md, fp. split; [done|]. rewrite wanted_guards, own_name_guard.
  destruct (ignored md); [left; split; [by intros []|by eexists]|].
  destruct (register_missing config md); [left; split; [by intros []|by eexists]|]. right.
  cbn [Container.Name Container.set_Config Container.NetworkMode].
  unfold slice_from. destruct (Container.Name container) as [|c n]; [by left|right].
  do 2 (split; [done|]). rewrite decide_True by (simpl; lia).
  fold image. case_decide as Hdef; [left; split; [by intros []|by eexists]|]. right.
  unfold ip_from_network, mbind, outcome_bind, mret, outcome_ret, slice_to. rewrite combineTags_tokens.
  destruct (network_id container) as [[-> Hs]|[-> Hs]]; [right; do 2 (split; [done|]); by eexists _, _|].
  case_decide as Hl; [right|left]; (split; [done|]); (split; [rewrite Hs; lia|]); [|done].
  destruct (DockerClient.InspectContainer _ _); by eexists _, _.
Qed.

Lemma newService_returns container port isgroup : inspectable container →
  ∃ container' result, newService config host docker container port isgroup = Ok (container', result).
Proof.
  intros (Hu & Hn & Hs). destruct (newService_cases container port isgroup)
    as [[]|(_ & cfg & md & fp & _ & H)]; [done|]. naive_solver.
Qed.

(** What the call makes of the container can be inspected again. *)
Lemma newService_inspectable container port isgroup container' o :
  newService config host docker container port isgroup = Ok (container', o) →
  inspectable container → inspectable container'.
Proof.
  intros Hnew (Hu & Hname & Hnet).
  destruct (unreadable_merge (Container.Config container)) as [[]|(_ & _ & labels & Hm)]; [done|].
  assert (container' = with_labels container labels) as ->.
  { revert Hnew. unfold newService, serviceMetaData, mbind, outcome_bind, mret, outcome_ret.
    rewrite Hm. intros Hnew. repeat case_match; by simplify_eq/=. }
  split; [|done]. intros [He Hbad]. destruct Hu. split; [done|]. destruct Hbad as [Hl|Hbad]; [left|by right].
  simpl in Hl, He. subst labels. rewrite merge_env_spec in Hm.
  destruct (DockerConfig.Env _), (DockerConfig.Labels _); try done. by destruct (well_formed_env _).
Qed.

(** C20: what becomes of a container's port. [newService] panics when the environment
    cannot be merged into the labels. Otherwise the metadata decide: it makes a service
    exactly when they do not say to ignore the container, say to register it (by any
    value but the word false) if the configuration requires that, and give a name that
    is not the image's own, provided that the container has a name and that the container whose
    network it shares, if any, is given by at least twelve characters; where it gets to
    a missing name or to a shorter ID it panics; and in all other cases it makes no
    service. *)
Theorem newService_guards container port isgroup :
  let image := DockerConfig.Image (Container.Config container) in
  let out := newService config host docker container port isgroup in
  (unreadable_env (Container.Config container) ∧ out = Panicked) ∨
  (¬ unreadable_env (Container.Config container) ∧
   ∃ cfg metadata fromPort,
     serviceMetaData (Container.Config container) (ServicePort.ExposedPort port) =
       Ok (cfg, (metadata, fromPort)) ∧
     ((∃ c s, out = Ok (c, Some s)) ↔
        wanted metadata ∧ own_name metadata image ∧
        Container.Name container ≠ "" ∧ ¬ short_network container) ∧
     (out = Panicked ↔
        wanted metadata ∧ (Container.Name container = "" ∨
                           own_name metadata image ∧ short_network container)) ∧
     ((∃ c, out = Ok (c, None)) ↔
        ¬ wanted metadata ∨ Container.Name container ≠ "" ∧ ¬ own_name metadata image)).
Proof.
  intros image out.
  destruct (newService_cases container port isgroup) as [?|(Hu & cfg & md & fp & Hmd & H)]; [by left|right].
  split; [done|]. exists cfg, md, fp. split; [done|]. fold out image in H. clearbody out image. naive_solver.
Qed.

(** C21: a service without an ID of its own in the metadata has the ID that
    [serviceIDPattern] recognises: cleanup finds its host and container. *)
Theorem newService_id container port isgroup container' s name :
  newService config host docker container port isgroup = Ok (container', Some s) →
  Container.Name container = "/" +:+ name →
  docker_name name = true → number (ServicePort.ExposedPort port) = true →
  service_hostname host port ≠ "" → single_line (service_hostname host port) = true →
  (∃ cfg metadata fromPort,
     serviceMetaData (Container.Config container) (ServicePort.ExposedPort port) =
       Ok (cfg, (metadata, fromPort)) ∧ metadata !! "id" = Some (Service.ID s)) ∨
  parse_service_id (Service.ID s) = Some (service_hostname host port, name).
Proof.
  intros (cfg & md & fp & sl & nm & ip0 & ip & Hmd & _ & _ & _ & Hname & _ & _ & _ & Hid & _)
    %newService_inv Hn Hdn Hnum Hh Hsl.
  rewrite Hname in Hn. change ("/" +:+ name) with (String "/" name) in Hn.
  injection Hn as -> ->.
  rewrite mapDefault_ecs in Hid by done. case_decide as Ho; rewrite Hid.
  - left. exists cfg, md, fp. split; [done|]. revert Ho. unfold mapDefault.
    destruct (md !! "id"); [|done]. by case_decide.
  - right. by apply parse_service_id_complete.
Qed.

(** The remaining fields. The reserved keys never reach the attributes, the
    TTL is the configured one, the port is a 64-bit integer (0 if the text is no
    number), the tags are those of the metadata and the forced ones, and the
    origin names the container and the port the service was made for. *)
Theorem newService_fields container port isgroup container' s :
  newService config host docker container port isgroup = Ok (container', Some s) →
  Service.Attrs s !! "id" = None ∧ Service.Attrs s !! "tags" = None ∧
  Service.Attrs s !! "name" = None ∧
  Service.TTL s = Config.RefreshTtl config ∧ in_int64 (Service.Port s) ∧
  ServicePort.ContainerID (Service.Origin s) = ServicePort.ContainerID port ∧
  ServicePort.ExposedPort (Service.Origin s) = ServicePort.ExposedPort port ∧
  ServicePort.container (Service.Origin s) = Some container' ∧
  (ServicePort.PortType port = "udp" → "udp" ∈ Service.Tags s).
Proof.
  intros (cfg & md & fp & sl & nm & ip0 & ip & _ & _ & _ & _ & _ & _ & _ & _ & _ & _ &
          Hport & _ & _ & Htags & Hattrs & Httl & Horigin)%newService_inv.
  rewrite Hattrs, Httl, Hport, Horigin. repeat split; try done; try apply convert_port_range.
  - by rewrite !lookup_delete_ne, lookup_delete_eq by done.
  - by rewrite lookup_delete_ne, lookup_delete_eq by done.
  - by rewrite lookup_delete_eq.
  - intros Hudp. rewrite combineTags_tokens, bool_decide_eq_true_2 in Htags by done.
    injection Htags as <-. simpl. set_solver.
Qed.

(** Where the address comes from: the container whose network is shared if
    there is one, else the configured label, else the container's own address
    with [-internal], else the configured or discovered address of the host. *)
Theorem newService_address container port isgroup container' s :
  newService config host docker container port isgroup = Ok (container', Some s) →
  let own := if Config.Internal config then ServicePort.ExposedIP port
             else host_ip config host port in
  let labels := default ∅ (DockerConfig.Labels (Container.Config container')) in
  let labelled := map_get labels (Config.UseIpFromLabel config) in
  (Config.HostIp config ≠ "" → host_ip config host port = Config.HostIp config) ∧
  (∀ id net, Container.NetworkMode container = "container:" +:+ id → has_byte ":" id = false →
     DockerClient.InspectContainer docker id = inl net →
     Service.IP s = NetworkSettings.IPAddress (Container.NetworkSettings net)) ∧
  (HasPrefix (Container.NetworkMode container) "container:" = false →
     Service.IP s = if decide (Config.UseIpFromLabel config ≠ "" ∧ labelled ≠ "")
                    then label_ip labelled else own).
Proof.
  intros (cfg & md & fp & sl & nm & ip0 & ip & _ & -> & _ & _ & _ & _ & -> & Hip & _ & _ & _ &
          -> & _)%newService_inv. simpl. split; [|split].
  - intros Hne. unfold host_ip. by rewrite decide_True.
  - intros id net Hmode Hid Hinspect. unfold ip_from_network in Hip.
    rewrite Hmode in Hip. unfold HasPrefix in Hip. rewrite prefix_app in Hip.
    assert (Split ("container:" +:+ id) ":" = ["container"; id]) as Hsplit.
    { change ("container:" +:+ id) with ("container" +:+ String ":" id).
      by rewrite Split_app, Split_None by done. }
    rewrite Hsplit in Hip. destruct (slice_to id 12); try done.
    unfold mbind, outcome_bind, mret, outcome_ret in Hip. rewrite Hinspect in Hip. congruence.
  - intros Hmode. unfold ip_from_network in Hip. rewrite Hmode in Hip. injection Hip as <-.
    unfold ip_from_label. repeat case_decide; naive_solver.
Qed.
End newService.
