(* ===== verification/Fixtures.v ===== *)
(** * Concrete inputs for the witnesses

    One host, one configuration, one container with two published ports and one
    that shares its network, and a Docker daemon that knows both. *)
From S2P Require Import Prelude GoStrings Types Metadata ServiceId NewService.

Module Fixtures.
Definition web_id : string := "0123456789abcdef".
Definition side_id : string := "fedcba9876543210".

Definition host : Host.t :=
  {| Host.Hostname := "box"; Host.ResolveIPAddr _ := Some "10.0.0.1" |}.

Definition config : Config.t :=
  {| Config.HostIp := "192.168.1.102"; Config.Internal := false;
     Config.UseIpFromLabel := ""; Config.ForceTags := ""; Config.RefreshTtl := 30;
     Config.RefreshInterval := 10; Config.DeregisterCheck := "on-success";
     Config.Cleanup := true; Config.RequireLabel := false;
     Config.ExitOnIPLookupFailure := false |}.

Definition web_config : DockerConfig.t :=
  {| DockerConfig.Hostname := "web"; DockerConfig.Image := "progrium/nginx:1.0";
     DockerConfig.Env := ["SERVICE_NAME=shop"; "SERVICE_TAGS=www,eu\,de"; "PATH=/bin"];
     DockerConfig.Labels := Some {["SERVICE_NAME" := "old"]};
     DockerConfig.ExposedPorts := {["80/tcp" := ()]} |}.

Definition web_network : NetworkSettings.t :=
  {| NetworkSettings.Networks := ∅; NetworkSettings.IPAddress := "172.17.0.2";
     NetworkSettings.Ports :=
       {["80/tcp" := [PortBinding.mk "0.0.0.0" "8000"];
         "443/tcp" := [PortBinding.mk "0.0.0.0" "4443"]]} |}.

Definition web : Container.t :=
  {| Container.ID := web_id; Container.Name := "/nginx.0";
     Container.Config := web_config; Container.Running := true;
     Container.ExitCode := 0; Container.NetworkSettings := web_network;
     Container.NetworkMode := "bridge" |}.

(** One published port, on the network of [web]. *)
Definition side : Container.t :=
  {| Container.ID := side_id; Container.Name := "/side"; Container.Config := web_config;
     Container.Running := false; Container.ExitCode := 137;
     Container.NetworkSettings :=
       {| NetworkSettings.Networks := ∅; NetworkSettings.IPAddress := "";
          NetworkSettings.Ports := {["80/tcp" := [PortBinding.mk "" "8001"]]} |};
     Container.NetworkMode := "container:0123456789abcdef" |}.

Definition docker : DockerClient.t :=
  {| DockerClient.InspectContainer id :=
       if decide (id = web_id) then inl web
       else if decide (id = side_id) then inl side
       else inr NoSuchContainer;
     DockerClient.ListContainers _ := inl [web_id; side_id] |}.

Definition web_port : ServicePort.t :=
  @servicePort ascending web "80/tcp" [PortBinding.mk "0.0.0.0" "8000"].

Definition side_port : ServicePort.t :=
  @servicePort ascending side "80/tcp" [PortBinding.mk "" "8001"].

(** The two services [newService] makes from them. *)
Definition service_of (c : Container.t) (p : ServicePort.t) (isgroup : bool) : Service.t :=
  match @newService ascending config host docker c p isgroup with
  | Ok (_, Some s) => s
  | _ => Service.mk "" "" 0 "" false [] ∅ 0 ServicePort.zero
  end.

(** The container as [newService] leaves it. *)
Definition merged_web : Container.t := with_labels web
  (Some {["SERVICE_NAME" := "shop"; "SERVICE_TAGS" := "www,eu\,de"; "PATH" := "/bin"]}).
Definition merged_side : Container.t := with_labels side
  (Some {["SERVICE_NAME" := "shop"; "SERVICE_TAGS" := "www,eu\,de"; "PATH" := "/bin"]}).

Lemma web_made : @newService ascending config host docker web web_port true =
  Ok (merged_web, Some (service_of web web_port true)).
Proof. vm_compute. reflexivity. Qed.

Lemma side_made : @newService ascending config host docker side side_port false =
  Ok (merged_side, Some (service_of side side_port false)).
Proof. vm_compute. reflexivity. Qed.

Lemma web_inspectable : inspectable web.
Proof.
  split; [|split; [done|]].
  - destruct (unreadable_merge (Container.Config web)) as [[_ H]|[H _]]; [|done]. vm_compute in H. done.
  - destruct (network_id web) as [[_ H]|[H _]]; [done|]. vm_compute in H. done.
Qed.

Lemma side_inspectable : inspectable side.
Proof.
  split; [apply web_inspectable|split; [done|]].
  destruct (network_id side) as [[_ H]|[_ ->]]; [done|]. vm_compute. lia.
Qed.
End Fixtures.

(** * Witnesses of the properties of [newService] *)
Lemma newService_guards_witness :
  ∃ metadata, wanted Fixtures.config metadata ∧ own_name metadata "progrium/nginx:1.0".
Proof.
  destruct (@newService_guards ascending Fixtures.config Fixtures.host Fixtures.docker
              Fixtures.web Fixtures.web_port true)
    as [[_ H]|(_ & cfg & metadata & fromPort & _ & H & _)]; [vm_compute in H; discriminate H|].
  exists metadata. destruct H as [H _]. destruct H as (Hw & Hn & _); [|split; [exact Hw|exact Hn]].
  eexists _, _. exact Fixtures.web_made.
Defined.

Lemma newService_id_witness :
  (∃ cfg metadata fromPort,
     @serviceMetaData ascending Fixtures.web_config "80" = Ok (cfg, (metadata, fromPort)) ∧
     metadata !! "id" = Some (Service.ID (Fixtures.service_of Fixtures.web Fixtures.web_port true))) ∨
  parse_service_id (Service.ID (Fixtures.service_of Fixtures.web Fixtures.web_port true)) =
    Some ("box", "nginx.0").
Proof.
  apply (@newService_id ascending Fixtures.config Fixtures.host Fixtures.docker
           Fixtures.web Fixtures.web_port true Fixtures.merged_web
           (Fixtures.service_of Fixtures.web Fixtures.web_port true) "nginx.0");
    [apply Fixtures.web_made|vm_compute; reflexivity..|discriminate|vm_compute; reflexivity].
Defined.

Lemma newService_fields_witness :
  Service.Attrs (Fixtures.service_of Fixtures.web Fixtures.web_port true) !! "name" = None ∧
  Service.TTL (Fixtures.service_of Fixtures.web Fixtures.web_port true) = 30%Z.
Proof.
  destruct (@newService_fields ascending Fixtures.config Fixtures.host Fixtures.docker
              Fixtures.web Fixtures.web_port true Fixtures.merged_web
              (Fixtures.service_of Fixtures.web Fixtures.web_port true) Fixtures.web_made)
    as (_ & _ & Hname & Httl & _).
  split; [exact Hname|exact Httl].
Defined.

Lemma newService_address_witness :
  Service.IP (Fixtures.service_of Fixtures.side Fixtures.side_port false) = "172.17.0.2".
Proof.
  destruct (@newService_address ascending Fixtures.config Fixtures.host Fixtures.docker
              Fixtures.side Fixtures.side_port false Fixtures.merged_side
              (Fixtures.service_of Fixtures.side Fixtures.side_port false) Fixtures.side_made)
    as (_ & Hnet & _).
  apply (Hnet Fixtures.web_id Fixtures.web); vm_compute; reflexivity.
Defined.

(** * A registry in memory

    It holds the registered services by ID; its calls return, and registration
    fails while it is [failing]. *)
Module Memory.
Record t := mk { entries : gmap string Service.t; failing : bool }.

Definition empty : t := mk ∅ false.

#[global] Instance adapter : RegistryAdapter t := {|
  Ping r := (Ok None, r);
  Register s r :=
    if failing r then (Ok (Some "down"), r)
    else (Ok None, mk (<[Service.ID s := s]> (entries r)) false);
  Deregister s r := (Ok None, mk (delete (Service.ID s) (entries r)) (failing r));
  Refresh s r := (Ok None, r);
  Services r := (Ok ((map_to_list (entries r)).*2, None), r)
|}.

#[global] Instance adapter_returns : RegistryReturns t.
Proof. split; intros; simpl; try done. by destruct (failing r). Qed.
End Memory.
