(* ===== verification/Bridge.v ===== *)
(** * The bridge: bridge/bridge.go

    The state of a [Bridge] is its mutex, the registry it talks to, the tracked
    services of each container, the dead containers whose services wait for
    their TTL, and the configuration. [calls] is the trace of the registry calls
    made so far and [spawned] the goroutines started and not yet run; neither
    influences the code.

    A service is a pointer in the source. Every pointer is in one entry of
    [services] or [deadContainers] only, is written by the code that holds the
    mutex only, and [Refresh] works on copies; the maps therefore hold values.
    A nil slice and an absent entry are the same thing here: no code stores an
    empty slice. *)
From S2P Require Import Prelude GoStrings Types Metadata NewService.

(** A call of the registry and the error it returned. *)
Inductive call :=
| CRegister (s : Service.t) (err : error)
| CDeregister (s : Service.t) (err : error)
| CRefresh (s : Service.t) (err : error)
| CServices (err : error).

(** A [go] statement of the bridge package. *)
Inductive goroutine :=
| GoAdd (containerId : string) (quiet : bool) (newIP : string)
| GoRemoveOnExit (containerId : string).

Module Bridge.
Record t (R : Type) := mk {
  locked : bool;
  registry : R;
  services : gmap string (list Service.t);
  deadContainers : gmap string DeadContainer.t;
  config : Config.t;
  calls : list call;
  spawned : list goroutine
}.
Arguments mk {R}.
Arguments locked {R}.
Arguments registry {R}.
Arguments services {R}.
Arguments deadContainers {R}.
Arguments config {R}.
Arguments calls {R}.
Arguments spawned {R}.

Section setters.
Context {R : Type}.
Implicit Types b : t R.
Definition set_locked (l : bool) b : t R :=
  mk l (registry b) (services b) (deadContainers b) (config b) (calls b) (spawned b).
Definition set_registry (r : R) (cs : list call) b : t R :=
  mk (locked b) r (services b) (deadContainers b) (config b) (calls b ++ cs) (spawned b).
Definition set_services (m : gmap string (list Service.t)) b : t R :=
  mk (locked b) (registry b) m (deadContainers b) (config b) (calls b) (spawned b).
Definition set_dead (d : gmap string DeadContainer.t) b : t R :=
  mk (locked b) (registry b) (services b) d (config b) (calls b) (spawned b).
Definition spawn (g : goroutine) b : t R :=
  mk (locked b) (registry b) (services b) (deadContainers b) (config b) (calls b)
    (spawned b ++ [g]).
End setters.

(** What [New] returns. *)
Definition init {R} (r : R) (config : Config.t) : t R := mk false r ∅ ∅ config [] [].
End Bridge.

Section bridge.
Context {R : Type} `{RA : RegistryAdapter R} `{O : MapOrder} (host : Host.t).

(** ** The mutex *)
Definition Lock : GoM (Bridge.t R) unit := λ b,
  if Bridge.locked b then (Blocked, b) else (Ok (), Bridge.set_locked true b).

Definition Unlock : GoM (Bridge.t R) unit := λ b,
  if Bridge.locked b then (Ok (), Bridge.set_locked false b) else (Panicked, b).

(** [b.Lock(); defer b.Unlock()]: the mutex is released on a panic as well. *)
Definition with_lock {A} (body : GoM (Bridge.t R) A) : GoM (Bridge.t R) A := λ b,
  if Bridge.locked b then (Blocked, b)
  else let '(o, b') := body (Bridge.set_locked true b) in (o, Bridge.set_locked false b').

(** ** Calls of the registry *)
Definition registry_call {A} (op : GoM R A) (note : A → call) : GoM (Bridge.t R) A := λ b,
  match op (Bridge.registry b) with
  | (Ok a, r) => (Ok a, Bridge.set_registry r [note a] b)
  | (Panicked, r) => (Panicked, Bridge.set_registry r [] b)
  | (Blocked, r) => (Blocked, Bridge.set_registry r [] b)
  | (Exited c, r) => (Exited c, Bridge.set_registry r [] b)
  end.

Definition registry_Register (s : Service.t) := registry_call (Register s) (CRegister s).
Definition registry_Deregister (s : Service.t) := registry_call (Deregister s) (CDeregister s).
Definition registry_Refresh (s : Service.t) := registry_call (Refresh s) (CRefresh s).

(** [Ping] is no part of the trace: [main] calls it before the bridge is used. *)
Definition bridge_Ping : GoM (Bridge.t R) error := λ b,
  let '(o, r) := Ping (Bridge.registry b) in (o, Bridge.set_registry r [] b).

(** [b.services[containerId]]: the nil slice when there is no entry. *)
Definition services_of (b : Bridge.t R) (containerId : string) : list Service.t :=
  default [] (Bridge.services b !! containerId).

(** [containerId[:12]], evaluated for a log line. *)
Definition log_id (containerId : string) : GoM (Bridge.t R) unit :=
  _ ← lift_outcome (slice_to containerId 12); mret ().

(** ** Reading: [getServicesCopy] and [Refresh] *)
Definition copy_services (m : gmap string (list Service.t)) : gmap string (list Service.t) :=
  foldl (λ copy kv, <[kv.1 := kv.2]> copy) ∅ (range m).

Definition getServicesCopy : GoM (Bridge.t R) (gmap string (list Service.t)) :=
  with_lock (b ← get_state; mret (copy_services (Bridge.services b))).

Definition refresh_service (containerId : string) (s : Service.t) : GoM (Bridge.t R) unit :=
  err ← registry_Refresh s;
  match err with Some _ => mret () | None => log_id containerId end.

Definition bridge_Refresh : GoM (Bridge.t R) unit :=
  copy ← getServicesCopy;
  for_each (λ kv, for_each (refresh_service kv.1) kv.2) (range copy).

(** ** Dead containers *)
Definition prune_step (interval : Z) (dead : gmap string DeadContainer.t)
    (kv : string * DeadContainer.t) : gmap string DeadContainer.t :=
  let ttl := sub64 (DeadContainer.TTL kv.2) interval in
  if decide (ttl ≤ 0)%Z then delete kv.1 dead
  else <[kv.1 := DeadContainer.mk ttl (DeadContainer.Services kv.2)]> dead.

Definition prune (interval : Z) (dead : gmap string DeadContainer.t)
    : gmap string DeadContainer.t :=
  foldl (prune_step interval) dead (range dead).

Definition PruneDeadContainers : GoM (Bridge.t R) unit :=
  with_lock (modify (λ b,
    Bridge.set_dead (prune (Config.RefreshInterval (Bridge.config b))
                       (Bridge.deadContainers b)) b)).

Definition deleteDeadContainer (containerId : string) : GoM (Bridge.t R) unit :=
  with_lock (modify (λ b,
    match Bridge.deadContainers b !! containerId with
    | Some d =>
        Bridge.set_dead (delete containerId (Bridge.deadContainers b))
          (Bridge.set_services (<[containerId := DeadContainer.Services d]> (Bridge.services b)) b)
    | None => b
    end)).

(** ** Adding a container *)
Definition appendService (containerId : string) (service : Service.t)
    : GoM (Bridge.t R) unit :=
  with_lock (
    b ← get_state;
    if decide (services_of b containerId ≠ []) then log_id containerId
    else
      _ ← modify (λ b, Bridge.set_services
        (<[containerId := services_of b containerId ++ [service]]> (Bridge.services b)) b);
      log_id containerId).

(** The ports the image exposes, published under the same number. *)
Definition exposed_ports (container : Container.t) (newIP : string)
    : gmap string ServicePort.t :=
  foldl (λ ports kv,
      let port := kv.1 in
      let sp := servicePort container port [PortBinding.mk "0.0.0.0" (port_number port)] in
      let sp := if decide (newIP ≠ "") then ServicePort.set_HostIP newIP sp else sp in
      <[port := sp]> ports)
    ∅ (range (DockerConfig.ExposedPorts (Container.Config container))).

(** The ports Docker has mapped replace them. *)
Definition container_ports (container : Container.t) (newIP : string)
    : gmap string ServicePort.t :=
  foldl (λ ports kv, <[kv.1 := servicePort container kv.1 kv.2]> ports)
    (exposed_ports container newIP)
    (range (NetworkSettings.Ports (Container.NetworkSettings container))).

(** The ports to register: the published ones, unless exposed ports are wanted. *)
Definition select_port (internal quiet : bool) (container : Container.t)
    (servicePorts : gmap string ServicePort.t) (kv : string * ServicePort.t)
    : outcome (gmap string ServicePort.t) :=
  useExposedPorts ← lookupMetaData (Container.Config container) "SERVICE_USE_EXPOSED_PORTS";
  if decide (internal = false ∧ useExposedPorts = "" ∧ ServicePort.HostPort kv.2 = "") then
    if quiet then mret servicePorts
    else _ ← slice_to (Container.ID container) 12; mret servicePorts
  else mret (<[kv.1 := kv.2]> servicePorts).

Definition select_ports (internal quiet : bool) (container : Container.t)
    (ports : gmap string ServicePort.t) : outcome (gmap string ServicePort.t) :=
  fold_outcome (select_port internal quiet container) ∅ (range ports).

(** The loop that makes and registers a service per port. *)
Fixpoint register_ports (docker : DockerClient.t) (quiet isGroup : bool)
    (container : Container.t) (ports : list (string * ServicePort.t))
    : GoM (Bridge.t R) unit :=
  match ports with
  | [] => mret ()
  | (_, port) :: ports =>
      b ← get_state;
      '(container, service) ←
        lift_outcome (newService (Bridge.config b) host docker container port isGroup);
      _ ← match service with
          | None => if quiet then mret () else log_id (Container.ID container)
          | Some s =>
              err ← registry_Register s;
              match err with
              | Some _ => mret ()
              | None => appendService (Container.ID container) s
              end
          end;
      register_ports docker quiet isGroup container ports
  end.

(** The rest of [add], once the container has been inspected. *)
Definition add_inspected (docker : DockerClient.t) (container : Container.t)
    (quiet : bool) (newIP : string) : GoM (Bridge.t R) unit :=
  let ports := container_ports container newIP in
  if decide (size ports = 0 ∧ quiet = false) then log_id (Container.ID container) else
  b ← get_state;
  servicePorts ← lift_outcome
    (select_ports (Config.Internal (Bridge.config b)) quiet container ports);
  register_ports docker quiet (bool_decide (1 < size servicePorts)) container
    (range servicePorts).

(** The early return for a known container happens between [b.Lock()] and
    [b.Unlock()]. *)
Definition add (docker : DockerClient.t) (containerId : string) (quiet : bool)
    (newIP : string) : GoM (Bridge.t R) unit :=
  _ ← deleteDeadContainer containerId;
  _ ← Lock;
  b ← get_state;
  if decide (services_of b containerId ≠ []) then log_id containerId else
  _ ← Unlock;
  match DockerClient.InspectContainer docker containerId with
  | inr _ => log_id containerId
  | inl container => add_inspected docker container quiet newIP
  end.

Definition Add (docker : DockerClient.t) (containerId ipToUse : string)
    : GoM (Bridge.t R) unit := add docker containerId false ipToUse.

(** ** Removing a container *)
Definition deregister_service (s : Service.t) : GoM (Bridge.t R) unit :=
  _ ← registry_Deregister s; mret ().

Definition deregisterAll (services : list Service.t) : GoM (Bridge.t R) unit :=
  for_each deregister_service services.

Definition remove (containerId : string) (deregister : bool) : GoM (Bridge.t R) unit :=
  with_lock (
    b ← get_state;
    _ ← (if deregister then
           _ ← deregisterAll (services_of b containerId);
           match Bridge.deadContainers b !! containerId with
           | Some d =>
               _ ← deregisterAll (DeadContainer.Services d);
               modify (λ b, Bridge.set_dead (delete containerId (Bridge.deadContainers b)) b)
           | None => mret ()
           end
         else if decide (Config.RefreshTtl (Bridge.config b) ≠ 0%Z ∧
                         services_of b containerId ≠ []) then
           modify (λ b, Bridge.set_dead
             (<[containerId := DeadContainer.mk (Config.RefreshTtl (Bridge.config b))
                                 (services_of b containerId)]> (Bridge.deadContainers b)) b)
         else mret ());
    modify (λ b, Bridge.set_services (delete containerId (Bridge.services b)) b)).

Definition Remove (containerId : string) : GoM (Bridge.t R) unit := remove containerId true.

Definition dockerSignaledBit : Z := 128.

Definition shouldRemove (docker : DockerClient.t) (containerId : string)
    : GoM (Bridge.t R) bool :=
  b ← get_state;
  if decide (Config.DeregisterCheck (Bridge.config b) = "always") then mret true else
  match DockerClient.InspectContainer docker containerId with
  | inr NoSuchContainer => _ ← log_id containerId; mret true
  | inr (OtherDockerError _) => _ ← log_id containerId; mret false
  | inl container =>
      if Container.Running container then _ ← log_id containerId; mret false
      else if decide (Container.ExitCode container = 0%Z) then mret true
      else mret (bool_decide
             (Z.land (Container.ExitCode container) dockerSignaledBit = dockerSignaledBit))
  end.

Definition RemoveOnExit (docker : DockerClient.t) (containerId : string)
    : GoM (Bridge.t R) unit :=
  deregister ← shouldRemove docker containerId; remove containerId deregister.
End bridge.
