(* ===== verification/BridgeLemmas.v ===== *)
(** * How the bridge's operations run

    For each operation the state it leaves and how it ends, under the assumption
    that the registry's calls return; and the rules by which a property of the
    tables is kept whatever the registry does. *)
From S2P Require Import Prelude GoStrings Types Metadata NewService Bridge.

Section runs.
Context {R : Type} `{RA : RegistryAdapter R} `{O : MapOrder} (host : Host.t).
Implicit Types (b : Bridge.t R) (id : string) (s : Service.t).

Lemma set_locked_id b : Bridge.set_locked (Bridge.locked b) b = b.
Proof. by destruct b. Qed.

Lemma set_locked_false b : Bridge.locked b = false → Bridge.set_locked false b = b.
Proof. intros <-. apply set_locked_id. Qed.

Lemma set_registry_nil b : Bridge.set_registry (Bridge.registry b) [] b = b.
Proof. destruct b. unfold Bridge.set_registry; simpl. by rewrite app_nil_r. Qed.

Lemma set_registry_twice r1 r2 cs1 cs2 b :
  Bridge.set_registry r2 cs2 (Bridge.set_registry r1 cs1 b) =
  Bridge.set_registry r2 (cs1 ++ cs2) b.
Proof. unfold Bridge.set_registry; simpl. by rewrite app_assoc. Qed.

Lemma with_lock_blocked {A} (m : GoM (Bridge.t R) A) b :
  Bridge.locked b = true → with_lock m b = (Blocked, b).
Proof. unfold with_lock. by intros ->. Qed.

Lemma with_lock_run {A} (m : GoM (Bridge.t R) A) b :
  Bridge.locked b = false →
  with_lock m b = let '(o, b') := m (Bridge.set_locked true b) in
                  (o, Bridge.set_locked false b').
Proof. unfold with_lock. by intros ->. Qed.

(** [containerId[:12]] *)
Definition log_outcome (id : string) : outcome unit :=
  if decide (12 ≤ String.length id) then Ok () else Panicked.

Lemma log_id_run id b : log_id id b = (log_outcome id, b).
Proof. unfold log_id, log_outcome, slice_to. go_unfold. by case_decide. Qed.

Lemma log_outcome_Ok id : 12 ≤ String.length id → log_outcome id = Ok ().
Proof. intros. unfold log_outcome. by rewrite decide_True. Qed.

(** ** Calls of the registry that return *)
Lemma registry_call_run {A} (op : GoM R A) note b :
  is_Ok (op (Bridge.registry b)).1 = true →
  ∃ a r, op (Bridge.registry b) = (Ok a, r) ∧
         registry_call op note b = (Ok a, Bridge.set_registry r [note a] b).
Proof.
  unfold registry_call. destruct (op _) as [[a| | |] r] eqn:He; simpl; try done.
  intros _. by exists a, r.
Qed.

Context `{RR : !RegistryReturns R}.

(** Each service is handed to the registry once, in order, whatever it answers. *)
Lemma deregisterAll_run ss b :
  ∃ r errs, length errs = length ss ∧
    deregisterAll ss b = (Ok (), Bridge.set_registry r (zip_with CDeregister ss errs) b).
Proof.
  revert b. induction ss as [|s ss IH]; intros b.
  - exists (Bridge.registry b), []. split; [done|]. by rewrite set_registry_nil.
  - destruct (registry_call_run (Deregister s) (CDeregister s) b) as (e & r & _ & Hrun);
      [apply Deregister_returns|].
    destruct (IH (Bridge.set_registry r [CDeregister s e] b)) as (r' & errs & Hl & Hrest).
    exists r', (e :: errs). split; [simpl; lia|]. unfold deregisterAll.
    erewrite for_each_cons; [by setoid_rewrite Hrest; rewrite set_registry_twice|].
    unfold deregister_service. by rewrite (GoM_bind_Ok _ _ _ _ _ Hrun).
Qed.

Lemma refresh_list_run id ss b : 12 ≤ String.length id →
  ∃ r errs, length errs = length ss ∧
    for_each (refresh_service id) ss b =
      (Ok (), Bridge.set_registry r (zip_with CRefresh ss errs) b).
Proof.
  intros Hid. revert b. induction ss as [|s ss IH]; intros b.
  - exists (Bridge.registry b), []. split; [done|]. by rewrite set_registry_nil.
  - destruct (registry_call_run (Refresh s) (CRefresh s) b) as (e & r & _ & Hrun);
      [apply Refresh_returns|].
    destruct (IH (Bridge.set_registry r [CRefresh s e] b)) as (r' & errs & Hl & Hrest).
    exists r', (e :: errs). split; [simpl; lia|].
    erewrite (for_each_cons (refresh_service id)); [by rewrite Hrest, set_registry_twice|].
    unfold refresh_service. rewrite (GoM_bind_Ok _ _ _ _ _ Hrun).
    destruct e; [done|]. by rewrite log_id_run, log_outcome_Ok.
Qed.

(** ** The tables *)
Lemma deleteDeadContainer_run id b : Bridge.locked b = false →
  deleteDeadContainer id b =
  (Ok (), match Bridge.deadContainers b !! id with
          | Some d => Bridge.set_dead (delete id (Bridge.deadContainers b))
              (Bridge.set_services (<[id := DeadContainer.Services d]> (Bridge.services b)) b)
          | None => b
          end).
Proof.
  intros Hb. unfold deleteDeadContainer. rewrite with_lock_run by done. simpl.
  destruct b; simpl in *; subst. by case_match.
Qed.

(** What [appendService] makes of the table: it keeps what is there. *)
Definition track (id : string) (s : option Service.t)
    (m : gmap string (list Service.t)) : gmap string (list Service.t) :=
  match s with
  | Some s => if decide (default [] (m !! id) = []) then <[id := [s]]> m else m
  | None => m
  end.

Lemma appendService_run id s b : Bridge.locked b = false →
  appendService id s b =
  (log_outcome id, Bridge.set_services (track id (Some s) (Bridge.services b)) b).
Proof.
  intros Hb. unfold appendService. rewrite with_lock_run by done.
  erewrite GoM_bind_Ok by reflexivity. unfold track, services_of. simpl.
  destruct (decide (default [] (Bridge.services b !! id) = [])) as [He|He].
  - rewrite decide_False by auto. erewrite GoM_bind_Ok by reflexivity.
    rewrite log_id_run. unfold services_of, Bridge.set_services, Bridge.set_locked; simpl.
    by rewrite He, Hb.
  - rewrite decide_True by done. rewrite log_id_run. by destruct b; simpl in *; subst.
Qed.

Lemma remove_true_run id b : Bridge.locked b = false →
  let gone := services_of b id ++
    match Bridge.deadContainers b !! id with Some d => DeadContainer.Services d | None => [] end in
  ∃ r errs, length errs = length gone ∧
    remove id true b =
      (Ok (), Bridge.set_services (delete id (Bridge.services b))
                (Bridge.set_dead (delete id (Bridge.deadContainers b))
                   (Bridge.set_registry r (zip_with CDeregister gone errs) b))).
Proof.
  intros Hb gone. unfold remove. rewrite with_lock_run by done.
  erewrite GoM_bind_Ok by reflexivity.
  destruct (deregisterAll_run (services_of b id) (Bridge.set_locked true b))
    as (r1 & errs1 & Hl1 & H1).
  change (services_of (Bridge.set_locked true b) id) with (services_of b id).
  change (Bridge.deadContainers (Bridge.set_locked true b)) with (Bridge.deadContainers b).
  destruct (Bridge.deadContainers b !! id) as [d|] eqn:Hd.
  - edestruct (deregisterAll_run (DeadContainer.Services d)) as (r2 & errs2 & Hl2 & H2).
    exists r2, (errs1 ++ errs2). split; [subst gone; rewrite !length_app; lia|].
    erewrite GoM_bind_Ok; [|erewrite GoM_bind_Ok by apply H1; erewrite GoM_bind_Ok by apply H2;
                            reflexivity].
    subst gone. rewrite zip_with_app by done.
    unfold Bridge.set_registry, Bridge.set_services, Bridge.set_dead, Bridge.set_locked; simpl.
    by rewrite Hb, app_assoc.
  - exists r1, errs1. subst gone. rewrite app_nil_r. split; [done|].
    erewrite GoM_bind_Ok; [|erewrite GoM_bind_Ok by apply H1; reflexivity].
    unfold Bridge.set_registry, Bridge.set_services, Bridge.set_dead, Bridge.set_locked; simpl.
    by rewrite Hb, (delete_id (Bridge.deadContainers b)).
Qed.

Lemma remove_false_run id b : Bridge.locked b = false →
  remove id false b =
  (Ok (), Bridge.set_services (delete id (Bridge.services b))
            (if decide (Config.RefreshTtl (Bridge.config b) ≠ 0%Z ∧ services_of b id ≠ []) then
               Bridge.set_dead
                 (<[id := DeadContainer.mk (Config.RefreshTtl (Bridge.config b))
                            (services_of b id)]> (Bridge.deadContainers b)) b
             else b)).
Proof.
  intros Hb. unfold remove. rewrite with_lock_run by done. go_unfold.
  change (services_of (Bridge.set_locked true b) id) with (services_of b id).
  case_decide; unfold Bridge.set_services, Bridge.set_dead, Bridge.set_locked; simpl;
    by rewrite Hb.
Qed.

(** ** [add] as a plan and its execution

    The services an [add] makes do not depend on the registry: they are planned
    first, and then registered one after the other. *)
Fixpoint make_services (config : Config.t) (docker : DockerClient.t) (isGroup : bool)
    (container : Container.t) (ports : list (string * ServicePort.t))
    : outcome (list Service.t) :=
  match ports with
  | [] => Ok []
  | (_, port) :: ports =>
      '(container, service) ← newService config host docker container port isGroup;
      rest ← make_services config docker isGroup container ports;
      Ok (option_list service ++ rest)
  end.

Definition add_plan (config : Config.t) (docker : DockerClient.t) (container : Container.t)
    (quiet : bool) (newIP : string) : outcome (list Service.t) :=
  let ports := container_ports container newIP in
  servicePorts ← select_ports (Config.Internal config) quiet container ports;
  make_services config docker (bool_decide (1 < size servicePorts)) container
    (range servicePorts).

(** The first service whose registration succeeded. *)
Fixpoint first_registered (ss : list Service.t) (errs : list error) : option Service.t :=
  match ss, errs with
  | s :: _, None :: _ => Some s
  | _ :: ss, Some _ :: errs => first_registered ss errs
  | _, _ => None
  end.

Lemma newService_container config docker container port isGroup container' o :
  newService config host docker container port isGroup = Ok (container', o) →
  Container.ID container' = Container.ID container.
Proof.
  unfold newService, mbind, outcome_bind, mret, outcome_ret. intros Hnew.
  repeat case_match; simplify_eq/=; done.
Qed.

Lemma track_twice id s o m : track id o (track id (Some s) m) = track id (Some s) m.
Proof.
  unfold track. destruct o; [|done].
  destruct (decide (default [] (m !! id) = [])); [|by rewrite decide_False].
  by rewrite decide_False by (by rewrite lookup_insert_eq).
Qed.

Lemma register_ports_run docker quiet isGroup container ports made b :
  Bridge.locked b = false → 12 ≤ String.length (Container.ID container) →
  make_services (Bridge.config b) docker isGroup container ports = Ok made →
  ∃ r errs, length errs = length made ∧
    register_ports host docker quiet isGroup container ports b =
      (Ok (), Bridge.set_services
                (track (Container.ID container) (first_registered made errs) (Bridge.services b))
                (Bridge.set_registry r (zip_with CRegister made errs) b)).
Proof.
  revert container made b.
  induction ports as [|[k port] ports IH]; intros container made b Hb Hid Hmade.
  { injection Hmade as <-. exists (Bridge.registry b), []. split; [done|].
    simpl. rewrite set_registry_nil. by destruct b. }
  simpl in Hmade. destruct (newService _ _ _ _ _ _) as [[c' o]| | |] eqn:Hnew; try done.
  go_unfold. destruct (make_services _ _ _ _ _) as [rest| | |] eqn:Hrest; try done.
  injection Hmade as <-. rewrite Hnew. pose proof (newService_container _ _ _ _ _ _ _ Hnew) as Hc.
  rewrite <- Hc in Hid |- *. destruct o as [s|]; simpl.
  - destruct (registry_call_run (Register s) (CRegister s) b) as (e & r & _ & Hrun);
      [apply Register_returns|]. unfold registry_Register. rewrite Hrun.
    set (b1 := Bridge.set_registry r [CRegister s e] b).
    destruct e as [e|].
    + destruct (IH c' rest b1 Hb Hid Hrest) as (r' & errs & Hl & Hreg).
      exists r', (Some e :: errs). split; [simpl; lia|]. setoid_rewrite Hreg.
      subst b1. by rewrite set_registry_twice.
    + rewrite appendService_run, log_outcome_Ok by done.
      set (b2 := Bridge.set_services _ b1).
      destruct (IH c' rest b2 Hb Hid Hrest) as (r' & errs & Hl & Hreg).
      exists r', (None :: errs). split; [simpl; lia|]. setoid_rewrite Hreg.
      change (Bridge.services b2) with (track (Container.ID c') (Some s) (Bridge.services b)).
      rewrite track_twice. subst b1 b2. unfold Bridge.set_services, Bridge.set_registry; cbn.
      by rewrite <- app_assoc.
  - destruct (IH c' rest b Hb Hid Hrest) as (r' & errs & Hl & Hreg).
    exists r', errs. split; [done|].
    destruct quiet; simpl; [|rewrite log_id_run, log_outcome_Ok by done]; exact Hreg.
Qed.

(** ** Pruning *)
Definition pruned (interval : Z) (d : DeadContainer.t) : option DeadContainer.t :=
  let ttl := sub64 (DeadContainer.TTL d) interval in
  if decide (ttl ≤ 0)%Z then None else Some (DeadContainer.mk ttl (DeadContainer.Services d)).

Lemma prune_step_lookup interval dead k d id :
  prune_step interval dead (k, d) !! id = if decide (k = id) then pruned interval d else dead !! id.
Proof.
  unfold prune_step, pruned; simpl. destruct (decide (k = id)) as [->|Hne].
  - case_decide; [by rewrite lookup_delete_eq|by rewrite lookup_insert_eq].
  - case_decide; [by rewrite lookup_delete_ne|by rewrite lookup_insert_ne].
Qed.

Lemma foldl_prune_lookup interval l dead id : NoDup l.*1 →
  foldl (prune_step interval) dead l !! id =
  match (list_to_map l : gmap string DeadContainer.t) !! id with
  | Some d => pruned interval d
  | None => dead !! id
  end.
Proof.
  revert dead. induction l as [|[k d] l IH]; intros dead Hnd; [done|].
  inversion Hnd as [|? ? Hk Hl]; subst. simpl. rewrite IH by done. rewrite prune_step_lookup.
  destruct (decide (k = id)) as [->|Hne].
  - rewrite lookup_insert_eq. apply not_elem_of_list_to_map in Hk. by rewrite Hk.
  - by rewrite lookup_insert_ne.
Qed.

(** A round of pruning acts on each dead container by itself. *)
Lemma prune_omap interval dead : prune interval dead = omap (pruned interval) dead.
Proof.
  apply map_eq. intros id. unfold prune. rewrite foldl_prune_lookup by apply range_fst_NoDup.
  rewrite range_list_to_map, lookup_omap. by destruct (dead !! id).
Qed.

Lemma PruneDeadContainers_run b : Bridge.locked b = false →
  PruneDeadContainers b =
  (Ok (), Bridge.set_dead (omap (pruned (Config.RefreshInterval (Bridge.config b)))
                             (Bridge.deadContainers b)) b).
Proof.
  intros Hb. unfold PruneDeadContainers. rewrite with_lock_run by done. simpl.
  rewrite prune_omap. by destruct b; simpl in *; subst.
Qed.

(** ** Reading the tables *)
Lemma copy_services_id m : copy_services m = m.
Proof.
  unfold copy_services. rewrite <- (range_list_to_map m) at 2.
  pose proof (range_fst_NoDup m) as Hnd. revert Hnd. generalize (range m) as l. clear m.
  assert (∀ (l : list (string * list Service.t)) (acc : gmap string (list Service.t)),
            NoDup l.*1 → foldl (λ copy kv, <[kv.1 := kv.2]> copy) acc l = list_to_map l ∪ acc) as H.
  { induction l as [|[k v] l IH]; intros acc Hnd; simpl; [by rewrite map_empty_union|].
    inversion Hnd; subst. rewrite IH by done.
    by rewrite <- insert_union_l, insert_union_r by (by apply not_elem_of_list_to_map). }
  intros l Hnd. by rewrite H, map_union_empty.
Qed.

Lemma getServicesCopy_run b : Bridge.locked b = false →
  getServicesCopy b = (Ok (Bridge.services b), b).
Proof.
  intros Hb. unfold getServicesCopy. rewrite with_lock_run by done. go_unfold.
  rewrite copy_services_id. by destruct b; simpl in *; subst.
Qed.
End runs.
