(* ===== verification/BridgeInv.v ===== *)
(** * Invariants of the bridge's tables

    They hold after every operation, whatever way it ends and whatever the
    registry does: every entry of the tables holds exactly one service, made for
    the container it is filed under, and every dead container has time left. *)
From S2P Require Import Prelude GoStrings Types Metadata ServiceId NewService Fixtures.
From S2P Require Import Bridge BridgeLemmas.

(** A property of the bridge that does not look at the mutex, the registry, the
    trace or the goroutines started. *)
Definition tables_only {R} (P : Bridge.t R → Prop) : Prop :=
  (∀ l b, P b → P (Bridge.set_locked l b)) ∧
  (∀ r cs b, P b → P (Bridge.set_registry r cs b)) ∧
  (∀ g b, P b → P (Bridge.spawn g b)).

Section keeps_bridge.
Context {R : Type} `{RA : RegistryAdapter R} `{O : MapOrder}.
Context (P : Bridge.t R → Prop) (HP : tables_only P).

Lemma keeps_with_lock {A} (m : GoM (Bridge.t R) A) Q :
  keeps P m Q → keeps P (with_lock m) Q.
Proof.
  destruct HP as (Hl & _). intros Hm b Hb. unfold with_lock.
  destruct (Bridge.locked b); [split; simpl; [done|discriminate]|].
  destruct (Hm (Bridge.set_locked true b)) as [Hb' Ha]; [by apply Hl|].
  destruct (m _) as [o b']; simpl in *. split; [by apply Hl|done].
Qed.

Lemma keeps_Lock : keeps P Lock (λ _, True).
Proof.
  destruct HP as (Hl & _). intros b Hb. unfold Lock.
  destruct (Bridge.locked b); split; simpl; auto.
Qed.

Lemma keeps_Unlock : keeps P Unlock (λ _, True).
Proof.
  destruct HP as (Hl & _). intros b Hb. unfold Unlock.
  destruct (Bridge.locked b); split; simpl; auto.
Qed.

Lemma keeps_registry_call {A} (op : GoM R A) note :
  keeps P (registry_call op note) (λ _, True).
Proof.
  destruct HP as (_ & Hr & _). intros b Hb. unfold registry_call.
  destruct (op (Bridge.registry b)) as [[] r]; split; simpl; auto.
Qed.

Lemma keeps_log_id id : keeps P (log_id id) (λ _, True).
Proof. intros b Hb. by rewrite log_id_run. Qed.

Lemma keeps_deregisterAll ss : keeps P (deregisterAll ss) (λ _, True).
Proof.
  apply keeps_for_each. intros s _.
  eapply keeps_bind; [apply keeps_registry_call|]. intros. by apply keeps_ret.
Qed.

Lemma keeps_Refresh : keeps P bridge_Refresh (λ _, True).
Proof.
  eapply keeps_bind.
  { apply keeps_with_lock. eapply keeps_bind; [apply keeps_get|]. intros.
    by apply (keeps_ret _ _ (λ _, True)). }
  intros copy _. apply keeps_for_each. intros kv _. apply keeps_for_each. intros s _.
  eapply keeps_bind; [apply keeps_registry_call|]. intros [] _; [by apply keeps_ret|].
  apply keeps_log_id.
Qed.
End keeps_bridge.

Section invariant.
Context {R : Type} `{RA : RegistryAdapter R} `{O : MapOrder} (host : Host.t).
Implicit Types (b : Bridge.t R) (id : string).

(** The service knows its container, and the container has a name. *)
Definition has_container (s : Service.t) : Prop :=
  ∃ c, ServicePort.container (Service.Origin s) = Some c ∧ Container.Name c ≠ "".

(** The service was made for the container it is filed under. *)
Definition owned (id : string) (s : Service.t) : Prop :=
  ServicePort.ContainerID (Service.Origin s) = id ∧ has_container s.

Definition one_owned (id : string) (ss : list Service.t) : Prop :=
  ∃ s, ss = [s] ∧ owned id s.

(** No negative TTL and interval, which registrator.go does not rule out. *)
Definition timed (config : Config.t) : Prop :=
  in_int64 (Config.RefreshTtl config) ∧ in_int64 (Config.RefreshInterval config) ∧
  (0 ≤ Config.RefreshTtl config)%Z ∧ (0 ≤ Config.RefreshInterval config)%Z.

(** What is left of the TTL of a dead container: something, and not more than it
    started with. With a negative TTL there is nothing left from the start. *)
Definition dead_ok (config : Config.t) (id : string) (d : DeadContainer.t) : Prop :=
  one_owned id (DeadContainer.Services d) ∧
  (timed config → (0 < DeadContainer.TTL d ≤ Config.RefreshTtl config)%Z).

Definition bridge_inv b : Prop :=
  map_Forall one_owned (Bridge.services b) ∧
  map_Forall (dead_ok (Bridge.config b)) (Bridge.deadContainers b).

Lemma bridge_inv_tables : tables_only bridge_inv.
Proof. by split; [|split]. Qed.

Lemma bridge_inv_init (r : R) config : bridge_inv (Bridge.init r config).
Proof. split; apply map_Forall_empty. Qed.

Lemma deleteDeadContainer_inv id : keeps bridge_inv (deleteDeadContainer id) (λ _, True).
Proof.
  apply keeps_with_lock, keeps_modify; [apply bridge_inv_tables|].
  intros b [Hs Hd]. destruct (Bridge.deadContainers b !! id) as [d|] eqn:Hid; [|done].
  destruct (Hd id d Hid) as [Hone _]. split; simpl; [|by apply map_Forall_delete].
  by apply map_Forall_insert_2.
Qed.

Lemma track_inv id s m : owned id s → map_Forall one_owned m →
  map_Forall one_owned (track id (Some s) m).
Proof.
  intros Hs Hm. unfold track. case_decide; [|done]. apply map_Forall_insert_2; [|done].
  by exists s.
Qed.

Lemma appendService_inv id s : owned id s → keeps bridge_inv (appendService id s) (λ _, True).
Proof.
  intros Hown b Hb. split; [|done]. destruct (Bridge.locked b) eqn:Hl.
  - unfold appendService. by rewrite with_lock_blocked.
  - rewrite appendService_run by done. destruct Hb as [Hs Hd].
    split; [by apply track_inv|done].
Qed.

Lemma newService_owned config docker container port isGroup container' s :
  newService config host docker container port isGroup = Ok (container', Some s) →
  owned (ServicePort.ContainerID port) s.
Proof.
  intros (cfg & md & fp & sl & nm & ip0 & ip & _ & Hc & _ & _ & Hname & _ & _ & _ & _ & _ & _ &
          _ & _ & _ & _ & _ & Horigin)%newService_inv. unfold owned, has_container.
  rewrite Horigin. split; [done|]. exists container'. split; [done|].
  rewrite Hc. simpl. by rewrite Hname.
Qed.

Lemma register_ports_inv docker quiet isGroup container ports :
  Forall (λ kv, ServicePort.ContainerID kv.2 = Container.ID container) ports →
  keeps bridge_inv (register_ports host docker quiet isGroup container ports) (λ _, True).
Proof.
  revert container. induction ports as [|[k port] ports IH]; intros container Hp;
    [by apply keeps_ret|].
  inversion Hp as [|? ? Hport Hports]; simplify_eq/=.
  eapply keeps_bind; [apply keeps_get|]. intros b0 _.
  eapply keeps_bind; [apply keeps_lift; intros a Ha; exact Ha|].
  intros [c' o] Hnew; simpl in Hnew. pose proof (newService_container _ _ _ _ _ _ _ _ Hnew) as Hc.
  apply keeps_bind with (λ _, True); [|intros _ _; apply IH; by rewrite Hc].
  destruct o as [s|];
    [|destruct quiet; [by apply keeps_ret|apply keeps_log_id]].
  eapply keeps_bind; [apply keeps_registry_call, bridge_inv_tables|].
  intros [e|] _; [by apply keeps_ret|].
  apply appendService_inv. rewrite Hc, <- Hport. by eapply newService_owned.
Qed.

(** *** The ports of a container name it *)
Definition names (id : string) (ports : gmap string ServicePort.t) : Prop :=
  map_Forall (λ _ p, ServicePort.ContainerID p = id) ports.

Lemma foldl_insert_names {A} (f : string * A → ServicePort.t) id l ports :
  (∀ kv, ServicePort.ContainerID (f kv) = id) → names id ports →
  names id (foldl (λ ports kv, <[kv.1 := f kv]> ports) ports l).
Proof.
  intros Hf. revert ports. induction l as [|kv l IH]; intros ports Hp; [done|].
  apply IH. by apply map_Forall_insert_2.
Qed.

Lemma container_ports_names container newIP :
  names (Container.ID container) (container_ports container newIP).
Proof.
  apply foldl_insert_names; [done|]. apply foldl_insert_names; [|apply map_Forall_empty].
  intros kv. by case_decide.
Qed.

Lemma select_ports_names internal quiet container id ports selected :
  select_ports internal quiet container ports = Ok selected →
  names id ports → names id selected.
Proof.
  intros Hsel Hp. unfold select_ports in Hsel.
  assert (Forall (λ kv, ServicePort.ContainerID kv.2 = id) (range ports)) as Hl.
  { apply Forall_forall. intros [k p] Hk%range_elem. by apply (Hp k). }
  assert (names id ∅) as H0 by apply map_Forall_empty.
  revert Hsel H0. generalize (∅ : gmap string ServicePort.t). revert Hl.
  generalize (range ports). induction l as [|kv l IH]; intros Hl acc Hsel Hacc.
  { by injection Hsel as <-. }
  inversion Hl; subst. simpl in Hsel.
  destruct (select_port _ _ _ _ _) as [acc'| | |] eqn:Hs; try done.
  apply (IH ltac:(done) acc' Hsel). revert Hs. unfold select_port, slice_to.
  unfold mbind, mret, outcome_bind, outcome_ret.
  intros Hs. repeat case_match; simplify_eq/=; try done; by apply map_Forall_insert_2.
Qed.

(** *** The operations *)
Lemma add_keeps_inv docker id quiet newIP :
  keeps bridge_inv (add host docker id quiet newIP) (λ _, True).
Proof.
  pose proof (bridge_inv_tables) as HT. unfold add.
  eapply keeps_bind; [apply deleteDeadContainer_inv|]. intros _ _.
  eapply keeps_bind; [by apply keeps_Lock|]. intros _ _.
  eapply keeps_bind; [apply keeps_get|]. intros b _. case_decide; [apply keeps_log_id|].
  eapply keeps_bind; [by apply keeps_Unlock|]. intros _ _.
  destruct (DockerClient.InspectContainer docker id) as [c|e]; [|apply keeps_log_id].
  unfold add_inspected. case_decide; [apply keeps_log_id|].
  eapply keeps_bind; [apply keeps_get|]. intros b' _.
  eapply keeps_bind; [apply keeps_lift; intros a Ha; exact Ha|].
  intros ports Hports; simpl in Hports. apply register_ports_inv.
  apply Forall_forall. intros [k p] Hk%range_elem.
  by eapply (select_ports_names _ _ _ _ _ _ Hports), Hk; apply container_ports_names.
Qed.

Lemma services_of_inv id b : bridge_inv b → services_of b id ≠ [] → one_owned id (services_of b id).
Proof.
  intros (Hs & _). unfold services_of. destruct (Bridge.services b !! id) eqn:Hid; [|done].
  intros _. by apply (Hs id).
Qed.

Lemma remove_true_inv id : keeps bridge_inv (remove id true) (λ _, True).
Proof.
  pose proof (bridge_inv_tables) as HT. apply keeps_with_lock; [done|].
  eapply keeps_bind; [apply keeps_get|]. intros b0 Hb0.
  apply keeps_bind with (λ _, True).
  2: { intros _ _. apply keeps_modify. intros b [Hs Hd].
       split; [by apply map_Forall_delete|done]. }
  eapply keeps_bind; [by apply keeps_deregisterAll|]. intros _ _.
  destruct (Bridge.deadContainers b0 !! id); [|by apply keeps_ret].
  eapply keeps_bind; [by apply keeps_deregisterAll|]. intros _ _.
  apply keeps_modify. intros b [Hs Hd].
  split; [done|by apply map_Forall_delete].
Qed.

Lemma remove_false_inv id : keeps bridge_inv (remove id false) (λ _, True).
Proof.
  intros b Hb. split; [|done]. destruct (Bridge.locked b) eqn:Hl.
  { unfold remove. by rewrite with_lock_blocked. }
  rewrite remove_false_run by done. pose proof Hb as [Hs Hd].
  split; [by apply map_Forall_delete|]. simpl. case_decide as Hc; [|done].
  destruct Hc as [Httl Hlive]. apply map_Forall_insert_2; [|done].
  split; [by apply services_of_inv|]. intros (_ & _ & Ht & _). simpl in *. lia.
Qed.

Lemma remove_keeps_inv id deregister : keeps bridge_inv (remove id deregister) (λ _, True).
Proof. destruct deregister; [apply remove_true_inv|apply remove_false_inv]. Qed.

Lemma RemoveOnExit_keeps_inv docker id : keeps bridge_inv (RemoveOnExit docker id) (λ _, True).
Proof.
  eapply keeps_bind; [|intros; apply remove_keeps_inv].
  unfold shouldRemove. eapply keeps_bind; [apply keeps_get|]. intros b _.
  case_decide; [by apply (keeps_ret _ _ (λ _, True))|].
  destruct (DockerClient.InspectContainer docker id) as [c|[]];
    repeat case_match; try (by apply (keeps_ret _ _ (λ _, True)));
    (eapply keeps_bind; [apply keeps_log_id|]; intros; by apply keeps_ret).
Qed.

Lemma pruned_inv config id d d' : dead_ok config id d →
  pruned (Config.RefreshInterval config) d = Some d' → dead_ok config id d'.
Proof.
  intros (Hone & Httl). unfold pruned. case_decide as Hle; [done|]. intros [= <-]. split; [done|].
  intros Ht. specialize (Httl Ht). destruct Ht as (Ht1 & Ht2 & Ht3 & Ht4). simpl.
  rewrite sub64_pos in *; revert Ht1; unfold in_int64, int64_min; lia || done.
Qed.

Lemma PruneDeadContainers_keeps_inv : keeps bridge_inv PruneDeadContainers (λ _, True).
Proof.
  intros b Hb. split; [|done]. destruct (Bridge.locked b) eqn:Hl.
  { unfold PruneDeadContainers. by rewrite with_lock_blocked. }
  rewrite PruneDeadContainers_run by done. destruct Hb as [Hs Hd].
  split; [done|]. intros id d'. simpl. rewrite lookup_omap.
  destruct (Bridge.deadContainers b !! id) as [d|] eqn:Hid; [|done].
  by apply pruned_inv, Hd.
Qed.
End invariant.
