(* ===== verification/BridgeProps.v ===== *)
(** * What the bridge's operations do: properties and their witnesses *)
From S2P Require Import Prelude GoStrings Types Metadata ServiceId NewService Fixtures.
From S2P Require Import Bridge BridgeLemmas BridgeInv.

Section props.
Context {R : Type} `{RA : RegistryAdapter R} `{RR : !RegistryReturns R} `{O : MapOrder}.
Context (host : Host.t).
Implicit Types (b : Bridge.t R) (id : string) (s : Service.t).

Lemma select_ports_empty internal quiet container :
  select_ports internal quiet container ∅ = Ok ∅.
Proof. unfold select_ports. by rewrite range_empty. Qed.

Lemma add_inspected_run docker container quiet newIP made b :
  Bridge.locked b = false → 12 ≤ String.length (Container.ID container) →
  add_plan host (Bridge.config b) docker container quiet newIP = Ok made →
  ∃ r errs, length errs = length made ∧
    add_inspected host docker container quiet newIP b =
      (Ok (), Bridge.set_services
                (track (Container.ID container) (first_registered made errs) (Bridge.services b))
                (Bridge.set_registry r (zip_with CRegister made errs) b)).
Proof.
  intros Hb Hid Hplan. unfold add_inspected, add_plan in *. case_decide as Hnone.
  - destruct Hnone as [Hsize _]. apply map_size_empty_iff in Hsize. rewrite Hsize in Hplan.
    rewrite select_ports_empty in Hplan. simpl in Hplan. rewrite range_empty in Hplan.
    injection Hplan as <-. exists (Bridge.registry b), []. split; [done|].
    rewrite log_id_run, log_outcome_Ok, set_registry_nil by done. by destruct b.
  - erewrite GoM_bind_Ok by reflexivity.
    destruct (select_ports _ _ _ _) as [ports| | |]; try done. simpl in Hplan.
    erewrite GoM_bind_Ok by reflexivity. by apply register_ports_run.
Qed.

Lemma add_untracked_run docker id quiet newIP container made b :
  Bridge.locked b = false → services_of b id = [] → Bridge.deadContainers b !! id = None →
  DockerClient.InspectContainer docker id = inl container →
  12 ≤ String.length (Container.ID container) →
  add_plan host (Bridge.config b) docker container quiet newIP = Ok made →
  ∃ r errs, length errs = length made ∧
    add host docker id quiet newIP b =
      (Ok (), Bridge.set_services
                (track (Container.ID container) (first_registered made errs) (Bridge.services b))
                (Bridge.set_registry r (zip_with CRegister made errs) b)).
Proof.
  intros Hb Hs Hd Hdocker Hid Hplan. unfold add.
  erewrite GoM_bind_Ok by (by apply deleteDeadContainer_run). rewrite Hd.
  rewrite (GoM_bind_Ok Lock _ b () (Bridge.set_locked true b)) by (unfold Lock; by rewrite Hb).
  erewrite (GoM_bind_Ok get_state) by reflexivity.
  change (services_of (Bridge.set_locked true b) id) with (services_of b id).
  rewrite decide_False by auto.
  rewrite (GoM_bind_Ok Unlock _ _ () b), Hdocker.
  - by apply add_inspected_run.
  - unfold Unlock. simpl. by destruct b; simpl in *; subst.
Qed.

(** C1: adding a container that is not tracked hands the registry every service
    planned for it, once and in the order of the ports, and goes on after a
    failure; of those registered, the first becomes the container's tracked
    service, and nothing else changes. *)
Theorem add_registers docker id quiet newIP container made b :
  Bridge.locked b = false → services_of b id = [] → Bridge.deadContainers b !! id = None →
  DockerClient.InspectContainer docker id = inl container →
  12 ≤ String.length (Container.ID container) →
  add_plan host (Bridge.config b) docker container quiet newIP = Ok made →
  ∃ r errs, length errs = length made ∧
    add host docker id quiet newIP b =
      (Ok (), Bridge.set_services
                (track (Container.ID container) (first_registered made errs) (Bridge.services b))
                (Bridge.set_registry r (zip_with CRegister made errs) b)).
Proof. apply add_untracked_run. Qed.

(** C13: a removal that deregisters hands the registry every service of the
    container, live or dead, once, whatever it answers; one that does not makes
    no call, and with a TTL moves the services to the dead containers. The
    container is tracked no more, and the mutex is free. *)
Theorem remove_spec id deregister b : Bridge.locked b = false →
  let gone := services_of b id ++
    match Bridge.deadContainers b !! id with Some d => DeadContainer.Services d | None => [] end in
  ∃ r errs b', remove id deregister b = (Ok (), b') ∧
    Bridge.services b' = delete id (Bridge.services b) ∧ Bridge.locked b' = false ∧
    if deregister
    then length errs = length gone ∧ Bridge.registry b' = r ∧
         Bridge.calls b' = Bridge.calls b ++ zip_with CDeregister gone errs ∧
         Bridge.deadContainers b' = delete id (Bridge.deadContainers b)
    else Bridge.registry b' = Bridge.registry b ∧ Bridge.calls b' = Bridge.calls b ∧
         Bridge.deadContainers b' =
           if decide (Config.RefreshTtl (Bridge.config b) ≠ 0%Z ∧ services_of b id ≠ [])
           then <[id := DeadContainer.mk (Config.RefreshTtl (Bridge.config b))
                          (services_of b id)]> (Bridge.deadContainers b)
           else Bridge.deadContainers b.
Proof.
  intros Hb gone. destruct deregister.
  - destruct (remove_true_run id b Hb) as (r & errs & Hl & Hrun). by eexists r, errs, _.
  - rewrite remove_false_run by done. eexists (Bridge.registry b), [], _.
    split; [reflexivity|]. by case_decide.
Qed.

(** C12: adding a container and removing it again restores the tables; but of
    all the services the addition registered, the removal deregisters the first
    only: those of the container's other ports stay in the registry. *)
Theorem add_then_Remove docker id quiet newIP container made b :
  Bridge.locked b = false → Bridge.services b !! id = None →
  Bridge.deadContainers b !! id = None →
  DockerClient.InspectContainer docker id = inl container → Container.ID container = id →
  12 ≤ String.length id →
  add_plan host (Bridge.config b) docker container quiet newIP = Ok made →
  ∃ errs e b', length errs = length made ∧
    (_ ← add host docker id quiet newIP; Remove id) b = (Ok (), b') ∧
    Bridge.services b' = Bridge.services b ∧
    Bridge.deadContainers b' = Bridge.deadContainers b ∧ Bridge.locked b' = false ∧
    Bridge.calls b' = Bridge.calls b ++ zip_with CRegister made errs ++
      match first_registered made errs with Some s => [CDeregister s e] | None => [] end.
Proof.
  intros Hb Hs Hd Hdocker <- Hid Hplan.
  assert (services_of b (Container.ID container) = []) as Hs' by (unfold services_of; by rewrite Hs).
  destruct (add_untracked_run docker (Container.ID container) quiet newIP container made b)
    as (r & errs & Hl & Hadd); try done.
  rewrite (GoM_bind_Ok _ _ _ _ _ Hadd). set (b1 := Bridge.set_services _ _).
  destruct (remove_true_run (Container.ID container) b1 Hb) as (r' & errs' & Hl' & Hrem).
  unfold Remove. rewrite Hrem. exists errs, (default None (head errs')).
  eexists. split; [done|]. split; [done|].
  assert (services_of b1 (Container.ID container) = option_list (first_registered made errs)) as Ht.
  { unfold services_of, b1, track. simpl. destruct (first_registered made errs); rewrite Hs; simpl;
      [by rewrite lookup_insert_eq|done]. }
  change (Bridge.deadContainers b1) with (Bridge.deadContainers b) in *.
  rewrite Hd, app_nil_r, Ht in *. split; [|split; [|split; [done|]]]; simpl.
  - unfold track. rewrite Hs. simpl. destruct (first_registered made errs); simpl.
    + by rewrite delete_insert_eq, delete_id.
    + by rewrite delete_id.
  - by rewrite delete_id.
  - rewrite <- app_assoc. do 2 f_equal. destruct (first_registered made errs); [|done].
    simpl in Hl'. destruct errs' as [|e' errs']; [done|]. by destruct errs'.
Qed.

(** ** Refreshing *)
Lemma refresh_run l b : Forall (λ kv, 12 ≤ String.length kv.1) l →
  ∃ r errs, length errs = length (concat l.*2) ∧
    for_each (λ kv, for_each (refresh_service kv.1) kv.2) l b =
      (Ok (), Bridge.set_registry r (zip_with CRefresh (concat l.*2) errs) b).
Proof.
  revert b. induction l as [|[id ss] l IH]; intros b Hid.
  { exists (Bridge.registry b), []. split; [done|]. by rewrite set_registry_nil. }
  inversion Hid; subst. destruct (refresh_list_run id ss b) as (r & errs & Hl & Hhd); [done|].
  destruct (IH (Bridge.set_registry r (zip_with CRefresh ss errs) b)) as (r' & errs' & Hl' & Htl);
    [done|].
  exists r', (errs ++ errs'). split; [simpl; rewrite !length_app, Hl, Hl'; done|].
  erewrite (for_each_cons (λ kv, for_each (refresh_service kv.1) kv.2)) by exact Hhd.
  rewrite Htl, set_registry_twice. simpl. by rewrite zip_with_app.
Qed.

(** [Refresh] hands the registry every tracked service exactly once, in an
    order of Go's choosing, whatever the registry answers, and changes neither
    table. *)
Theorem Refresh_spec b : Bridge.locked b = false →
  map_Forall (λ id _, 12 ≤ String.length id) (Bridge.services b) →
  ∃ r ss errs, ss ≡ₚ concat (map_to_list (Bridge.services b)).*2 ∧ length errs = length ss ∧
    bridge_Refresh b = (Ok (), Bridge.set_registry r (zip_with CRefresh ss errs) b).
Proof.
  intros Hb Hid. unfold bridge_Refresh. erewrite GoM_bind_Ok by (by apply getServicesCopy_run).
  destruct (refresh_run (range (Bridge.services b)) b) as (r & errs & Hl & Hrun).
  { apply Forall_forall. intros [id ss] Hin%range_elem. by apply (Hid id ss). }
  exists r, (concat (range (Bridge.services b)).*2), errs. split; [|done].
  by rewrite range_perm.
Qed.

(** ** Pruning *)
Definition prune_rounds (n : nat) : GoM (Bridge.t R) unit :=
  for_each (λ _, PruneDeadContainers) (replicate n ()).

Lemma prune_rounds_run n b : Bridge.locked b = false →
  prune_rounds n b =
  (Ok (), Bridge.set_dead
     (Nat.iter n (omap (pruned (Config.RefreshInterval (Bridge.config b))))
        (Bridge.deadContainers b)) b).
Proof.
  revert b. induction n as [|n IH]; intros b Hb; [by destruct b|].
  unfold prune_rounds in *. cbn [replicate].
  erewrite for_each_cons by (by apply PruneDeadContainers_run).
  rewrite IH by done. by rewrite Nat.iter_succ_r.
Qed.

Lemma iter_pruned_lookup n k (dead : gmap string DeadContainer.t) id :
  Nat.iter n (omap (pruned k)) dead !! id = Nat.iter n (λ o, o ≫= pruned k) (dead !! id).
Proof. induction n as [|n IH]; [done|]. simpl. by rewrite lookup_omap, IH. Qed.

(** C18: a dead container expires after exactly as many rounds of pruning as its
    TTL needs: it is still there, with the time left, as long as the intervals do
    not add up to the TTL, and gone from then on. *)
Theorem prune_countdown n id d b : Bridge.locked b = false →
  Bridge.deadContainers b !! id = Some d → in_int64 (DeadContainer.TTL d) →
  (0 < DeadContainer.TTL d)%Z →
  in_int64 (Config.RefreshInterval (Bridge.config b)) →
  (0 ≤ Config.RefreshInterval (Bridge.config b))%Z →
  let left := (DeadContainer.TTL d - Z.of_nat n * Config.RefreshInterval (Bridge.config b))%Z in
  ∃ b', prune_rounds n b = (Ok (), b') ∧ Bridge.services b' = Bridge.services b ∧
    Bridge.calls b' = Bridge.calls b ∧
    Bridge.deadContainers b' !! id =
      if decide (0 < left)%Z then Some (DeadContainer.mk left (DeadContainer.Services d)) else None.
Proof.
  intros Hb Hd Hr Hpos Hk Hk0 left. rewrite prune_rounds_run by done.
  eexists. repeat split. simpl. rewrite iter_pruned_lookup, Hd. subst left.
  set (k := Config.RefreshInterval (Bridge.config b)) in *.
  induction n as [|n IH]; simpl.
  { rewrite decide_True by lia. destruct d; simpl. do 2 f_equal. lia. }
  rewrite IH. case_decide as Hn; simpl; [|rewrite decide_False by nia; done].
  unfold pruned. simpl. rewrite sub64_pos; [|revert Hr; unfold in_int64, int64_min; nia|lia|done..].
  case_decide as Hl; [rewrite decide_False by lia; done|].
  rewrite decide_True by lia. do 2 f_equal. lia.
Qed.

(** ** Whether to deregister on exit *)
Lemma signaled_bit code :
  Z.land code dockerSignaledBit = dockerSignaledBit ↔ Z.testbit code 7 = true.
Proof.
  unfold dockerSignaledBit. change 128%Z with (2 ^ 7)%Z. split; intros H.
  - apply (f_equal (λ z, Z.testbit z 7)) in H. rewrite Z.land_spec in H.
    rewrite Z.pow2_bits_true in H by lia. by rewrite andb_true_r in H.
  - apply Z.bits_inj'. intros n Hn. rewrite Z.land_spec, Z.pow2_bits_eqb by lia.
    destruct (Z.eqb_spec 7 n) as [<-|]; [by rewrite H|by rewrite andb_false_r].
Qed.

(** C19: a container that has exited is deregistered exactly when the check is
    [always], Docker does not know the container any more, or it has stopped
    with exit code 0 or by a signal (bit 7 of the code); on any other Docker
    error, or while it runs, it is kept. No state changes. *)
Theorem shouldRemove_spec docker id b : 12 ≤ String.length id →
  ∃ deregister, shouldRemove docker id b = (Ok deregister, b) ∧
    (deregister = true ↔
       Config.DeregisterCheck (Bridge.config b) = "always" ∨
       DockerClient.InspectContainer docker id = inr NoSuchContainer ∨
       ∃ c, DockerClient.InspectContainer docker id = inl c ∧ Container.Running c = false ∧
         (Container.ExitCode c = 0%Z ∨ Z.testbit (Container.ExitCode c) 7 = true)).
Proof.
  intros Hid. unfold shouldRemove. erewrite GoM_bind_Ok by reflexivity.
  assert (∀ v : bool, (_ ← log_id id; mret v) b = (Ok v, b)) as Hlog.
  { intros v. by erewrite GoM_bind_Ok by (by rewrite log_id_run, log_outcome_Ok). }
  case_decide as Ha; [exists true; naive_solver|].
  destruct (DockerClient.InspectContainer docker id) as [c|[|msg]] eqn:Hi;
    [|exists true; rewrite Hlog; naive_solver|exists false; rewrite Hlog; naive_solver].
  destruct (Container.Running c) eqn:Hrun; [exists false; rewrite Hlog; naive_solver|].
  case_decide as He; [exists true; naive_solver|].
  eexists. split; [reflexivity|]. rewrite bool_decide_eq_true, signaled_bit. naive_solver.
Qed.
End props.

(** * Concrete runs *)
Module Runs.
(** A new bridge with the registry in memory. *)
Definition fresh : Bridge.t Memory.t := Bridge.init Memory.empty Fixtures.config.

(** The two services [add] plans for the container with two ports. *)
Definition web_plan : list Service.t :=
  match @add_plan ascending Fixtures.host Fixtures.config Fixtures.docker Fixtures.web false ""
  with Ok made => made | _ => [] end.

Lemma web_planned :
  @add_plan ascending Fixtures.host Fixtures.config Fixtures.docker Fixtures.web false "" =
  Ok web_plan.
Proof. vm_compute. reflexivity. Qed.

(** The bridge once that container is added, and once it is dead. *)
Definition added : Bridge.t Memory.t :=
  (@add _ _ ascending Fixtures.host Fixtures.docker Fixtures.web_id false "" fresh).2.

Definition buried : Bridge.t Memory.t := (@remove _ _ Fixtures.web_id false added).2.

Definition dead_web : DeadContainer.t :=
  DeadContainer.mk 30 (services_of added Fixtures.web_id).

Lemma buried_web : Bridge.deadContainers buried !! Fixtures.web_id = Some dead_web.
Proof. vm_compute. reflexivity. Qed.

Lemma buried_interval : Config.RefreshInterval (Bridge.config buried) = 10%Z.
Proof. vm_compute. reflexivity. Qed.
End Runs.

Lemma add_registers_witness :
  length Runs.web_plan = 2 ∧
  ∃ r errs, length errs = length Runs.web_plan ∧
    @add _ _ ascending Fixtures.host Fixtures.docker Fixtures.web_id false "" Runs.fresh =
      (Ok (), Bridge.set_services
                (track Fixtures.web_id (first_registered Runs.web_plan errs) ∅)
                (Bridge.set_registry r (zip_with CRegister Runs.web_plan errs) Runs.fresh)).
Proof.
  split; [vm_compute; reflexivity|].
  apply (@add_registers _ _ _ ascending Fixtures.host Fixtures.docker Fixtures.web_id false ""
           Fixtures.web Runs.web_plan Runs.fresh);
    [reflexivity..|simpl; lia|apply Runs.web_planned].
Defined.

Lemma remove_spec_witness :
  let gone := services_of Runs.added Fixtures.web_id in
  length gone = 1 ∧
  ∃ errs b', remove Fixtures.web_id true Runs.added = (Ok (), b') ∧
    Bridge.services b' = delete Fixtures.web_id (Bridge.services Runs.added) ∧
    Bridge.calls b' = Bridge.calls Runs.added ++ zip_with CDeregister (gone ++ []) errs.
Proof.
  split; [vm_compute; reflexivity|].
  destruct (remove_spec Fixtures.web_id true Runs.added ltac:(vm_compute; reflexivity))
    as (r & errs & b' & Hrun & Hs & _ & _ & _ & Hc & _).
  exists errs, b'. split; [exact Hrun|split; [exact Hs|exact Hc]].
Defined.

Lemma add_then_Remove_witness :
  ∃ errs e b', length errs = 2 ∧
    (_ ← @add _ _ ascending Fixtures.host Fixtures.docker Fixtures.web_id false "";
     Remove Fixtures.web_id) Runs.fresh = (Ok (), b') ∧
    Bridge.services b' = ∅ ∧
    Bridge.calls b' = zip_with CRegister Runs.web_plan errs ++
      match first_registered Runs.web_plan errs with Some s => [CDeregister s e] | None => [] end.
Proof.
  destruct (@add_then_Remove _ _ _ ascending Fixtures.host Fixtures.docker Fixtures.web_id false ""
              Fixtures.web Runs.web_plan Runs.fresh) as (errs & e & b' & Hl & Hrun & Hs & _ & _ & Hc);
    [reflexivity..|simpl; lia|apply Runs.web_planned|].
  exists errs, e, b'. split; [exact Hl|]. split; [exact Hrun|]. split; [exact Hs|exact Hc].
Defined.

(** After an addition and a removal, one of the two services is still registered. *)
Example leaked_service :
  map Service.Name (map_to_list (Memory.entries (Bridge.registry
    (Remove Fixtures.web_id Runs.added).2))).*2 = ["shop-80"].
Proof. vm_compute. reflexivity. Qed.

Lemma Refresh_spec_witness :
  ∃ r ss errs, ss ≡ₚ concat (map_to_list (Bridge.services Runs.added)).*2 ∧
    length errs = length ss ∧
    @bridge_Refresh _ _ ascending Runs.added =
      (Ok (), Bridge.set_registry r (zip_with CRefresh ss errs) Runs.added).
Proof.
  apply (@Refresh_spec _ _ _ ascending Runs.added); [vm_compute; reflexivity|].
  apply map_Forall_to_list. vm_compute. repeat constructor.
Defined.

Lemma prune_countdown_witness :
  (∃ b', prune_rounds (O:=ascending) 2 Runs.buried = (Ok (), b') ∧
     is_Some (Bridge.deadContainers b' !! Fixtures.web_id)) ∧
  (∃ b', prune_rounds (O:=ascending) 3 Runs.buried = (Ok (), b') ∧
     Bridge.deadContainers b' !! Fixtures.web_id = None).
Proof.
  assert (in_int64 30) as H30 by (unfold in_int64, int64_min, int64_max; lia).
  assert (in_int64 10 ∧ 0 ≤ 10)%Z as Hk by (unfold in_int64, int64_min, int64_max; lia).
  rewrite <- Runs.buried_interval in Hk. destruct Hk as [H10 H0].
  split.
  - destruct (@prune_countdown _ ascending 2 Fixtures.web_id Runs.dead_web Runs.buried eq_refl
                Runs.buried_web H30 eq_refl H10 H0) as (b' & Hrun & _ & _ & Hd).
    exists b'. split; [exact Hrun|]. rewrite Hd, Runs.buried_interval. by eexists.
  - destruct (@prune_countdown _ ascending 3 Fixtures.web_id Runs.dead_web Runs.buried eq_refl
                Runs.buried_web H30 eq_refl H10 H0) as (b' & Hrun & _ & _ & Hd).
    exists b'. split; [exact Hrun|]. by rewrite Hd, Runs.buried_interval.
Defined.

Lemma shouldRemove_spec_witness :
  ∃ deregister, shouldRemove Fixtures.docker Fixtures.side_id Runs.fresh = (Ok deregister, Runs.fresh) ∧
    deregister = true.
Proof.
  destruct (shouldRemove_spec Fixtures.docker Fixtures.side_id Runs.fresh) as (v & Hrun & Hv);
    [simpl; lia|].
  exists v. split; [exact Hrun|]. apply Hv. right. right. exists Fixtures.side.
  split; [reflexivity|]. split; [reflexivity|]. right. reflexivity.
Defined.
