(* ===== verification/ServiceSync.v ===== *)
(** * Synchronising with Docker and the registry: bridge/servicesync.go

    [serviceSync] runs in the goroutine of [channelRun], with the bridge's mutex
    held. A tracked service is written through its pointer; here the pointer is
    the container it is filed under and its index there. The lock inside a
    [Service] is taken by this file only, hence always under the bridge's mutex,
    and is never found held. *)
From S2P Require Import Prelude GoStrings Types Regex ServiceId NewService Bridge.

Section sync.
Context {R : Type} `{RA : RegistryAdapter R} `{O : MapOrder} (host : Host.t).

(** [service.IP = newIP; service.Origin.HostIP = newIP] through the pointer. *)
Definition store_service (id : string) (i : nat) (s : Service.t) : GoM (Bridge.t R) unit :=
  modify (λ b, Bridge.set_services
    (<[id := <[i := s]> (services_of b id)]> (Bridge.services b)) b).

Definition reregisterService (id : string) (i : nat) (newIP : string)
    : GoM (Bridge.t R) unit :=
  b ← get_state;
  match services_of b id !! i with
  | None => mret ()
  | Some service =>
      if decide (newIP ≠ "") then
        if decide (Service.IP service = newIP) then mret () else
        err ← registry_Deregister service;
        match err with
        | Some _ => mret ()
        | None =>
            let service := Service.set_IPs newIP service in
            _ ← store_service id i service;
            _ ← registry_Register service;
            mret ()
        end
      else
        _ ← registry_Register service;
        mret ()
  end.

(** The two inner loops of [cleanupServices]: is there a tracked service of that
    name, made for that container? *)
Fixpoint acknowledged (tracked : list Service.t) (name containerName : string)
    : outcome bool :=
  match tracked with
  | [] => mret false
  | service :: tracked =>
      if decide (Service.Name service = name) then
        match ServicePort.container (Service.Origin service) with
        | None => Panicked
        | Some container =>
            own ← slice_from (Container.Name container) 1;
            if decide (containerName = own) then mret true
            else acknowledged tracked name containerName
        end
      else acknowledged tracked name containerName
  end.

Definition tracked_services (b : Bridge.t R) : list Service.t :=
  concat (range (Bridge.services b)).*2.

Definition cleanup_service (extService : Service.t) : GoM (Bridge.t R) unit :=
  match parse_service_id (Service.ID extService) with
  | None => mret ()
  | Some (serviceHostname, serviceContainerName) =>
      if decide (serviceHostname ≠ Host.Hostname host) then mret () else
      b ← get_state;
      found ← lift_outcome
        (acknowledged (tracked_services b) (Service.Name extService) serviceContainerName);
      if (found : bool) then mret () else
      _ ← registry_Deregister extService;
      mret ()
  end.

Definition cleanupServices (danglingServices : list Service.t) : GoM (Bridge.t R) unit :=
  for_each cleanup_service danglingServices.

(** One listed container: re-register what is tracked, or start an [add]. *)
Definition sync_container (quiet : bool) (newIP listing : string) : GoM (Bridge.t R) unit :=
  b ← get_state;
  let services := services_of b listing in
  if decide (services = []) then modify (Bridge.spawn (GoAdd listing quiet newIP))
  else for_each (λ i, reregisterService listing i newIP) (seq 0 (length services)).

(** Start the removal of a tracked container that is not running any more. *)
Definition remove_stale (nonExitedContainers : list string) (listingId : string)
    : GoM (Bridge.t R) unit :=
  if decide (listingId ∈ nonExitedContainers) then mret ()
  else modify (Bridge.spawn (GoRemoveOnExit listingId)).

Definition cleanup (docker : DockerClient.t) : GoM (Bridge.t R) unit :=
  match DockerClient.ListContainers docker StatusFilters with
  | inr _ => mret ()
  | inl nonExitedContainers =>
      b ← get_state;
      _ ← for_each (remove_stale nonExitedContainers) (range (Bridge.services b)).*1;
      '(extServices, err) ← registry_call Services (λ r, CServices r.2);
      match err with
      | Some _ => mret ()
      | None => cleanupServices extServices
      end
  end.

Definition serviceSync (docker : DockerClient.t) (message : SyncMessage.t)
    : GoM (Bridge.t R) unit :=
  let quiet := SyncMessage.Quiet message in
  let newIP := SyncMessage.IP message in
  match DockerClient.ListContainers docker NoFilters with
  | inr _ => if quiet then mret () else lift_outcome (Exited 1)
  | inl containers =>
      _ ← for_each (sync_container quiet newIP) containers;
      b ← get_state;
      if Config.Cleanup (Bridge.config b) then cleanup docker else mret ()
  end.

(** What [channelRun] does with a message it received. *)
Definition handle_sync (docker : DockerClient.t) (message : SyncMessage.t)
    : GoM (Bridge.t R) unit :=
  _ ← Lock; _ ← serviceSync docker message; Unlock.
End sync.
