(* ===== verification/SyncLemmas.v ===== *)
(** * How [serviceSync] runs

    The exact effect of each step of bridge/servicesync.go on the tables and the
    calls it makes, when the registry's calls return. *)
From S2P Require Import Prelude GoStrings Types Regex ServiceId NewService.
From S2P Require Import Bridge BridgeLemmas BridgeInv ServiceSync.

(** ** Re-registration

    What becomes of a service and which calls are made, given the answers to a
    deregistration and a registration. *)
Definition resync (s : Service.t) (newIP : string) (e1 e2 : error)
    : Service.t * list call :=
  if decide (newIP = "") then (s, [CRegister s e2])
  else if decide (Service.IP s = newIP) then (s, [])
  else match e1 with
       | Some _ => (s, [CDeregister s e1])
       | None => let s' := Service.set_IPs newIP s in
                 (s', [CDeregister s None; CRegister s' e2])
       end.

(** The service at the end of a pointer, rewritten. *)
Definition rewrite_service (id : string) (i : nat) (s : Service.t)
    (m : gmap string (list Service.t)) : gmap string (list Service.t) :=
  <[id := <[i := s]> (default [] (m !! id))]> m.

Lemma rewrite_service_id id i s m :
  default [] (m !! id) !! i = Some s → rewrite_service id i s m = m.
Proof.
  unfold rewrite_service. intros Hs. rewrite list_insert_id by done. apply insert_id.
  by destruct (m !! id).
Qed.

Section runs.
Context {R : Type} `{RA : RegistryAdapter R} `{O : MapOrder} (host : Host.t).
Context `{RR : !RegistryReturns R}.
Implicit Types (b : Bridge.t R) (id : string) (s : Service.t).

Lemma set_services_id b : Bridge.set_services (Bridge.services b) b = b.
Proof. by destruct b. Qed.

Lemma reregisterService_run id i newIP s b : services_of b id !! i = Some s →
  ∃ r e1 e2, reregisterService id i newIP b =
    (Ok (), Bridge.set_registry r (resync s newIP e1 e2).2
              (Bridge.set_services
                 (rewrite_service id i (resync s newIP e1 e2).1 (Bridge.services b)) b)).
Proof.
  intros Hs. unfold reregisterService. erewrite GoM_bind_Ok by reflexivity. rewrite Hs.
  unfold resync. pose proof (rewrite_service_id _ _ _ _ Hs) as Hid.
  destruct (decide (newIP = "")) as [->|Hne].
  - rewrite decide_False by auto.
    destruct (registry_call_run (Register s) (CRegister s) b) as (e & r & _ & Hrun);
      [apply Register_returns|].
    exists r, None, e. rewrite (GoM_bind_Ok _ _ _ _ _ Hrun). simpl.
    by rewrite Hid, set_services_id.
  - rewrite decide_True by done.
    destruct (decide (Service.IP s = newIP)) as [Heq|Hip].
    { exists (Bridge.registry b), None, None. simpl.
      by rewrite Hid, set_services_id, set_registry_nil. }
    destruct (registry_call_run (Deregister s) (CDeregister s) b) as (e & r & _ & Hrun);
      [apply Deregister_returns|]. rewrite (GoM_bind_Ok _ _ _ _ _ Hrun).
    destruct e as [e|].
    { exists r, (Some e), None. simpl. by rewrite Hid, set_services_id. }
    set (s' := Service.set_IPs newIP s). erewrite GoM_bind_Ok by reflexivity.
    edestruct (registry_call_run (Register s') (CRegister s')) as (e' & r' & _ & Hrun');
      [apply Register_returns|].
    exists r', None, e'. rewrite (GoM_bind_Ok _ _ _ _ _ Hrun'). simpl.
    unfold Bridge.set_registry, Bridge.set_services; simpl. by rewrite <- app_assoc.
Qed.

(** ** Cleanup *)
Context `{RD : !RegistryDrops R}.

Definition acknowledges (name containerName : string) (s : Service.t) : bool :=
  bool_decide (Service.Name s = name) &&
  match ServicePort.container (Service.Origin s) with
  | Some c => bool_decide (Container.Name c ≠ "" ∧ sdrop 1 (Container.Name c) = containerName)
  | None => false
  end.

Lemma acknowledged_spec tracked name containerName : Forall has_container tracked →
  acknowledged tracked name containerName =
  Ok (existsb (acknowledges name containerName) tracked).
Proof.
  induction 1 as [|s tracked (c & Hc & Hn) _ IH]; [done|]. simpl. unfold acknowledges at 1.
  rewrite Hc. case_decide as Hname; [|by rewrite bool_decide_eq_false_2].
  rewrite (bool_decide_eq_true_2 _ Hname). unfold slice_from.
  destruct (Container.Name c) as [|a n]; [done|]. rewrite decide_True by (simpl; lia).
  go_unfold. case_decide as Heq.
  - by rewrite bool_decide_eq_true_2.
  - rewrite bool_decide_eq_false_2 by naive_solver. exact IH.
Qed.

(** A listed service that this host made and no tracked service stands for. *)
Definition dangling (tracked : list Service.t) (ext : Service.t) : bool :=
  match parse_service_id (Service.ID ext) with
  | Some (h, c) =>
      bool_decide (h = Host.Hostname host) &&
      negb (existsb (acknowledges (Service.Name ext) c) tracked)
  | None => false
  end.

Lemma cleanup_service_run ext b : Forall has_container (tracked_services b) →
  if dangling (tracked_services b) ext
  then ∃ r e, cleanup_service host ext b = (Ok (), Bridge.set_registry r [CDeregister ext e] b)
  else cleanup_service host ext b = (Ok (), b).
Proof.
  intros Hb. unfold dangling, cleanup_service.
  destruct (parse_service_id _) as [[h c]|]; [|done].
  destruct (decide (h = Host.Hostname host)) as [Hh|Hh].
  2: { rewrite bool_decide_eq_false_2 by done. by rewrite decide_True. }
  rewrite bool_decide_eq_true_2 by done. rewrite decide_False by auto. simpl.
  erewrite (GoM_bind_Ok get_state) by reflexivity.
  rewrite acknowledged_spec by done. erewrite GoM_bind_Ok by reflexivity.
  destruct (existsb _ _); simpl; [done|].
  destruct (registry_call_run (Deregister ext) (CDeregister ext) b) as (e & r & _ & Hrun);
    [apply drops_Deregister|].
  exists r, e. by rewrite (GoM_bind_Ok _ _ _ _ _ Hrun).
Qed.

Lemma cleanupServices_run ext b : Forall has_container (tracked_services b) →
  ∃ r errs, let gone := List.filter (dangling (tracked_services b)) ext in
    length errs = length gone ∧
    cleanupServices host ext b = (Ok (), Bridge.set_registry r (zip_with CDeregister gone errs) b).
Proof.
  revert b. induction ext as [|x ext IH]; intros b Hb.
  { exists (Bridge.registry b), []. split; [done|]. by rewrite set_registry_nil. }
  unfold cleanupServices in *. pose proof (cleanup_service_run x b Hb) as Hx. simpl.
  destruct (dangling (tracked_services b) x).
  - destruct Hx as (r & e & Hx). rewrite (GoM_bind_Ok _ _ _ _ _ Hx).
    destruct (IH (Bridge.set_registry r [CDeregister x e] b) Hb) as (r' & errs & Hl & Hrest).
    exists r', (e :: errs). split; [by simpl; f_equal|].
    setoid_rewrite Hrest. by rewrite set_registry_twice.
  - rewrite (GoM_bind_Ok _ _ _ _ _ Hx). by apply IH.
Qed.

(** ** The loop over the listed containers

    A tracked service is left alone or moved to the new address; everything else
    in the tables stays. *)
Definition moved (newIP : string) (s s' : Service.t) : Prop :=
  s' = s ∨ s' = Service.set_IPs newIP s.

Definition resynced (newIP : string) (b b' : Bridge.t R) : Prop :=
  Bridge.locked b' = Bridge.locked b ∧
  Bridge.deadContainers b' = Bridge.deadContainers b ∧
  Bridge.config b' = Bridge.config b ∧
  ∀ id, option_Forall2 (Forall2 (moved newIP)) (Bridge.services b !! id) (Bridge.services b' !! id).

#[local] Instance moved_refl newIP : Reflexive (moved newIP).
Proof. by left. Qed.

#[local] Instance moved_trans newIP : Transitive (moved newIP).
Proof. intros s1 s2 s3 [->| ->] [->| ->]; unfold moved; eauto. Qed.

#[local] Instance resynced_refl newIP : Reflexive (resynced newIP).
Proof. intros b. repeat split. intros id. reflexivity. Qed.

#[local] Instance resynced_trans newIP : Transitive (resynced newIP).
Proof.
  intros b1 b2 b3 (H1 & H2 & H3 & H4) (H1' & H2' & H3' & H4').
  repeat split; [congruence..|]. intros id. etrans; [apply H4|apply H4'].
Qed.

Lemma resync_moved s newIP e1 e2 : moved newIP s (resync s newIP e1 e2).1.
Proof. unfold resync, moved. repeat case_decide; simpl; auto. destruct e1; simpl; auto. Qed.

Lemma rewrite_service_moved newIP id i s s' m k :
  default [] (m !! id) !! i = Some s → moved newIP s s' →
  option_Forall2 (Forall2 (moved newIP)) (m !! k) (rewrite_service id i s' m !! k).
Proof.
  intros Hs Hm. unfold rewrite_service. destruct (decide (k = id)) as [->|Hne].
  - rewrite lookup_insert_eq. destruct (m !! id) as [ss|]; [|done]. constructor. simpl in *.
    rewrite <- (list_insert_id ss i s) at 1 by done. by apply Forall2_insert.
  - by rewrite lookup_insert_ne.
Qed.

Lemma reregister_resynced id i newIP s b : services_of b id !! i = Some s →
  ∃ b', reregisterService id i newIP b = (Ok (), b') ∧ resynced newIP b b' ∧
        Bridge.spawned b' = Bridge.spawned b.
Proof.
  intros Hs. destruct (reregisterService_run id i newIP s b Hs) as (r & e1 & e2 & Hrun).
  eexists. split; [exact Hrun|]. split; [|done]. repeat split.
  intros k. apply rewrite_service_moved with s; [done|apply resync_moved].
Qed.

Lemma resynced_length newIP b b' id : resynced newIP b b' →
  length (services_of b' id) = length (services_of b id).
Proof.
  intros (_ & _ & _ & Hs). specialize (Hs id). unfold services_of.
  inversion Hs as [ss ss' Hss|]; [|done]. simpl. by symmetry; eapply Forall2_length.
Qed.

Lemma reregister_all_resynced id newIP idxs b :
  Forall (λ i, i < length (services_of b id)) idxs →
  ∃ b', for_each (λ i, reregisterService id i newIP) idxs b = (Ok (), b') ∧
        resynced newIP b b' ∧ Bridge.spawned b' = Bridge.spawned b.
Proof.
  revert b. induction idxs as [|i idxs IH]; intros b Hi; [by exists b|].
  inversion Hi as [|? ? [s Hs]%lookup_lt_is_Some His]; subst.
  destruct (reregister_resynced id i newIP s b Hs) as (b1 & H1 & Hr1 & Hsp1).
  destruct (IH b1) as (b2 & H2 & Hr2 & Hsp2); [by rewrite (resynced_length _ _ _ _ Hr1)|].
  exists b2. erewrite (for_each_cons (λ i, reregisterService id i newIP)) by exact H1.
  split; [exact H2|]. split; [by etrans|congruence].
Qed.


Lemma sync_containers_run quiet newIP containers b :
  ∃ b', for_each (sync_container quiet newIP) containers b = (Ok (), b') ∧
    resynced newIP b b' ∧
    Bridge.spawned b' = Bridge.spawned b ++
      map (λ id, GoAdd id quiet newIP) (filter (λ id, services_of b id = []) containers).
Proof.
  revert b. induction containers as [|id containers IH]; intros b.
  { exists b. repeat split; [intros id; reflexivity|by rewrite app_nil_r]. }
  assert (∃ b1, sync_container quiet newIP id b = (Ok (), b1) ∧ resynced newIP b b1 ∧
    Bridge.spawned b1 = Bridge.spawned b ++
      (if decide (services_of b id = []) then [GoAdd id quiet newIP] else [])) as (b1 & H1 & Hr1 & Hsp1).
  { unfold sync_container. erewrite GoM_bind_Ok by reflexivity. case_decide as Hu.
    - exists (Bridge.spawn (GoAdd id quiet newIP) b). split; [done|].
      split; [|done]. repeat split. intros k. reflexivity.
    - destruct (reregister_all_resynced id newIP (seq 0 (length (services_of b id))) b)
        as (b1 & H1 & Hr & Hsp); [apply Forall_forall; intros i; rewrite elem_of_seq; lia|].
      exists b1. rewrite app_nil_r. split; [exact H1|done]. }
  destruct (IH b1) as (b2 & H2 & Hr2 & Hsp2). exists b2.
  rewrite (for_each_cons _ _ _ _ _ H1), H2. split; [done|]. split; [by etrans|].
  rewrite Hsp2, Hsp1, filter_cons, <- app_assoc. f_equal.
  assert (filter (λ id, services_of b1 id = []) containers = filter (λ id, services_of b id = []) containers) as ->.
  { apply list_filter_iff. intros k.
    pose proof (resynced_length _ _ _ k Hr1) as Hlen. split; intros Hk;
      apply nil_length_inv; rewrite Hk in Hlen; simpl in Hlen; lia. }
  by case_decide.
Qed.
End runs.

(** ** Every listed service moves

    When deregistration succeeds, a service that is visited has the new address
    afterwards, and keeps it. *)
Section moves.
Context {R : Type} `{RA : RegistryAdapter R} `{O : MapOrder} `{RR : !RegistryReturns R}.
Context (newIP : string) (Hne : newIP ≠ "") (Hdereg : ∀ s r, (Deregister s r).1 = Ok None).
Implicit Types (b : Bridge.t R) (id : string) (s : Service.t).

Definition at_new_ip b id i : Prop :=
  ∀ s, services_of b id !! i = Some s → Service.IP s = newIP.

Lemma resynced_keeps_ip b b' id i : resynced newIP b b' → at_new_ip b id i → at_new_ip b' id i.
Proof.
  intros (_ & _ & _ & Hs) Hip s'. specialize (Hs id). unfold at_new_ip, services_of in *.
  destruct (Bridge.services b !! id) as [ss|], (Bridge.services b' !! id) as [ss'|];
    inversion Hs as [? ? Hss|]; subst; [|done]. simpl in *.
  intros Hs'. destruct (Forall2_lookup_r _ _ _ _ _ Hss Hs') as (s & Hlook & Hm).
  destruct Hm as [->| ->]; [by apply Hip|done].
Qed.

Lemma reregister_moves b b' id i :
  reregisterService id i newIP b = (Ok (), b') → at_new_ip b' id i.
Proof.
  unfold reregisterService. erewrite GoM_bind_Ok by reflexivity.
  destruct (services_of b id !! i) as [s|] eqn:Hs; [|intros [= <-] s; congruence].
  rewrite decide_True by done. case_decide as Hip; [intros [= <-] s'; congruence|].
  unfold registry_Deregister, registry_call, store_service. go_unfold.
  specialize (Hdereg s (Bridge.registry b)).
  destruct (Deregister s (Bridge.registry b)) as [o r1]; simpl in Hdereg. subst o. simpl.
  unfold registry_Register, registry_call. simpl.
  destruct (Register _ r1) as [[] r2]; intros [= <-].
  unfold at_new_ip, services_of. simpl. rewrite lookup_insert_eq. simpl.
  rewrite list_lookup_insert_eq by (by eapply lookup_lt_Some). by intros ? [= <-].
Qed.

Lemma reregister_all_moves idxs b b' id :
  Forall (λ i, i < length (services_of b id)) idxs →
  for_each (λ i, reregisterService id i newIP) idxs b = (Ok (), b') →
  Forall (at_new_ip b' id) idxs.
Proof.
  revert b. induction idxs as [|i idxs IH]; intros b Hi Hrun; [done|].
  inversion Hi as [|? ? [s Hs]%lookup_lt_is_Some His]; subst.
  destruct (reregister_resynced id i newIP s b Hs) as (b1 & H1 & Hr1 & _).
  erewrite (for_each_cons (λ i, reregisterService id i newIP)) in Hrun by exact H1.
  rewrite <- (resynced_length _ _ _ id Hr1) in His.
  constructor; [|by eapply IH].
  destruct (reregister_all_resynced id newIP idxs b1 His) as (b2 & H2 & Hr2 & _).
  assert (b2 = b') as -> by congruence.
  by eapply resynced_keeps_ip, reregister_moves.
Qed.

Lemma sync_containers_move quiet containers b b' :
  for_each (sync_container quiet newIP) containers b = (Ok (), b') →
  Forall (λ id, ∀ i, at_new_ip b' id i) containers.
Proof.
  revert b. induction containers as [|id containers IH]; intros b Hrun; [done|].
  destruct (sync_containers_run quiet newIP [id] b) as (b1 & H1 & Hr1 & _).
  assert (sync_container quiet newIP id b = (Ok (), b1)) as Hid.
  { simpl in H1. unfold mbind, GoM_bind in H1.
    by destruct (sync_container quiet newIP id b) as [[[]| | |] b2]. }
  rewrite (for_each_cons _ _ _ _ _ Hid) in Hrun. constructor; [|by eapply IH].
  destruct (sync_containers_run quiet newIP containers b1) as (b2 & H2 & Hr2 & _).
  assert (b2 = b') as -> by congruence.
  intros i. eapply resynced_keeps_ip; [done|]. revert Hid. unfold sync_container.
  erewrite GoM_bind_Ok by reflexivity. pose proof (resynced_length _ _ _ id Hr1) as Hlen.
  case_decide as Hu; [intros [= <-] s; unfold services_of in *; simpl; rewrite Hu; done|].
  intros Hall%reregister_all_moves; [|apply Forall_forall; intros j; rewrite elem_of_seq; lia].
  intros s Hs. rewrite Forall_forall in Hall. apply (Hall i); [|done].
  apply elem_of_seq. apply lookup_lt_Some in Hs. lia.
Qed.
End moves.

(** ** The cleanup phase *)
Section cleanup.
Context {R : Type} `{RA : RegistryAdapter R} `{O : MapOrder} (host : Host.t).
Context `{RD : !RegistryDrops R}.
Implicit Types (b : Bridge.t R) (id : string) (s : Service.t).

Lemma resynced_owned newIP b b' : resynced newIP b b' → bridge_inv b → bridge_inv b'.
Proof.
  intros (_ & Hd & Hc & Hs) [Hs0 Hd0]. unfold bridge_inv. rewrite Hc, Hd.
  split; [|done]. intros id ss' Hss'. specialize (Hs id). rewrite Hss' in Hs.
  inversion Hs as [ss ? Hf Heq|]; subst. symmetry in Heq.
  destruct (Hs0 id ss Heq) as (s & -> & Hown). inversion Hf as [|? s' ? ? Hm Hnil]; subst.
  inversion Hnil; subst. exists s'. split; [done|]. by destruct Hm as [->| ->].
Qed.

Lemma bridge_inv_tracked b : bridge_inv b → Forall has_container (tracked_services b).
Proof.
  intros (Hs & _). unfold tracked_services. apply Forall_concat. apply Forall_fmap.
  apply Forall_forall. intros [id ss] Hin%range_elem.
  destruct (Hs id ss Hin) as (s & -> & _ & Hc). simpl. by constructor.
Qed.

Lemma resynced_dom newIP b b' : resynced newIP b b' →
  (map_to_list (Bridge.services b')).*1 ≡ₚ (map_to_list (Bridge.services b)).*1.
Proof.
  intros (_ & _ & _ & Hs). apply NoDup_Permutation; [apply NoDup_fst_map_to_list..|].
  intros id. rewrite !list_elem_of_fmap. split; intros ([k ss] & -> & Hin%elem_of_map_to_list);
    simpl; specialize (Hs k); rewrite Hin in Hs; inversion Hs as [? ? ? Hx Hy|]; subst;
    eexists (k, _); (split; [done|]); apply elem_of_map_to_list; by symmetry.
Qed.

Lemma remove_stale_run running ids b :
  for_each (remove_stale running) ids b =
  (Ok (), Bridge.mk (Bridge.locked b) (Bridge.registry b) (Bridge.services b)
            (Bridge.deadContainers b) (Bridge.config b) (Bridge.calls b)
            (Bridge.spawned b ++ map GoRemoveOnExit (filter (.∉ running) ids))).
Proof.
  revert b. induction ids as [|id ids IH]; intros b.
  { simpl. rewrite app_nil_r. by destruct b. }
  unfold remove_stale at 1. rewrite filter_cons. simpl.
  destruct (decide (id ∈ running)) as [Hin|Hin].
  - erewrite GoM_bind_Ok by reflexivity. rewrite IH, decide_False by auto. done.
  - erewrite GoM_bind_Ok by reflexivity. rewrite IH, decide_True by done. simpl.
    by rewrite <- app_assoc.
Qed.

Lemma cleanup_run docker running b : bridge_inv b →
  DockerClient.ListContainers docker StatusFilters = inl running →
  ∃ r ext err errs,
    let gone := match err with
                | Some _ => []
                | None => List.filter (dangling host (tracked_services b)) ext
                end in
    (Services (Bridge.registry b)).1 = Ok (ext, err) ∧ length errs = length gone ∧
    cleanup host docker b =
      (Ok (), Bridge.mk (Bridge.locked b) r (Bridge.services b) (Bridge.deadContainers b)
         (Bridge.config b)
         (Bridge.calls b ++ CServices err :: zip_with CDeregister gone errs)
         (Bridge.spawned b ++
            map GoRemoveOnExit (filter (.∉ running) (range (Bridge.services b)).*1))).
Proof.
  intros Hinv Hrun. unfold cleanup. rewrite Hrun. erewrite GoM_bind_Ok by reflexivity.
  erewrite GoM_bind_Ok by apply remove_stale_run.
  set (b1 := Bridge.mk _ _ _ _ _ _ _).
  destruct (registry_call_run Services (λ r, CServices r.2) b1) as ([ext err] & r & Hs & Hcall);
    [apply drops_Services|].
  rewrite (GoM_bind_Ok _ _ _ _ _ Hcall). change (Bridge.registry b1) with (Bridge.registry b) in Hs.
  destruct err as [e|].
  - exists r, ext, (Some e), []. rewrite Hs. done.
  - destruct (cleanupServices_run host ext (Bridge.set_registry r [CServices None] b1))
      as (r' & errs & Hl & Hc); [by apply (bridge_inv_tracked b)|].
    exists r', ext, None, errs. rewrite Hs. split; [done|]. split; [exact Hl|].
    etrans; [exact Hc|]. by rewrite set_registry_twice.
Qed.
End cleanup.
