(* ===== verification/SyncProps.v ===== *)
(** * What synchronisation does: properties and their witnesses *)
From S2P Require Import Prelude GoStrings Types Metadata ServiceId NewService Fixtures.
From S2P Require Import Bridge BridgeLemmas BridgeInv BridgeProps ServiceSync SyncLemmas.

Section props.
Context {R : Type} `{RA : RegistryAdapter R} `{RR : !RegistryReturns R} `{O : MapOrder}.
Context (host : Host.t).
Implicit Types (b : Bridge.t R) (id : string) (s : Service.t).

(** Handled to the end. *)
Lemma serviceSync_run docker quiet newIP containers running b :
  bridge_inv b →
  DockerClient.ListContainers docker NoFilters = inl containers →
  DockerClient.ListContainers docker StatusFilters = inl running →
  ∃ b' stale,
    serviceSync host docker (SyncMessage.mk quiet newIP) b = (Ok (), b') ∧
    resynced newIP b b' ∧
    stale ≡ₚ (if Config.Cleanup (Bridge.config b)
              then filter (.∉ running) (map_to_list (Bridge.services b)).*1 else []) ∧
    Bridge.spawned b' = Bridge.spawned b ++
      map (λ id, GoAdd id quiet newIP) (filter (λ id, services_of b id = []) containers) ++
      map GoRemoveOnExit stale.
Proof.
  intros Hinv Hall Hrunning. unfold serviceSync. cbn [SyncMessage.Quiet SyncMessage.IP].
  rewrite Hall. destruct (sync_containers_run quiet newIP containers b) as (b1 & Hs & Hr & Hsp).
  rewrite (GoM_bind_Ok _ _ _ _ _ Hs). erewrite GoM_bind_Ok by reflexivity.
  pose proof Hr as (_ & _ & Hc & _). rewrite Hc.
  destruct (Config.Cleanup (Bridge.config b)).
  - destruct (cleanup_run host docker running b1) as (r & ext & err & errs & _ & _ & Hrun);
      [by eapply resynced_owned|done|].
    eexists _, _. split; [exact Hrun|]. split; [exact Hr|]. split; cycle 1.
    + simpl. by rewrite Hsp, <- app_assoc.
    + apply filter_Permutation. rewrite range_perm. by apply resynced_dom with newIP.
  - exists b1, []. split; [done|]. split; [done|]. split; [done|]. by rewrite app_nil_r.
Qed.

(** C14: a sync message that Docker answers is handled to the end: every tracked
    service stays or moves to the new address, an [add] is started for each
    listed container that is not tracked, and, with cleanup, a [RemoveOnExit] for
    each tracked container that Docker does not list as alive; nothing else in
    the tables changes. *)
Theorem serviceSync_spec docker quiet newIP containers running b :
  bridge_inv b →
  DockerClient.ListContainers docker NoFilters = inl containers →
  DockerClient.ListContainers docker StatusFilters = inl running →
  ∃ b' stale,
    serviceSync host docker (SyncMessage.mk quiet newIP) b = (Ok (), b') ∧
    resynced newIP b b' ∧
    stale ≡ₚ (if Config.Cleanup (Bridge.config b)
              then filter (.∉ running) (map_to_list (Bridge.services b)).*1 else []) ∧
    Bridge.spawned b' = Bridge.spawned b ++
      map (λ id, GoAdd id quiet newIP) (filter (λ id, services_of b id = []) containers) ++
      map GoRemoveOnExit stale.
Proof. apply serviceSync_run. Qed.

(** Cleanup asks the registry for its services and deregisters exactly those
    whose ID was made on this host and that no tracked service stands for, each
    once; a service of another host, or one that is tracked, is never touched. *)
Theorem cleanup_spec docker running b : bridge_inv b →
  DockerClient.ListContainers docker StatusFilters = inl running →
  ∃ ext err errs b',
    let gone := match err with
                | Some _ => []
                | None => List.filter (dangling host (tracked_services b)) ext
                end in
    (Services (Bridge.registry b)).1 = Ok (ext, err) ∧ length errs = length gone ∧
    cleanup host docker b = (Ok (), b') ∧
    Bridge.services b' = Bridge.services b ∧
    Bridge.deadContainers b' = Bridge.deadContainers b ∧
    Bridge.calls b' = Bridge.calls b ++ CServices err :: zip_with CDeregister gone errs.
Proof.
  intros Hinv Hrun.
  destruct (cleanup_run host docker running b Hinv Hrun) as (r & ext & err & errs & Hs & Hl & Hc).
  by eexists ext, err, errs, _.
Qed.

(** C16: when the registry accepts deregistrations, a sync message with an
    address moves every tracked service of every listed container there. *)
Theorem serviceSync_moves docker quiet newIP containers running b :
  bridge_inv b → newIP ≠ "" → (∀ s r, (Deregister s r).1 = Ok None) →
  DockerClient.ListContainers docker NoFilters = inl containers →
  DockerClient.ListContainers docker StatusFilters = inl running →
  ∃ b', serviceSync host docker (SyncMessage.mk quiet newIP) b = (Ok (), b') ∧
    ∀ id s, id ∈ containers → s ∈ services_of b' id → Service.IP s = newIP.
Proof.
  intros Hinv Hne Hdereg Hall Hrunning. unfold serviceSync. cbn [SyncMessage.Quiet SyncMessage.IP].
  rewrite Hall. destruct (sync_containers_run quiet newIP containers b) as (b1 & Hs & Hr & Hsp).
  pose proof (sync_containers_move newIP Hne Hdereg _ _ _ _ Hs) as Hmoved.
  rewrite Forall_forall in Hmoved. rewrite (GoM_bind_Ok _ _ _ _ _ Hs).
  erewrite GoM_bind_Ok by reflexivity.
  assert (∀ id s, id ∈ containers → s ∈ services_of b1 id → Service.IP s = newIP) as Hip.
  { intros id s Hid [i Hi]%list_elem_of_lookup. by apply (Hmoved id Hid i). }
  destruct (Config.Cleanup (Bridge.config b1)); [|by exists b1].
  destruct (cleanup_run host docker running b1) as (r & ext & err & errs & _ & _ & Hrun);
    [by eapply resynced_owned|done|].
  eexists. split; [exact Hrun|]. exact Hip.
Qed.

(** C17: a service whose registration at the new address failed is in the
    registry no more, yet counts as moved: every later sync message with the same
    address makes no call for it. *)
Theorem failed_reregistration_sticks id i newIP s e r1 r2 b :
  services_of b id !! i = Some s → newIP ≠ "" → Service.IP s ≠ newIP →
  Deregister s (Bridge.registry b) = (Ok None, r1) →
  Register (Service.set_IPs newIP s) r1 = (Ok (Some e), r2) →
  ∃ b', reregisterService id i newIP b = (Ok (), b') ∧
    Bridge.calls b' = Bridge.calls b ++
      [CDeregister s None; CRegister (Service.set_IPs newIP s) (Some e)] ∧
    ∀ r, reregisterService id i newIP (Bridge.set_registry r [] b') =
         (Ok (), Bridge.set_registry r [] b').
Proof.
  intros Hs Hne Hip Hdereg Hreg.
  assert (∃ b', reregisterService id i newIP b = (Ok (), b') ∧
    Bridge.calls b' = Bridge.calls b ++
      [CDeregister s None; CRegister (Service.set_IPs newIP s) (Some e)] ∧
    services_of b' id !! i = Some (Service.set_IPs newIP s)) as (b' & Hrun & Hcalls & Hs').
  { unfold reregisterService. erewrite GoM_bind_Ok by reflexivity. rewrite Hs.
    rewrite decide_True, decide_False by done.
    unfold registry_Deregister, registry_Register, registry_call, store_service.
    go_unfold. rewrite Hdereg. simpl. rewrite Hreg.
    eexists. split; [reflexivity|]. simpl. rewrite <- app_assoc. split; [done|].
    unfold services_of at 1. simpl. rewrite lookup_insert_eq. simpl.
    apply list_lookup_insert_eq. by eapply lookup_lt_Some. }
  exists b'. split; [done|]. split; [done|]. intros r. unfold reregisterService.
  erewrite GoM_bind_Ok by reflexivity.
  change (services_of (Bridge.set_registry r [] b') id) with (services_of b' id).
  by rewrite Hs', decide_True, decide_True by done.
Qed.
End props.

(** * Concrete runs *)
Module SyncRuns.
Definition web_service : Service.t :=
  match Runs.web_plan with s :: _ => s | [] => Service.mk "" "" 0 "" false [] ∅ 0 ServicePort.zero end.

(** A service this host registered earlier, for a container that is gone. *)
Definition forgotten : Service.t :=
  Service.mk "box:gone:80" "shop" 80 "10.0.0.1" false [] ∅ 30 ServicePort.zero.

Definition tracking (failing : bool) : Bridge.t Memory.t :=
  Bridge.set_services {[Fixtures.web_id := [web_service]]}
    (Bridge.init (Memory.mk {["box:gone:80" := forgotten]} failing) Fixtures.config).

Lemma tracking_inv failing : bridge_inv (tracking failing).
Proof.
  split.
  - simpl. apply map_Forall_singleton. exists web_service. split; [reflexivity|].
    split; [vm_compute; reflexivity|]. exists Fixtures.merged_web.
    split; [vm_compute; reflexivity|discriminate].
  - apply map_Forall_empty.
Qed.
End SyncRuns.

Lemma serviceSync_spec_witness :
  ∃ b', @serviceSync _ _ ascending Fixtures.host Fixtures.docker (SyncMessage.mk true "10.1.1.1")
          (SyncRuns.tracking false) = (Ok (), b') ∧
    Bridge.spawned b' = [GoAdd Fixtures.side_id true "10.1.1.1"].
Proof.
  destruct (@serviceSync_spec _ _ _ ascending Fixtures.host Fixtures.docker true "10.1.1.1"
              [Fixtures.web_id; Fixtures.side_id] [Fixtures.web_id; Fixtures.side_id]
              (SyncRuns.tracking false) (SyncRuns.tracking_inv false) eq_refl eq_refl)
    as (b' & stale & Hrun & _ & Hstale & Hspawned).
  exists b'. split; [exact Hrun|]. rewrite Hspawned.
  assert (stale = []) as ->; [|vm_compute; reflexivity].
  apply Permutation_nil_r. rewrite Hstale. vm_compute. constructor.
Defined.

Lemma cleanup_spec_witness :
  ∃ errs b', @cleanup _ _ ascending Fixtures.host Fixtures.docker (SyncRuns.tracking false) =
      (Ok (), b') ∧
    Bridge.calls b' = CServices None :: zip_with CDeregister [SyncRuns.forgotten] errs.
Proof.
  destruct (@cleanup_spec _ _ _ ascending Fixtures.host Fixtures.docker
              [Fixtures.web_id; Fixtures.side_id]
              (SyncRuns.tracking false) (SyncRuns.tracking_inv false) eq_refl)
    as (ext & err & errs & b' & Hext & _ & Hrun & _ & _ & Hcalls).
  exists errs, b'. split; [exact Hrun|]. rewrite Hcalls.
  vm_compute in Hext. injection Hext as <- <-. vm_compute. reflexivity.
Defined.

Lemma serviceSync_moves_witness :
  ∃ b', @serviceSync _ _ ascending Fixtures.host Fixtures.docker (SyncMessage.mk true "10.1.1.1")
          (SyncRuns.tracking false) = (Ok (), b') ∧
    ∀ s, s ∈ services_of b' Fixtures.web_id → Service.IP s = "10.1.1.1".
Proof.
  destruct (@serviceSync_moves _ _ _ ascending Fixtures.host Fixtures.docker true "10.1.1.1"
              [Fixtures.web_id; Fixtures.side_id] [Fixtures.web_id; Fixtures.side_id]
              (SyncRuns.tracking false) (SyncRuns.tracking_inv false))
    as (b' & Hrun & Hip); [discriminate|reflexivity..|].
  exists b'. split; [exact Hrun|]. intros s. apply Hip. left.
Defined.

Lemma failed_reregistration_sticks_witness :
  ∃ b', @reregisterService Memory.t _ Fixtures.web_id 0 "10.1.1.1" (SyncRuns.tracking true) =
      (Ok (), b') ∧
    Bridge.calls b' =
      [CDeregister SyncRuns.web_service None;
       CRegister (Service.set_IPs "10.1.1.1" SyncRuns.web_service) (Some "down")].
Proof.
  destruct (@failed_reregistration_sticks Memory.t _ Fixtures.web_id 0 "10.1.1.1"
              SyncRuns.web_service "down"
              (Memory.mk {["box:gone:80" := SyncRuns.forgotten]} true)
              (Memory.mk {["box:gone:80" := SyncRuns.forgotten]} true)
              (SyncRuns.tracking true)) as (b' & Hrun & Hcalls & _);
    [reflexivity|discriminate|vm_compute; discriminate|vm_compute; reflexivity|reflexivity|].
  exists b'. split; [exact Hrun|exact Hcalls].
Defined.
