(* ===== verification/System.v ===== *)
(** * The running system: operations, goroutines and the mutex

    registrator.go starts goroutines that call the bridge: on Docker events, on
    the tickers for refreshing and pruning, and on sync messages; the bridge
    starts more of them itself. A step runs one of them as a whole (Concurrency.v
    lets them interleave). One that finds the mutex held waits, and one that panics
    or exits ends the process. *)
From Stdlib Require Import Relations.
From stdpp Require Import relations.
From S2P Require Import Prelude GoStrings Types Metadata ServiceId NewService Fixtures.
From S2P Require Import Bridge BridgeLemmas BridgeInv BridgeProps ServiceSync SyncLemmas.

(** A call of the bridge, with Docker as it answers during the call. *)
Inductive operation :=
| OpAdd (docker : DockerClient.t) (id : string) (quiet : bool) (newIP : string)
| OpRemove (id : string)
| OpRemoveOnExit (docker : DockerClient.t) (id : string)
| OpRefresh
| OpPrune
| OpSync (docker : DockerClient.t) (message : SyncMessage.t).

(** The call a [go] statement of the bridge makes. *)
Definition goroutine_op (docker : DockerClient.t) (g : goroutine) : operation :=
  match g with
  | GoAdd id quiet newIP => OpAdd docker id quiet newIP
  | GoRemoveOnExit id => OpRemoveOnExit docker id
  end.

Section system.
Context {R : Type} `{RA : RegistryAdapter R} `{O : MapOrder} (host : Host.t).
Implicit Types (b : Bridge.t R) (id : string) (op : operation).

Definition run_operation (op : operation) : GoM (Bridge.t R) unit :=
  match op with
  | OpAdd docker id quiet newIP => add host docker id quiet newIP
  | OpRemove id => Remove id
  | OpRemoveOnExit docker id => RemoveOnExit docker id
  | OpRefresh => bridge_Refresh
  | OpPrune => PruneDeadContainers
  | OpSync docker message => handle_sync host docker message
  end.

Definition set_spawned (gs : list goroutine) (b : Bridge.t R) : Bridge.t R :=
  Bridge.mk (Bridge.locked b) (Bridge.registry b) (Bridge.services b)
    (Bridge.deadContainers b) (Bridge.config b) (Bridge.calls b) gs.

(** The process goes on: the call has returned, or waits for the mutex. *)
Definition survives (o : outcome unit) : Prop := o = Ok () ∨ o = Blocked.

Inductive step : relation (Bridge.t R) :=
| step_call op b o b' :
    run_operation op b = (o, b') → survives o → step b b'
| step_goroutine docker gs1 g gs2 b o b' :
    Bridge.spawned b = gs1 ++ g :: gs2 →
    run_operation (goroutine_op docker g) (set_spawned (gs1 ++ gs2) b) = (o, b') →
    survives o → step b b'.

Definition reachable (r : R) (config : Config.t) (b : Bridge.t R) : Prop :=
  rtc step (Bridge.init r config) b.

(** ** The invariant holds in every reachable state *)
Context `{RR : !RegistryReturns R}.

Lemma serviceSync_ends docker message b : bridge_inv b →
  bridge_inv (serviceSync host docker message b).2 ∧
  Bridge.locked (serviceSync host docker message b).2 = Bridge.locked b.
Proof.
  intros Hinv. unfold serviceSync.
  destruct (DockerClient.ListContainers docker NoFilters) as [containers|e];
    [|by destruct (SyncMessage.Quiet message)].
  destruct (sync_containers_run (SyncMessage.Quiet message) (SyncMessage.IP message) containers b)
    as (b1 & Hs & Hr & _).
  rewrite (GoM_bind_Ok _ _ _ _ _ Hs). erewrite GoM_bind_Ok by reflexivity.
  pose proof (resynced_owned _ _ _ Hr Hinv) as Hinv1. pose proof Hr as (Hl & _).
  destruct (Config.Cleanup (Bridge.config b1)); [|done]. rewrite <- Hl.
  destruct (DockerClient.ListContainers docker StatusFilters) as [running|e] eqn:Hrunning.
  - destruct (cleanup_run host docker running b1 Hinv1 Hrunning)
      as (r & ext & err & errs & _ & _ & Hrun). rewrite Hrun. done.
  - unfold cleanup. by rewrite Hrunning.
Qed.

Lemma handle_sync_inv docker message b :
  bridge_inv b → bridge_inv (handle_sync host docker message b).2.
Proof.
  intros Hinv. unfold handle_sync, Lock. unfold mbind, GoM_bind.
  destruct (Bridge.locked b); [done|].
  destruct (serviceSync_ends docker message (Bridge.set_locked true b)) as [Hinv' _]; [done|].
  destruct (serviceSync host docker message _) as [[] b']; simpl in *; try done.
  unfold Unlock. by destruct (Bridge.locked b').
Qed.

Lemma run_operation_inv op b : bridge_inv b → bridge_inv (run_operation op b).2.
Proof.
  intros Hinv. destruct op; simpl.
  - by apply add_keeps_inv.
  - by apply remove_keeps_inv.
  - by apply RemoveOnExit_keeps_inv.
  - apply keeps_Refresh; [apply bridge_inv_tables|done].
  - by apply PruneDeadContainers_keeps_inv.
  - by apply handle_sync_inv.
Qed.

Lemma step_inv b b' : step b b' → bridge_inv b → bridge_inv b'.
Proof.
  destruct 1 as [op b o b' Hrun _|docker gs1 g gs2 b o b' _ Hrun _]; intros Hinv.
  - pose proof (run_operation_inv op b Hinv) as H. by rewrite Hrun in H.
  - pose proof (run_operation_inv (goroutine_op docker g) (set_spawned (gs1 ++ gs2) b) Hinv) as H.
    by rewrite Hrun in H.
Qed.

(** Whatever goroutines run, one at a time and in whatever order, every tracked container
    has exactly one service, made for it, and so has every dead container; and where the
    configured times are not negative, its remaining TTL is positive and at most the
    configured one. *)
Theorem reachable_inv r config b :
  reachable r config b → bridge_inv b.
Proof.
  unfold reachable. intros Hreach.
  assert (bridge_inv (Bridge.init r config)) as Hinit by apply bridge_inv_init.
  induction Hreach as [|b1 b2 b3 Hstep _ IH]; [done|]. by eapply IH, step_inv.
Qed.

(** ** The mutex *)
Lemma locked_blocks op b : Bridge.locked b = true →
  (run_operation op b).2 = b ∧ is_Ok (run_operation op b).1 = false.
Proof.
  intros Hl. destruct op as [docker id quiet newIP|id|docker id| | |docker message]; simpl.
  - unfold add, deleteDeadContainer, mbind, GoM_bind. by rewrite with_lock_blocked.
  - unfold Remove, remove. by rewrite with_lock_blocked.
  - assert (∃ o, shouldRemove docker id b = (o, b)) as [o Ho].
    { unfold shouldRemove. erewrite GoM_bind_Ok by reflexivity.
      case_decide; [by eexists|].
      destruct (DockerClient.InspectContainer docker id) as [c|[|msg]]; repeat case_match;
        try (by eexists); unfold mbind, GoM_bind; rewrite log_id_run;
        destruct (log_outcome id); by eexists. }
    unfold RemoveOnExit, mbind, GoM_bind. rewrite Ho.
    destruct o as [v| | |]; [|done..]. unfold remove. by rewrite with_lock_blocked.
  - unfold bridge_Refresh, getServicesCopy, mbind, GoM_bind. by rewrite with_lock_blocked.
  - unfold PruneDeadContainers. by rewrite with_lock_blocked.
  - unfold handle_sync, Lock, mbind, GoM_bind. by rewrite Hl.
Qed.

Definition known b id : Prop :=
  match Bridge.deadContainers b !! id with
  | Some d => DeadContainer.Services d ≠ []
  | None => services_of b id ≠ []
  end.

Lemma add_known_run docker id quiet newIP b : Bridge.locked b = false → known b id →
  ∃ b', add host docker id quiet newIP b = (log_outcome id, b') ∧ Bridge.locked b' = true.
Proof.
  intros Hb Hk. unfold add. erewrite GoM_bind_Ok by (by apply deleteDeadContainer_run).
  set (b1 := match Bridge.deadContainers b !! id with Some _ => _ | None => _ end).
  assert (Bridge.locked b1 = false ∧ services_of b1 id ≠ []) as [Hl1 Hs1].
  { subst b1. unfold known in Hk. destruct (Bridge.deadContainers b !! id); [|done].
    split; [done|]. unfold services_of. simpl. by rewrite lookup_insert_eq. }
  rewrite (GoM_bind_Ok Lock _ b1 () (Bridge.set_locked true b1)) by (unfold Lock; by rewrite Hl1).
  erewrite GoM_bind_Ok by reflexivity. rewrite decide_True by done. rewrite log_id_run. by eexists.
Qed.

(** *** What leaves the mutex free *)
Definition free b : Prop := Bridge.locked b = false.

Lemma keeps_free_with_lock {A} (m : GoM (Bridge.t R) A) : keeps free (with_lock m) (λ _, True).
Proof.
  intros b Hb. split; [|done]. rewrite with_lock_run by done.
  by destruct (m (Bridge.set_locked true b)).
Qed.

Lemma keeps_free_registry_call {A} (op : GoM R A) note :
  keeps free (registry_call op note) (λ _, True).
Proof.
  intros b Hb. split; [|done]. unfold registry_call.
  by destruct (op (Bridge.registry b)) as [[] r].
Qed.

Lemma keeps_free_log_id id : keeps free (log_id id) (λ _, True).
Proof. intros b Hb. by rewrite log_id_run. Qed.

Lemma register_ports_free docker quiet isGroup container ports :
  keeps free (register_ports host docker quiet isGroup container ports) (λ _, True).
Proof.
  revert container. induction ports as [|[k port] ports IH]; intros container;
    [by apply keeps_ret|].
  eapply keeps_bind; [apply keeps_get|]. intros b0 _.
  apply keeps_bind with (λ _, True); [by apply keeps_lift|]. intros [c' o] _.
  apply keeps_bind with (λ _, True); [|intros; apply IH].
  destruct o as [s|]; [|destruct quiet; [by apply keeps_ret|apply keeps_free_log_id]].
  apply keeps_bind with (λ _, True); [apply keeps_free_registry_call|].
  intros [e|] _; [by apply keeps_ret|apply keeps_free_with_lock].
Qed.

Lemma add_inspected_free docker container quiet newIP :
  keeps free (add_inspected host docker container quiet newIP) (λ _, True).
Proof.
  unfold add_inspected. case_decide; [apply keeps_free_log_id|].
  eapply keeps_bind; [apply keeps_get|]. intros b0 _.
  apply keeps_bind with (λ _, True); [by apply keeps_lift|]. intros ports _.
  apply register_ports_free.
Qed.

Lemma add_unknown_free docker id quiet newIP b : free b → ¬ known b id →
  free (add host docker id quiet newIP b).2.
Proof.
  intros Hb Hk. unfold add. erewrite GoM_bind_Ok by (by apply deleteDeadContainer_run).
  set (b1 := match Bridge.deadContainers b !! id with Some _ => _ | None => _ end).
  assert (free b1 ∧ services_of b1 id = []) as [Hl1 Hs1].
  { subst b1. unfold known in Hk. destruct (Bridge.deadContainers b !! id) as [d|].
    - split; [done|]. unfold services_of. simpl. rewrite lookup_insert_eq. simpl.
      by destruct (DeadContainer.Services d); [|destruct Hk].
    - split; [done|]. by destruct (services_of b id); [|destruct Hk]. }
  rewrite (GoM_bind_Ok Lock _ b1 () (Bridge.set_locked true b1)) by (unfold Lock; by rewrite Hl1).
  erewrite GoM_bind_Ok by reflexivity.
  change (services_of (Bridge.set_locked true b1) id) with (services_of b1 id).
  rewrite decide_False by auto.
  rewrite (GoM_bind_Ok Unlock _ _ () (Bridge.set_locked false b1)) by done.
  destruct (DockerClient.InspectContainer docker id); [|by rewrite log_id_run].
  by apply add_inspected_free.
Qed.

Lemma Refresh_free : keeps free bridge_Refresh (λ _, True).
Proof.
  eapply keeps_bind; [apply keeps_free_with_lock|]. intros copy _.
  apply keeps_for_each. intros kv _. apply keeps_for_each. intros s _.
  eapply keeps_bind; [apply keeps_free_registry_call|]. intros [] _; [by apply keeps_ret|].
  apply keeps_free_log_id.
Qed.

Lemma RemoveOnExit_free docker id : keeps free (RemoveOnExit docker id) (λ _, True).
Proof.
  eapply keeps_bind; [|intros; apply keeps_free_with_lock].
  unfold shouldRemove. eapply keeps_bind; [apply keeps_get|]. intros b _.
  case_decide; [by apply (keeps_ret _ _ (λ _, True))|].
  destruct (DockerClient.InspectContainer docker id) as [c|[]];
    repeat case_match; try (by apply (keeps_ret _ _ (λ _, True)));
    (eapply keeps_bind; [apply keeps_free_log_id|]; intros; by apply keeps_ret).
Qed.

Definition adds_known b op : Prop :=
  match op with OpAdd _ id _ _ => known b id | _ => False end.

(** C8: a call of the bridge that returns leaves the mutex held if and only if it
    is an [add] of a container that is tracked, or dead and not yet expired. *)
Theorem mutex_leak_iff op b b' : Bridge.locked b = false →
  run_operation op b = (Ok (), b') → Bridge.locked b' = true ↔ adds_known b op.
Proof.
  intros Hb Hrun.
  assert (free (run_operation op b).2 → ¬ adds_known b op →
          Bridge.locked b' = true ↔ adds_known b op) as Hfree.
  { rewrite Hrun. unfold free. simpl. intros ->. naive_solver. }
  destruct op as [docker id quiet newIP|id|docker id| | |docker message]; simpl in *.
  - assert (Decision (known b id)) as [Hk|Hk] by (unfold known; destruct (_ !! _); apply _).
    + destruct (add_known_run docker id quiet newIP b Hb Hk) as (b1 & Hrun1 & Hl).
      rewrite Hrun in Hrun1. injection Hrun1 as _ <-. naive_solver.
    + apply Hfree; [|done]. by apply add_unknown_free.
  - apply Hfree; [by apply keeps_free_with_lock|auto].
  - apply Hfree; [by apply RemoveOnExit_free|auto].
  - apply Hfree; [by apply Refresh_free|auto].
  - apply Hfree; [by apply keeps_free_with_lock|auto].
  - split; [|done]. revert Hrun. unfold handle_sync, Lock, mbind, GoM_bind. rewrite Hb.
    destruct (serviceSync host docker message _) as [[] b1]; try done. unfold Unlock.
    destruct (Bridge.locked b1); [|done]. by intros [= <-].
Qed.

(** Two states that differ in the goroutines still to run at most. *)
Definition same_but_spawned b b' : Prop := b' = set_spawned (Bridge.spawned b') b.

(** Once the mutex is leaked, the bridge is dead: whatever is called from
    then on, no call returns and neither the tables nor the registry change. *)
Theorem leaked_mutex_is_forever b b' op : Bridge.locked b = true → rtc step b b' →
  Bridge.locked b' = true ∧ same_but_spawned b b' ∧ is_Ok (run_operation op b').1 = false.
Proof.
  intros Hl Hsteps. cut (Bridge.locked b' = true ∧ same_but_spawned b b').
  { intros [Hl' Hs]. split; [done|]. split; [done|]. by apply locked_blocks. }
  induction Hsteps as [b|b b1 b2 Hstep _ IH]; [by destruct b|].
  assert (Bridge.locked b1 = true ∧ same_but_spawned b b1) as [Hl1 Hs1].
  { destruct Hstep as [op' b o b1 Hrun _|docker gs1 g gs2 b o b1 _ Hrun _].
    - destruct (locked_blocks op' b Hl) as [Hb _]. rewrite Hrun in Hb. simpl in Hb. subst.
      by destruct b.
    - destruct (locked_blocks (goroutine_op docker g) (set_spawned (gs1 ++ gs2) b) Hl) as [Hb _].
      rewrite Hrun in Hb. simpl in Hb. by subst. }
  destruct (IH Hl1) as [Hl2 Hs2]. split; [done|]. unfold same_but_spawned in *.
  rewrite Hs2, Hs1. done.
Qed.
End system.

(** * Concrete runs *)
Module SystemRuns.
(** A Docker start event for the container with two ports. *)
Definition start : operation := OpAdd Fixtures.docker Fixtures.web_id false "".

Lemma start_runs :
  @run_operation _ _ ascending Fixtures.host start Runs.fresh = (Ok (), Runs.added).
Proof. vm_compute. reflexivity. Qed.

(** The event again: the bridge with the mutex leaked. *)
Definition stuck : Bridge.t Memory.t := Bridge.set_locked true Runs.added.

Lemma start_again_runs :
  @run_operation _ _ ascending Fixtures.host start Runs.added = (Ok (), stuck).
Proof. vm_compute. reflexivity. Qed.
End SystemRuns.

Lemma reachable_inv_witness :
  @reachable _ _ ascending Fixtures.host Memory.empty Fixtures.config Runs.added ∧
  bridge_inv Runs.added.
Proof.
  assert (@reachable _ _ ascending Fixtures.host Memory.empty Fixtures.config Runs.added) as Hr.
  { eapply rtc_l; [|apply rtc_refl]. eapply step_call; [exact SystemRuns.start_runs|by left]. }
  split; [exact Hr|].
  apply (@reachable_inv _ _ ascending Fixtures.host _ Memory.empty Fixtures.config). exact Hr.
Defined.

Lemma mutex_leak_iff_witness :
  Bridge.locked SystemRuns.stuck = true ↔ adds_known Runs.added SystemRuns.start.
Proof.
  apply (@mutex_leak_iff _ _ ascending Fixtures.host SystemRuns.start Runs.added SystemRuns.stuck);
    [vm_compute; reflexivity|exact SystemRuns.start_again_runs].
Defined.

Lemma leaked_mutex_is_forever_witness :
  is_Ok (@run_operation _ _ ascending Fixtures.host OpPrune SystemRuns.stuck).1 = false.
Proof.
  apply (@leaked_mutex_is_forever _ _ ascending Fixtures.host SystemRuns.stuck SystemRuns.stuck OpPrune);
    [reflexivity|apply rtc_refl].
Defined.
