(* ===== verification/Threads.v ===== *)
(** * Goroutines as sequences of atomic sections

    A goroutine of the bridge gives way to the others while it waits for the mutex
    and while it talks to the registry; between two such points it runs on its
    own, since every access to the tables is made with the mutex held. A [prog] is
    a goroutine cut at these points. Each operation of bridge/bridge.go and
    bridge/servicesync.go is given as a [prog]; run without interruption it is the
    operation of Bridge.v and ServiceSync.v, as is proved below. *)
From S2P Require Import Prelude GoStrings Types Metadata ServiceId NewService.
From S2P Require Import Bridge BridgeLemmas ServiceSync System.

(** ** Programs *)
Section prog.
Context {R : Type}.
Inductive prog (A : Type) : Type :=
| Ret (a : A)
| Atom {X : Type} (m : GoM (Bridge.t R) X) (k : X → prog A).
End prog.
Arguments prog R A : clear implicits.
Arguments Ret {R A}.
Arguments Atom {R A X}.

#[export] Instance prog_ret {R} : MRet (prog R) := λ A a, Ret a.

#[export] Instance prog_bind {R} : MBind (prog R) := λ A B f,
  fix go (p : prog R A) : prog R B :=
    match p with
    | Ret a => f a
    | Atom m k => Atom m (λ x, go (k x))
    end.

(** One atomic section. *)
Definition atomic {R A} (m : GoM (Bridge.t R) A) : prog R A := Atom m Ret.

(** [for _, x := range xs { body }] *)
Fixpoint each {R A} (body : A → prog R unit) (xs : list A) : prog R unit :=
  match xs with
  | [] => mret ()
  | x :: xs => _ ← body x; each body xs
  end.

(** The program run without interruption. *)
Fixpoint alone {R A} (p : prog R A) : GoM (Bridge.t R) A :=
  match p with
  | Ret a => mret a
  | Atom m k => x ← m; alone (k x)
  end.

(** ** The operations *)
Section operations.
Context {R : Type} `{RA : RegistryAdapter R} `{O : MapOrder} (host : Host.t).

(** A computation without access to the state, or one that may panic only. *)
Definition pure_code {A} (o : outcome A) : prog R A := atomic (lift_outcome o).
Definition log_id_t (containerId : string) : prog R unit := atomic (log_id containerId).
Definition Register_t (s : Service.t) : prog R error := atomic (registry_Register s).
Definition Deregister_t (s : Service.t) : prog R error := atomic (registry_Deregister s).

Definition Refresh_t : prog R unit :=
  copy ← atomic getServicesCopy;
  each (λ kv, each (λ s,
    err ← atomic (registry_Refresh s);
    match err with Some _ => mret () | None => log_id_t kv.1 end) kv.2) (range copy).

Fixpoint register_ports_t (docker : DockerClient.t) (quiet isGroup : bool)
    (container : Container.t) (ports : list (string * ServicePort.t)) : prog R unit :=
  match ports with
  | [] => mret ()
  | (_, port) :: ports =>
      b ← atomic get_state;
      '(container, service) ←
        pure_code (newService (Bridge.config b) host docker container port isGroup);
      _ ← match service with
          | None => if quiet then mret () else log_id_t (Container.ID container)
          | Some s =>
              err ← Register_t s;
              match err with
              | Some _ => mret ()
              | None => atomic (appendService (Container.ID container) s)
              end
          end;
      register_ports_t docker quiet isGroup container ports
  end.

Definition add_inspected_t (docker : DockerClient.t) (container : Container.t)
    (quiet : bool) (newIP : string) : prog R unit :=
  let ports := container_ports container newIP in
  if decide (size ports = 0 ∧ quiet = false) then log_id_t (Container.ID container) else
  b ← atomic get_state;
  servicePorts ← pure_code (select_ports (Config.Internal (Bridge.config b)) quiet container ports);
  register_ports_t docker quiet (bool_decide (1 < size servicePorts)) container (range servicePorts).

(** The check between [b.Lock()] and [b.Unlock()]: is the container known? *)
Definition check_known (containerId : string) : GoM (Bridge.t R) bool :=
  _ ← Lock;
  b ← get_state;
  if decide (services_of b containerId ≠ []) then _ ← log_id containerId; mret true
  else _ ← Unlock; mret false.

Definition add_t (docker : DockerClient.t) (containerId : string) (quiet : bool)
    (newIP : string) : prog R unit :=
  _ ← atomic (deleteDeadContainer containerId);
  known ← atomic (check_known containerId);
  if (known : bool) then mret () else
  match DockerClient.InspectContainer docker containerId with
  | inr _ => log_id_t containerId
  | inl container => add_inspected_t docker container quiet newIP
  end.

Definition deregisterAll_t (services : list Service.t) : prog R unit :=
  each (λ s, _ ← Deregister_t s; mret ()) services.

(** The mutex is held over the calls of the registry. *)
Definition remove_body (containerId : string) (deregister : bool) : prog R unit :=
  b ← atomic get_state;
  _ ← (if deregister then
         _ ← deregisterAll_t (services_of b containerId);
         match Bridge.deadContainers b !! containerId with
         | Some d =>
             _ ← deregisterAll_t (DeadContainer.Services d);
             atomic (modify (λ b,
               Bridge.set_dead (delete containerId (Bridge.deadContainers b)) b))
         | None => mret ()
         end
       else if decide (Config.RefreshTtl (Bridge.config b) ≠ 0%Z ∧
                       services_of b containerId ≠ []) then
         atomic (modify (λ b, Bridge.set_dead
           (<[containerId := DeadContainer.mk (Config.RefreshTtl (Bridge.config b))
                               (services_of b containerId)]> (Bridge.deadContainers b)) b))
       else mret ());
  atomic (modify (λ b, Bridge.set_services (delete containerId (Bridge.services b)) b)).

Definition remove_t (containerId : string) (deregister : bool) : prog R unit :=
  _ ← atomic Lock; _ ← remove_body containerId deregister; atomic Unlock.

Definition RemoveOnExit_t (docker : DockerClient.t) (containerId : string) : prog R unit :=
  deregister ← atomic (shouldRemove docker containerId);
  remove_t containerId deregister.

(** ** servicesync.go, with the mutex held *)
Definition reregisterService_t (id : string) (i : nat) (newIP : string) : prog R unit :=
  b ← atomic get_state;
  match services_of b id !! i with
  | None => mret ()
  | Some service =>
      if decide (newIP ≠ "") then
        if decide (Service.IP service = newIP) then mret () else
        err ← Deregister_t service;
        match err with
        | Some _ => mret ()
        | None =>
            let service := Service.set_IPs newIP service in
            _ ← atomic (store_service id i service);
            _ ← Register_t service;
            mret ()
        end
      else
        _ ← Register_t service;
        mret ()
  end.

Definition cleanup_service_t (extService : Service.t) : prog R unit :=
  match parse_service_id (Service.ID extService) with
  | None => mret ()
  | Some (serviceHostname, serviceContainerName) =>
      if decide (serviceHostname ≠ Host.Hostname host) then mret () else
      b ← atomic get_state;
      found ← pure_code
        (acknowledged (tracked_services b) (Service.Name extService) serviceContainerName);
      if (found : bool) then mret () else
      _ ← Deregister_t extService;
      mret ()
  end.

Definition sync_container_t (quiet : bool) (newIP listing : string) : prog R unit :=
  b ← atomic get_state;
  let services := services_of b listing in
  if decide (services = []) then atomic (modify (Bridge.spawn (GoAdd listing quiet newIP)))
  else each (λ i, reregisterService_t listing i newIP) (seq 0 (length services)).

Definition cleanup_t (docker : DockerClient.t) : prog R unit :=
  match DockerClient.ListContainers docker StatusFilters with
  | inr _ => mret ()
  | inl nonExitedContainers =>
      b ← atomic get_state;
      _ ← each (λ id, atomic (remove_stale nonExitedContainers id)) (range (Bridge.services b)).*1;
      '(extServices, err) ← atomic (registry_call Services (λ r, CServices r.2));
      match err with
      | Some _ => mret ()
      | None => each cleanup_service_t extServices
      end
  end.

Definition serviceSync_t (docker : DockerClient.t) (message : SyncMessage.t) : prog R unit :=
  let quiet := SyncMessage.Quiet message in
  let newIP := SyncMessage.IP message in
  match DockerClient.ListContainers docker NoFilters with
  | inr _ => if quiet then mret () else pure_code (Exited 1)
  | inl containers =>
      _ ← each (sync_container_t quiet newIP) containers;
      b ← atomic get_state;
      if Config.Cleanup (Bridge.config b) then cleanup_t docker else mret ()
  end.

Definition handle_sync_t (docker : DockerClient.t) (message : SyncMessage.t) : prog R unit :=
  _ ← atomic Lock; _ ← serviceSync_t docker message; atomic Unlock.

Definition operation_t (op : operation) : prog R unit :=
  match op with
  | OpAdd docker id quiet newIP => add_t docker id quiet newIP
  | OpRemove id => remove_t id true
  | OpRemoveOnExit docker id => RemoveOnExit_t docker id
  | OpRefresh => Refresh_t
  | OpPrune => atomic PruneDeadContainers
  | OpSync docker message => handle_sync_t docker message
  end.
End operations.

(** ** Running alone *)
(** [p] run without interruption is [m]. *)
Definition runs_as {R A} (p : prog R A) (m : GoM (Bridge.t R) A) : Prop := ∀ b, alone p b = m b.
Infix "≈" := runs_as (at level 70) : go_scope.

Lemma alone_bind {R A B} (p : prog R A) (f : A → prog R B) b :
  alone (p ≫= f) b = (alone p ≫= λ a, alone (f a)) b.
Proof.
  revert b. induction p as [a|X m k IH]; intros b; [done|].
  change (alone (Atom m k ≫= f) b) with ((m ≫= λ x, alone (k x ≫= f)) b).
  simpl. rewrite GoM_bind_assoc. apply GoM_bind_ext. intros x b'. apply IH.
Qed.

Lemma runs_ret {R A} (a : A) : (mret a : prog R A) ≈ mret a.
Proof. done. Qed.

Lemma runs_atomic {R A} (m : GoM (Bridge.t R) A) : atomic m ≈ m.
Proof. intros b. simpl. unfold mbind, GoM_bind. by destruct (m b) as [[] ?]. Qed.

Lemma runs_bind {R A B} (p : prog R A) (f : A → prog R B) m g :
  p ≈ m → (∀ a, f a ≈ g a) → (p ≫= f) ≈ (m ≫= g).
Proof.
  intros Hp Hf b. rewrite alone_bind. unfold mbind, GoM_bind. rewrite Hp.
  destruct (m b) as [[a| | |] b']; [apply Hf|done..].
Qed.

Lemma runs_each {R A} (body : A → prog R unit) body' xs :
  (∀ x, body x ≈ body' x) → each body xs ≈ for_each body' xs.
Proof.
  intros Hb. induction xs as [|x xs IH]; [apply runs_ret|]. simpl. by apply runs_bind.
Qed.

(** Follow the structure of the program. *)
Ltac runs_step :=
  match goal with
  | |- mret _ ≈ _ => apply runs_ret
  | |- atomic _ ≈ _ => apply runs_atomic
  | |- (_ ≫= _) ≈ _ => apply runs_bind; [|intros ?; cbv beta]
  | |- each _ _ ≈ _ => apply runs_each; intros ?; cbv beta
  | |- (match ?x with _ => _ end) ≈ _ => destruct x
  | |- ?p ≈ ?m => progress unfold pure_code, log_id_t, Register_t, Deregister_t
  end.

Section alone.
Context {R : Type} `{RA : RegistryAdapter R} `{RR : !RegistryReturns R} `{O : MapOrder} (host : Host.t).

Lemma Refresh_alone : Refresh_t ≈ bridge_Refresh.
Proof. unfold Refresh_t, bridge_Refresh, refresh_service. repeat runs_step. Qed.

Lemma register_ports_alone docker quiet isGroup container ports :
  register_ports_t host docker quiet isGroup container ports ≈
  register_ports host docker quiet isGroup container ports.
Proof.
  revert container. induction ports as [|[k port] ports IH]; intros container;
    cbn [register_ports_t register_ports]; repeat runs_step. apply IH.
Qed.

Lemma add_inspected_alone docker c quiet newIP :
  add_inspected_t host docker c quiet newIP ≈ add_inspected host docker c quiet newIP.
Proof.
  unfold add_inspected_t, add_inspected. repeat runs_step. apply register_ports_alone.
Qed.

Lemma add_alone docker id quiet newIP : add_t host docker id quiet newIP ≈ add host docker id quiet newIP.
Proof.
  unfold add_t, add. apply runs_bind; [apply runs_atomic|]. intros _ b. rewrite alone_bind.
  destruct (Bridge.locked b) eqn:Hl.
  { assert (Lock b = (Blocked, b)) as HL by (unfold Lock; by rewrite Hl).
    rewrite (GoM_bind_Blocked _ _ _ _ HL). apply GoM_bind_Blocked.
    rewrite runs_atomic. by apply GoM_bind_Blocked. }
  assert (Lock b = (Ok (), Bridge.set_locked true b)) as HL by (unfold Lock; by rewrite Hl).
  rewrite (GoM_bind_Ok _ _ _ _ _ HL). erewrite (GoM_bind_Ok get_state) by reflexivity.
  destruct (decide (services_of (Bridge.set_locked true b) id ≠ [])) as [Hk|Hk].
  - assert (check_known id b = (_ ← log_id id; mret true) (Bridge.set_locked true b)) as Hc.
    { unfold check_known. rewrite (GoM_bind_Ok _ _ _ _ _ HL).
      erewrite (GoM_bind_Ok get_state) by reflexivity. by rewrite decide_True. }
    unfold mbind at 1, GoM_bind at 1. rewrite runs_atomic, Hc.
    unfold mbind, GoM_bind. rewrite log_id_run. by destruct (log_outcome id) as [[]| | |].
  - rewrite (GoM_bind_Ok Unlock _ _ () (Bridge.set_locked false (Bridge.set_locked true b))) by done.
    rewrite (GoM_bind_Ok _ _ b false (Bridge.set_locked false (Bridge.set_locked true b))).
    + destruct (DockerClient.InspectContainer docker id); [apply add_inspected_alone|apply runs_atomic].
    + rewrite runs_atomic. unfold check_known. rewrite (GoM_bind_Ok _ _ _ _ _ HL).
      erewrite (GoM_bind_Ok get_state) by reflexivity. by rewrite decide_False.
Qed.

Lemma deregisterAll_alone ss : deregisterAll_t ss ≈ deregisterAll ss.
Proof. unfold deregisterAll_t, deregisterAll, deregister_service. repeat runs_step. Qed.

(** A body under the mutex that always returns, with the mutex still held. *)
Lemma with_lock_alone (p : prog R unit) m :
  p ≈ m → (∀ b, ∃ b', m b = (Ok (), b') ∧ Bridge.locked b' = Bridge.locked b) →
  (_ ← atomic Lock; _ ← p; atomic Unlock) ≈ with_lock m.
Proof.
  intros Hp Hm b. rewrite alone_bind. destruct (Bridge.locked b) eqn:Hl.
  { rewrite with_lock_blocked by done. apply GoM_bind_Blocked. rewrite runs_atomic.
    unfold Lock. by rewrite Hl. }
  rewrite (GoM_bind_Ok _ _ b () (Bridge.set_locked true b))
    by (rewrite runs_atomic; unfold Lock; by rewrite Hl).
  rewrite alone_bind, with_lock_run by done.
  destruct (Hm (Bridge.set_locked true b)) as (b' & Hrun & Hl').
  rewrite (GoM_bind_Ok _ _ _ () b') by (by rewrite Hp). rewrite Hrun, runs_atomic.
  unfold Unlock. by rewrite Hl'.
Qed.

Lemma remove_alone id dereg : remove_t id dereg ≈ remove id dereg.
Proof.
  apply with_lock_alone.
  - unfold remove_body. repeat (apply deregisterAll_alone || runs_step).
  - intros b. erewrite GoM_bind_Ok by reflexivity. destruct dereg.
    + destruct (deregisterAll_run (services_of b id) b) as (r & errs & _ & H1).
      destruct (Bridge.deadContainers b !! id) as [d|].
      * edestruct (deregisterAll_run (DeadContainer.Services d)) as (r2 & errs2 & _ & H2).
        erewrite GoM_bind_Ok;
          [|erewrite GoM_bind_Ok by apply H1; erewrite GoM_bind_Ok by apply H2; reflexivity].
        by eexists.
      * erewrite GoM_bind_Ok; [|erewrite GoM_bind_Ok by apply H1; reflexivity]. by eexists.
    + case_decide; by eexists.
Qed.

Lemma RemoveOnExit_alone docker id : RemoveOnExit_t docker id ≈ RemoveOnExit docker id.
Proof. unfold RemoveOnExit_t, RemoveOnExit. runs_step; [apply runs_atomic|apply remove_alone]. Qed.

Lemma reregisterService_alone id i newIP : reregisterService_t id i newIP ≈ reregisterService id i newIP.
Proof. unfold reregisterService_t, reregisterService. repeat runs_step. Qed.

Lemma cleanup_alone docker : cleanup_t host docker ≈ cleanup host docker.
Proof.
  unfold cleanup_t, cleanup, cleanupServices, cleanup_service_t, cleanup_service. repeat runs_step.
Qed.

Lemma serviceSync_alone docker message : serviceSync_t host docker message ≈ serviceSync host docker message.
Proof.
  unfold serviceSync_t, serviceSync, sync_container_t, sync_container.
  repeat (apply reregisterService_alone || apply cleanup_alone || runs_step).
Qed.

(** Cutting the operations into atomic sections does not change what they do:
    every operation of the bridge, run without interruption, behaves exactly as
    the sequential definition of the operation, whatever way it ends. *)
Theorem operation_alone op b : alone (operation_t host op) b = run_operation host op b.
Proof.
  revert b. destruct op as [docker id quiet newIP|id|docker id| | |docker message].
  - apply add_alone.
  - apply remove_alone.
  - apply RemoveOnExit_alone.
  - apply Refresh_alone.
  - apply runs_atomic.
  - change (handle_sync_t host docker message ≈ handle_sync host docker message).
    unfold handle_sync_t, handle_sync. repeat (apply serviceSync_alone || runs_step).
Qed.
End alone.

(** ** Properties that every section keeps

    [steady I p]: every section of [p] keeps [I] when it returns. *)
Fixpoint steady {R A} (I : Bridge.t R → Prop) (p : prog R A) : Prop :=
  match p with
  | Ret _ => True
  | Atom m k => ∀ b x b', I b → m b = (Ok x, b') → I b' ∧ steady I (k x)
  end.

Section steady.
Context {R : Type} (I : Bridge.t R → Prop).

Lemma steady_bind {A B} (p : prog R A) (f : A → prog R B) :
  steady I p → (∀ a, steady I (f a)) → steady I (p ≫= f).
Proof.
  induction p as [a|X m k IH]; intros Hp Hf; [apply Hf|]. intros b x b' Hb Hm.
  destruct (Hp b x b' Hb Hm) as [Hb' Hk]. split; [done|]. by apply IH.
Qed.

Lemma steady_atomic {A} (m : GoM (Bridge.t R) A) :
  (∀ b x b', I b → m b = (Ok x, b') → I b') → steady I (atomic m).
Proof. intros Hm b x b' Hb Hr. split; [by eapply Hm|done]. Qed.

Lemma steady_each {A} (body : A → prog R unit) xs :
  (∀ x, steady I (body x)) → steady I (each body xs).
Proof. intros Hb. induction xs; [done|]. by apply steady_bind. Qed.

Lemma steady_alone {A} (p : prog R A) b x b' :
  steady I p → I b → alone p b = (Ok x, b') → I b'.
Proof.
  revert b. induction p as [a|X m k IH]; intros b Hp Hb Hrun; [by injection Hrun as <- <-|].
  apply GoM_bind_inv in Hrun as (y & b1 & Hm & Hk). destruct (Hp b y b1 Hb Hm) as [Hb1 Hy].
  by apply (IH y b1).
Qed.
End steady.

(** A section that leaves a part of the bridge outside the tables alone. *)
Section leaves.
Context {R X : Type} `{RA : RegistryAdapter R} `{O : MapOrder} (f : Bridge.t R → X).

Definition leaves {A} (m : GoM (Bridge.t R) A) : Prop := ∀ b, f (m b).2 = f b.

(** The part is neither the mutex nor one of the tables. *)
Definition outside_tables : Prop :=
  (∀ l b, f (Bridge.set_locked l b) = f b) ∧ (∀ m b, f (Bridge.set_services m b) = f b) ∧
  (∀ d b, f (Bridge.set_dead d b) = f b).

Lemma steady_leaves {A} (P : X → Prop) (m : GoM (Bridge.t R) A) :
  leaves m → steady (λ b, P (f b)) (atomic m).
Proof.
  intros Hm. apply steady_atomic. intros b x b' Hb Hr. specialize (Hm b). rewrite Hr in Hm.
  simpl in Hm. by rewrite Hm.
Qed.

Lemma leaves_get : leaves get_state.
Proof. done. Qed.
Lemma leaves_lift {A} (o : outcome A) : leaves (lift_outcome o).
Proof. done. Qed.

Lemma leaves_bind {A B} (m : GoM (Bridge.t R) A) (k : A → GoM (Bridge.t R) B) :
  leaves m → (∀ a, leaves (k a)) → leaves (m ≫= k).
Proof.
  intros Hm Hk b. unfold mbind, GoM_bind. specialize (Hm b).
  destruct (m b) as [[a| | |] b']; simpl in *; try done. by rewrite (Hk a b').
Qed.

Lemma leaves_log id : leaves (log_id id).
Proof. intros b. by rewrite log_id_run. Qed.

Lemma leaves_shouldRemove docker id : leaves (shouldRemove docker id).
Proof.
  apply leaves_bind; [apply leaves_get|]. intros b. case_decide; [done|].
  destruct (DockerClient.InspectContainer docker id) as [c|[|msg]]; repeat case_match; try done;
    (apply leaves_bind; [apply leaves_log|done]).
Qed.

Context (Hf : outside_tables).

Lemma leaves_set_services (g : Bridge.t R → gmap string (list Service.t)) :
  leaves (modify (λ b, Bridge.set_services (g b) b)).
Proof. intros b. apply Hf. Qed.
Lemma leaves_set_dead (g : Bridge.t R → gmap string DeadContainer.t) :
  leaves (modify (λ b, Bridge.set_dead (g b) b)).
Proof. intros b. apply Hf. Qed.
Lemma leaves_Lock : leaves Lock.
Proof. intros b. unfold Lock. destruct (Bridge.locked b); [done|apply Hf]. Qed.
Lemma leaves_Unlock : leaves Unlock.
Proof. intros b. unfold Unlock. destruct (Bridge.locked b); [apply Hf|done]. Qed.

Lemma leaves_with_lock {A} (m : GoM (Bridge.t R) A) : leaves m → leaves (with_lock m).
Proof.
  intros Hm b. unfold with_lock. destruct (Bridge.locked b); [done|].
  specialize (Hm (Bridge.set_locked true b)). destruct Hf as (Hl & _).
  destruct (m _) as [o b']; simpl in *. by rewrite !Hl in *.
Qed.

Lemma leaves_deleteDead id : leaves (deleteDeadContainer id).
Proof.
  apply leaves_with_lock. intros b. simpl. destruct (_ !! _); [|done].
  destruct Hf as (_ & Hs & Hd). by rewrite Hd, Hs.
Qed.
Lemma leaves_append id s : leaves (appendService id s).
Proof.
  apply leaves_with_lock, leaves_bind; [apply leaves_get|]. intros b.
  case_decide; [apply leaves_log|]. apply leaves_bind; [apply leaves_set_services|].
  intros u. apply leaves_log.
Qed.
Lemma leaves_check id : leaves (check_known id).
Proof.
  apply leaves_bind; [apply leaves_Lock|]. intros u. apply leaves_bind; [apply leaves_get|].
  intros b. case_decide; apply leaves_bind; try done; [apply leaves_log|apply leaves_Unlock].
Qed.
Lemma leaves_copy : leaves getServicesCopy.
Proof. by apply leaves_with_lock. Qed.
Lemma leaves_prune : leaves PruneDeadContainers.
Proof. apply leaves_with_lock, leaves_set_dead. Qed.
End leaves.

(** Walk through a goroutine; [section] deals with a section. *)
Ltac steady_step section :=
  match goal with
  | |- steady _ (Ret _) => exact I
  | |- steady _ (mret _) => exact I
  | |- steady _ (_ ≫= _) => apply steady_bind; [|intros ?]
  | |- steady _ (each _ _) => apply steady_each; intros ?
  | |- steady _ (atomic _) => section
  | |- steady _ (if decide ?c then _ else _) => destruct (decide c)
  | |- steady _ (match ?x with _ => _ end) => destruct x
  end.
Ltac steady_walk section := repeat (cbv beta zeta; steady_step section).

(** A section that leaves the part alone. *)
Create HintDb leaves.
#[export] Hint Resolve leaves_get leaves_lift leaves_log leaves_shouldRemove leaves_set_services
  leaves_set_dead leaves_Lock leaves_Unlock leaves_deleteDead leaves_append leaves_check
  leaves_copy leaves_prune : leaves.

(** ** Goroutines that leave a part of the bridge alone *)
Fixpoint leaving {R X A} (f : Bridge.t R → X) (p : prog R A) : Prop :=
  match p with
  | Ret _ => True
  | Atom m k => leaves f m ∧ ∀ b x, (m b).1 = Ok x → leaving f (k x)
  end.

Section leaving.
Context {R X : Type} (f : Bridge.t R → X).

Lemma leaving_bind {A B} (p : prog R A) (k : A → prog R B) :
  leaving f p → (∀ a, leaving f (k a)) → leaving f (p ≫= k).
Proof.
  induction p as [a|Y m j IH]; intros Hp Hk; [apply Hk|]. destruct Hp as [Hm Hj].
  split; [done|]. intros b x Hx. apply IH; [by eapply Hj|done].
Qed.

Lemma leaving_atomic {A} (m : GoM (Bridge.t R) A) : leaves f m → leaving f (atomic m).
Proof. by split. Qed.

Lemma leaving_each {A} (body : A → prog R unit) xs :
  (∀ x, leaving f (body x)) → leaving f (each body xs).
Proof. intros Hb. induction xs; [done|]. by apply leaving_bind. Qed.

Lemma leaving_steady {A} (P : X → Prop) (p : prog R A) :
  leaving f p → steady (λ b, P (f b)) p.
Proof.
  induction p as [a|Y m k IH]; [done|]. intros [Hm Hk] b x b' Hb Hr.
  specialize (Hm b). rewrite Hr in Hm. simpl in Hm. rewrite Hm. split; [done|].
  apply IH, (Hk b). by rewrite Hr.
Qed.
End leaving.

Ltac leaving_step section :=
  match goal with
  | |- leaving _ (Ret _) => exact I
  | |- leaving _ (mret _) => exact I
  | |- leaving _ (_ ≫= _) => apply leaving_bind; [|intros ?]
  | |- leaving _ (each _ _) => apply leaving_each; intros ?
  | |- leaving _ (atomic _) => apply leaving_atomic; section
  | |- leaving _ (if decide ?c then _ else _) => destruct (decide c)
  | |- leaving _ (match ?x with _ => _ end) => destruct x
  end.
Ltac leaving_walk section := repeat (cbv beta zeta; leaving_step section).

(** ** Every operation, section by section

    A property of a part of the bridge outside the tables is kept by every section
    of every operation, if the calls of the registry keep it. *)
Section operations.
Context {R X : Type} `{RA : RegistryAdapter R} `{O : MapOrder} (host : Host.t).
Context (f : Bridge.t R → X) (P : X → Prop).
Context (Hf : outside_tables f) (Hspawn : ∀ g b, f (Bridge.spawn g b) = f b).

Local Abbreviation keeps := (steady (λ b, P (f b))).
Context (HRegister : ∀ s, keeps (atomic (registry_Register s))).
Context (HDeregister : ∀ s, keeps (atomic (registry_Deregister s))).
Context (HRefresh : ∀ s, keeps (atomic (registry_Refresh s))).
Context (HServices : keeps (atomic (registry_call Services (λ r, CServices r.2)))).

Lemma part_spawn g : leaves f (modify (Bridge.spawn g)).
Proof. intros b. apply Hspawn. Qed.
Lemma part_stale running id : leaves f (remove_stale running id).
Proof. intros b. unfold remove_stale. case_decide; [done|apply Hspawn]. Qed.
Local Hint Resolve Hf part_spawn part_stale : leaves.

(** A section is a call or leaves the part alone. *)
Local Ltac section :=
  first [apply HRegister|apply HDeregister|apply HRefresh|apply HServices
        |apply (steady_leaves f P); solve [eauto with leaves]].

Lemma register_ports_steady docker quiet isGroup container ports :
  keeps (register_ports_t host docker quiet isGroup container ports).
Proof.
  revert container. induction ports as [|[k port] ports IH]; intros container; [done|].
  cbn [register_ports_t]. unfold log_id_t, pure_code, Register_t.
  repeat (apply IH || steady_step section).
Qed.

Lemma remove_steady id deregister : keeps (remove_t id deregister).
Proof. unfold remove_t, remove_body, deregisterAll_t, Deregister_t. steady_walk section. Qed.

Lemma cleanup_steady docker : keeps (cleanup_t host docker).
Proof. unfold cleanup_t, cleanup_service_t, pure_code, Deregister_t. steady_walk section. Qed.

Lemma serviceSync_steady docker message : keeps (serviceSync_t host docker message).
Proof.
  unfold serviceSync_t, sync_container_t, reregisterService_t, store_service, pure_code, Deregister_t,
    Register_t.
  repeat (apply cleanup_steady || steady_step section).
Qed.

Lemma operation_steady op : keeps (operation_t host op).
Proof.
  destruct op as [docker id quiet newIP|id|docker id| | |docker message]; cbn [operation_t].
  - unfold add_t, add_inspected_t, log_id_t, pure_code.
    repeat (apply register_ports_steady || steady_step section).
  - apply remove_steady.
  - unfold RemoveOnExit_t. repeat (apply remove_steady || steady_step section).
  - unfold Refresh_t, log_id_t. steady_walk section.
  - section.
  - unfold handle_sync_t. repeat (apply serviceSync_steady || steady_step section).
Qed.
End operations.
