(* ===== verification/Concurrency.v ===== *)
(** * The running system, interleaved

    Any number of goroutines, cut into atomic sections (Threads.v), over one bridge:
    those of Docker events and timers (src/registrator.go), those the bridge starts
    itself, and the loop [channelRun] of bridge/servicesync.go with its wait group
    and its unbuffered channel. A step lets one goroutine run one section; a
    section that waits for the mutex cannot run while it is held, and one that
    panics or exits ends the process, so that no step follows it. *)
From stdpp Require Import relations.
From S2P Require Import Prelude GoStrings Types Metadata ServiceId NewService Fixtures.
From S2P Require Import Bridge BridgeLemmas ServiceSync System Threads.

(** ** The system *)
(** The loop [channelRun]: before [wg.Wait()], at the receive, or handling. *)
Inductive channel (R : Type) :=
| ChWait
| ChReceive
| ChHandle (p : prog R unit).
Arguments ChWait {R}.
Arguments ChReceive {R}.
Arguments ChHandle {R}.

Module Sys.
Record t (R : Type) := mk {
  bridge : Bridge.t R;
  threads : list (prog R unit);
  (** The counter of the wait group. *)
  wg : Z;
  (** The messages of the goroutines that wait to send on the channel. *)
  senders : list SyncMessage.t;
  chan : channel R
}.
Arguments mk {R}.
Arguments bridge {R}.
Arguments threads {R}.
Arguments wg {R}.
Arguments senders {R}.
Arguments chan {R}.
End Sys.

(** One section of a goroutine, if it can run. *)
Definition advance {R A} (p : prog R A) (b : Bridge.t R) : option (prog R A * Bridge.t R) :=
  match p with
  | Ret _ => None
  | Atom m k => match m b with (Ok x, b') => Some (k x, b') | _ => None end
  end.

(** What the environment may do: the ways Docker may answer an operation, and the
    container IDs its events may name. *)
Module Env.
Record t := mk { docker : DockerClient.t → Prop; event : string → Prop }.
Definition any : t := mk (λ _, True) (λ _, True).
End Env.

Section system.
Context {R : Type} `{RA : RegistryAdapter R} `{O : MapOrder} (host : Host.t) (env : Env.t).
Implicit Types (b : Bridge.t R) (p : prog R unit) (s : Sys.t R).

(** [Initialize], after [New]. *)
Definition Initialize b : Sys.t R := Sys.mk b [] 0 [] ChWait.

(** [PushServiceSync] and [Sync], up to the moment the message is received. *)
Definition PushServiceSync (msg : SyncMessage.t) s : Sys.t R :=
  Sys.mk (Sys.bridge s) (Sys.threads s) (Sys.wg s) (Sys.senders s ++ [msg]) (Sys.chan s).
Definition Sync (quiet : bool) : Sys.t R → Sys.t R := PushServiceSync (SyncMessage.mk quiet "").

(** The calls made by events and timers. *)
Definition called (op : operation) : Prop :=
  match op with
  | OpAdd docker id _ _ | OpRemoveOnExit docker id => Env.docker env docker ∧ Env.event env id
  | OpRemove id => Env.event env id
  | OpRefresh | OpPrune => True
  | OpSync _ _ => False
  end.

(** A step of the goroutines themselves. *)
Inductive gstep : relation (Sys.t R) :=
(** A [go] statement of the bridge starts a goroutine. *)
| gstep_go docker gs1 g gs2 b ts wg q ch :
    Env.docker env docker → Bridge.spawned b = gs1 ++ g :: gs2 →
    gstep (Sys.mk b ts wg q ch)
          (Sys.mk (set_spawned (gs1 ++ gs2) b)
             (ts ++ [operation_t host (goroutine_op docker g)]) wg q ch)
(** A goroutine runs a section, or ends. *)
| gstep_section ts1 p ts2 b p' b' wg q ch :
    advance p b = Some (p', b') →
    gstep (Sys.mk b (ts1 ++ p :: ts2) wg q ch) (Sys.mk b' (ts1 ++ p' :: ts2) wg q ch)
| gstep_end ts1 ts2 b wg q ch :
    gstep (Sys.mk b (ts1 ++ Ret () :: ts2) wg q ch) (Sys.mk b (ts1 ++ ts2) wg q ch)
(** [wg.Wait(); wg.Add(1)] *)
| gstep_wait b ts q : gstep (Sys.mk b ts 0 q ChWait) (Sys.mk b ts 1 q ChReceive)
(** [val, ok := <-SyncChannel[bridge]]: one of the waiting senders goes on. *)
| gstep_receive docker q1 msg q2 b ts wg :
    Env.docker env docker →
    gstep (Sys.mk b ts wg (q1 ++ msg :: q2) ChReceive)
          (Sys.mk b ts wg (q1 ++ q2) (ChHandle (handle_sync_t host docker msg)))
| gstep_handle p b p' b' ts wg q :
    advance p b = Some (p', b') →
    gstep (Sys.mk b ts wg q (ChHandle p)) (Sys.mk b' ts wg q (ChHandle p'))
(** [wg.Done()] *)
| gstep_done b ts wg q :
    gstep (Sys.mk b ts wg q (ChHandle (Ret ()))) (Sys.mk b ts (wg - 1) q ChWait).

(** A goroutine that an event or a timer starts. *)
Definition start_operation (op : operation) s : Sys.t R :=
  Sys.mk (Sys.bridge s) (Sys.threads s ++ [operation_t host op]) (Sys.wg s) (Sys.senders s)
    (Sys.chan s).

(** A step of the system: any call, any message, or the goroutines. *)
Inductive istep : relation (Sys.t R) :=
| istep_call op s : called op → istep s (start_operation op s)
| istep_push msg s : istep s (PushServiceSync msg s)
| istep_goroutine s s' : gstep s s' → istep s s'.

(** A goroutine that runs to its end without interruption. *)
Lemma run_alone wg q ch ts1 ts2 p b b' : alone p b = (Ok (), b') →
  rtc istep (Sys.mk b (ts1 ++ p :: ts2) wg q ch) (Sys.mk b' (ts1 ++ Ret () :: ts2) wg q ch).
Proof.
  revert b. induction p as [[]|X m k IH]; intros b Hrun; simpl in Hrun.
  - injection Hrun as <-. apply rtc_refl.
  - apply GoM_bind_inv in Hrun as (x & b1 & Hm & Hk).
    eapply rtc_l; [|by apply (IH x)]. apply istep_goroutine, gstep_section. simpl. by rewrite Hm.
Qed.

End system.
