(* ===== verification/Sections.v ===== *)
(** * Reasoning about the sections of a goroutine

    [verif h p Q] says that a goroutine [p] keeps the invariant of the tables
    section by section, where [h] is what it knows: nothing, or, while it holds
    the mutex, what the tables are. Under [strict], that is when Docker's answers
    are ones the code can take ([docker_handled]), it says besides that no section
    panics and that none waits but for the mutex. Every operation of the bridge is
    verified here. *)
From stdpp Require Import relations.
From S2P Require Import Prelude GoStrings Types Metadata ServiceId NewService Fixtures.
From S2P Require Import Bridge BridgeLemmas BridgeInv BridgeProps ServiceSync SyncLemmas System Threads.

(** ** Answers of Docker that the code can take *)
(** Container IDs, of which the code logs the first twelve characters. *)
Definition long (id : string) : Prop := 12 ≤ String.length id.

(** The answers on which no operation panics: every ID has twelve characters at least,
    every container has a name, and a label map if its environment is not empty; every
    entry of the environment has an equals sign; and a container on the network of
    another one names it by twelve characters at least. Docker does not promise all of
    this: a variable without a value is an entry without equals sign, on which
    util.go panics. *)
Definition container_handled (c : Container.t) : Prop := long (Container.ID c) ∧ inspectable c.

Definition docker_handled (docker : DockerClient.t) : Prop :=
  (∀ id c, DockerClient.InspectContainer docker id = inl c → container_handled c) ∧
  (∀ options ids, DockerClient.ListContainers docker options = inl ids → Forall long ids).

Lemma lookup_env_returns env key : well_formed_env env = true → is_Ok (lookup_env env key) = true.
Proof.
  induction env as [|v env IH]; [done|]. simpl. intros [Hv He]%andb_prop.
  unfold env_entry, SplitN2 in *. destruct (cut v "=") as [name [value|]]; [|done].
  destruct (EqualFold name key); [done|by apply IH].
Qed.

Lemma inspectable_env c : inspectable c → well_formed_env (DockerConfig.Env (Container.Config c)) = true.
Proof. intros [Hu _]. by destruct (unreadable_merge (Container.Config c)) as [[]|(_ & H & _)]. Qed.

Lemma select_port_returns `{O : MapOrder} internal quiet c acc kv :
  container_handled c → is_Ok (select_port internal quiet c acc kv) = true.
Proof.
  intros [Hid Hi]. unfold select_port, lookupMetaData.
  pose proof (lookup_env_returns _ "SERVICE_USE_EXPOSED_PORTS" (inspectable_env c Hi)) as Hl.
  destruct (lookup_env _ _) as [v| | |]; try done. simpl.
  case_decide; [|done]. destruct quiet; [done|]. unfold slice_to. by rewrite decide_True.
Qed.

Lemma select_ports_returns `{O : MapOrder} internal quiet c ports :
  container_handled c → is_Ok (select_ports internal quiet c ports) = true.
Proof.
  intros Hc. unfold select_ports. generalize (∅ : gmap string ServicePort.t).
  induction (range ports) as [|kv l IH]; intros acc; [done|]. simpl.
  pose proof (select_port_returns internal quiet c acc kv Hc) as Hs.
  destruct (select_port _ _ _ _ _) as [acc'| | |]; try done. apply IH.
Qed.

(** The ID of the container a goroutine is started for. *)
Definition goroutine_id (g : goroutine) : string :=
  match g with GoAdd id _ _ | GoRemoveOnExit id => id end.

Section sections.
Context {R : Type} `{RA : RegistryAdapter R} `{O : MapOrder} (host : Host.t).
Context (strict : Prop) (good : R → Prop) (HR : strict → RegistrySafe good).
Implicit Types (b : Bridge.t R) (p : prog R unit).

(** ** The invariant *)
Definition ids_long b : Prop :=
  map_Forall (λ id _, long id) (Bridge.services b) ∧
  map_Forall (λ id _, long id) (Bridge.deadContainers b) ∧
  Forall (λ g, long (goroutine_id g)) (Bridge.spawned b) ∧
  good (Bridge.registry b).

Definition table_ok b : Prop := bridge_inv b ∧ (strict → ids_long b).

(** What the mutex protects, and what the invariant is about. *)
Definition tables b : gmap string (list Service.t) * gmap string DeadContainer.t * Config.t :=
  (Bridge.services b, Bridge.deadContainers b, Bridge.config b).
Definition watched b := (tables b, Bridge.spawned b, Bridge.registry b).

Lemma table_ok_watched b b' : watched b = watched b' → table_ok b → table_ok b'.
Proof.
  unfold watched, tables, table_ok, bridge_inv, ids_long. intros [= -> -> -> -> ->]. done.
Qed.

Lemma table_ok_locked l b : table_ok b → table_ok (Bridge.set_locked l b).
Proof. by apply table_ok_watched. Qed.

Definition holding : Type :=
  option (gmap string (list Service.t) * gmap string DeadContainer.t * Config.t).

(** What a goroutine holds after a section: [Some T] means that it holds the mutex
    and that the tables are [T]. *)
Definition next (h : holding) b b' : holding :=
  match h with
  | None => if Bridge.locked b then None else if Bridge.locked b' then Some (tables b') else None
  | Some _ => if Bridge.locked b' then Some (tables b') else None
  end.

Definition agrees (h : holding) b : Prop :=
  match h with Some T => Bridge.locked b = true ∧ tables b = T | None => True end.

(** How a section may end: it returns, waits for a mutex that another goroutine
    holds, or ends the process as [log.Fatal] does; it does not panic. *)
Definition smooth (h : holding) b {X} (o : outcome X) : Prop :=
  match o with
  | Ok _ => True
  | Panicked => False
  | Blocked => h = None ∧ Bridge.locked b = true
  | Exited c => c = 1%Z
  end.

(** [verif h p Q]: every section of [p] keeps the invariant; one that runs while
    another goroutine holds the mutex touches neither the tables nor the mutex; at
    the end [Q] holds. *)
Fixpoint verif {A} (h : holding) (p : prog R A) (Q : holding → A → Prop) : Prop :=
  match p with
  | Ret a => Q h a
  | Atom m k => ∀ b, table_ok b → agrees h b →
      table_ok (m b).2 ∧
      (strict → smooth h b (m b).1) ∧
      (h = None → Bridge.locked b = true →
         tables (m b).2 = tables b ∧ Bridge.locked (m b).2 = true) ∧
      ∀ x, (m b).1 = Ok x → verif (next h b (m b).2) (k x) Q
  end.

Arguments verif : simpl never.

(** ** Rules *)
Lemma verif_bind {A B} h (p : prog R A) (f : A → prog R B) Q1 Q2 :
  verif h p Q1 → (∀ h' a, Q1 h' a → verif h' (f a) Q2) → verif h (p ≫= f) Q2.
Proof.
  revert h. induction p as [a|X m k IH]; intros h Hp Hf; [by apply Hf|].
  intros b Hb Hh. destruct (Hp b Hb Hh) as (Hi & Hs & Hl & Hk). do 3 (split; [done|]).
  intros x Hx. by apply IH; [apply Hk|].
Qed.

Lemma verif_weaken {A} h (p : prog R A) Q1 Q2 :
  verif h p Q1 → (∀ h' a, Q1 h' a → Q2 h' a) → verif h p Q2.
Proof.
  revert h. induction p as [a|X m k IH]; intros h Hp HQ; [by apply HQ|].
  intros b Hb Hh. destruct (Hp b Hb Hh) as (Hi & Hs & Hl & Hk). do 3 (split; [done|]).
  intros x Hx. by apply IH; [apply Hk|].
Qed.

(** Sections that leave tables, mutex and goroutines alone. *)
Definition neutral {A} (m : GoM (Bridge.t R) A) : Prop :=
  ∀ b, watched (m b).2 = watched b ∧ Bridge.locked (m b).2 = Bridge.locked b.

(** A section that returns or ends the process. *)
Definition fine {X} (o : outcome X) : Prop :=
  match o with Ok _ => True | Exited c => c = 1%Z | _ => False end.

Lemma fine_smooth h b {X} (o : outcome X) : fine o → smooth h b o.
Proof. by destruct o. Qed.

Lemma fine_Ok {X} (o : outcome X) : is_Ok o = true → fine o.
Proof. by destruct o. Qed.

Lemma verif_neutral {A} h (m : GoM (Bridge.t R) A) :
  neutral m → (strict → ∀ b, table_ok b → agrees h b → fine (m b).1) →
  verif h (atomic m) (λ h' x, h' = h ∧ ∃ b, table_ok b ∧ agrees h b ∧ (m b).1 = Ok x).
Proof.
  intros Hm Hf b Hb Hh. destruct (Hm b) as [Hw Hl]. pose proof Hw as [= Ht Hd Hc Hg Hr]. split_and!.
  - by eapply table_ok_watched.
  - intros Hs. by apply fine_smooth, Hf.
  - intros _ Hlb. unfold tables. by rewrite Hl, Ht, Hd, Hc.
  - intros x Hx. split; [|eauto]. unfold next, tables. rewrite Hl, Ht, Hd, Hc.
    destruct h as [T|]; [destruct Hh as [-> <-]; done|by destruct (Bridge.locked b)].
Qed.

(** A neutral section whose result does not matter. *)
Lemma verif_skip {A} h (m : GoM (Bridge.t R) A) :
  neutral m → (strict → ∀ b, table_ok b → agrees h b → fine (m b).1) →
  verif h (atomic m) (λ h' _, h' = h).
Proof. intros Hm Hf. eapply verif_weaken; [by apply verif_neutral|]. naive_solver. Qed.

(** A section that takes the mutex and gives it back. *)
Lemma verif_locked {A} (m : GoM (Bridge.t R) A) :
  (∀ b, Bridge.locked b = true → m b = (Blocked, b)) →
  (∀ b, table_ok b → Bridge.locked b = false →
     table_ok (m b).2 ∧ Bridge.locked (m b).2 = false ∧ (strict → fine (m b).1)) →
  verif None (atomic m) (λ h' x, h' = None ∧
    ∃ b, table_ok b ∧ Bridge.locked b = false ∧ (m b).1 = Ok x).
Proof.
  intros Hw Hm b Hb _. destruct (Bridge.locked b) eqn:Hl.
  - rewrite Hw by done. do 3 (split; [done|]). intros x [=].
  - destruct (Hm b Hb Hl) as (Hi & Hl' & Hf). split; [done|].
    split; [intros; by apply fine_smooth, Hf|]. split; [done|].
    intros x Hx. split; [unfold next; by rewrite Hl, Hl'|eauto].
Qed.

Lemma verif_Lock : verif None (atomic Lock) (λ h' _, is_Some h').
Proof.
  intros b Hb _. unfold Lock, next. destruct (Bridge.locked b) eqn:Hl; simpl.
  - do 3 (split; [done|]). intros x [=].
  - split; [by apply table_ok_locked|]. do 2 (split; [done|]). intros x _. by eexists.
Qed.

Lemma verif_Unlock T : verif (Some T) (atomic Unlock) (λ h' _, h' = None).
Proof.
  intros b Hb [Hl _]. unfold Unlock. rewrite Hl. split; [by apply table_ok_locked|].
  do 2 (split; [done|]). intros x _. done.
Qed.

Lemma verif_modify T (f : Bridge.t R → Bridge.t R) :
  (∀ b, table_ok b → tables b = T → table_ok (f b) ∧ Bridge.locked (f b) = Bridge.locked b) →
  verif (Some T) (atomic (modify f)) (λ h' _, is_Some h').
Proof.
  intros Hf b Hb [Hl HT]. destruct (Hf b Hb HT) as [Hi Hl']. do 3 (split; [done|]).
  intros x _. simpl. rewrite Hl', Hl. by eexists.
Qed.

(** A loop whose body gives back what it is given. *)
Lemma verif_each {A} (P : holding → Prop) h (body : A → prog R unit) xs :
  (∀ x h, x ∈ xs → P h → verif h (body x) (λ h' _, P h')) → P h →
  verif h (each body xs) (λ h' _, P h').
Proof.
  revert h. induction xs as [|x xs IH]; intros h Hb Hh; [done|].
  eapply verif_bind; [apply Hb; [left|done]|]. intros h' u Hh'. apply IH; [|done].
  intros y h'' Hy. apply Hb. by right.
Qed.

(** ** Neutral sections *)
Lemma neutral_get : neutral get_state.
Proof. done. Qed.
Lemma neutral_lift {A} (o : outcome A) : neutral (lift_outcome o).
Proof. done. Qed.
Lemma neutral_log_id id : neutral (log_id id).
Proof. intros b. by rewrite log_id_run. Qed.
Lemma shouldRemove_reads docker id b : (shouldRemove docker id b).2 = b.
Proof.
  unfold shouldRemove. erewrite GoM_bind_Ok by reflexivity. case_decide; [done|].
  destruct (DockerClient.InspectContainer docker id) as [c|[|msg]]; repeat case_match; try done;
    unfold mbind, GoM_bind; rewrite log_id_run; by destruct (log_outcome id).
Qed.
Lemma neutral_shouldRemove docker id : neutral (shouldRemove docker id).
Proof. intros b. by rewrite shouldRemove_reads. Qed.

Lemma fine_log id b : long id → fine (log_id id b).1.
Proof. intros Hid. by rewrite log_id_run, log_outcome_Ok. Qed.
Lemma fine_shouldRemove docker id b : long id → fine (shouldRemove docker id b).1.
Proof.
  intros Hid. unfold shouldRemove. erewrite GoM_bind_Ok by reflexivity. case_decide; [done|].
  destruct (DockerClient.InspectContainer docker id) as [c|[|msg]]; repeat case_match; try done;
    unfold mbind, GoM_bind; by rewrite log_id_run, log_outcome_Ok.
Qed.

Lemma verif_get h :
  verif h (atomic get_state) (λ h' b, h' = h ∧ table_ok b ∧ agrees h b).
Proof.
  eapply verif_weaken; [apply verif_neutral; [apply neutral_get|done]|].
  intros h' b (-> & b' & Hb & Ha & [= ->]). done.
Qed.

Lemma verif_pure {A} h (o : outcome A) : (strict → fine o) →
  verif h (pure_code o) (λ h' x, h' = h ∧ o = Ok x).
Proof.
  intros Hf. eapply verif_weaken; [apply verif_neutral; [apply neutral_lift|auto]|].
  intros h' x (-> & b & _ & _ & Hx). done.
Qed.

Lemma verif_log h id : (strict → long id) → verif h (log_id_t id) (λ h' _, h' = h).
Proof. intros Hid. apply verif_skip; [apply neutral_log_id|]. intros. by apply fine_log, Hid. Qed.

Lemma verif_call {A} h (op : GoM R A) note : (strict → safe_call good op) →
  verif h (atomic (registry_call op note)) (λ h' _, h' = h).
Proof.
  intros Hop b [Hb Hi] Hh. unfold registry_call.
  assert (strict → is_Ok (op (Bridge.registry b)).1 = true ∧ good (op (Bridge.registry b)).2) as Hs.
  { intros Hst. apply Hop; [done|]. by apply Hi. }
  assert (∀ cs, table_ok (Bridge.set_registry (op (Bridge.registry b)).2 cs b)) as Ht.
  { intros cs. split; [done|]. intros Hst. destruct (Hi Hst) as (H1 & H2 & H3 & _).
    by split_and!; try apply Hs. }
  destruct (op (Bridge.registry b)) as [[a| | |c] r]; simpl in *;
    (split; [apply Ht|]); (split; [by intros [? _]%Hs|]); (split; [done|]); intros x [= <-].
  unfold next. simpl. destruct h as [T|]; [destruct Hh as [-> <-]; done|by destruct (Bridge.locked b)].
Qed.

Lemma verif_Register h s : (strict → full_origin s) → verif h (Register_t s) (λ h' _, h' = h).
Proof. intros Hs. apply verif_call. intros Hst. pose proof (HR Hst). by apply Register_safe, Hs. Qed.
Lemma verif_Deregister h s : verif h (Deregister_t s) (λ h' _, h' = h).
Proof. apply verif_call. intros Hst. pose proof (HR Hst). apply Deregister_safe. Qed.
Lemma verif_Refresh_call h s : verif h (atomic (registry_Refresh s)) (λ h' _, h' = h).
Proof. apply verif_call. intros Hst. pose proof (HR Hst). apply Refresh_safe. Qed.
Lemma verif_Services h : verif h (atomic (registry_call Services (λ r, CServices r.2))) (λ h' _, h' = h).
Proof. apply verif_call. intros Hst. pose proof (HR Hst). apply Services_safe. Qed.

Lemma verif_spawn h g : (strict → long (goroutine_id g)) →
  verif h (atomic (modify (Bridge.spawn g))) (λ h' _, h' = h).
Proof.
  intros Hg b [Hb Hi] Hh. split; [|split; [done|split; [done|]]].
  - split; [done|]. intros Hs. destruct (Hi Hs) as (H1 & H2 & H3 & H4). split_and!; try done.
    apply Forall_app_2; [done|]. apply Forall_singleton, Hg, Hs.
  - intros x _. unfold next. simpl.
    destruct h as [T|]; [destruct Hh as [-> <-]; done|by destruct (Bridge.locked b)].
Qed.

(** ** Changes of the tables *)
Lemma table_ok_services b m : table_ok b →
  map_Forall one_owned m → (strict → map_Forall (λ id _, long id) m) →
  table_ok (Bridge.set_services m b).
Proof.
  intros [[Hs Hd] Hi] Hm Hl. split; [done|]. intros H. destruct (Hi H) as (_ & ?).
  by split; [apply Hl|].
Qed.

Lemma table_ok_dead b d : table_ok b →
  map_Forall (dead_ok (Bridge.config b)) d → (strict → map_Forall (λ id _, long id) d) →
  table_ok (Bridge.set_dead d b).
Proof.
  intros [[Hs Hd] Hi] Hm Hl. split; [done|]. intros H. destruct (Hi H) as (? & _ & ?).
  by split; [|split; [apply Hl|]].
Qed.

Lemma table_ok_untrack id b : table_ok b →
  table_ok (Bridge.set_services (delete id (Bridge.services b)) b).
Proof.
  intros Hb. pose proof Hb as [[Hs _] Hi]. apply table_ok_services; [done|by apply map_Forall_delete|].
  intros H. apply map_Forall_delete, Hi, H.
Qed.

Lemma table_ok_bury id b : table_ok b →
  table_ok (Bridge.set_dead (delete id (Bridge.deadContainers b)) b).
Proof.
  intros Hb. pose proof Hb as [[_ Hd] Hi]. apply table_ok_dead; [done|by apply map_Forall_delete|].
  intros H. apply map_Forall_delete, Hi, H.
Qed.

Lemma table_ok_track id s b : table_ok b → owned id s → (strict → long id) →
  table_ok (Bridge.set_services (track id (Some s) (Bridge.services b)) b).
Proof.
  intros Hb Hs Hid. pose proof Hb as [[Hm _] Hi].
  apply table_ok_services; [done|by apply track_inv|]. intros H. destruct (Hi H) as (Hl & _).
  unfold track. case_decide; [|done]. apply map_Forall_insert_2; auto.
Qed.

Lemma table_ok_revive id d b : table_ok b → Bridge.deadContainers b !! id = Some d →
  table_ok (Bridge.set_dead (delete id (Bridge.deadContainers b))
    (Bridge.set_services (<[id := DeadContainer.Services d]> (Bridge.services b)) b)).
Proof.
  intros Hb Hid. pose proof Hb as [[Hs Hd] Hi]. destruct (Hd id d Hid) as [Hone _].
  assert (table_ok (Bridge.set_services (<[id := DeadContainer.Services d]> (Bridge.services b)) b)) as H1.
  { apply table_ok_services; [done|by apply map_Forall_insert_2|]. intros H.
    destruct (Hi H) as (Hl & Hl' & _). apply map_Forall_insert_2; [by apply (Hl' id d)|done]. }
  exact (table_ok_bury id _ H1).
Qed.

Lemma table_ok_prune b : table_ok b →
  table_ok (Bridge.set_dead (omap (pruned (Config.RefreshInterval (Bridge.config b)))
                               (Bridge.deadContainers b)) b).
Proof.
  intros Hb. pose proof Hb as [[_ Hd] Hi]. apply table_ok_dead; [done| |].
  - intros id d' Hd'. rewrite lookup_omap in Hd'.
    destruct (Bridge.deadContainers b !! id) as [d|] eqn:Hid; [|done].
    by eapply pruned_inv; [apply (Hd id d Hid)|exact Hd'].
  - intros H id d' Hd'. rewrite lookup_omap in Hd'.
    destruct (Bridge.deadContainers b !! id) as [d|] eqn:Hid; [|done].
    destruct (Hi H) as (_ & Hl & _). by apply (Hl id d).
Qed.

Lemma table_ok_die id b : table_ok b →
  Config.RefreshTtl (Bridge.config b) ≠ 0%Z → services_of b id ≠ [] →
  table_ok (Bridge.set_dead
    (<[id := DeadContainer.mk (Config.RefreshTtl (Bridge.config b)) (services_of b id)]>
       (Bridge.deadContainers b)) b).
Proof.
  intros Hb Httl Hne. pose proof Hb as [Hinv Hi]. pose proof Hinv as [Hs Hd].
  apply table_ok_dead; [done|apply map_Forall_insert_2; [|done]|].
  - split; [by apply services_of_inv|]. intros (_ & _ & Ht & _). simpl. lia.
  - intros H. destruct (Hi H) as (Hl & Hl' & _). apply map_Forall_insert_2; [|done].
    unfold services_of in Hne. destruct (Bridge.services b !! id) eqn:Hid; [|done]. by apply (Hl id _ Hid).
Qed.

(** ** Sections with the mutex taken and given back *)
Lemma verif_deleteDead id : verif None (atomic (deleteDeadContainer id)) (λ h _, h = None).
Proof.
  eapply verif_weaken; [apply verif_locked|by intros h x [-> _]].
  - intros. by apply with_lock_blocked.
  - intros b Hb Hl. rewrite deleteDeadContainer_run by done. simpl.
    destruct (Bridge.deadContainers b !! id) as [d|] eqn:Hd; [|done].
    split; [by apply table_ok_revive|done].
Qed.

Lemma verif_append id s : owned id s → (strict → long id) →
  verif None (atomic (appendService id s)) (λ h _, h = None).
Proof.
  intros Hs Hid. eapply verif_weaken; [apply verif_locked|by intros h x [-> _]].
  - intros. by apply with_lock_blocked.
  - intros b Hb Hl. rewrite appendService_run by done. simpl.
    split; [by apply table_ok_track|]. split; [done|]. intros H. by rewrite log_outcome_Ok by (by apply Hid).
Qed.

Lemma verif_copy : verif None (atomic getServicesCopy) (λ h copy, h = None ∧
  (strict → map_Forall (λ id _, long id) copy)).
Proof.
  eapply verif_weaken; [apply verif_locked|].
  - intros. by apply with_lock_blocked.
  - intros b Hb Hl. by rewrite getServicesCopy_run.
  - intros h copy (-> & b & [_ Hb] & Hl & Hx). split; [done|]. rewrite getServicesCopy_run in Hx by done.
    injection Hx as <-. intros H. apply Hb, H.
Qed.

Lemma verif_prune : verif None (atomic PruneDeadContainers) (λ h _, h = None).
Proof.
  eapply verif_weaken; [apply verif_locked|by intros h x [-> _]].
  - intros. by apply with_lock_blocked.
  - intros b Hb Hl. rewrite PruneDeadContainers_run by done. split; [by apply table_ok_prune|done].
Qed.

Lemma verif_check_known id : (strict → long id) →
  verif None (atomic (check_known id)) (λ h known, known = false → h = None).
Proof.
  intros Hid b Hb _. unfold check_known, Lock. unfold mbind, GoM_bind.
  destruct (Bridge.locked b) eqn:Hl; [do 3 (split; [done|]); intros x [=]|].
  simpl. case_decide.
  - rewrite log_id_run. unfold log_outcome. destruct (decide (12 ≤ String.length id)); simpl.
    + split; [by apply table_ok_locked|]. do 2 (split; [done|]). intros x [= <-] [=].
    + split; [by apply table_ok_locked|]. split; [by intros Hst; apply Hid in Hst|]. split; [done|].
      intros x [=].
  - simpl. split; [by do 2 apply table_ok_locked|]. do 2 (split; [done|]). intros x _ _.
    unfold next. by rewrite Hl.
Qed.

(** ** The operations *)
Lemma verif_register_ports docker quiet isGroup container ports :
  (strict → container_handled container) →
  Forall (λ kv, ServicePort.ContainerID kv.2 = Container.ID container) ports →
  verif None (register_ports_t host docker quiet isGroup container ports) (λ h _, h = None).
Proof.
  revert container. induction ports as [|[k port] ports IH]; intros container Hok Hp; [done|].
  apply Forall_cons in Hp as [Hport Hports]. simpl in Hport. cbn [register_ports_t].
  eapply verif_bind; [apply verif_get|]. intros h b0 (-> & _ & _).
  eapply verif_bind; [apply verif_pure|].
  { intros H. destruct (Hok H) as [_ Hi].
    destruct (newService_returns (Bridge.config b0) host docker container port isGroup Hi)
      as (? & ? & Hn). by rewrite Hn. }
  intros h [c' o] (-> & Hnew). pose proof (newService_container _ _ _ _ _ _ _ _ Hnew) as Hc.
  assert (strict → container_handled c') as Hok'.
  { intros H. destruct (Hok H) as [Hl Hi]. split; [by rewrite Hc|by eapply newService_inspectable]. }
  apply verif_bind with (λ h _, h = None); [|intros h u ->; apply IH; [done|by rewrite Hc]].
  destruct o as [sv|]; [|destruct quiet; [done|apply verif_log; by intros [? _]%Hok']].
  assert (owned (Container.ID c') sv) as Hown by (rewrite Hc, <- Hport; by eapply newService_owned).
  eapply verif_bind; [apply verif_Register|].
  { intros [Hl _]%Hok'. unfold full_origin. by rewrite (proj1 Hown). }
  intros h [e|] ->; [done|]. apply verif_append; [done|by intros [? _]%Hok'].
Qed.

Lemma verif_add docker id quiet newIP :
  (strict → docker_handled docker) → (strict → long id) →
  verif None (add_t host docker id quiet newIP) (λ _ _, True).
Proof.
  intros Hd Hid. eapply verif_bind; [apply verif_deleteDead|]. intros h u ->.
  eapply verif_bind; [by apply verif_check_known|]. intros h [] Hh; [done|]. rewrite Hh by done.
  destruct (DockerClient.InspectContainer docker id) as [c|e] eqn:Hc;
    [|eapply verif_weaken; [by apply verif_log|done]].
  assert (strict → container_handled c) as Hok by (intros [H _]%Hd; by apply (H id)).
  unfold add_inspected_t. case_decide;
    [eapply verif_weaken; [apply verif_log; by intros [? _]%Hok|done]|].
  eapply verif_bind; [apply verif_get|]. intros h' b' (-> & _ & _).
  eapply verif_bind; [apply verif_pure; intros Hst; by apply fine_Ok, select_ports_returns, Hok|].
  intros h' ports (-> & Hports).
  eapply verif_weaken; [apply verif_register_ports; [done|]|done].
  apply Forall_forall. intros [k p] Hk%range_elem.
  by eapply (select_ports_names _ _ _ _ _ _ Hports), Hk; apply container_ports_names.
Qed.

Lemma verif_deregisterAll h ss : verif h (deregisterAll_t ss) (λ h' _, h' = h).
Proof.
  apply (verif_each (λ h', h' = h)); [|done]. intros x h' _ ->.
  eapply verif_bind; [apply verif_Deregister|]. by intros h' e ->.
Qed.

Lemma verif_remove id dereg : verif None (remove_t id dereg) (λ h _, h = None).
Proof.
  eapply verif_bind; [apply verif_Lock|]. intros h u [T ->].
  apply verif_bind with (λ h _, is_Some h).
  2: { intros h u' [T' ->]. apply verif_Unlock. }
  eapply verif_bind; [apply verif_get|]. intros h b (-> & Hb & [_ HT]).
  apply verif_bind with (λ h _, is_Some h).
  2: { intros h u' [T' ->]. apply verif_modify. intros b' Hb' _. split; [by apply table_ok_untrack|done]. }
  destruct dereg.
  - eapply verif_bind; [apply verif_deregisterAll|]. intros h u' ->.
    destruct (Bridge.deadContainers b !! id) as [d|]; [|by eexists].
    eapply verif_bind; [apply verif_deregisterAll|]. intros h u'' ->.
    apply verif_modify. intros b' Hb' _. split; [by apply table_ok_bury|done].
  - case_decide as Hc; [|by eexists]. apply verif_modify. intros b' Hb' HT'. split; [|done].
    rewrite <- HT in HT'. injection HT' as Hs' Hd' Hc'. destruct Hc as [Httl Hlive].
    apply table_ok_die; [done|by rewrite Hc'|]. unfold services_of in *. by rewrite Hs'.
Qed.

Lemma verif_RemoveOnExit docker id : (strict → long id) →
  verif None (RemoveOnExit_t docker id) (λ h _, h = None).
Proof.
  intros Hid. eapply verif_bind; [apply verif_skip; [apply neutral_shouldRemove|]|].
  - intros H b _ _. by apply fine_shouldRemove, Hid.
  - intros h d ->. apply verif_remove.
Qed.

Lemma verif_Refresh : verif None Refresh_t (λ h _, h = None).
Proof.
  eapply verif_bind; [apply verif_copy|]. intros h copy [-> Hcopy].
  apply (verif_each (λ h, h = None)); [|done].
  intros [id ss] h Hkv%range_elem ->. apply (verif_each (λ h, h = None)); [|done]. intros sv h _ ->.
  eapply verif_bind; [apply verif_Refresh_call|]. intros h [e|] ->; [done|].
  apply verif_log. intros H. by apply (Hcopy H id ss).
Qed.

(** *** Synchronisation, with the mutex held throughout *)
Abbreviation inside := (λ h (_ : unit), is_Some (h : holding)).

(** A step that gives back what it is given keeps the mutex. *)
Lemma verif_inside {A} h (p : prog R A) :
  is_Some h → verif h p (λ h' _, h' = h) → verif h p (λ h' _, is_Some h').
Proof. intros Hh Hp. eapply verif_weaken; [exact Hp|]. by intros h' a ->. Qed.

Lemma verif_store id i sv sv' b T :
  table_ok b → tables b = T → services_of b id !! i = Some sv → (owned id sv → owned id sv') →
  verif (Some T) (atomic (store_service id i sv')) inside.
Proof.
  intros Hb HT Hi Hown. apply verif_modify. intros b' Hb' HT'. split; [|done].
  assert (services_of b' id = services_of b id) as Hs'.
  { rewrite <- HT in HT'. injection HT' as Hs _ _. unfold services_of. by rewrite Hs. }
  pose proof Hb' as [(Hs & _) Hl].
  apply table_ok_services; [done|apply map_Forall_insert_2; [|done]|].
  - rewrite Hs'. destruct (services_of_inv id b (proj1 Hb)) as (s0 & Heq & Ho).
    { intros Heq. by rewrite Heq in Hi. }
    rewrite Heq in *. destruct i as [|i]; [|done]. injection Hi as ->. exists sv'. split; [done|auto].
  - intros H. destruct (Hl H) as (Hk & _). apply map_Forall_insert_2; [|done].
    rewrite <- Hs' in Hi. unfold services_of in Hi.
    destruct (Bridge.services b' !! id) eqn:Hid; [|done]. by apply (Hk id _ Hid).
Qed.

Lemma tracked_full id i sv b : table_ok b → services_of b id !! i = Some sv →
  strict → full_origin sv.
Proof using.
  intros [Hb Hl] Hi Hst. destruct (services_of_inv id b Hb) as (s0 & Heq & Ho & _).
  { intros Heq. by rewrite Heq in Hi. }
  rewrite Heq in Hi. destruct i as [|i]; [|done]. injection Hi as <-.
  unfold full_origin. rewrite Ho. destruct (Hl Hst) as (Hk & _). unfold services_of in Heq.
  destruct (Bridge.services b !! id) eqn:Hid; [|done]. by apply (Hk id _ Hid).
Qed.

Lemma verif_reregister h id i newIP : is_Some h → verif h (reregisterService_t id i newIP) inside.
Proof.
  intros [T ->]. eapply verif_bind; [apply verif_get|]. intros h b (-> & Hb & [_ HT]).
  destruct (services_of b id !! i) as [sv|] eqn:Hi; [|by eexists].
  pose proof (tracked_full id i sv b Hb Hi) as Hfull. case_decide.
  - case_decide; [by eexists|].
    eapply verif_bind; [apply verif_Deregister|]. intros h [e|] ->; [by eexists|].
    eapply verif_bind; [eapply verif_store; [exact Hb|done|exact Hi|]|]; [by intros [? ?]|].
    intros h u Hh. eapply verif_bind; [by apply verif_inside, verif_Register|]. by intros h' e.
  - eapply verif_bind; [apply verif_inside, verif_Register; [by eexists|done]|]. by intros h' e.
Qed.

Lemma verif_cleanup_service h sv : is_Some h → verif h (cleanup_service_t host sv) inside.
Proof.
  intros Hh. unfold cleanup_service_t. destruct (parse_service_id _) as [[hn cn]|]; [|done].
  case_decide; [done|]. eapply verif_bind; [apply verif_get|]. intros h' b (-> & [Hb _] & _).
  eapply verif_bind; [apply verif_pure|].
  { intros _. by rewrite acknowledged_spec by by apply bridge_inv_tracked. }
  intros h' [] [-> _]; [done|].
  eapply verif_bind; [apply verif_inside, verif_Deregister; done|]. by intros.
Qed.

Lemma verif_cleanup h docker : is_Some h → verif h (cleanup_t host docker) inside.
Proof.
  intros Hh. unfold cleanup_t.
  destruct (DockerClient.ListContainers docker StatusFilters) as [running|e]; [|done].
  eapply verif_bind; [apply verif_get|]. intros h1 b (-> & [_ Hb] & _).
  eapply verif_bind; [apply (verif_each is_Some); [|done]|].
  { intros id h2 Hid H2. unfold remove_stale. case_decide.
    - eapply verif_weaken; [apply verif_skip; done|]. by intros h' u ->.
    - apply verif_inside; [done|]. apply verif_spawn. intros Hst. destruct (Hb Hst) as (Hk & _).
      apply list_elem_of_fmap in Hid as ([id' ss] & -> & Hid%range_elem). by apply (Hk id' ss). }
  intros h2 u H2. eapply verif_bind; [apply verif_inside, verif_Services; done|].
  intros h3 [ext [e|]] H3; [done|]. apply (verif_each is_Some); [|done].
  intros sv h4 _ H4. by apply verif_cleanup_service.
Qed.

Lemma verif_sync_container h quiet newIP id : is_Some h → (strict → long id) →
  verif h (sync_container_t quiet newIP id) inside.
Proof.
  intros Hh Hid. eapply verif_bind; [apply verif_get|]. intros h1 b (-> & _ & _).
  simpl. case_decide; [by apply verif_inside; [|apply verif_spawn]|].
  apply (verif_each is_Some); [|done]. intros i h3 _ H3. by apply verif_reregister.
Qed.

Lemma verif_handle_sync docker msg : (strict → docker_handled docker) →
  verif None (handle_sync_t host docker msg) (λ h _, h = None).
Proof.
  intros Hd. eapply verif_bind; [apply verif_Lock|]. intros h u Hh.
  apply verif_bind with inside; [|intros h' u' [T ->]; apply verif_Unlock].
  unfold serviceSync_t. destruct (DockerClient.ListContainers docker NoFilters) as [cs|e] eqn:Hcs.
  2: { destruct (SyncMessage.Quiet msg); [done|]. eapply verif_weaken; [by apply verif_pure|].
       by intros h' x [-> _]. }
  eapply verif_bind; [apply (verif_each is_Some); [|done]|].
  { intros id h1 Hid H1. apply verif_sync_container; [done|]. intros [_ H]%Hd.
    by eapply Forall_forall in Hid; [|by apply (H NoFilters)]. }
  intros h1 u1 H1. eapply verif_bind; [apply verif_get|]. intros h2 b (-> & _ & _).
  destruct (Config.Cleanup (Bridge.config b)); [by apply verif_cleanup|done].
Qed.

(** What the operation is given by its caller. *)
Definition op_ok (op : operation) : Prop :=
  match op with
  | OpAdd docker id _ _ => docker_handled docker ∧ long id
  | OpRemoveOnExit _ id => long id
  | OpSync docker _ => docker_handled docker
  | OpRemove _ | OpRefresh | OpPrune => True
  end.

(** Only an addition can end with the mutex held. *)
Lemma verif_operation op : (strict → op_ok op) → verif None (operation_t host op) (λ h _,
  match op with OpAdd _ _ _ _ => True | _ => h = None end).
Proof.
  destruct op as [docker id quiet newIP|id|docker id| | |docker msg]; intros Hop.
  - by apply verif_add; intros [? ?]%Hop.
  - apply verif_remove.
  - by apply verif_RemoveOnExit.
  - apply verif_Refresh.
  - apply verif_prune.
  - by apply verif_handle_sync.
Qed.
End sections.
Arguments verif : simpl never.
