(* ===== verification/Interleavings.v ===== *)
(** * What holds in every interleaving

    The sections verified in Sections.v are put together: an invariant of the pool
    of goroutines, of which one at most holds the mutex. Hence the tables are in
    order in every state; when Docker's answers are ones the code can take, no
    goroutine panics, and a mutex that is held can be released, unless it never will be. *)
From stdpp Require Import relations.
From S2P Require Import Prelude GoStrings Types Metadata ServiceId NewService Fixtures.
From S2P Require Import Bridge BridgeLemmas BridgeInv ServiceSync System Threads Concurrency Sections.

Section interleavings.
Context {R : Type} `{RA : RegistryAdapter R} `{O : MapOrder} (host : Host.t) (env : Env.t).
Context (strict : Prop) (good : R → Prop) (HR : strict → RegistrySafe good).
Context (Hdocker : strict → ∀ d, Env.docker env d → docker_handled d).
Context (Hevent : strict → ∀ id, Env.event env id → long id).
Implicit Types (b : Bridge.t R) (p : prog R unit) (s : Sys.t R).

Local Abbreviation safe h p := (verif strict good h p (λ _ _, True)).
Local Abbreviation table_ok := (table_ok strict good).

(** ** The pool of goroutines *)
(** At most one goroutine holds the mutex; it then is held, and the tables are
    what that goroutine takes them to be. *)
Definition exclusive b (hs : list holding) : Prop :=
  omap id hs = [] ∨ (omap id hs = [tables b] ∧ Bridge.locked b = true).

Definition pool_inv b (ps : list (prog R unit)) : Prop :=
  table_ok b ∧ ∃ hs, Forall2 (λ h p, safe h p) hs ps ∧ exclusive b hs.

Lemma pool_insert b ps1 ps2 p : safe None p → pool_inv b (ps1 ++ ps2) → pool_inv b (ps1 ++ p :: ps2).
Proof using.
  intros Hp (Hb & hs & Hhs & He). split; [done|].
  apply Forall2_app_inv_r in Hhs as (hs1 & hs2 & H1 & H2 & ->).
  exists (hs1 ++ None :: hs2). split; [by apply Forall2_app; [|constructor]|].
  unfold exclusive in *. rewrite omap_app in *. done.
Qed.

(** The goroutine at a place in the pool, and what it knows. *)
Lemma pool_split b ps1 ps2 p : pool_inv b (ps1 ++ p :: ps2) →
  table_ok b ∧ ∃ hs1 h hs2, Forall2 (λ h p, safe h p) hs1 ps1 ∧ safe h p ∧
    Forall2 (λ h p, safe h p) hs2 ps2 ∧ exclusive b (hs1 ++ h :: hs2) ∧ agrees h b ∧
    (is_Some h ∨ Bridge.locked b = false → omap id hs1 = [] ∧ omap id hs2 = []).
Proof using.
  intros (Hb & hs & Hhs & He). split; [done|].
  apply Forall2_app_inv_r in Hhs as (hs1 & hs' & H1 & H2 & ->).
  apply Forall2_cons_inv_r in H2 as (h & hs2 & Hh & H2 & ->).
  exists hs1, h, hs2. do 4 (split; [done|]). unfold exclusive in He.
  rewrite omap_app in He. simpl in He. destruct h as [T|]; simpl in He.
  - destruct (omap id hs1) as [|y l]; simpl in He.
    + destruct He as [|[He Hl]]; [done|]. injection He as HT E2. done.
    + destruct He as [|[[= _ He] _]]; [done|by destruct l].
  - split; [done|]. intros [[? [=]]|Hl]. destruct He as [He|[_ He]]; [|congruence].
    by apply app_eq_nil in He.
Qed.

Lemma pool_remove b ps1 ps2 p : pool_inv b (ps1 ++ p :: ps2) → pool_inv b (ps1 ++ ps2).
Proof using.
  intros (Hb & hs1 & h & hs2 & H1 & _ & H2 & He & _ & Hx)%pool_split. split; [done|].
  exists (hs1 ++ hs2). split; [by apply Forall2_app|].
  unfold exclusive in *. rewrite !omap_app in *. destruct h as [T|]; [|done].
  destruct Hx as [-> ->]; [left; by eexists|]. by left.
Qed.

Lemma pool_same b b' ps : table_ok b' → tables b' = tables b → Bridge.locked b' = Bridge.locked b →
  pool_inv b ps → pool_inv b' ps.
Proof using.
  intros Hb' Ht Hl (_ & hs & Hhs & He). split; [done|]. exists hs.
  split; [done|]. unfold exclusive. by rewrite Ht, Hl.
Qed.

Lemma pool_advance b b' ps1 ps2 p p' : advance p b = Some (p', b') →
  pool_inv b (ps1 ++ p :: ps2) → pool_inv b' (ps1 ++ p' :: ps2).
Proof using.
  intros Hadv (Hb & hs1 & h & hs2 & H1 & Hh & H2 & He & Ha & Hx)%pool_split.
  destruct p as [|X m k]; [done|]. simpl in Hadv.
  destruct (m b) as [[x| | |] b1] eqn:Hm; try done. injection Hadv as <- <-.
  destruct (Hh b Hb Ha) as (Hi & _ & Hout & Hk). rewrite Hm in *. simpl in *.
  split; [done|]. exists (hs1 ++ next h b b1 :: hs2). split.
  { apply Forall2_app; [done|]. constructor; [|done]. by apply Hk. }
  unfold exclusive in *. rewrite omap_app in *. change (omap id (next h b b1 :: hs2)) with
    (match next h b b1 with Some T => T :: omap id hs2 | None => omap id hs2 end).
  unfold next. destruct h as [T|].
  - destruct Hx as [-> ->]; [left; by eexists|]. destruct (Bridge.locked b1); simpl; auto.
  - destruct (Bridge.locked b) eqn:Hl.
    + destruct (Hout eq_refl eq_refl) as [-> Hl1]. rewrite Hl1. naive_solver.
    + destruct (Hx (or_intror eq_refl)) as [-> ->]. destruct (Bridge.locked b1); simpl; auto.
Qed.

(** ** The system *)
Definition goroutines s : list (prog R unit) :=
  Sys.threads s ++ match Sys.chan s with ChHandle p => [p] | _ => [] end.

Definition sys_inv s : Prop :=
  pool_inv (Sys.bridge s) (goroutines s) ∧
  Sys.wg s = match Sys.chan s with ChWait => 0%Z | _ => 1%Z end.

Lemma sys_inv_init r config : (strict → good r) → sys_inv (Initialize (Bridge.init r config)).
Proof using.
  intros Hr. split; [|done]. split; [|exists []; split; [constructor|by left]].
  split; [apply bridge_inv_init|]. intros Hs. split_and!; [apply map_Forall_empty..|constructor|auto].
Qed.

Lemma safe_operation op : (strict → op_ok op) → safe None (operation_t host op).
Proof. intros Hop. eapply verif_weaken; [by apply verif_operation|done]. Qed.

Lemma called_ok op : called env op → strict → op_ok op.
Proof.
  destruct op; simpl; intros Hc Hs; try done; destruct Hc; eauto.
Qed.

Lemma start_operation_inv op s : called env op → sys_inv s → sys_inv (start_operation host op s).
Proof.
  unfold sys_inv, goroutines, start_operation. simpl. intros Hc [Hp Hw]. split; [|done].
  rewrite <- (assoc_L app). simpl. apply pool_insert; [by apply safe_operation, called_ok|done].
Qed.

Lemma table_ok_go b gs1 g gs2 : Bridge.spawned b = gs1 ++ g :: gs2 → table_ok b →
  table_ok (set_spawned (gs1 ++ gs2) b) ∧ (strict → long (goroutine_id g)).
Proof using.
  intros Hg [Hb Hi]. split; [split; [done|]|]; intros Hs; destruct (Hi Hs) as (H1 & H2 & H3 & H4);
    rewrite Hg, Forall_app, Forall_cons in H3; [|by apply H3].
  split_and!; try done. apply Forall_app_2; apply H3.
Qed.

Lemma gstep_inv s s' : gstep host env s s' → sys_inv s → sys_inv s'.
Proof.
  unfold sys_inv, goroutines.
  destruct 1 as [docker gs1 g gs2 b ts wg q ch Hd Hg|ts1 p ts2 b p' b' wg q ch Ha
    |ts1 ts2 b wg q ch|b ts q|docker q1 msg q2 b ts wg Hd|p b p' b' ts wg q Ha|b ts wg q];
    simpl; intros [Hp Hw]; (split; [|try done]).
  - rewrite <- (assoc_L app). simpl. destruct (table_ok_go b gs1 g gs2 Hg (proj1 Hp)) as [Hb' Hl].
    apply pool_insert; [|by apply (pool_same b)]. apply safe_operation. intros Hs.
    destruct g; simpl; [split|]; auto.
  - rewrite <- (assoc_L app) in *. simpl in *. by eapply pool_advance.
  - rewrite <- (assoc_L app) in *. simpl in *. by eapply pool_remove.
  - done.
  - apply pool_insert; [|done]. eapply verif_weaken; [by apply verif_handle_sync; auto|done].
  - by eapply pool_advance.
  - by eapply pool_remove.
  - lia.
Qed.

Lemma istep_inv s s' : istep host env s s' → sys_inv s → sys_inv s'.
Proof. destruct 1; [by apply start_operation_inv|done|by apply gstep_inv]. Qed.

Lemma reachable_sys_inv r config s :
  (strict → good r) → rtc (istep host env) (Initialize (Bridge.init r config)) s →
  sys_inv s.
Proof.
  intros Hr Hreach. pose proof (sys_inv_init r config Hr) as Hinit.
  induction Hreach as [|s1 s2 s3 Hstep _ IH]; [done|]. by eapply IH, istep_inv.
Qed.

(** ** A mutex that no goroutine holds *)
(** The mutex is held, and not by a goroutine that goes on. *)
Definition abandoned s : Prop :=
  Bridge.locked (Sys.bridge s) = true ∧ table_ok (Sys.bridge s) ∧
  Forall (λ p, safe None p) (goroutines s).

Lemma abandoned_advance b p p' b' : advance p b = Some (p', b') → Bridge.locked b = true →
  table_ok b → safe None p →
  Bridge.locked b' = true ∧ table_ok b' ∧ tables b' = tables b ∧ safe None p'.
Proof using.
  destruct p as [|X m k]; [done|]. simpl. intros Hadv Hl Hb Hp.
  destruct (Hp b Hb I) as (Hi & _ & Hout & Hk). destruct (Hout eq_refl Hl) as [Ht Hl'].
  destruct (m b) as [[x| | |] b1]; try done. injection Hadv as <- <-. simpl in *.
  split_and!; try done. specialize (Hk x eq_refl). unfold next in Hk. by rewrite Hl in Hk.
Qed.

Lemma abandoned_step s s' : istep host env s s' → abandoned s →
  abandoned s' ∧ tables (Sys.bridge s') = tables (Sys.bridge s).
Proof.
  unfold abandoned, goroutines. intros Hstep (Hl & Hb & Hf).
  destruct Hstep as [op s Hc|msg s|s s' Hg]; [|done|].
  { simpl. rewrite !Forall_app in *. split; [|done]. split; [done|]. split; [done|].
    repeat constructor; try apply Hf. by apply safe_operation, called_ok. }
  destruct Hg as [docker gs1 g gs2 b ts w q c Hd Hg|ts1 p ts2 b p' b' w q c Ha
    |ts1 ts2 b w q c|b ts q|docker q1 msg q2 b ts w Hd|p b p' b' ts w q Ha|b ts w q];
    simpl in *; rewrite ?Forall_app, ?Forall_cons in *.
  - destruct (table_ok_go b gs1 g gs2 Hg Hb) as [Hb' Hg'].
    split; [|done]. split; [done|]. split; [done|]. split_and!; try apply Hf; [|constructor].
    apply safe_operation. intros Hs. destruct g; simpl; [split|]; auto.
  - destruct Hf as [(Hf1 & Hp & Hf2) Hf3].
    destruct (abandoned_advance b p p' b' Ha Hl Hb Hp) as (? & ? & ? & ?). by split_and!.
  - destruct Hf as [(Hf1 & Hp & Hf2) Hf3]. by split_and!.
  - done.
  - split; [|done]. split; [done|]. split; [done|]. split; [apply Hf|]. split; [|constructor].
    apply (safe_operation (OpSync docker msg)). simpl. auto.
  - destruct Hf as (Hf1 & Hp & Hf2).
    destruct (abandoned_advance b p p' b' Ha Hl Hb Hp) as (? & ? & ? & ?). by split_and!.
  - destruct Hf as (Hf1 & Hp & Hf2). by split_and!.
Qed.

(** Then it is held for ever, and the tables stay as they are. *)
Lemma abandoned_forever s s' : abandoned s → rtc (istep host env) s s' →
  Bridge.locked (Sys.bridge s') = true ∧ tables (Sys.bridge s') = tables (Sys.bridge s).
Proof.
  intros Hs Hsteps. induction Hsteps as [s|s s1 s2 Hstep _ IH]; [by destruct Hs|].
  destruct (abandoned_step s s1 Hstep Hs) as [Hs1 Ht]. rewrite <- Ht. by apply IH.
Qed.

(** ** Goroutines that go on *)
Definition finished p : Prop := match p with Ret _ => True | Atom _ _ => False end.
Definition runs b p : Prop := is_Some (advance p b).
(** The next section ends the process with [log.Fatal]. *)
Definition exits b p : Prop :=
  match p with Ret _ => False | Atom m _ => (m b).1 = Exited 1 end.
(** The next section waits for the mutex. *)
Definition waits b p : Prop :=
  Bridge.locked b = true ∧ match p with Ret _ => False | Atom m _ => (m b).1 = Blocked end.

Context (Hstrict : strict).

Lemma safe_fate h b p : table_ok b → agrees h b → safe h p →
  finished p ∨ runs b p ∨ exits b p ∨ (h = None ∧ waits b p).
Proof using Hstrict.
  destruct p as [a|X m k]; [by left|]. intros Hb Ha Hp. right.
  destruct (Hp b Hb Ha) as (_ & Hs & _). specialize (Hs Hstrict). unfold runs, exits, waits. simpl.
  destruct (m b) as [[x| | |c] b1]; simpl in *; [by left; eexists|done|by right; right; destruct Hs|].
  right. left. by rewrite Hs.
Qed.

Lemma pool_fate b ps p : pool_inv b ps → p ∈ ps →
  finished p ∨ runs b p ∨ exits b p ∨ waits b p.
Proof using Hstrict.
  intros Hpool Hp. apply list_elem_of_split in Hp as (ps1 & ps2 & ->).
  apply pool_split in Hpool as (Hb & hs1 & h & hs2 & _ & Hh & _ & _ & Ha & _).
  destruct (safe_fate h b p Hb Ha Hh) as [?|[?|[?|[_ ?]]]]; auto.
Qed.

(** A goroutine that has the mutex, or finds it free, can be run to its end, or to
    the end of the process, by its own steps; [at_] is the system around it. *)
Lemma finish (at_ : Bridge.t R → prog R unit → Sys.t R) :
  (∀ b p p' b', advance p b = Some (p', b') → gstep host env (at_ b p) (at_ b' p')) →
  ∀ p h b, table_ok b → agrees h b → safe h p → (h = None → Bridge.locked b = false) →
  ∃ b' p', rtc (gstep host env) (at_ b p) (at_ b' p') ∧ table_ok b' ∧
    (∀ I : Bridge.t R → Prop, steady I p → I b → I b') ∧ (finished p' ∨ exits b' p').
Proof using Hstrict.
  intros Hstep p. induction p as [a|X m k IH]; intros h b Hb Ha Hp Hfree.
  { exists b, (Ret a). split; [apply rtc_refl|]. split; [done|]. split; [done|by left]. }
  destruct (Hp b Hb Ha) as (Hb' & Hs & _ & Hk). specialize (Hs Hstrict).
  destruct (m b) as [[x| | |c] b1] eqn:Hm; simpl in *; [|done| |].
  - destruct (IH x (next h b b1) b1) as (b' & p' & Hr & Ht & HI & He); [done| |by apply Hk| |].
    + unfold next, agrees in *. by destruct h, (Bridge.locked b), (Bridge.locked b1).
    + unfold next in *. intros Hn. destruct h as [T|]; [by destruct (Bridge.locked b1)|].
      rewrite Hfree in Hn by done. by destruct (Bridge.locked b1).
    + exists b', p'. split; [|split; [done|split; [|done]]].
      * eapply rtc_l; [|exact Hr]. apply Hstep. simpl. by rewrite Hm.
      * intros I0 Hst HI0. destruct (Hst b x b1 HI0 Hm). by apply HI.
  - destruct Hs as [-> Hl]. by rewrite Hfree in Hl.
  - exists b, (Atom m k). split; [apply rtc_refl|]. do 2 (split; [done|]). right. simpl. rewrite Hm. by subst.
Qed.

(** The process ends, or the mutex is never released any more. *)
Definition stops s : Prop :=
  (∃ p, p ∈ goroutines s ∧ exits (Sys.bridge s) p) ∨ abandoned s.

Lemma nobody_holds hs ps : Forall2 (λ h p, safe h p) hs ps → omap id hs = [] →
  Forall (λ p, safe None p) ps.
Proof using. induction 1 as [|[T|] p hs ps Hp _ IH]; intros Ho; [constructor|done|]. constructor; auto. Qed.

Lemma rtc_gstep_inv s s' : rtc (gstep host env) s s' → sys_inv s → sys_inv s'.
Proof. induction 1 as [|s1 s2 s3 Hstep _ IH]; [done|]. intros Hs. by eapply IH, gstep_inv. Qed.

(** The goroutine is left at its end with the mutex free, or the system stops. *)
Lemma finish_at (at_ : Bridge.t R → prog R unit → Sys.t R) ps1 ps2 p h b :
  (∀ b p p' b', advance p b = Some (p', b') → gstep host env (at_ b p) (at_ b' p')) →
  (∀ b p, goroutines (at_ b p) = ps1 ++ p :: ps2 ∧ Sys.bridge (at_ b p) = b) →
  Forall (λ p, safe None p) (ps1 ++ ps2) → safe h p → table_ok b → agrees h b →
  (h = None → Bridge.locked b = false) →
  ∃ b' p', rtc (gstep host env) (at_ b p) (at_ b' p') ∧
    (∀ I : Bridge.t R → Prop, steady I p → I b → I b') ∧
    (stops (at_ b' p') ∨ (finished p' ∧ Bridge.locked b' = false)).
Proof using Hstrict.
  intros Hstep Hat Hothers Hp Ht Ha Hfree.
  destruct (finish at_ Hstep p h b Ht Ha Hp Hfree) as (b' & p' & Hr & Ht' & HI & He).
  exists b', p'. split; [exact Hr|]. split; [exact HI|]. destruct (Hat b' p') as [Hg' Hb'].
  destruct He as [He|He]; [|left; left; exists p'; rewrite Hg', Hb'; split; [|done]; apply elem_of_app; right; left].
  destruct (Bridge.locked b') eqn:Hl'; [|by right].
  left. right. unfold abandoned. rewrite Hg', Hb'. split; [done|]. split; [done|].
  apply Forall_app in Hothers as [? ?]. apply Forall_app_2; [done|]. constructor; [|done].
  by destruct p'.
Qed.

(** While the mutex is free, any goroutine can be picked. *)
Lemma pool_pick b ps1 p ps2 : pool_inv b (ps1 ++ p :: ps2) → Bridge.locked b = false →
  table_ok b ∧ safe None p ∧ Forall (λ p, safe None p) (ps1 ++ ps2).
Proof using.
  intros (Ht & hs1 & h & hs2 & H1 & Hh & H2 & He & Ha & Hx)%pool_split Hl. split; [done|].
  destruct Hx as [Hn1 Hn2]; [by right|].
  split; [|apply Forall_app_2; by eapply nobody_holds].
  destruct h as [T|]; [|done]. destruct Ha as [Ha _]. congruence.
Qed.

(** While it is held, the one that holds it can, if there is one. *)
Lemma pool_holder b ps : pool_inv b ps → Bridge.locked b = true →
  Forall (λ p, safe None p) ps ∨
  ∃ ps1 p ps2 T, ps = ps1 ++ p :: ps2 ∧ safe (Some T) p ∧ agrees (Some T) b ∧
    Forall (λ p, safe None p) (ps1 ++ ps2).
Proof using.
  intros Hpool Hl. pose proof Hpool as (_ & hs & Hhs & [He|[He _]]).
  { left. by eapply nobody_holds. }
  right. assert (Some (tables b) ∈ hs) as Hin.
  { assert (tables b ∈ omap id hs) as Hin by (rewrite He; left).
    apply list_elem_of_omap in Hin as (x & Hx & Hid). simpl in Hid. by subst. }
  apply list_elem_of_split in Hin as (hs1 & hs2 & ->).
  apply Forall2_app_inv_l in Hhs as (ps1 & ps' & H1 & H2 & ->).
  apply Forall2_cons_inv_l in H2 as (p & ps2 & Hp & H2 & ->).
  exists ps1, p, ps2, (tables b). split; [done|]. split; [done|]. split; [by split|].
  rewrite omap_app in He. simpl in He.
  destruct (omap id hs1) as [|y l] eqn:E1; [|by destruct l].
  injection He as E2. apply Forall_app_2; by eapply nobody_holds.
Qed.
End interleavings.

(** ** Properties that every section keeps *)
Section steady_system.
Context {R : Type} `{RA : RegistryAdapter R} `{O : MapOrder} (host : Host.t) (env : Env.t).
Context (I : Bridge.t R → Prop) (Hop : ∀ op, steady I (operation_t host op)).
Context (Hgo : ∀ gs b, I b → I (set_spawned gs b)).

Definition steady_sys (s : Sys.t R) : Prop := I (Sys.bridge s) ∧ Forall (steady I) (goroutines s).

Lemma steady_advance (p p' : prog R unit) b b' : steady I p → I b →
  advance p b = Some (p', b') → I b' ∧ steady I p'.
Proof.
  destruct p as [|X m k]; [done|]. simpl. intros Hp Hb.
  destruct (m b) as [[x| | |] b1] eqn:Hm; try done. intros [= <- <-]. by eapply Hp.
Qed.

Lemma gstep_steady s s' : gstep host env s s' → steady_sys s → steady_sys s'.
Proof.
  unfold steady_sys, goroutines. intros Hstep [Hb Hf].
  destruct Hstep as [docker gs1 g gs2 b ts w q c _ Hg|ts1 p ts2 b p' b' w q c Ha
    |ts1 ts2 b w q c|b ts q|docker q1 msg q2 b ts w _|p b p' b' ts w q Ha|b ts w q];
    simpl in *; rewrite ?Forall_app, ?Forall_cons in *; try (split; [by auto|]).
  - split_and!; try apply Hf; [apply Hop|constructor].
  - destruct (steady_advance p p' b b') as [? ?]; naive_solver.
  - naive_solver.
  - done.
  - split; [apply Hf|]. split; [|constructor]. apply (Hop (OpSync docker msg)).
  - destruct (steady_advance p p' b b') as [? ?]; naive_solver.
  - naive_solver.
Qed.

Lemma istep_steady s s' : istep host env s s' → steady_sys s → steady_sys s'.
Proof.
  destruct 1 as [op s _|msg s|s s' Hg]; [|done|by apply gstep_steady].
  unfold steady_sys, goroutines, start_operation. simpl. rewrite !Forall_app. intros [Hb Hf].
  split; [done|]. repeat constructor; try apply Hf. apply Hop.
Qed.

(** The property holds throughout, if it does at the start. *)
Lemma steady_system b s : rtc (istep host env) (Initialize b) s → I b → I (Sys.bridge s).
Proof.
  intros Hsteps HI. assert (steady_sys (Initialize b)) as H0 by (by split).
  assert (steady_sys s) as [H _]; [|done]. clear HI.
  induction Hsteps as [|s1 s2 s3 Hstep _ IH]; [done|]. by eapply IH, istep_steady.
Qed.
End steady_system.

(** * Properties *)
Section properties.
Context {R : Type} `{RA : RegistryAdapter R} `{O : MapOrder} (host : Host.t) (env : Env.t).
Implicit Types (b : Bridge.t R) (p : prog R unit) (s : Sys.t R).

(** C7: whatever goroutines run and however their sections interleave, every tracked
    container has exactly one service, made for it, and so has every dead
    container; where the configured TTL and refresh interval are not negative, what
    is left of the TTL of a dead container is positive and at most the configured
    one; and the loop that handles sync messages is never kept waiting by its wait
    group. *)
Theorem interleaved_inv r config s :
  rtc (istep host env) (Initialize (Bridge.init r config)) s →
  bridge_inv (Sys.bridge s) ∧ (Sys.chan s = ChWait → Sys.wg s = 0%Z).
Proof.
  intros Hreach.
  destruct (reachable_sys_inv host env False (λ _, True) ltac:(done) ltac:(done) ltac:(done) r config s
    ltac:(done) Hreach) as [[[Hb _] _] Hw].
  split; [done|]. intros Hc. by rewrite Hc in Hw.
Qed.

(** ** A mutex that is never released *)
(** A goroutine that does nothing as long as the mutex is held. *)
Fixpoint frozen {A} (p : prog R A) : Prop :=
  match p with
  | Ret _ => True
  | Atom m k => ∀ b, Bridge.locked b = true → (m b).2 = b ∧ ∀ x, (m b).1 = Ok x → frozen (k x)
  end.

Lemma frozen_blocked {A X} (m : GoM (Bridge.t R) X) (k : X → prog R A) :
  (∀ b, Bridge.locked b = true → m b = (Blocked, b)) → frozen (Atom m k).
Proof. intros Hm b Hb. rewrite Hm by done. split; [done|]. by intros x [=]. Qed.

Lemma frozen_operation op : frozen (operation_t host op).
Proof.
  assert (∀ A (m : GoM (Bridge.t R) A) b, Bridge.locked b = true → with_lock m b = (Blocked, b))
    as Hw by (intros; by apply with_lock_blocked).
  assert (∀ b : Bridge.t R, Bridge.locked b = true → Lock b = (Blocked, b)) as Hl
    by (intros b Hb; unfold Lock; by rewrite Hb).
  destruct op as [docker id quiet newIP|id|docker id| | |docker msg];
    try solve [apply frozen_blocked; intros; by (apply Hw || apply Hl)].
  intros b Hb. split; [apply shouldRemove_reads|]. intros d _. apply frozen_blocked, Hl.
Qed.

Lemma frozen_advance p b p' b' : frozen p → Bridge.locked b = true →
  advance p b = Some (p', b') → b' = b ∧ frozen p'.
Proof.
  destruct p as [|X m k]; [done|]. intros Hp Hl. specialize (Hp b Hl). simpl.
  destruct (m b) as [[x| | |] b1]; try done. intros [= <- <-]. naive_solver.
Qed.

(** The bridge as it was in [b], but for the goroutines it has still to start, and
    no goroutine that could do anything. *)
Definition dead b s : Prop :=
  Bridge.locked (Sys.bridge s) = true ∧ same_but_spawned b (Sys.bridge s) ∧
  Forall frozen (goroutines s).

Lemma gstep_dead b s s' : gstep host env s s' → dead b s → dead b s'.
Proof.
  unfold dead, goroutines, same_but_spawned. intros Hstep (Hl & Hs & Hf).
  destruct Hstep as [docker gs1 g gs2 b1 ts w q1 c _ Hg|ts1 p ts2 b1 p' b' w q1 c Ha
    |ts1 ts2 b1 w q1 c|b1 ts q1|docker q1 msg q2 b1 ts w _|p b1 p' b' ts w q1 Ha|b1 ts w q1];
    simpl in *; rewrite ?Forall_app, ?Forall_cons in *.
  - split; [done|]. split; [by rewrite Hs|].
    split_and!; try apply Hf; [apply frozen_operation|constructor].
  - destruct (frozen_advance _ _ _ _ (proj1 (proj2 (proj1 Hf))) Hl Ha) as [-> Hp]. naive_solver.
  - naive_solver.
  - done.
  - split; [done|]. split; [done|]. split; [apply Hf|]. split; [|constructor].
    apply (frozen_operation (OpSync docker msg)).
  - destruct (frozen_advance _ _ _ _ (proj1 (proj2 Hf)) Hl Ha) as [-> Hp]. naive_solver.
  - naive_solver.
Qed.

Lemma istep_dead b s s' : istep host env s s' → dead b s → dead b s'.
Proof.
  destruct 1 as [op s _|msg s|s s' Hg]; [|done|by apply gstep_dead].
  unfold dead, goroutines, start_operation. simpl. rewrite !Forall_app. intros (Hl & Hs & Hf).
  split; [done|]. split; [done|]. repeat constructor; try apply Hf. apply frozen_operation.
Qed.

(** C9: once an operation has returned with the mutex held, and no goroutine is
    under way, the bridge is dead: whatever starts from then on, in whatever
    interleaving, neither the tables nor the registry change, and the mutex stays
    held. *)
Theorem leaked_forever b wg q ch s :
  Bridge.locked b = true → (ch = ChWait ∨ ch = ChReceive) →
  rtc (istep host env) (Sys.mk b [] wg q ch) s →
  Bridge.locked (Sys.bridge s) = true ∧ same_but_spawned b (Sys.bridge s).
Proof.
  intros Hl Hch Hsteps. assert (dead b (Sys.mk b [] wg q ch)) as H0.
  { split; [done|]. split; [by destruct b|]. unfold goroutines. simpl. by destruct Hch as [-> | ->]. }
  cut (dead b s); [by intros (? & ? & _)|].
  induction Hsteps as [|s1 s2 s3 Hstep _ IH]; [done|]. by eapply IH, istep_dead.
Qed.
End properties.
