(* ===== verification/Liveness.v ===== *)
(** * No goroutine panics, and all work can be finished

    When Docker's answers are ones the code can take and the registry is in a state from
    which its calls return. *)
From stdpp Require Import relations.
From S2P Require Import Prelude GoStrings Types Metadata ServiceId NewService Fixtures.
From S2P Require Import Bridge BridgeLemmas BridgeInv BridgeProps ServiceSync System.
From S2P Require Import Threads Concurrency Sections Interleavings.

(** ** Goroutines that start no others *)
Section spawning.
Context {R : Type} `{RA : RegistryAdapter R} `{O : MapOrder} (host : Host.t).

Lemma spawned_outside : outside_tables (R := R) Bridge.spawned.
Proof. done. Qed.
Lemma spawned_call {A} (op : GoM R A) note : leaves Bridge.spawned (registry_call op note).
Proof. intros b. unfold registry_call. by destruct (op (Bridge.registry b)) as [[] r]. Qed.
Local Hint Resolve spawned_outside spawned_call : leaves.

Local Ltac section := solve [eauto with leaves].

Lemma register_ports_spawned docker quiet isGroup container ports :
  leaving Bridge.spawned (register_ports_t host docker quiet isGroup container ports).
Proof.
  revert container. induction ports as [|[k port] ports IH]; intros container; [done|].
  cbn [register_ports_t]. unfold log_id_t, pure_code, Register_t, registry_Register.
  repeat (apply IH || leaving_step section).
Qed.

Lemma remove_spawned id deregister : leaving Bridge.spawned (remove_t id deregister).
Proof.
  unfold remove_t, remove_body, deregisterAll_t, Deregister_t, registry_Deregister.
  leaving_walk section.
Qed.

(** Only the handler of a sync message does. *)
Lemma operation_spawned op : (∀ docker msg, op ≠ OpSync docker msg) →
  leaving Bridge.spawned (operation_t host op).
Proof.
  intros Hop. destruct op as [docker id quiet newIP|id|docker id| | |docker msg]; cbn [operation_t].
  - unfold add_t, add_inspected_t, log_id_t, pure_code.
    repeat (apply register_ports_spawned || leaving_step section).
  - apply remove_spawned.
  - unfold RemoveOnExit_t. repeat (apply remove_spawned || leaving_step section).
  - unfold Refresh_t, log_id_t, registry_Refresh. leaving_walk section.
  - leaving_step section.
  - by destruct (Hop docker msg).
Qed.

Lemma goroutine_spawned docker g :
  leaving Bridge.spawned (operation_t host (goroutine_op docker g)).
Proof. apply operation_spawned. by destruct g. Qed.
End spawning.

(** ** Finishing all work *)
(** Answers of Docker, and container IDs, that the code can take. *)
Definition handled : Env.t := Env.mk docker_handled long.

(** A Docker without containers is one of them. *)
Definition no_docker : DockerClient.t :=
  DockerClient.mk (λ _, inr NoSuchContainer) (λ _, inl []).

Lemma no_docker_handled : docker_handled no_docker.
Proof. split; [done|]. intros options ids [= <-]. constructor. Qed.

Section drain.
Context {R : Type} `{RA : RegistryAdapter R} (good : R → Prop) `{RS : !RegistrySafe good}.
Context `{O : MapOrder} (host : Host.t).
Implicit Types (b : Bridge.t R) (p : prog R unit) (s : Sys.t R).

Local Abbreviation ok := (sys_inv (R := R) True good).
Local Abbreviation stuck := (stops (R := R) True good).
Local Notation "s ⇝ s'" := (rtc (gstep host handled) s s') (at level 70).

Lemma ok_steps s s' : s ⇝ s' → ok s → ok s'.
Proof. by apply (rtc_gstep_inv host handled True good (λ _, RS)). Qed.

(** The system can come to a stop. *)
Definition may_stop s : Prop := ∃ s', s ⇝ s' ∧ stuck s'.

Lemma may_stop_steps s s' : s ⇝ s' → may_stop s' → may_stop s.
Proof. intros Hs (s2 & Hs2 & Hst). exists s2. split; [by etrans|done]. Qed.

(** Run the goroutine that [pool_pick] or [pool_holder] gives. *)
Lemma run_at (at_ : Bridge.t R → prog R unit → Sys.t R) ps1 ps2 p h b :
  (∀ b p p' b', advance p b = Some (p', b') → gstep host handled (at_ b p) (at_ b' p')) →
  (∀ b p, goroutines (at_ b p) = ps1 ++ p :: ps2 ∧ Sys.bridge (at_ b p) = b) →
  Forall (λ p, verif True good None p (λ _ _, True)) (ps1 ++ ps2) → verif True good h p (λ _ _, True) →
  table_ok True good b → agrees h b → (h = None → Bridge.locked b = false) →
  ∃ b' p', at_ b p ⇝ at_ b' p' ∧ (∀ I : Bridge.t R → Prop, steady I p → I b → I b') ∧
    (stuck (at_ b' p') ∨ (p' = Ret () ∧ Bridge.locked b' = false)).
Proof.
  intros H1 H2 H3 H4 H5 H6 H7.
  destruct (finish_at host handled True good I at_ ps1 ps2 p h b H1 H2 H3 H4 H5 H6 H7)
    as (b' & p' & Hr & HI & [Hs|[Hf Hl]]); exists b', p'; split_and!; auto.
  right. by destruct p' as [[]|].
Qed.

(** The system around one of its goroutines. *)
Lemma focus s ps1 p ps2 : goroutines s = ps1 ++ p :: ps2 →
  ∃ at_ : Bridge.t R → prog R unit → Sys.t R, at_ (Sys.bridge s) p = s ∧
    (∀ b p p' b', advance p b = Some (p', b') → gstep host handled (at_ b p) (at_ b' p')) ∧
    (∀ b p, goroutines (at_ b p) = ps1 ++ p :: ps2 ∧ Sys.bridge (at_ b p) = b).
Proof.
  destruct s as [b ts wg q ch]. unfold goroutines. simpl.
  set (hl := match ch with ChHandle p => [p] | _ => [] end).
  intros [(k & -> & Hk)|(k & -> & Hk)]%app_eq_inv; [destruct k as [|p0 k]|]; simplify_eq/=.
  2: { exists (λ b p, Sys.mk b (ps1 ++ p :: k) wg q ch). split; [done|].
       split; [intros; by apply gstep_section|]. intros. simpl. by rewrite <- (assoc_L app). }
  all: try (subst hl); destruct ch as [| |p1]; try done; try (by destruct k).
  - injection Hk as -> ->. exists (λ b p, Sys.mk b (ps1 ++ []) wg q (ChHandle p)).
    split; [done|]. split; [intros; by apply gstep_handle|]. intros. simpl. by rewrite app_nil_r.
  - destruct k as [|p0 [|]]; [|done..]. injection Hk as -> <-.
    exists (λ b p, Sys.mk b ts wg q (ChHandle p)).
    split; [done|]. split; [intros; by apply gstep_handle|]. intros. simpl. by rewrite app_nil_r.
Qed.

(** The mutex can be released. *)
Lemma release s : ok s → may_stop s ∨ ∃ s', s ⇝ s' ∧ Bridge.locked (Sys.bridge s') = false.
Proof.
  intros Hs. destruct (Bridge.locked (Sys.bridge s)) eqn:Hl; [|right; exists s; split; [apply rtc_refl|done]].
  pose proof Hs as [Hpool _].
  destruct (pool_holder True good _ _ Hpool Hl) as [Hn|(ps1 & p & ps2 & T & Hg & Hp & Ha & Hn)].
  { left. exists s. split; [apply rtc_refl|]. right. split; [done|]. split; [apply Hpool|done]. }
  destruct (focus s ps1 p ps2 Hg) as (at_ & Heq & Hstep & Hat).
  destruct (run_at at_ ps1 ps2 p (Some T) (Sys.bridge s)) as (b' & p' & Hr & _ & He);
    try done; [apply Hpool|].
  rewrite Heq in Hr. destruct He as [He|[_ He]]; [left|right]; exists (at_ b' p'); (split; [done|]); [done|].
  by rewrite (proj2 (Hat b' p')).
Qed.

(** With the mutex free, any goroutine can be run to its end. *)
Lemma run_one s ps1 p ps2 : ok s → Bridge.locked (Sys.bridge s) = false →
  goroutines s = ps1 ++ p :: ps2 → ∀ at_ : Bridge.t R → prog R unit → Sys.t R,
  at_ (Sys.bridge s) p = s →
  (∀ b p p' b', advance p b = Some (p', b') → gstep host handled (at_ b p) (at_ b' p')) →
  (∀ b p, goroutines (at_ b p) = ps1 ++ p :: ps2 ∧ Sys.bridge (at_ b p) = b) →
  may_stop s ∨ ∃ b', s ⇝ at_ b' (Ret ()) ∧ Bridge.locked b' = false ∧
    (∀ I : Bridge.t R → Prop, steady I p → I (Sys.bridge s) → I b').
Proof.
  intros [Hpool _] Hl Hg at_ Heq Hstep Hat. rewrite Hg in Hpool.
  destruct (pool_pick True good _ _ _ _ Hpool Hl) as (Ht & Hp & Hn).
  destruct (run_at at_ ps1 ps2 p None (Sys.bridge s)) as (b' & p' & Hr & HI & [He|[-> He]]);
    try done; rewrite Heq in Hr; [left|right]; [by exists (at_ b' p')|by exists b'].
Qed.

(** *** One phase after the other *)
Lemma finish_threads ts b wg q ch : ok (Sys.mk b ts wg q ch) → Bridge.locked b = false →
  may_stop (Sys.mk b ts wg q ch) ∨
  ∃ b', Sys.mk b ts wg q ch ⇝ Sys.mk b' [] wg q ch ∧ Bridge.locked b' = false.
Proof.
  revert b. induction ts as [|p ts IH]; intros b Hok Hl; [right; exists b; split; [apply rtc_refl|done]|].
  destruct (run_one (Sys.mk b (p :: ts) wg q ch) []
              p (ts ++ match ch with ChHandle p => [p] | _ => [] end) Hok Hl eq_refl
              (λ b p, Sys.mk b (p :: ts) wg q ch)) as [Hst|(b' & Hr & Hl' & _)];
    [done|intros; by apply (gstep_section _ _ [])|done|by left|].
  assert (Sys.mk b (p :: ts) wg q ch ⇝ Sys.mk b' ts wg q ch) as Hr'.
  { etrans; [exact Hr|]. apply rtc_once, (gstep_end _ _ []). }
  destruct (IH b' (ok_steps _ _ Hr' Hok) Hl') as [Hst|(b2 & Hr2 & Hl2)].
  - left. by eapply may_stop_steps.
  - right. exists b2. split; [by etrans|done].
Qed.

(** [channelRun] gets to its receive. *)
Lemma finish_handler b wg q ch : ok (Sys.mk b [] wg q ch) → Bridge.locked b = false →
  may_stop (Sys.mk b [] wg q ch) ∨
  ∃ b', Sys.mk b [] wg q ch ⇝ Sys.mk b' [] 1 q ChReceive ∧ Bridge.locked b' = false.
Proof.
  intros Hok Hl. pose proof Hok as [_ Hw]. simpl in Hw. destruct ch as [| |p]; subst wg.
  - right. exists b. split; [apply rtc_once, gstep_wait|done].
  - right. exists b. split; [apply rtc_refl|done].
  - destruct (run_one (Sys.mk b [] 1 q (ChHandle p)) [] p [] Hok Hl eq_refl
                (λ b p, Sys.mk b [] 1 q (ChHandle p))) as [Hst|(b' & Hr & Hl' & _)];
      [done|intros; by apply gstep_handle|done|by left|right].
    exists b'. split; [|done]. etrans; [exact Hr|].
    eapply rtc_l; [apply gstep_done|]. apply rtc_once, gstep_wait.
Qed.

Lemma handle_messages q b : ok (Sys.mk b [] 1 q ChReceive) → Bridge.locked b = false →
  may_stop (Sys.mk b [] 1 q ChReceive) ∨
  ∃ b', Sys.mk b [] 1 q ChReceive ⇝ Sys.mk b' [] 1 [] ChReceive ∧ Bridge.locked b' = false.
Proof.
  revert b. induction q as [|msg q IH]; intros b Hok Hl; [right; exists b; split; [apply rtc_refl|done]|].
  assert (Sys.mk b [] 1 (msg :: q) ChReceive ⇝
          Sys.mk b [] 1 q (ChHandle (handle_sync_t host no_docker msg))) as H1.
  { apply rtc_once, (gstep_receive _ _ _ []), no_docker_handled. }
  destruct (finish_handler b 1 q _ (ok_steps _ _ H1 Hok) Hl) as [Hst|(b' & H2 & Hl')].
  { left. by eapply may_stop_steps. }
  assert (Sys.mk b [] 1 (msg :: q) ChReceive ⇝ Sys.mk b' [] 1 q ChReceive) as H3 by by etrans.
  destruct (IH b' (ok_steps _ _ H3 Hok) Hl') as [Hst|(b2 & Hr2 & Hl2)].
  - left. by eapply may_stop_steps.
  - right. exists b2. split; [by etrans|done].
Qed.

Lemma run_spawned gs b : Bridge.spawned b = gs → ok (Sys.mk b [] 1 [] ChReceive) →
  Bridge.locked b = false →
  may_stop (Sys.mk b [] 1 [] ChReceive) ∨
  ∃ b', Sys.mk b [] 1 [] ChReceive ⇝ Sys.mk b' [] 1 [] ChReceive ∧ Bridge.locked b' = false ∧
    Bridge.spawned b' = [].
Proof.
  revert b. induction gs as [|g gs IH]; intros b Hg Hok Hl; [right; exists b; split; [apply rtc_refl|done]|].
  set (p := operation_t host (goroutine_op no_docker g)). set (b1 := set_spawned gs b).
  assert (Sys.mk b [] 1 [] ChReceive ⇝ Sys.mk b1 [p] 1 [] ChReceive) as H1.
  { apply rtc_once, (gstep_go host handled no_docker [] g gs b [] 1 [] ChReceive);
    [apply no_docker_handled|done]. }
  pose proof (ok_steps _ _ H1 Hok) as Hok1.
  destruct (run_one (Sys.mk b1 [p] 1 [] ChReceive) [] p [] Hok1 Hl eq_refl
              (λ b p, Sys.mk b [p] 1 [] ChReceive)) as [Hst|(b' & Hr & Hl' & HI)];
    [done|intros; by apply (gstep_section _ _ [])|done|left; by eapply may_stop_steps|].
  assert (Sys.mk b [] 1 [] ChReceive ⇝ Sys.mk b' [] 1 [] ChReceive) as H2.
  { etrans; [exact H1|]. etrans; [exact Hr|]. apply rtc_once, (gstep_end _ _ []). }
  destruct (IH b') as [Hst|(b2 & Hr2 & Hl2)]; [|by eapply ok_steps|done| |].
  - apply (HI (λ b, Bridge.spawned b = gs)); [|done].
    apply (leaving_steady Bridge.spawned (λ x, x = gs)), goroutine_spawned.
  - left. by eapply may_stop_steps.
  - right. exists b2. split; [by etrans|done].
Qed.

(** Nothing is left to do: [channelRun] waits for a message. *)
Definition idle s : Prop :=
  Sys.threads s = [] ∧ Sys.senders s = [] ∧ Sys.chan s = ChReceive ∧
  Bridge.spawned (Sys.bridge s) = [] ∧ Bridge.locked (Sys.bridge s) = false.

Lemma drain s : ok s → may_stop s ∨ ∃ s', s ⇝ s' ∧ idle s'.
Proof.
  intros Hok. destruct (release s Hok) as [Hst|(s1 & H1 & Hl1)]; [by left|].
  pose proof (ok_steps _ _ H1 Hok) as Hok1. destruct s1 as [b1 ts wg q ch].
  destruct (finish_threads ts b1 wg q ch Hok1 Hl1) as [Hst|(b2 & H2 & Hl2)];
    [left; by eapply may_stop_steps|]. pose proof (ok_steps _ _ H2 Hok1) as Hok2.
  destruct (finish_handler b2 wg q ch Hok2 Hl2) as [Hst|(b3 & H3 & Hl3)];
    [left; eapply may_stop_steps; [by etrans|done]|]. pose proof (ok_steps _ _ H3 Hok2) as Hok3.
  destruct (handle_messages q b3 Hok3 Hl3) as [Hst|(b4 & H4 & Hl4)];
    [left; eapply may_stop_steps; [by do 2 (etrans; [done|])|done]|].
  pose proof (ok_steps _ _ H4 Hok3) as Hok4.
  assert (s ⇝ Sys.mk b4 [] 1 [] ChReceive) as Hr by (by do 3 (etrans; [done|])).
  destruct (run_spawned _ b4 eq_refl Hok4 Hl4) as [Hst|(b5 & H5 & Hl5 & Hg)];
    [left; by eapply may_stop_steps|].
  right. eexists. split; [by etrans|done].
Qed.

(** C5: no goroutine ever panics, in any interleaving, under these conditions. The
    registry starts in one of a set of states from which its calls return and which
    they do not leave. Every container ID that Docker or an event gives has twelve
    characters at least; every container has a name, a label map if it has an
    environment, and no entry of the environment without an equals sign (Docker has
    such entries, and on one the code panics); and a container on the network of
    another one gives that by twelve characters at least. Then each goroutine has
    finished, or its next section returns, ends the process with [log.Fatal], or waits
    for the mutex, which then is held. *)
Theorem no_panic r config s : good r →
  rtc (istep host handled) (Initialize (Bridge.init r config)) s →
  ∀ p, p ∈ goroutines s →
  finished p ∨ runs (Sys.bridge s) p ∨ exits (Sys.bridge s) p ∨ waits (Sys.bridge s) p.
Proof.
  intros Hr Hreach p Hp.
  destruct (reachable_sys_inv host handled True good (λ _, RS) (λ _ _ H, H) (λ _ _ H, H) r config s
    (λ _, Hr) Hreach)
    as [Hpool _].
  by apply (pool_fate True good I _ (goroutines s)).
Qed.

(** No deadlock but one: from every state the system reaches, its goroutines can
    finish all their work, the messages that wait and the goroutines not yet
    started included, until the message loop waits for a message with the mutex
    free; unless one ends the process, or the mutex is held for ever and the tables
    never change again. *)
Theorem work_finishes r config s : good r →
  rtc (istep host handled) (Initialize (Bridge.init r config)) s →
  ∃ s', rtc (gstep host handled) s s' ∧
    (idle s' ∨ (∃ p, p ∈ goroutines s' ∧ exits (Sys.bridge s') p) ∨
     ∀ s'', rtc (istep host handled) s' s'' →
       Bridge.locked (Sys.bridge s'') = true ∧ tables (Sys.bridge s'') = tables (Sys.bridge s')).
Proof.
  intros Hr Hreach.
  pose proof (reachable_sys_inv host handled True good (λ _, RS) (λ _ _ H, H) (λ _ _ H, H) r config s
    (λ _, Hr) Hreach)
    as Hok.
  destruct (drain s Hok) as [(s' & Hs' & [He|Ha])|(s' & Hs' & Hi)]; exists s'; (split; [done|]); auto.
  right. right. intros s'' Hs''.
  by apply (abandoned_forever host handled True good (λ _, RS) (λ _ _ H, H) (λ _ _ H, H)).
Qed.
End drain.

(** * Concrete runs *)
Module LiveRuns.
Lemma docker_is_handled : docker_handled Fixtures.docker.
Proof.
  split.
  - intros id c. simpl. repeat case_decide; intros [= <-]; (split; [vm_compute; lia|]);
      [apply Fixtures.web_inspectable|apply Fixtures.side_inspectable].
  - intros [] ids [= <-]; repeat constructor; vm_compute; lia.
Qed.

(** An addition under way. *)
Definition started : Sys.t Memory.t :=
  @start_operation _ _ ascending Fixtures.host SystemRuns.start
    (Initialize (Bridge.init Memory.empty Fixtures.config)).

Lemma started_reachable :
  rtc (@istep _ _ ascending Fixtures.host handled)
    (Initialize (Bridge.init Memory.empty Fixtures.config)) started.
Proof.
  apply rtc_once, istep_call. split; [apply docker_is_handled|]. vm_compute. lia.
Qed.
End LiveRuns.

Lemma no_panic_witness :
  Forall (λ p, finished p ∨ runs (Sys.bridge LiveRuns.started) p ∨
    exits (Sys.bridge LiveRuns.started) p ∨ waits (Sys.bridge LiveRuns.started) p)
    (goroutines LiveRuns.started).
Proof.
  apply Forall_forall.
  exact (@no_panic _ _ (λ _, True) RegistryReturns_safe ascending Fixtures.host Memory.empty
           Fixtures.config LiveRuns.started I LiveRuns.started_reachable).
Defined.

Lemma work_finishes_witness :
  ∃ s', rtc (@gstep _ _ ascending Fixtures.host handled) LiveRuns.started s' ∧
    (idle s' ∨ (∃ p, p ∈ goroutines s' ∧ exits (Sys.bridge s') p) ∨
     ∀ s'', rtc (@istep _ _ ascending Fixtures.host handled) s' s'' →
       Bridge.locked (Sys.bridge s'') = true ∧ tables (Sys.bridge s'') = tables (Sys.bridge s')).
Proof.
  exact (@work_finishes _ _ (λ _, True) RegistryReturns_safe ascending Fixtures.host Memory.empty
           Fixtures.config LiveRuns.started I LiveRuns.started_reachable).
Defined.
