(* ===== verification/Termination.v ===== *)
(** * The goroutines come to rest

    Without new events, ticks and messages, every run of the goroutines is finite,
    however they are scheduled; and where it ends, either all work is done, or the
    process ends, or the mutex is held for ever. *)
From stdpp Require Import relations.
From S2P Require Import Prelude GoStrings Types Metadata ServiceId NewService Fixtures.
From S2P Require Import Bridge BridgeLemmas BridgeInv BridgeProps ServiceSync System.
From S2P Require Import Threads Concurrency Sections Interleavings Liveness.

(** ** Orders *)
Section orders.
Context {R : Type}.
Implicit Types (p : prog R unit) (ts : list (prog R unit)) (c : channel R).

(** What is left of a goroutine after a section. *)
Definition child p' p : Prop :=
  match p with Ret _ => False | Atom m k => ∃ x, p' = k x end.

Lemma child_wf p : Acc child p.
Proof. induction p as [a|X m k IH]; constructor; [done|]. intros p' [x ->]. apply IH. Qed.

Lemma advance_child p b p' b' : advance p b = Some (p', b') → child p' p.
Proof.
  destruct p as [|X m k]; [done|]. simpl. destruct (m b) as [[x| | |] b1]; try done.
  intros [= <- <-]. by eexists.
Qed.

(** A pool in which one goroutine has gone on, or is gone. *)
Inductive pool_lt : relation (list (prog R unit)) :=
| pool_lt_child ts1 p p' ts2 : child p' p → pool_lt (ts1 ++ p' :: ts2) (ts1 ++ p :: ts2)
| pool_lt_end ts1 p ts2 : pool_lt (ts1 ++ ts2) (ts1 ++ p :: ts2).

Lemma pool_lt_cons ts' p ts : pool_lt ts' (p :: ts) →
  (∃ p', ts' = p' :: ts ∧ child p' p) ∨ ts' = ts ∨ (∃ ts2, ts' = p :: ts2 ∧ pool_lt ts2 ts).
Proof.
  inversion 1 as [ts1 q q' ts2 Hc Hl Hr|ts1 q ts2 Hl Hr]; destruct ts1 as [|r ts1]; simplify_eq/=;
    eauto 6 using pool_lt.
Qed.

Lemma pool_wf ts : Acc pool_lt ts.
Proof.
  assert (∀ ts, Acc pool_lt ts → ∀ p, Acc child p → Acc pool_lt (p :: ts)) as Hcons.
  { intros ts0 Hts. induction Hts as [ts0 Hts IHts]. intros p Hp. induction Hp as [p Hp IHp].
    constructor. intros ts' [(p' & -> & Hc)|[->|(ts2 & -> & Hlt)]]%pool_lt_cons.
    - by apply IHp.
    - by constructor.
    - apply IHts; [done|]. by constructor. }
  induction ts as [|p ts IH]; [|by apply Hcons, child_wf].
  constructor. intros ts'. inversion 1 as [ts1 p p' ts2 Hc Hl Hn|ts1 p ts2 Hl Hn]; by destruct ts1.
Qed.

(** [channelRun] between two messages. *)
Definition chan_lt c' c : Prop :=
  match c, c' with
  | ChHandle p, ChHandle p' => child p' p
  | ChHandle _, _ => True
  | ChWait, ChReceive => True
  | _, _ => False
  end.

Lemma chan_wf c : Acc chan_lt c.
Proof.
  assert (Acc chan_lt ChReceive) as Hr by (by constructor; intros []).
  assert (Acc chan_lt ChWait) as Hw by (by constructor; intros []).
  destruct c as [| |p]; [done..|]. induction (child_wf p) as [p _ IH]. constructor.
  intros [| |p'] Hc; [done..|by apply IH].
Qed.
End orders.

(** ** Termination *)
Section termination.
Context {R : Type} `{RA : RegistryAdapter R} `{O : MapOrder} (host : Host.t) (env : Env.t).
Implicit Types (p : prog R unit) (s : Sys.t R).

(** The goroutines that are not the handler of a message start no others. *)
Definition starts_none (ts : list (prog R unit)) : Prop := Forall (leaving Bridge.spawned) ts.

Lemma leaving_advance p b p' b' : leaving Bridge.spawned p → advance p b = Some (p', b') →
  leaving Bridge.spawned p' ∧ Bridge.spawned b' = Bridge.spawned b.
Proof.
  destruct p as [|X m k]; [done|]. intros [Hm Hk]. simpl. specialize (Hm b). specialize (Hk b).
  destruct (m b) as [[x| | |] b1]; try done. intros [= <- <-]. auto.
Qed.

Lemma gstep_starts_none s s' : gstep host env s s' → starts_none (Sys.threads s) →
  starts_none (Sys.threads s').
Proof.
  unfold starts_none. destruct 1 as [docker gs1 g gs2 b ts w q c Hd Hg|ts1 p ts2 b p' b' w q c Ha
    |ts1 ts2 b w q c|b ts q|docker q1 msg q2 b ts w Hd|p b p' b' ts w q Ha|b ts w q]; simpl;
    rewrite ?Forall_app, ?Forall_cons; intros Hts; try done.
  - split; [done|]. split; [apply goroutine_spawned|done].
  - destruct (leaving_advance p b p' b') as [? _]; naive_solver.
  - naive_solver.
Qed.

Lemma istep_starts_none s s' : istep host env s s' → starts_none (Sys.threads s) →
  starts_none (Sys.threads s').
Proof.
  destruct 1 as [op s Hc|msg s|s s' Hg]; [|done|by apply gstep_starts_none].
  unfold starts_none. simpl. intros Hts. apply Forall_app_2; [done|]. constructor; [|done].
  apply operation_spawned. by intros docker msg ->.
Qed.

(** Lexicographically: the messages that wait, where [channelRun] is, the goroutines
    still to be started, and the goroutines. *)
Lemma gstep_sn n (c : channel R) m ts : Acc chan_lt c → Acc pool_lt ts → starts_none ts →
  ∀ b wg q, length q = n → length (Bridge.spawned b) = m → sn (gstep host env) (Sys.mk b ts wg q c).
Proof.
  revert c m ts. induction (lt_wf n) as [n _ IHn]. intros c m ts Hc. revert m ts.
  induction Hc as [c _ IHc]. intros m. induction (lt_wf m) as [m _ IHm]. intros ts Hts.
  induction Hts as [ts _ IHts]. intros Hn b wg q Hq Hm. constructor. intros s' Hstep.
  pose proof (gstep_starts_none _ _ Hstep Hn) as Hn'. unfold flip in Hstep.
  inversion Hstep as [docker gs1 g gs2 b0 ts0 w q0 c0 Hd Hg|ts1 p ts2 b0 p' b' w q0 c0 Ha
    |ts1 ts2 b0 w q0 c0|b0 ts0 q0|docker q1 msg q2 b0 ts0 w Hd|p b0 p' b' ts0 w q0 Ha|b0 ts0 w q0];
    simplify_eq/=.
  - eapply (IHm (length (gs1 ++ gs2))); [|apply pool_wf|done..]. rewrite Hg, !length_app. simpl. lia.
  - assert (leaving Bridge.spawned p) as Hp by (unfold starts_none in Hn; decompose_Forall; done).
    apply leaving_advance with (b := b) (p' := p') (b' := b') in Hp as [_ Hsp]; [|done].
    eapply IHts; [|done..|by rewrite Hsp]. apply pool_lt_child. by eapply advance_child.
  - eapply IHts; [apply pool_lt_end|done..].
  - by eapply IHc; [|apply pool_wf|..].
  - eapply (IHn (length (q1 ++ q2))); [|apply chan_wf|apply pool_wf|done..]. rewrite !length_app. simpl. lia.
  - eapply IHc; [|apply pool_wf|done..]. by eapply advance_child.
  - by eapply IHc; [|apply pool_wf|..].
Qed.

Lemma reachable_sn b s : rtc (istep host env) (Initialize b) s → sn (gstep host env) s.
Proof.
  intros Hreach. assert (starts_none (Sys.threads s)) as Hs.
  { assert (starts_none (Sys.threads (Initialize b))) as H0 by constructor.
    induction Hreach as [|s1 s2 s3 Hstep _ IH]; [done|]. by eapply IH, istep_starts_none. }
  destruct s as [b' ts wg q c]. by eapply gstep_sn; [apply chan_wf|apply pool_wf|..].
Qed.
End termination.

(** ** At rest *)
Section rest.
Context {R : Type} `{RA : RegistryAdapter R} (good : R → Prop) `{RS : !RegistrySafe good}.
Context `{O : MapOrder} (host : Host.t).
Implicit Types (b : Bridge.t R) (p : prog R unit) (s : Sys.t R).

Local Abbreviation resting := (nf (gstep host handled)).

(** Nothing can be started, ended or run. *)
Lemma resting_goroutine s p : resting s → p ∈ goroutines s →
  ¬ finished p ∧ ¬ runs (Sys.bridge s) p.
Proof.
  destruct s as [b ts wg q ch]. unfold goroutines. simpl. intros Hnf Hp.
  apply elem_of_app in Hp as [Hp|Hp].
  - apply list_elem_of_split in Hp as (ts1 & ts2 & ->). split.
    + intros Hf. destruct p as [[]|]; [|done]. apply Hnf. eexists. apply gstep_end.
    + intros [[p' b'] Ha]. apply Hnf. eexists. by apply gstep_section.
  - destruct ch as [| |h]; try (by apply elem_of_nil in Hp). apply list_elem_of_singleton in Hp as ->.
    split.
    + intros Hf. destruct h as [[]|]; [|done]. apply Hnf. eexists. apply gstep_done.
    + intros [[p' b'] Ha]. apply Hnf. eexists. by apply gstep_handle.
Qed.

Lemma resting_spawned s : resting s → Bridge.spawned (Sys.bridge s) = [].
Proof.
  destruct s as [b ts wg q ch]. intros Hnf. simpl. destruct (Bridge.spawned b) as [|g gs] eqn:Hg; [done|].
  destruct Hnf. eexists. apply (gstep_go host handled no_docker [] g gs); [apply no_docker_handled|done].
Qed.

(** One of them ends the process, or they all wait. *)
Lemma exits_or_wait b (ps : list (prog R unit)) : (∀ p, p ∈ ps → exits b p ∨ waits b p) →
  (∃ p, p ∈ ps ∧ exits b p) ∨ ∀ p, p ∈ ps → waits b p.
Proof.
  induction ps as [|p ps IH]; intros Hps; [right; by intros p ?%elem_of_nil|].
  destruct (Hps p) as [He|Hw]; [left|left; exists p; split; [left|done]|].
  destruct IH as [(p' & Hp & He)|IH]; [intros; apply Hps; by right|left; exists p'; split; [by right|done]|].
  right. intros p' [->|Hp]%elem_of_cons; auto.
Qed.

Lemma at_rest s : sys_inv True good s → resting s → idle s ∨ stops True good s.
Proof.
  intros Hok Hnf. pose proof Hok as [Hpool _].
  destruct (exits_or_wait (Sys.bridge s) (goroutines s)) as [He|Hw]; [|by right; left|].
  { intros p Hp. destruct (resting_goroutine s p Hnf Hp).
    destruct (pool_fate True good I _ _ p Hpool Hp) as [?|[?|[?|?]]]; tauto. }
  destruct (Bridge.locked (Sys.bridge s)) eqn:Hl.
  { right. destruct (pool_holder True good _ _ Hpool Hl) as [Hn|(ps1 & p & ps2 & T & Hg & Hp & Ha & _)].
    { right. split; [done|]. split; [apply Hpool|done]. }
    assert (p ∈ goroutines s) as Hin by (rewrite Hg; apply elem_of_app; right; left).
    destruct (resting_goroutine s p Hnf Hin).
    destruct (safe_fate True good I (Some T) _ p (proj1 Hpool) Ha Hp) as [?|[?|[He|[[=] _]]]]; try tauto.
    left. by exists p. }
  left. assert (goroutines s = []) as Hnone.
  { destruct (goroutines s) as [|p ps]; [done|]. destruct (Hw p) as [Hl' _]; [left|congruence]. }
  pose proof (resting_spawned s Hnf) as Hsp. destruct s as [b ts wg q ch]. unfold goroutines in Hnone.
  apply app_eq_nil in Hnone as [Hts Hch]. destruct Hok as [_ Hwg]. simpl in *. subst ts. destruct ch as [| |h]; [|clear Hch|done].
  - subst wg. destruct Hnf. eexists. apply gstep_wait.
  - destruct q as [|msg q]; [done|]. destruct Hnf. eexists.
    apply (gstep_receive host handled no_docker []), no_docker_handled.
Qed.

(** C6: when the registry starts in one of a set of states from which its calls return
    and which they do not leave, and Docker's answers are ones the code can take (IDs
    of twelve characters at least, those in a network mode too; a name for each
    container, a label map if it has an environment, and no entry of that without an
    equals sign): from every state the system reaches, every run of its goroutines
    without new events, ticks and messages is finite, however they are scheduled; and
    where it ends, all the work is done, the messages that waited and the goroutines
    that were still to start included, and the message loop waits with the mutex free;
    or a goroutine ends the process; or the mutex is held for ever and the tables never
    change again. *)
Theorem work_ends r config s : good r →
  rtc (istep host handled) (Initialize (Bridge.init r config)) s →
  sn (gstep host handled) s ∧
  ∀ s', rtc (gstep host handled) s s' → nf (gstep host handled) s' →
    idle s' ∨ (∃ p, p ∈ goroutines s' ∧ exits (Sys.bridge s') p) ∨
    ∀ s'', rtc (istep host handled) s' s'' →
      Bridge.locked (Sys.bridge s'') = true ∧ tables (Sys.bridge s'') = tables (Sys.bridge s').
Proof.
  intros Hr Hreach. split; [by eapply reachable_sn|]. intros s' Hs' Hnf.
  pose proof (reachable_sys_inv host handled True good (λ _, RS) (λ _ _ H, H) (λ _ _ H, H) r config s
    (λ _, Hr) Hreach) as Hok.
  apply (ok_steps good host _ _ Hs') in Hok.
  destruct (at_rest s' Hok Hnf) as [Hi|[He|Ha]]; [by left|by right; left|]. right. right. intros s'' Hs''.
  by apply (abandoned_forever host handled True good (λ _, RS) (λ _ _ H, H) (λ _ _ H, H)).
Qed.
End rest.

Lemma work_ends_witness : sn (@gstep _ _ ascending Fixtures.host handled) LiveRuns.started.
Proof.
  exact (proj1 (@work_ends _ _ (λ _, True) RegistryReturns_safe ascending Fixtures.host Memory.empty
           Fixtures.config LiveRuns.started I LiveRuns.started_reachable)).
Defined.
