(* ===== verification/Convergence.v ===== *)
(** * After a sync message the tables agree with Docker

    What a sync message starts, an [add] for each listed container that is not
    tracked and a [RemoveOnExit] for each tracked one that is gone, runs in
    goroutines that interleave. Each works on the entries of one container only.
    [owns] says so of a goroutine, section by section, and says what it makes of
    them; from it follows what the tables hold when all have run. *)
From stdpp Require Import relations.
From S2P Require Import Prelude GoStrings Types Metadata ServiceId NewService Fixtures.
From S2P Require Import Bridge BridgeLemmas BridgeInv BridgeProps ServiceSync SyncLemmas SyncProps System.
From S2P Require Import Threads Concurrency Sections Interleavings Liveness Termination.

(** ** The entries of one container *)
Definition view : Type := option (list Service.t) * option DeadContainer.t.

Definition view_of {R} (id : string) (b : Bridge.t R) : view :=
  (Bridge.services b !! id, Bridge.deadContainers b !! id).

(** The services an [add] of the container would make. *)
Definition planned `{O : MapOrder} (host : Host.t) (config : Config.t) (docker : DockerClient.t)
    (quiet : bool) (newIP id : string) : list Service.t :=
  match DockerClient.InspectContainer docker id with
  | inl container =>
      match add_plan host config docker container quiet newIP with Ok made => made | _ => [] end
  | inr _ => []
  end.

(** A container that the code can take has a plan. *)
Lemma make_services_returns `{O : MapOrder} host config docker isGroup c ports :
  container_handled c → is_Ok (make_services host config docker isGroup c ports) = true.
Proof.
  revert c. induction ports as [|[k port] ports IH]; intros c [Hl Hi]; [done|].
  cbn [make_services]. unfold mbind, outcome_bind.
  destruct (newService_returns config host docker c port isGroup Hi) as (c' & o & Hn).
  rewrite Hn. assert (container_handled c') as Hc'.
  { split; [|by eapply newService_inspectable]. by rewrite (newService_container _ _ _ _ _ _ _ _ Hn). }
  specialize (IH c' Hc'). by destruct (make_services _ _ _ _ _ _).
Qed.

Lemma add_plan_returns `{O : MapOrder} host config docker c quiet newIP : container_handled c →
  ∃ made, add_plan host config docker c quiet newIP = Ok made.
Proof.
  intros Hc. unfold add_plan, mbind, outcome_bind.
  pose proof (select_ports_returns (Config.Internal config) quiet c (container_ports c newIP) Hc) as Hs.
  destruct (select_ports _ _ _ _) as [ports| | |]; try done.
  pose proof (make_services_returns host config docker (bool_decide (1 < size ports)) c (range ports) Hc).
  destruct (make_services _ _ _ _ _ _) as [made| | |]; try done. by exists made.
Qed.

Section owns.
Context {R : Type} `{RA : RegistryAdapter R} `{O : MapOrder} (host : Host.t).
Context `{RR : !RegistryReturns R} (config : Config.t) (id : string).
Implicit Types (b : Bridge.t R) (h : bool) (v : view).

(** What a section that starts with [h], and ends with [h'], does to the mutex; [h]
    says whether the goroutine holds it. *)
Definition grip h h' b b' : Prop :=
  Bridge.locked b' = (if h' then true else if h then false else Bridge.locked b) ∧
  (h = false → h' = true → Bridge.locked b = false).

(** The entries of the other containers, and the configuration, are the same. *)
Definition elsewhere b b' : Prop :=
  Bridge.config b' = Bridge.config b ∧ ∀ k, k ≠ id → view_of k b' = view_of k b.

(** What a goroutine that owns the entries may rely on. *)
Definition at_view h v b : Prop :=
  Bridge.config b = config ∧ view_of id b = v ∧ (h = true → Bridge.locked b = true).

(** Every section returns, or waits for a mutex that another goroutine holds, and
    leaves the entries of other containers alone. *)
Fixpoint owns {A} h v (p : prog R A) (Q : bool → view → A → Prop) : Prop :=
  match p with
  | Ret a => Q h v a
  | Atom m k => ∀ b, at_view h v b →
      match m b with
      | (Ok x, b') => ∃ h', grip h h' b b' ∧ elsewhere b b' ∧ owns h' (view_of id b') (k x) Q
      | (Blocked, _) => h = false ∧ Bridge.locked b = true
      | _ => False
      end
  end.

Lemma owns_bind {A B} h v (p : prog R A) (f : A → prog R B) P Q :
  owns h v p P → (∀ h v a, P h v a → owns h v (f a) Q) → owns h v (p ≫= f) Q.
Proof.
  intros Hp Hf. revert h v Hp. induction p as [a|X m k IH]; intros h v Hp; [by apply Hf|].
  intros b Hb. specialize (Hp b Hb). destruct (m b) as [[x| | |] b']; try done.
  destruct Hp as (h' & Hg & He & Hk). exists h'. split; [done|]. split; [done|]. by apply IH.
Qed.

Lemma owns_seq {A B} h v (p : prog R A) (f : A → prog R B) Q :
  owns h v p (λ h v a, owns h v (f a) Q) → owns h v (p ≫= f) Q.
Proof. intros Hp. by eapply owns_bind. Qed.

Lemma owns_weaken {A} h v (p : prog R A) (P Q : bool → view → A → Prop) :
  owns h v p P → (∀ h v a, P h v a → Q h v a) → owns h v p Q.
Proof.
  intros Hp Hq. revert h v Hp. induction p as [a|X m k IH]; intros h v Hp; [by apply Hq|].
  intros b Hb. specialize (Hp b Hb). destruct (m b) as [[x| | |] b']; try done.
  destruct Hp as (h' & Hg & He & Hk). exists h'. split; [done|]. split; [done|]. by apply IH.
Qed.

(** *** Sections *)
(** A section that touches neither the tables nor the mutex. *)
Lemma owns_still {A} h v (m : GoM (Bridge.t R) A) (Q : bool → view → A → Prop) :
  (∀ b, at_view h v b → ∃ x b', m b = (Ok x, b') ∧ Bridge.locked b' = Bridge.locked b ∧
     tables b' = tables b ∧ Q h v x) →
  owns h v (atomic m) Q.
Proof.
  intros Hm b Hb. destruct (Hm b Hb) as (x & b' & -> & Hl & [= Hs Hd Hc] & HQ).
  assert (∀ k, view_of k b' = view_of k b) as Hv by (intros; unfold view_of; congruence).
  exists h. split; [|split; [by split|]].
  - destruct Hb as (_ & _ & Hh). split; [|by destruct h]. rewrite Hl. destruct h; [by apply Hh|done].
  - rewrite Hv. by destruct Hb as (_ & -> & _).
Qed.

(** A section that takes the mutex and gives it back. *)
Lemma owns_locked {A} v (m : GoM (Bridge.t R) A) (Q : bool → view → A → Prop) :
  (∀ b, Bridge.locked b = true → m b = (Blocked, b)) →
  (∀ b, at_view false v b → Bridge.locked b = false → ∃ x b', m b = (Ok x, b') ∧
     Bridge.locked b' = false ∧ elsewhere b b' ∧ Q false (view_of id b') x) →
  owns false v (atomic m) Q.
Proof.
  intros Hblocked Hm b Hb. destruct (Bridge.locked b) eqn:Hl; [by rewrite Hblocked|].
  destruct (Hm b Hb Hl) as (x & b' & -> & Hl' & He & HQ). exists false. split; [|done].
  split; [by rewrite Hl, Hl'|done].
Qed.

(** An update with the mutex held. *)
Lemma owns_modify v f (Q : bool → view → unit → Prop) :
  (∀ b, at_view true v b → Bridge.locked (f b) = Bridge.locked b ∧ elsewhere b (f b) ∧
     Q true (view_of id (f b)) ()) →
  owns true v (atomic (modify f)) Q.
Proof.
  intros Hf b Hb. destruct (Hf b Hb) as (Hl & He & HQ). exists true. split; [|done].
  split; [|done]. simpl. rewrite Hl. by apply Hb.
Qed.

Lemma owns_get h v (Q : bool → view → Bridge.t R → Prop) :
  (∀ b, at_view h v b → Q h v b) → owns h v (atomic get_state) Q.
Proof. intros HQ. apply owns_still. intros b Hb. exists b, b. split_and!; auto. Qed.

Lemma owns_pure {A} h v (o : outcome A) a (Q : bool → view → A → Prop) :
  o = Ok a → Q h v a → owns h v (pure_code o) Q.
Proof. intros -> HQ. apply owns_still. intros b _. by exists a, b. Qed.

Lemma owns_log h v k (Q : bool → view → unit → Prop) : long k → Q h v () → owns h v (log_id_t k) Q.
Proof.
  intros Hk HQ. apply owns_still. intros b _. exists (), b. by rewrite log_id_run, log_outcome_Ok.
Qed.

Lemma owns_call {A} h v (op : GoM R A) note (Q : bool → view → A → Prop) :
  (∀ r, is_Ok (op r).1 = true) → (∀ a r, (op r).1 = Ok a → Q h v a) →
  owns h v (atomic (registry_call op note)) Q.
Proof.
  intros Hop HQ. apply owns_still. intros b _.
  destruct (registry_call_run op note b (Hop _)) as (a & r & Hr & Hrun). exists a. eexists.
  split; [exact Hrun|]. do 2 (split; [done|]). apply (HQ _ (Bridge.registry b)). by rewrite Hr.
Qed.

Lemma owns_Lock v (Q : bool → view → unit → Prop) : Q true v () → owns false v (atomic Lock) Q.
Proof.
  intros HQ b (Hc & Hv & _). unfold Lock. destruct (Bridge.locked b) eqn:Hl; [done|]. exists true.
  split; [by split|]. split; [done|]. simpl. change (view_of id _) with (view_of id b). by rewrite Hv.
Qed.

Lemma owns_Unlock v (Q : bool → view → unit → Prop) : Q false v () → owns true v (atomic Unlock) Q.
Proof.
  intros HQ b (Hc & Hv & Hl). unfold Unlock. rewrite Hl by done. exists false.
  split; [by split|]. split; [done|]. simpl. change (view_of id _) with (view_of id b). by rewrite Hv.
Qed.

Lemma owns_each {A} h v (body : A → prog R unit) xs :
  (∀ x, owns h v (body x) (λ h' v' _, h' = h ∧ v' = v)) →
  owns h v (each body xs) (λ h' v' _, h' = h ∧ v' = v).
Proof.
  intros Hb. induction xs as [|x xs IH]; [done|]. eapply owns_bind; [apply Hb|]. by intros ? ? _ [-> ->].
Qed.

(** *** The goroutines *)
Context (Haccept : ∀ s r, (Register (R := R) s r).1 = Ok None).

(** Tracked from the first service on. *)
Lemma owns_append v s (Q : bool → view → unit → Prop) : long id →
  (∀ v', is_Some v'.1 → Q false v' ()) → owns false v (atomic (appendService id s)) Q.
Proof using.
  intros Hid HQ. apply owns_locked; [intros; by apply with_lock_blocked|]. intros b _ Hl.
  rewrite appendService_run, log_outcome_Ok by done. exists (). eexists. split; [done|]. split; [done|].
  unfold track. split; [split; [done|]|apply HQ]; simpl; case_decide as Hd.
  - intros k Hk. unfold view_of. simpl. by rewrite lookup_insert_ne.
  - done.
  - by rewrite lookup_insert_eq.
  - destruct (Bridge.services b !! id); [by eexists|done].
Qed.

Lemma owns_register_ports docker quiet isGroup container ports made v :
  long id → Container.ID container = id →
  make_services host config docker isGroup container ports = Ok made →
  owns false v (register_ports_t host docker quiet isGroup container ports)
    (λ h v' _, h = false ∧ (is_Some v'.1 ↔ is_Some v.1 ∨ made ≠ [])).
Proof using RR Haccept.
  intros Hid. revert container made v.
  induction ports as [|[k port] ports IH]; intros container made v Hc Hmade.
  { injection Hmade as <-. split; [done|]. naive_solver. }
  cbn [make_services] in Hmade. unfold mbind, outcome_bind in Hmade.
  destruct (newService _ _ _ _ _ _) as [[c' o]| | |] eqn:Hnew; try done.
  destruct (make_services _ _ _ _ _ _) as [rest| | |] eqn:Hrest; try done.
  injection Hmade as <-. pose proof (newService_container _ _ _ _ _ _ _ _ Hnew) as Hc'.
  rewrite Hc in Hc'. cbn [register_ports_t].
  apply owns_seq, owns_get. intros b [-> _]. eapply owns_seq, owns_pure; [exact Hnew|]. cbv beta iota.
  apply owns_bind with (λ h v' _, h = false ∧ (is_Some v'.1 ↔ is_Some v.1 ∨ option_list o ≠ [])).
  - destruct o as [s|]; [|destruct quiet; [|apply owns_log; [by rewrite Hc'|]]; naive_solver].
    apply owns_seq, owns_call; [intros r; by rewrite Haccept|]. intros e r. rewrite Haccept. intros [= <-].
    rewrite Hc'. apply owns_append; [done|]. intros v' Hv'. split; [done|]. naive_solver.
  - intros h v1 _ [-> Hv1]. eapply owns_weaken; [by apply (IH c' rest v1)|].
    intros h v' _ [-> Hv']. split; [done|]. rewrite Hv', Hv1.
    destruct o; simpl; naive_solver.
Qed.

Lemma owns_add_inspected docker container quiet newIP made :
  long id → Container.ID container = id →
  add_plan host config docker container quiet newIP = Ok made →
  owns false (None, None) (add_inspected_t host docker container quiet newIP)
    (λ h v' _, h = false ∧ (is_Some v'.1 ↔ made ≠ [])).
Proof using RR Haccept.
  intros Hid Hc Hplan. unfold add_plan, mbind, outcome_bind in Hplan. unfold add_inspected_t.
  case_decide as Hn.
  - destruct Hn as [Hsize _]. apply map_size_empty_iff in Hsize. rewrite Hsize in Hplan.
    rewrite select_ports_empty in Hplan. simpl in Hplan. rewrite range_empty in Hplan.
    injection Hplan as <-. apply owns_log; [by rewrite Hc|]. split; [done|]. naive_solver.
  - destruct (select_ports _ _ _ _) as [ports| | |] eqn:Hports; try done.
    apply owns_seq, owns_get. intros b [-> _]. eapply owns_seq, owns_pure; [exact Hports|].
    eapply owns_weaken; [by apply owns_register_ports|].
    intros h v _ [-> Hv]. split; [done|]. rewrite Hv. naive_solver.
Qed.

Lemma owns_add docker quiet newIP : docker_handled docker → long id →
  (∀ c, DockerClient.InspectContainer docker id = inl c → Container.ID c = id) →
  owns false (None, None) (add_t host docker id quiet newIP)
    (λ h v _, h = false ∧ (is_Some v.1 ↔ planned host config docker quiet newIP id ≠ [])).
Proof using RR Haccept.
  intros [Hdocker _] Hid Hnamed. apply owns_bind with (λ h v _, h = false ∧ v = (None, None)).
  { apply owns_locked; [intros; by apply with_lock_blocked|]. intros b (Hc & Hv & _) Hl.
    pose proof Hv as [= Hs Hd]. rewrite deleteDeadContainer_run, Hd by done. by exists (), b. }
  intros h v _ [-> ->]. apply owns_bind with (λ h v a, h = false ∧ v = (None, None) ∧ a = false).
  { apply owns_locked.
    - intros b Hl. unfold check_known. apply GoM_bind_Blocked. unfold Lock. by rewrite Hl.
    - intros b (Hc & Hv & _) Hl. pose proof Hv as [= Hs Hd]. exists false, (Bridge.set_locked false b).
      split; [|done]. unfold check_known.
      rewrite (GoM_bind_Ok _ _ _ () (Bridge.set_locked true b)) by (unfold Lock; by rewrite Hl).
      erewrite (GoM_bind_Ok get_state) by reflexivity. unfold services_of. simpl. rewrite Hs. done. }
  intros h v a (-> & -> & ->). cbv iota. unfold planned.
  destruct (DockerClient.InspectContainer docker id) as [c|e] eqn:Hi.
  - destruct (add_plan_returns host config docker c quiet newIP) as [made Hmade]; [by apply (Hdocker id)|].
    rewrite Hmade. apply owns_add_inspected; auto.
  - apply owns_log; [done|]. split; [done|]. naive_solver.
Qed.

Lemma owns_shouldRemove h v docker : long id →
  owns h v (atomic (shouldRemove (R := R) docker id)) (λ h' v' _, h' = h ∧ v' = v).
Proof using.
  intros Hid. apply owns_still. intros b _. unfold shouldRemove.
  erewrite (GoM_bind_Ok get_state) by reflexivity. case_decide; [by exists true, b|].
  destruct (DockerClient.InspectContainer docker id) as [c|[|msg]]; repeat case_match;
    try (by eexists _, b);
    (erewrite GoM_bind_Ok by (rewrite log_id_run, log_outcome_Ok by done; reflexivity));
    by eexists _, b.
Qed.

Lemma owns_deregisterAll h v ss :
  owns h v (deregisterAll_t (R := R) ss) (λ h' v' _, h' = h ∧ v' = v).
Proof using RR.
  apply owns_each. intros s. eapply owns_bind; [apply (owns_call _ _ _ _ (λ h' v' _, h' = h ∧ v' = v))|].
  - intros r. apply Deregister_returns.
  - done.
  - done.
Qed.

Lemma owns_remove docker v : long id →
  owns false v (RemoveOnExit_t (R := R) docker id) (λ h v' _, h = false ∧ v'.1 = None).
Proof using RR.
  intros Hid. eapply owns_bind; [by apply owns_shouldRemove|]. intros h v0 dereg [-> ->].
  apply owns_bind with (λ h _ _, h = true); [by apply owns_Lock|]. intros h v1 _ ->.
  apply owns_bind with (λ h v _, h = true ∧ v.1 = None);
    [|intros h v2 _ [-> Hv2]; by apply owns_Unlock].
  apply owns_bind with (λ h v _, h = true); [by apply owns_get|]. intros h v2 b ->.
  apply owns_bind with (λ h v _, h = true).
  - destruct dereg.
    + eapply owns_bind; [apply owns_deregisterAll|]. intros h v3 _ [-> ->].
      destruct (Bridge.deadContainers b !! id) as [d|]; [|done].
      eapply owns_bind; [apply owns_deregisterAll|]. intros h v3 _ [-> ->].
      apply owns_modify. intros b' _. split; [done|]. split; [split; [done|]|done].
      intros k Hk. unfold view_of. simpl. by rewrite lookup_delete_ne.
    + case_decide; [|done]. apply owns_modify. intros b' _. split; [done|]. split; [split; [done|]|done].
      intros k Hk. unfold view_of. simpl. by rewrite lookup_insert_ne.
  - intros h v3 _ ->. apply owns_modify. intros b' _. split; [done|].
    split; [split; [done|]|simpl; by rewrite lookup_delete_eq].
    intros k Hk. unfold view_of. simpl. by rewrite lookup_delete_ne.
Qed.
End owns.

(** ** All of them together *)
Section settling.
Context {R : Type} `{RA : RegistryAdapter R} `{O : MapOrder} (host : Host.t).
Context (config : Config.t) (docker : DockerClient.t) (goal : string → view → Prop).
Implicit Types (b : Bridge.t R) (p : prog R unit) (s : Sys.t R).

(** Docker answers the same all the time. *)
Definition steadily : Env.t := Env.mk (λ d, d = docker) (λ _, True).

Local Notation "s ⇝ s'" := (gstep host steadily s s') (at level 70).

(** The goroutine works on the entries of [id], and leaves them as they should be. *)
Definition settles id h b p : Prop :=
  owns config id h (view_of id b) p (λ h v _, h = false ∧ goal id v).

Definition holders (owners : list (string * bool)) : nat :=
  sum_list_with (λ o, Nat.b2n o.2) owners.

Definition goroutine_t g : prog R unit := operation_t host (goroutine_op docker g).

(** Each goroutine, and each still to be started, owns a container of its own; the
    entries of all other containers are as they should be. *)
Definition owned_by (owners : list (string * bool)) b (ts : list (prog R unit)) : Prop :=
  let waiting := Bridge.spawned b in
  Bridge.config b = config ∧ holders owners = Nat.b2n (Bridge.locked b) ∧
  NoDup (owners.*1 ++ map goroutine_id waiting) ∧
  Forall2 (λ o p, settles o.1 o.2 b p) owners ts ∧
  Forall (λ g, settles (goroutine_id g) false b (goroutine_t g)) waiting ∧
  ∀ id, id ∉ owners.*1 ++ map goroutine_id waiting → goal id (view_of id b).

Definition settling s : Prop :=
  starts_none (Sys.threads s) ∧ (∃ owners, owned_by owners (Sys.bridge s) (Sys.threads s)) ∧
  Sys.senders s = [] ∧
  match Sys.chan s with ChWait => Sys.wg s = 0%Z | ChReceive => True | ChHandle _ => False end.

Lemma settles_elsewhere id k h b b' p : elsewhere id b b' → k ≠ id → settles k h b p → settles k h b' p.
Proof. intros [_ Hv] Hk. unfold settles. by rewrite Hv. Qed.

Lemma settle_others id owners b b' ts : elsewhere id b b' → id ∉ owners.*1 →
  Forall2 (λ o p, settles o.1 o.2 b p) owners ts → Forall2 (λ o p, settles o.1 o.2 b' p) owners ts.
Proof.
  intros He Hid. induction 1 as [|o p owners ts Ho _ IH]; [constructor|].
  apply not_elem_of_cons in Hid as [Hne Hid]. constructor; [|by apply IH].
  by eapply settles_elsewhere.
Qed.

Lemma owner_view os1 id h os2 b : Bridge.config b = config →
  holders (os1 ++ (id, h) :: os2) = Nat.b2n (Bridge.locked b) → at_view config id h (view_of id b) b.
Proof.
  unfold holders. rewrite sum_list_with_app. simpl. intros Hc Hh. split; [done|]. split; [done|].
  intros ->. destruct (Bridge.locked b); simpl in Hh; [done|lia].
Qed.

(** One goroutine runs a section. *)
Lemma owned_by_section owners b ts1 p ts2 p' b' :
  Bridge.spawned b' = Bridge.spawned b → advance p b = Some (p', b') →
  owned_by owners b (ts1 ++ p :: ts2) → ∃ owners', owned_by owners' b' (ts1 ++ p' :: ts2).
Proof.
  intros Hsp Ha (Hc & Hh & Hnd & Hts & Hgs & Hrest).
  apply Forall2_app_inv_r in Hts as (os1 & os & Hts1 & Hts & ->).
  apply Forall2_cons_inv_r in Hts as ([id h] & os2 & Hp & Hts2 & ->). simpl in *.
  rewrite fmap_app, fmap_cons in Hnd, Hrest. simpl in *.
  assert ((os1.*1 ++ id :: os2.*1) ++ map goroutine_id (Bridge.spawned b) ≡ₚ
    id :: os1.*1 ++ os2.*1 ++ map goroutine_id (Bridge.spawned b)) as Hperm
    by (rewrite <- (assoc_L app); simpl; by rewrite <- Permutation_middle).
  pose proof Hnd as Hnd'. rewrite Hperm in Hnd'. apply NoDup_cons in Hnd' as [Hid _].
  destruct p as [|X m k]; [done|]. simpl in Ha, Hp. specialize (Hp b (owner_view _ _ _ _ _ Hc Hh)).
  unfold holders in *. rewrite sum_list_with_app in Hh. simpl in Hh. destruct (m b) as [[x| | |] b1]; try done. injection Ha as <- <-.
  destruct Hp as (h' & [Hl Hl'] & He & Hp). exists (os1 ++ (id, h') :: os2).
  unfold owned_by, holders. rewrite Hsp, fmap_app, fmap_cons, sum_list_with_app. simpl.
  rewrite !not_elem_of_app in Hid. destruct Hid as (Hid1 & Hid2 & Hidg).
  split; [by rewrite (proj1 He)|]. split.
  { destruct h, h'; rewrite Hl; simpl in *; destruct (Bridge.locked b); simpl in *; try lia. }
  split; [done|]. split.
  { apply Forall2_app; [by eapply settle_others|]. constructor; [done|]. by eapply settle_others. }
  split.
  - apply Forall_forall. intros g Hg. rewrite Forall_forall in Hgs.
    eapply settles_elsewhere; [done| |by apply Hgs].
    intros <-. apply Hidg, list_elem_of_fmap. by exists g.
  - intros j Hj. destruct He as [_ Hv]. rewrite Hv; [by apply Hrest|]. intros ->. apply Hj. set_solver.
Qed.

(** A waiting one is started. *)
Lemma owned_by_go owners b ts gs1 g gs2 : Bridge.spawned b = gs1 ++ g :: gs2 →
  owned_by owners b ts →
  owned_by (owners ++ [(goroutine_id g, false)]) (set_spawned (gs1 ++ gs2) b) (ts ++ [goroutine_t g]).
Proof.
  intros Hg (Hc & Hh & Hnd & Hts & Hgs & Hrest). rewrite Hg in Hnd, Hgs, Hrest.
  assert ((owners ++ [(goroutine_id g, false)]).*1 ++ map goroutine_id (gs1 ++ gs2) ≡ₚ
    owners.*1 ++ map goroutine_id (gs1 ++ g :: gs2)) as Hperm.
  { rewrite fmap_app, <- (assoc_L app), !map_app. apply Permutation_app_head.
    exact (Permutation_middle (map goroutine_id gs1) _ _). }
  apply Forall_app in Hgs as [Hgs1 Hgs2]. apply Forall_cons in Hgs2 as [Hp Hgs2].
  unfold owned_by, holders in *. simpl. rewrite sum_list_with_app, Hperm. simpl.
  split; [done|]. split; [lia|]. split; [done|]. split; [by apply Forall2_app; [|repeat constructor]|].
  split; [by apply Forall_app|]. intros id Hid. apply Hrest. by rewrite <- Hperm.
Qed.

(** One ends. *)
Lemma owned_by_end owners b ts1 ts2 : owned_by owners b (ts1 ++ Ret () :: ts2) →
  ∃ owners', owned_by owners' b (ts1 ++ ts2).
Proof.
  intros (Hc & Hh & Hnd & Hts & Hgs & Hrest).
  apply Forall2_app_inv_r in Hts as (os1 & os & Hts1 & Hts & ->).
  apply Forall2_cons_inv_r in Hts as ([id h] & os2 & [Hf Hgoal] & Hts2 & ->). simpl in *. subst h.
  exists (os1 ++ os2). rewrite fmap_app, fmap_cons in Hnd, Hrest.
  unfold owned_by, holders in *. rewrite sum_list_with_app in Hh |- *. simpl in *.
  rewrite fmap_app. rewrite <- (assoc_L app) in Hnd, Hrest |- *. simpl in *.
  rewrite <- Permutation_middle in Hnd. apply NoDup_cons in Hnd as [_ Hnd].
  split; [done|]. split; [done|]. split; [done|]. split; [by apply Forall2_app|]. split; [done|].
  intros k Hk. destruct (decide (k = id)) as [->|Hne]; [done|]. apply Hrest. set_solver.
Qed.

Lemma settling_step s s' : s ⇝ s' → settling s → settling s'.
Proof.
  intros Hstep (Hsn & (owners & Hown) & Hq & Hch). split; [by eapply gstep_starts_none|].
  destruct Hstep as [d gs1 g gs2 b ts w q c Hd Hg|ts1 p ts2 b p' b' w q c Ha
    |ts1 ts2 b w q c|b ts q|d q1 msg q2 b ts w Hd|p b p' b' ts w q Ha|b ts w q]; simpl in *; try done.
  - subst d. split; [|done]. eexists. by apply owned_by_go.
  - split; [|done]. eapply owned_by_section; [|done..].
    apply Forall_app in Hsn as [_ Hsn]. apply Forall_cons in Hsn as [Hp _]. by eapply leaving_advance.
  - split; [|done]. by eapply owned_by_end.
  - split; [by exists owners|done].
  - by destruct q1.
Qed.

(** Where none can go on, all have ended. *)
Lemma settled s : settling s → nf (gstep host steadily) s →
  idle s ∧ ∀ id, goal id (view_of id (Sys.bridge s)).
Proof.
  destruct s as [b ts w q c]. intros (_ & (owners & Hc & Hh & _ & Hts & _ & Hrest) & Hq & Hch) Hnf.
  simpl in *. subst q.
  assert (Bridge.spawned b = []) as Hsp.
  { destruct (Bridge.spawned b) as [|g gs] eqn:Hg; [done|]. destruct Hnf. eexists.
    by apply (gstep_go host steadily docker [] g gs). }
  assert (Forall (λ o, o.2 = false ∧ Bridge.locked b = true) owners) as Hwait.
  { apply Forall_forall. intros [id h] Ho. simpl.
    apply list_elem_of_split in Ho as (os1 & os2 & ->).
    apply Forall2_app_inv_l in Hts as (ts1 & ts0 & _ & Hts & ->).
    apply Forall2_cons_inv_l in Hts as (p & ts2 & Hp & _ & ->). simpl in Hp.
    destruct p as [[]|X m k]; [destruct Hnf; eexists; apply gstep_end|].
    specialize (Hp b (owner_view _ _ _ _ _ Hc Hh)). destruct (m b) as [[x| | |] b'] eqn:Hm; try done.
    destruct Hnf. eexists. apply (gstep_section host steadily ts1 (Atom m k) ts2 b (k x) b').
    simpl. by rewrite Hm. }
  assert (holders owners = 0) as Hnone.
  { clear -Hwait. unfold holders. induction Hwait as [|[id h] os [Hf _] _ IH]; [done|]. simpl in *. by subst h. }
  rewrite Hnone in Hh. destruct (Bridge.locked b) eqn:Hl; [done|].
  destruct owners as [|o owners]; [|by inversion Hwait as [|? ? [_ ?]]].
  apply Forall2_nil_inv_l in Hts as ->. rewrite Hsp in Hrest. simpl in Hrest.
  split; [|intros id; apply Hrest, not_elem_of_nil]. split; [done|]. split; [done|]. split; [|done].
  destruct c as [| |p]; simpl; [subst w; destruct Hnf; eexists; apply gstep_wait|done..].
Qed.

Lemma settling_converges b : (∃ owners, owned_by owners b []) →
  sn (gstep host steadily) (Initialize b) ∧
  ∀ s, rtc (gstep host steadily) (Initialize b) s → nf (gstep host steadily) s →
    idle s ∧ ∀ id, goal id (view_of id (Sys.bridge s)).
Proof.
  intros Hb. split; [by eapply reachable_sn; apply rtc_refl|]. intros s Hs. apply settled.
  assert (settling (Initialize b)) as H0 by (split; [constructor|done]). revert H0.
  induction Hs as [|s1 s2 s3 Hstep _ IH]; [done|]. intros H. by eapply IH, settling_step.
Qed.
End settling.

(** ** What a sync message leads to *)
Section converges.
Context {R : Type} `{RA : RegistryAdapter R} `{RR : !RegistryReturns R} `{O : MapOrder}.
Context (host : Host.t).
Implicit Types (b : Bridge.t R) (id : string).

(** Docker lists these containers, and these as alive, and inspects each under the ID
    it is listed with; and its answers are ones the code can take. *)
Definition lists docker containers running : Prop :=
  docker_handled docker ∧ NoDup containers ∧
  DockerClient.ListContainers docker NoFilters = inl containers ∧
  DockerClient.ListContainers docker StatusFilters = inl running ∧
  ∀ id c, DockerClient.InspectContainer docker id = inl c → Container.ID c = id.

(** Between two messages, with no listed container among the dead ones. *)
Definition at_leisure (containers : list string) b : Prop :=
  bridge_inv b ∧ Bridge.locked b = false ∧ Bridge.spawned b = [] ∧
  map_Forall (λ id _, long id) (Bridge.services b) ∧
  ∀ id, id ∈ containers → Bridge.services b !! id = None → Bridge.deadContainers b !! id = None.

(** The containers that are tracked when the work is done: those tracked before,
    unless cleanup is on and Docker does not list them as alive; and those listed
    for which there is a service to register. *)
Definition should_track docker quiet newIP (containers running : list string) b id : Prop :=
  (is_Some (Bridge.services b !! id) ∧ (Config.Cleanup (Bridge.config b) = true → id ∈ running)) ∨
  (Bridge.services b !! id = None ∧ id ∈ containers ∧
   planned host (Bridge.config b) docker quiet newIP id ≠ []).

Lemma untracked_None b id : bridge_inv b → services_of b id = [] → Bridge.services b !! id = None.
Proof.
  intros [Hs _] Hid. unfold services_of in Hid. destruct (Bridge.services b !! id) as [ss|] eqn:He; [|done].
  destruct (Hs id ss He) as (s & -> & _). done.
Qed.

Lemma resynced_tracked newIP b b' id : resynced newIP b b' →
  is_Some (Bridge.services b' !! id) ↔ is_Some (Bridge.services b !! id).
Proof.
  intros (_ & _ & _ & Hs). specialize (Hs id). rewrite !is_Some_alt.
  by destruct (Bridge.services b !! id), (Bridge.services b' !! id); inversion Hs.
Qed.

Lemma sync_owned docker quiet newIP containers running stale b b' :
  (∀ s r, (Register (R := R) s r).1 = Ok None) → lists docker containers running →
  at_leisure containers b → Bridge.locked b' = false →
  Bridge.deadContainers b' = Bridge.deadContainers b → Bridge.config b' = Bridge.config b →
  (∀ id, is_Some (Bridge.services b' !! id) ↔ is_Some (Bridge.services b !! id)) →
  stale ≡ₚ (if Config.Cleanup (Bridge.config b)
            then filter (.∉ running) (map_to_list (Bridge.services b)).*1 else []) →
  Bridge.spawned b' = map (λ id, GoAdd id quiet newIP) (filter (λ id, services_of b id = []) containers) ++
      map GoRemoveOnExit stale →
  owned_by host (Bridge.config b) docker
    (λ id v, is_Some v.1 ↔ should_track docker quiet newIP containers running b id) [] b' [].
Proof.
  intros Hacc (Hd & Hnd & Hlist & _ & Hnamed) (Hinv & _ & _ & Hlong & Hdead) Hl Hdead' Hc Htr Hstale Hsp.
  assert (∀ id, id ∈ stale ↔
    Config.Cleanup (Bridge.config b) = true ∧ (id ∉ running) ∧ is_Some (Bridge.services b !! id)) as Hst.
  { intros id. rewrite Hstale. destruct (Config.Cleanup (Bridge.config b)); [|set_solver].
    rewrite list_elem_of_filter, list_elem_of_fmap. split.
    - intros [Hr ([k ss] & -> & Hk%elem_of_map_to_list)]. by split_and!; [| |eexists].
    - intros (_ & Hr & ss & Hss). split; [done|]. exists (id, ss). by rewrite elem_of_map_to_list. }
  assert (∀ id, id ∈ filter (λ id, services_of b id = []) containers ↔
    Bridge.services b !! id = None ∧ id ∈ containers) as Hadd.
  { intros id. rewrite list_elem_of_filter. split; intros [Hs Hin]; (split; [|done]).
    - by apply untracked_None.
    - unfold services_of. by rewrite Hs. }
  assert (map goroutine_id (Bridge.spawned b') =
    filter (λ id, services_of b id = []) containers ++ stale) as Hids.
  { rewrite Hsp, map_app, !map_map. simpl. by rewrite !map_id. }
  unfold owned_by. rewrite Hids. simpl. rewrite Hl. split; [done|]. split; [done|]. split.
  { apply NoDup_app. split; [by apply NoDup_filter|]. split.
    - intros id [Hn _]%Hadd (_ & _ & [? ?])%Hst. congruence.
    - rewrite Hstale. case_match; [|constructor]. apply NoDup_filter, NoDup_fst_map_to_list. }
  split; [constructor|]. split.
  - rewrite Hsp. apply Forall_app. rewrite !Forall_map.
    split; apply Forall_forall; intros id Hid; unfold settles, goroutine_t;
      cbn [goroutine_op operation_t goroutine_id].
    + apply Hadd in Hid as [Hn Hin].
      replace (view_of id b') with (@None (list Service.t), @None DeadContainer.t).
      2: { unfold view_of. rewrite Hdead', (Hdead id Hin Hn). f_equal. symmetry.
           apply eq_None_not_Some. rewrite Htr, Hn. by intros [? ?]. }
      assert (long id) as Hid.
      { destruct Hd as [_ Hd]. specialize (Hd _ _ Hlist). rewrite Forall_forall in Hd. by apply Hd. }
      eapply owns_weaken; [apply owns_add; auto|].
      intros h v _ [-> Hv]. split; [done|]. rewrite Hv. unfold should_track. rewrite Hn.
      split; [by right|]. intros [[[? ?] _]|(_ & _ & ?)]; done.
    + apply Hst in Hid as (Hcl & Hr & ss & Hss). eapply owns_weaken; [apply owns_remove; by eapply Hlong|].
      intros h v _ [-> Hv]. split; [done|]. rewrite Hv. unfold should_track. rewrite Hss, Hcl.
      split; [by intros [? ?]|]. intros [[_ Hx]|[? _]]; [destruct Hr; by apply Hx|done].
  - intros id [Hna Hns]%not_elem_of_app. simpl. rewrite Htr. unfold should_track. split.
    + intros Ht. left. split; [done|]. intros Hcl. destruct (decide (id ∈ running)); [done|].
      destruct Hns. by apply Hst.
    + intros [[Ht _]|(Hn & Hin & _)]; [done|]. destruct Hna. by apply Hadd.
Qed.

(** C4: the tables converge. When a sync message has been handled, and the [add]s and
    [RemoveOnExit]s it started run, they end in every order and interleaving, with
    the mutex free and nothing left to do; and then a container is tracked exactly
    when it was tracked and, with cleanup, Docker lists it as alive, or when Docker
    lists it and there is a service to register for it. Docker answers the same
    throughout, and its answers are ones the code can take: IDs of twelve characters at
    least, those in a network mode too, a name for each container, a label map if it
    has an environment, and no entry of that without an equals sign, on which [add]
    would panic; the registry's calls return and it accepts every registration; and
    no listed container is among the dead ones, for which [add] keeps the mutex. *)
Theorem sync_converges docker quiet newIP containers running b :
  (∀ s r, (Register (R := R) s r).1 = Ok None) → lists docker containers running →
  at_leisure containers b →
  ∃ b', handle_sync host docker (SyncMessage.mk quiet newIP) b = (Ok (), b') ∧
    sn (gstep host (steadily docker)) (Initialize b') ∧
    ∀ s, rtc (gstep host (steadily docker)) (Initialize b') s → nf (gstep host (steadily docker)) s →
      idle s ∧ ∀ id, is_Some (Bridge.services (Sys.bridge s) !! id) ↔
                     should_track docker quiet newIP containers running b id.
Proof.
  intros Hacc Hlists Hready. pose proof Hlists as (_ & _ & Hall & Halive & _).
  pose proof Hready as (Hinv & Hl & Hsp & _).
  destruct (serviceSync_run host docker quiet newIP containers running (Bridge.set_locked true b))
    as (b1 & stale & Hrun & Hr & Hstale & Hsp1); [done..|].
  assert (Bridge.locked b1 = true) as Hl1 by apply Hr.
  exists (Bridge.set_locked false b1). split.
  { unfold handle_sync, Lock. unfold mbind, GoM_bind. rewrite Hl, Hrun. unfold Unlock. by rewrite Hl1. }
  apply (settling_converges host (Bridge.config b) docker
    (λ id v, is_Some v.1 ↔ should_track docker quiet newIP containers running b id)). exists []. eapply sync_owned; try done; try apply Hr.
  - intros id. apply (resynced_tracked newIP (Bridge.set_locked true b) b1 id Hr).
  - etrans; [exact Hsp1|]. change (Bridge.spawned (Bridge.set_locked true b)) with (Bridge.spawned b).
    by rewrite Hsp.
Qed.
End converges.

(** * A concrete run

    A registry that accepts everything. *)
Module Accepting.
Record t := mk { entries : gmap string Service.t }.

#[global] Instance adapter : RegistryAdapter t := {|
  Ping r := (Ok None, r);
  Register s r := (Ok None, mk (<[Service.ID s := s]> (entries r)));
  Deregister s r := (Ok None, mk (delete (Service.ID s) (entries r)));
  Refresh s r := (Ok None, r);
  Services r := (Ok ((map_to_list (entries r)).*2, None), r)
|}.

#[global] Instance adapter_returns : RegistryReturns t.
Proof. by split. Qed.

(** A container that was tracked and is gone since. *)
Definition gone : Container.t :=
  {| Container.ID := "00000000000000ff"; Container.Name := "/gone";
     Container.Config := Fixtures.web_config; Container.Running := false;
     Container.ExitCode := 0; Container.NetworkSettings := Fixtures.web_network;
     Container.NetworkMode := "bridge" |}.

Definition gone_service : Service.t :=
  Fixtures.service_of gone
    (@servicePort ascending gone "80/tcp" [PortBinding.mk "0.0.0.0" "8000"]) true.

Definition before : Bridge.t t :=
  Bridge.set_services {[Container.ID gone := [gone_service]]} (Bridge.init (mk ∅) Fixtures.config).

Lemma docker_lists :
  lists Fixtures.docker [Fixtures.web_id; Fixtures.side_id] [Fixtures.web_id; Fixtures.side_id].
Proof.
  split; [apply LiveRuns.docker_is_handled|]. split; [by apply (bool_decide_unpack _); vm_compute|].
  split; [done|]. split; [done|]. intros id c. simpl. by repeat case_decide; intros [= <-].
Qed.

Lemma before_at_leisure : at_leisure [Fixtures.web_id; Fixtures.side_id] before.
Proof.
  split; [|split; [done|split; [done|split; [|done]]]].
  - split; [|apply map_Forall_empty].
    apply map_Forall_singleton. exists gone_service. split; [done|]. split; [by vm_compute|].
    eexists. split; [by vm_compute|discriminate].
  - apply map_Forall_singleton. vm_compute. lia.
Qed.
End Accepting.

Lemma sync_converges_witness :
  ∃ b', @handle_sync _ _ ascending Fixtures.host Fixtures.docker (SyncMessage.mk true "") Accepting.before
          = (Ok (), b') ∧
    sn (@gstep _ _ ascending Fixtures.host (steadily Fixtures.docker)) (Initialize b') ∧
    ∀ s, rtc (@gstep _ _ ascending Fixtures.host (steadily Fixtures.docker)) (Initialize b') s →
      nf (@gstep _ _ ascending Fixtures.host (steadily Fixtures.docker)) s →
      is_Some (Bridge.services (Sys.bridge s) !! Fixtures.web_id) ∧
      Bridge.services (Sys.bridge s) !! Container.ID Accepting.gone = None.
Proof.
  destruct (@sync_converges _ Accepting.adapter Accepting.adapter_returns ascending Fixtures.host Fixtures.docker true ""
              [Fixtures.web_id; Fixtures.side_id] [Fixtures.web_id; Fixtures.side_id] Accepting.before
              (λ _ _, eq_refl) Accepting.docker_lists Accepting.before_at_leisure)
    as (b' & Hrun & Hsn & Hrest).
  exists b'. split; [exact Hrun|]. split; [exact Hsn|]. intros s Hs Hnf.
  destruct (Hrest s Hs Hnf) as [_ Htracked]. split.
  - apply Htracked. right. split; [by vm_compute|]. split; [left|]. vm_compute. discriminate.
  - apply eq_None_not_Some. rewrite Htracked. intros [[_ Hx]|(Hx & _)].
    + specialize (Hx eq_refl). by apply (bool_decide_pack _) in Hx; vm_compute in Hx.
    + by vm_compute in Hx.
Defined.
