(* ===== verification/Races.v ===== *)
(** * Races inside [add]

    [add] gives the mutex up between the check that the container is unknown and
    the moment its service is tracked. Two interleavings that the sequential
    steps of System.v do not have. *)
From stdpp Require Import relations.
From S2P Require Import Prelude GoStrings Types Metadata ServiceId NewService Fixtures.
From S2P Require Import Bridge BridgeLemmas BridgeInv BridgeProps ServiceSync System Threads Concurrency Sections Interleavings.

Section races.
Context {R : Type} `{RA : RegistryAdapter R} `{RR : !RegistryReturns R} `{O : MapOrder} (host : Host.t) (env : Env.t).
Implicit Types b : Bridge.t R.
Context (wg : Z) (q : list SyncMessage.t) (ch : channel R).

(** A pool with nothing but these goroutines changing. *)
Abbreviation pool b ts := (Sys.mk b ts wg q ch).

(** An unknown container: neither tracked nor dead. *)
Definition unknown b (id : string) : Prop :=
  Bridge.locked b = false ∧ Bridge.services b !! id = None ∧ Bridge.deadContainers b !! id = None.

(** What [add] does after its check. *)
Definition add_rest (docker : DockerClient.t) (id : string) (quiet : bool) (newIP : string)
    : prog R unit :=
  match DockerClient.InspectContainer docker id with
  | inr _ => log_id_t id
  | inl container => add_inspected_t host docker container quiet newIP
  end.

(** The first two sections of [add]: the check finds the container unknown. *)
Lemma add_checks ts1 ts2 docker id quiet newIP b : unknown b id →
  rtc (istep host env) (pool b (ts1 ++ add_t host docker id quiet newIP :: ts2))
                   (pool b (ts1 ++ add_rest docker id quiet newIP :: ts2)).
Proof.
  intros (Hl & Hs & Hd). eapply rtc_l; [apply istep_goroutine, gstep_section|eapply rtc_l; [apply istep_goroutine, gstep_section|apply rtc_refl]].
  - simpl. rewrite deleteDeadContainer_run, Hd by done. reflexivity.
  - simpl. unfold check_known. unfold Lock at 1. unfold mbind at 1, GoM_bind at 1. rewrite Hl.
    erewrite GoM_bind_Ok by reflexivity. rewrite decide_False.
    + erewrite (GoM_bind_Ok Unlock) by reflexivity. simpl. by destruct b; simpl in *; subst.
    + unfold services_of. simpl. rewrite Hs. naive_solver.
Qed.

Lemma add_rest_alone docker id quiet newIP c b :
  DockerClient.InspectContainer docker id = inl c →
  alone (add_rest docker id quiet newIP) b = add_inspected host docker c quiet newIP b.
Proof. intros Hc. unfold add_rest. rewrite Hc. apply add_inspected_alone. Qed.

(** C10: two overlapping additions of the same container, say for a start event and
    for a sync message, both find it unknown: every service planned for it can be
    handed to the registry twice. *)
Theorem overlapping_adds docker id quiet newIP c made b :
  unknown b id → DockerClient.InspectContainer docker id = inl c →
  12 ≤ String.length (Container.ID c) →
  add_plan host (Bridge.config b) docker c quiet newIP = Ok made →
  ∃ errs errs' b',
    rtc (istep host env)
      (pool b [add_t host docker id quiet newIP; add_t host docker id quiet newIP])
      (pool b' [Ret (); Ret ()]) ∧
    length errs = length made ∧ length errs' = length made ∧
    Bridge.calls b' = Bridge.calls b ++ zip_with CRegister made errs ++ zip_with CRegister made errs'.
Proof.
  intros Hu Hc Hid Hplan. pose proof Hu as (Hl & Hs & Hd).
  destruct (add_untracked_run host docker id quiet newIP c made b) as (r & errs & He & Hadd);
    [done|by unfold services_of; rewrite Hs|done..|].
  set (b1 := Bridge.set_services _ _) in Hadd.
  destruct (add_inspected_run host docker c quiet newIP made b1 Hl Hid Hplan) as (r' & errs' & He' & Hadd').
  eexists errs, errs', _. split; [|split; [done|split; [done|]]].
  - etrans; [apply (add_checks []); done|].
    etrans; [apply (run_alone host env wg q ch [_] []); rewrite add_alone; exact Hadd|].
    apply (run_alone host env wg q ch [] [_]). rewrite (add_rest_alone _ _ _ _ c) by done. exact Hadd'.
  - simpl. by rewrite <- app_assoc.
Qed.

Lemma remove_unknown id dereg b : unknown b id → remove id dereg b = (Ok (), b).
Proof.
  intros (Hl & Hs & Hd). assert (services_of b id = []) as Hn by (unfold services_of; by rewrite Hs).
  destruct dereg.
  - unfold remove. rewrite with_lock_run by done. go_unfold.
    change (services_of (Bridge.set_locked true b) id) with (services_of b id). rewrite Hn. simpl.
    rewrite Hd. simpl. rewrite delete_id by done. by destruct b; simpl in *; subst.
  - rewrite remove_false_run, Hn by done. rewrite decide_False by naive_solver.
    rewrite delete_id by done. by destruct b.
Qed.

(** C11: the removal of a container that dies while it is being added can be lost:
    when it runs after the check and before the service is tracked, it finds nothing
    to remove, and the dead container's services end up registered and tracked as
    if it had never died. *)
Theorem overtaken_removal docker docker' id quiet newIP c d b b' :
  unknown b id → DockerClient.InspectContainer docker id = inl c →
  shouldRemove docker' id b = (Ok d, b) →
  add host docker id quiet newIP b = (Ok (), b') →
  rtc (istep host env)
    (pool b [add_t host docker id quiet newIP; RemoveOnExit_t docker' id])
    (pool b' [Ret (); Ret ()]).
Proof.
  intros Hu Hc Hd Hadd. pose proof Hu as (Hl & Hs & Hdead).
  etrans; [apply (add_checks []); done|].
  etrans; [apply (run_alone host env wg q ch [_] [] _ b b)|].
  { rewrite RemoveOnExit_alone. unfold RemoveOnExit. rewrite (GoM_bind_Ok _ _ _ _ _ Hd).
    by apply remove_unknown. }
  apply (run_alone host env wg q ch [] [_]). rewrite (add_rest_alone _ _ _ _ c) by done. rewrite <- Hadd.
  unfold add. erewrite GoM_bind_Ok by (by apply deleteDeadContainer_run). rewrite Hdead.
  rewrite (GoM_bind_Ok Lock _ b () (Bridge.set_locked true b)) by (unfold Lock; by rewrite Hl).
  erewrite (GoM_bind_Ok get_state) by reflexivity.
  rewrite decide_False by (unfold services_of; simpl; rewrite Hs; naive_solver).
  rewrite (GoM_bind_Ok Unlock _ _ () b), Hc; [done|].
  unfold Unlock. simpl. by destruct b; simpl in *; subst.
Qed.
End races.

(** * Concrete runs *)
Module RaceRuns.
Abbreviation start := (@add_t _ _ ascending Fixtures.host Fixtures.docker Fixtures.web_id false "").

Lemma web_unknown : unknown Runs.fresh Fixtures.web_id.
Proof. by split_and!. Defined.
End RaceRuns.

Lemma operation_alone_witness :
  alone (@operation_t _ _ ascending Fixtures.host SystemRuns.start) Runs.fresh = (Ok (), Runs.added).
Proof.
  rewrite (@operation_alone _ _ _ ascending Fixtures.host SystemRuns.start Runs.fresh).
  exact SystemRuns.start_runs.
Defined.

Lemma overlapping_adds_witness :
  ∃ b', rtc (@istep _ _ ascending Fixtures.host Env.any)
      (Sys.mk Runs.fresh [RaceRuns.start; RaceRuns.start] 0 [] ChWait)
      (Sys.mk b' [Ret (); Ret ()] 0 [] ChWait) ∧ length (Bridge.calls b') = 4.
Proof.
  destruct (@overlapping_adds _ _ _ ascending Fixtures.host Env.any 0 [] ChWait Fixtures.docker
    Fixtures.web_id false "" Fixtures.web Runs.web_plan Runs.fresh) as (errs & errs' & b' & Hr & H1 & H2 & Hc).
  - exact RaceRuns.web_unknown.
  - reflexivity.
  - vm_compute. lia.
  - exact Runs.web_planned.
  - exists b'. split; [exact Hr|]. rewrite Hc, !length_app, !length_zip_with, H1, H2.
    vm_compute. reflexivity.
Defined.

Lemma overtaken_removal_witness :
  rtc (@istep _ _ ascending Fixtures.host Env.any)
    (Sys.mk Runs.fresh [RaceRuns.start; RemoveOnExit_t Fixtures.docker Fixtures.web_id] 0 [] ChWait)
    (Sys.mk Runs.added [Ret (); Ret ()] 0 [] ChWait).
Proof.
  apply (@overtaken_removal _ _ _ ascending Fixtures.host Env.any 0 [] ChWait Fixtures.docker Fixtures.docker
    Fixtures.web_id false "" Fixtures.web false Runs.fresh Runs.added).
  - exact RaceRuns.web_unknown.
  - reflexivity.
  - vm_compute. reflexivity.
  - exact SystemRuns.start_runs.
Defined.

Lemma interleaved_inv_witness :
  bridge_inv Runs.added.
Proof.
  destruct (@interleaved_inv _ _ ascending Fixtures.host Env.any Memory.empty Fixtures.config
    (Sys.mk Runs.added [Ret ()] 0 [] ChWait)) as [H _]; [|exact H].
  - eapply rtc_l; [apply (istep_call _ _ SystemRuns.start); split; exact I|].
    apply (run_alone Fixtures.host Env.any 0 [] ChWait [] [] _ Runs.fresh).
    etrans; [apply add_alone|exact SystemRuns.start_runs].
Defined.

Lemma leaked_forever_witness :
  Bridge.locked (Sys.bridge (Sys.mk SystemRuns.stuck
    [@operation_t _ _ ascending Fixtures.host OpPrune] 0 [] ChWait)) = true.
Proof.
  apply (@leaked_forever _ _ ascending Fixtures.host Env.any SystemRuns.stuck 0 [] ChWait).
  - reflexivity.
  - by left.
  - eapply rtc_l; [|apply rtc_refl]. apply (istep_call _ _ OpPrune (Sys.mk SystemRuns.stuck [] 0 [] ChWait)). exact I.
Defined.
