(* ===== verification/Main.v ===== *)
(** * The main program: registrator.go, and the address lookup of bridge/util.go

    Flags and the answers of the outside world (the address source, the ping of
    the backend, Docker's environment) are inputs. [log.Fatal] ends the process
    with code 1. *)
From S2P Require Import Prelude GoStrings Types Regex ServiceId NewService Fixtures.
From S2P Require Import Bridge BridgeInv System.

(** ** [ipRegEx] *)
Definition digit_class : regex := Class is_digit.

(** [([0-9]|[1-9][0-9]|1[0-9]{2}|2[0-4][0-9]|25[0-5])] *)
Definition octet : regex :=
  Group (Alt digit_class
    (Alt (Seq (Class (between 49 57)) digit_class)
    (Alt (Seq (Lit "1") (Seq digit_class digit_class))
    (Alt (Seq (Lit "2") (Seq (Class (between 48 52)) digit_class))
         (Seq (Lit "2") (Seq (Lit "5") (Class (between 48 53)))))))).

Definition octet_dot : regex := Group (Seq octet (Lit ".")).

Definition ipRegEx : regex := Seq octet_dot (Seq octet_dot (Seq octet_dot octet)).

(** ** [GetIPFromExternalSource]

    [answers i] is what the [i]-th request gives. The result is the address, and
    the waits between the attempts, 64-bit numbers of nanoseconds; [None]: out of
    fuel. *)
Inductive lookup_answer := GetFails | ReadFails | Body (ip : string).

Definition ipRetryInterval : Z := 10.

(** [time.Duration(n) * time.Second], in nanoseconds. *)
Definition seconds (n : Z) : Z := wrap64 (n * 1000000000).

Fixpoint lookup_loop (fuel : nat) (ipLookupRetries attempt : Z)
    (answers : nat → lookup_answer) (i : nat) : option (string * list Z) :=
  match fuel with
  | O => None
  | S fuel =>
      if decide (attempt ≤ ipLookupRetries)%Z then
        match answers i with
        | Body ip => Some (ip, [])
        | GetFails | ReadFails =>
            '(ip, waits) ← lookup_loop fuel ipLookupRetries (add64 attempt 1) answers (S i);
            Some (ip, seconds (wrap64 (ipRetryInterval * attempt)) :: waits)
        end
      else Some ("", [])
  end.

Definition GetIPFromExternalSource (ipLookupRetries : Z) (answers : nat → lookup_answer)
    : option (string * bool * list Z) :=
  '(ip, waits) ← lookup_loop (S (Z.to_nat ipLookupRetries)) ipLookupRetries 1 answers 0;
  Some (ip, bool_decide (String.length ip ≠ 0), waits).

(** ** The flags *)
Module Flags.
Record t := mk {
  hostIp : string;
  internal : bool;
  useIpFromLabel : string;
  refreshInterval : Z;
  refreshTtl : Z;
  forceTags : string;
  resyncInterval : Z;
  deregister : string;
  retryAttempts : Z;
  retryInterval : Z;
  cleanup : bool;
  requireLabel : bool;
  ipLookupSource : string;
  ipLookupRetries : Z;
  exitOnIpLookupFailure : bool;
  (** The arguments that are no flags. *)
  args : list string
}.
End Flags.

Definition assert (err : error) : outcome unit :=
  match err with Some _ => Exited 1 | None => Ok () end.

(** The address found at the start: [""] without a source, or if it is invalid. *)
Definition discover (flags : Flags.t) (lookup : string * bool) : outcome string :=
  if decide (Flags.ipLookupSource flags ≠ "") then
    if lookup.2 then Ok (if match_string ipRegEx lookup.1 then lookup.1 else "")
    else Exited 2
  else Ok "".

Definition ttl_error (flags : Flags.t) : error :=
  let ttl := Flags.refreshTtl flags in
  let interval := Flags.refreshInterval flags in
  if decide ((ttl = 0 ∧ 0 < interval) ∨ (0 < ttl ∧ interval = 0))%Z
  then Some "-ttl and -ttl-refresh must be specified together or not at all"
  else if decide (0 < ttl ∧ ttl ≤ interval)%Z
  then Some "-ttl must be greater than -ttl-refresh"
  else None.

(** [main] up to the creation of the bridge: the address discovered and the
    configuration. [dockerErr] is the answer of [NewClientFromEnv]. *)
Definition configure (flags : Flags.t) (lookup : string * bool) (dockerErr : error)
    : outcome (string * Config.t) :=
  if decide (length (Flags.args flags) ≠ 1) then Exited 2 else
  if decide (Flags.hostIp flags ≠ "" ∧ match_string ipRegEx (Flags.hostIp flags) = false)
  then Exited 2 else
  if decide (Flags.ipLookupRetries flags ≤ 0)%Z then Exited 2 else
  discoveredIP ← discover flags lookup;
  _ ← assert (ttl_error flags);
  _ ← assert (if decide (Flags.retryInterval flags ≤ 0)%Z
              then Some "-retry-interval must be greater than 0" else None);
  _ ← assert dockerErr;
  _ ← assert (if decide (Flags.deregister flags ≠ "always" ∧ Flags.deregister flags ≠ "on-success")
              then Some "-deregister must be always or on-success" else None);
  let selectedIP := if decide (discoveredIP ≠ "") then discoveredIP else Flags.hostIp flags in
  mret (discoveredIP,
    {| Config.HostIp := selectedIP;
       Config.Internal := Flags.internal flags;
       Config.UseIpFromLabel := Flags.useIpFromLabel flags;
       Config.ForceTags := Flags.forceTags flags;
       Config.RefreshTtl := Flags.refreshTtl flags;
       Config.RefreshInterval := Flags.refreshInterval flags;
       Config.DeregisterCheck := Flags.deregister flags;
       Config.Cleanup := Flags.cleanup flags;
       Config.RequireLabel := Flags.requireLabel flags;
       Config.ExitOnIPLookupFailure := Flags.exitOnIpLookupFailure flags |}).

(** ** Connecting to the backend

    [pings n] is what the [n]-th ping comes to; the result counts the pings. *)
Fixpoint connect (fuel : nat) (retryAttempts attempt : Z) (pings : nat → outcome error) (n : nat)
    : option (outcome nat) :=
  match fuel with
  | O => None
  | S fuel =>
      if decide (retryAttempts = -1 ∨ attempt ≤ retryAttempts)%Z then
        match pings n with
        | Ok None => Some (Ok (S n))
        | Ok (Some _) =>
            if decide (attempt = retryAttempts) then Some (Exited 1)
            else connect fuel retryAttempts (add64 attempt 1) pings (S n)
        | Panicked => Some Panicked
        | Blocked => Some Blocked
        | Exited c => Some (Exited c)
        end
      else Some (Ok n)
  end.

(** ** Events and timers *)
Inductive event := Event (status id : string).

Definition event_operation (docker : DockerClient.t) (discoveredIP : string) (e : event)
    : option operation :=
  let 'Event status id := e in
  if decide (status = "start") then Some (OpAdd docker id false discoveredIP)
  else if decide (status = "die") then Some (OpRemoveOnExit docker id)
  else None.

Definition ShouldExitOnIPLookupFailure (config : Config.t) : bool :=
  Config.ExitOnIPLookupFailure config.

(** The new [discoveredIP], and the message pushed. *)
Definition resyncProcess (config : Config.t) (ipLookupSource : string) (lookup : string * bool)
    (discoveredIP : string) : outcome (string * option SyncMessage.t) :=
  if decide (ipLookupSource ≠ "") then
    let '(temporaryIP, success) := lookup in
    if negb success && ShouldExitOnIPLookupFailure config then Exited 2 else
    if (success : bool) then
      let discoveredIP := temporaryIP in
      if match_string ipRegEx discoveredIP
      then mret (discoveredIP, Some (SyncMessage.mk true discoveredIP))
      else mret (discoveredIP, None)
    else mret (discoveredIP, None)
  else mret (discoveredIP, Some (SyncMessage.mk true "")).

(** ** Properties of the address pattern *)
Definition octets : list string := (λ n, Itoa (Z.of_nat n)) <$> seq 0 256.

Lemma octet_lang u : lang octet u ↔ ∃ n, (0 ≤ n ≤ 255)%Z ∧ u = Itoa n.
Proof.
  rewrite strings_of_lang by reflexivity.
  assert (Forall (.∈ octets) (strings_of octet)) as H1.
  { apply (bool_decide_unpack _). vm_compute. exact I. }
  assert (Forall (.∈ strings_of octet) octets) as H2.
  { apply (bool_decide_unpack _). vm_compute. exact I. }
  rewrite Forall_forall in H1, H2. split.
  - intros Hu%H1. apply list_elem_of_fmap in Hu as (n & -> & Hn%elem_of_seq).
    exists (Z.of_nat n). split; [lia|done].
  - intros (n & Hn & ->). apply H2, list_elem_of_fmap. exists (Z.to_nat n).
    split; [by rewrite Z2Nat.id by lia|]. apply elem_of_seq. lia.
Qed.

Lemma octet_dot_lang u : lang octet_dot u ↔ ∃ n, (0 ≤ n ≤ 255)%Z ∧ u = Itoa n +:+ ".".
Proof.
  unfold octet_dot. change (lang (Group ?r) u) with (lang r u). cbn [lang]. split.
  - intros (u1 & u2 & -> & H1%octet_lang & c & Hc & ->). destruct H1 as (n & Hn & ->).
    apply bool_decide_eq_true in Hc as ->. by exists n.
  - intros (n & Hn & ->). exists (Itoa n), ".". split; [done|].
    split; [apply octet_lang; eauto|]. by exists "."%char.
Qed.

(** The dotted decimal form of an IPv4 address. *)
Definition dotted_quad (s : string) : Prop :=
  ∃ a b c d, (0 ≤ a ≤ 255 ∧ 0 ≤ b ≤ 255 ∧ 0 ≤ c ≤ 255 ∧ 0 ≤ d ≤ 255)%Z ∧
    s = Itoa a +:+ "." +:+ Itoa b +:+ "." +:+ Itoa c +:+ "." +:+ Itoa d.

Lemma ipRegEx_lang s : match_string ipRegEx s = true ↔ dotted_quad s.
Proof.
  rewrite match_string_lang. unfold ipRegEx, dotted_quad. split.
  - intros (u1 & ? & -> & H1%octet_dot_lang & u2 & ? & -> & H2%octet_dot_lang & u3 & u4 & -> &
            H3%octet_dot_lang & H4%octet_lang).
    destruct H1 as (a & ? & ->), H2 as (b & ? & ->), H3 as (c & ? & ->), H4 as (d & ? & ->).
    exists a, b, c, d. split; [done|]. by rewrite !sapp_assoc.
  - intros (a & b & c & d & (Ha & Hb & Hc & Hd) & ->).
    exists (Itoa a +:+ "."), (Itoa b +:+ "." +:+ Itoa c +:+ "." +:+ Itoa d).
    split; [by rewrite !sapp_assoc|]. split; [apply octet_dot_lang; eauto|].
    exists (Itoa b +:+ "."), (Itoa c +:+ "." +:+ Itoa d).
    split; [by rewrite !sapp_assoc|]. split; [apply octet_dot_lang; eauto|].
    exists (Itoa c +:+ "."), (Itoa d).
    split; [by rewrite !sapp_assoc|]. split; [apply octet_dot_lang; eauto|]. apply octet_lang; eauto.
Qed.

(** C26: the pattern for addresses accepts exactly the dotted decimal form of the
    IPv4 addresses: four numbers from 0 to 255 without leading zeros. *)
Theorem ipRegEx_spec s : match_string ipRegEx s = true ↔ dotted_quad s.
Proof. apply ipRegEx_lang. Qed.

(** ** The retry loops *)
Fixpoint first_body (n : nat) (answers : nat → lookup_answer) (i : nat) : option (nat * string) :=
  match n with
  | O => None
  | S n => match answers i with
           | Body ip => Some (i, ip)
           | _ => first_body n answers (S i)
           end
  end.

(** The waits before the requests that follow the given one: ten seconds times its
    number, as far as 64 bits hold. *)
Definition waits_from (attempt : Z) (n : nat) : list Z :=
  (λ k, wrap64 (10000000000 * (attempt + Z.of_nat k))) <$> seq 0 n.

Lemma retry_wait attempt : seconds (wrap64 (ipRetryInterval * attempt)) = wrap64 (10000000000 * attempt).
Proof.
  unfold seconds, wrap64, ipRetryInterval. f_equal.
  rewrite Z.mul_sub_distr_r, Z.add_comm, Z.add_sub_assoc, <- Zminus_mod_idemp_l.
  rewrite <- (Zplus_mod_idemp_r (_ * _)), Zmult_mod_idemp_l, Zplus_mod_idemp_r, Zminus_mod_idemp_l.
  f_equal. lia.
Qed.

Lemma waits_from_cons attempt n :
  waits_from attempt (S n) =
    seconds (wrap64 (ipRetryInterval * attempt)) :: waits_from (attempt + 1) n.
Proof.
  rewrite retry_wait. unfold waits_from. simpl. f_equal; [f_equal; lia|]. rewrite <- fmap_S_seq, <- list_fmap_compose.
  apply list_fmap_ext. intros ? k _. simpl. f_equal. lia.
Qed.

Lemma waits_exact n : (Z.of_nat n ≤ 922337203)%Z →
  waits_from 1 n = (λ k, (10000000000 * Z.of_nat (S k))%Z) <$> seq 0 n.
Proof.
  intros Hn. apply list_fmap_ext. intros i k [-> Hk]%lookup_seq. rewrite wrap64_id; [lia|].
  unfold in_int64, int64_min, int64_max. lia.
Qed.

Lemma add64_small z : (0 ≤ z)%Z → (z < int64_max)%Z → add64 z 1 = (z + 1)%Z.
Proof. unfold add64, int64_max. intros. apply wrap64_id. unfold in_int64, int64_min, int64_max. lia. Qed.

Lemma lookup_loop_spec fuel n retries attempt answers i :
  (1 ≤ attempt)%Z → (retries < int64_max)%Z → Z.of_nat n = (retries + 1 - attempt)%Z → n < fuel →
  lookup_loop fuel retries attempt answers i =
  Some (match first_body n answers i with
        | Some (j, ip) => (ip, waits_from attempt (j - i))
        | None => ("", waits_from attempt n)
        end).
Proof.
  revert n attempt i. induction fuel as [|fuel IH]; intros n attempt i Ha Hr Hn Hf; [lia|].
  simpl. destruct n as [|n]; simpl.
  { by rewrite decide_False by lia. }
  rewrite decide_True by lia.
  rewrite add64_small by lia.
  pose proof (IH n (attempt + 1)%Z (S i) ltac:(lia) Hr ltac:(lia) ltac:(lia)) as Hnext.
  assert (∀ j ip, first_body n answers (S i) = Some (j, ip) → S i ≤ j) as Hj.
  { clear. revert i. induction n as [|n IH]; intros i j ip; simpl; [done|].
    destruct (answers (S i)); [| |by intros [= <- _]]; intros ?%IH; lia. }
  destruct (answers i) as [| |ip]; [| |by rewrite Nat.sub_diag];
    rewrite Hnext; simpl; destruct (first_body n answers (S i)) as [[j ip]|] eqn:Hb; simpl;
    try (by rewrite waits_from_cons);
    (replace (j - i) with (S (j - S i)) by (specialize (Hj j ip eq_refl); lia));
    by rewrite waits_from_cons.
Qed.

(** C30: the address lookup ends: it returns the body of the first of at most
    [retries] requests that can be read, and reports success exactly when there is
    one and it is not empty. It waits after each request that fails, after the
    [k]-th for 10 [k] seconds in 64-bit nanoseconds: so 10, 20, 30 ... seconds, until
    the number wraps around after request 922337203. *)
Theorem GetIPFromExternalSource_spec retries answers :
  (0 ≤ retries < int64_max)%Z →
  let failed := match first_body (Z.to_nat retries) answers 0 with
                | Some (j, _) => j | None => Z.to_nat retries end in
  ∃ waits,
    GetIPFromExternalSource retries answers =
    Some (match first_body (Z.to_nat retries) answers 0 with
          | Some (_, ip) => (ip, bool_decide (ip ≠ ""), waits)
          | None => ("", false, waits)
          end) ∧
    waits = (λ k, wrap64 (10000000000 * Z.of_nat (S k))) <$> seq 0 failed ∧
    ((Z.of_nat failed ≤ 922337203)%Z →
     waits = (λ k, (10000000000 * Z.of_nat (S k))%Z) <$> seq 0 failed).
Proof.
  intros Hr failed. exists (waits_from 1 failed). split; [|split; [|apply waits_exact]].
  2:{ apply list_fmap_ext. intros ? k _. f_equal. lia. }
  unfold GetIPFromExternalSource, failed.
  rewrite (lookup_loop_spec _ (Z.to_nat retries)) by lia. simpl.
  destruct (first_body _ _ _) as [[j ip]|]; simpl; [|done]. rewrite Nat.sub_0_r.
  do 3 f_equal. apply bool_decide_ext. destruct ip; simpl; split; congruence.
Qed.

Lemma GetIPFromExternalSource_spec_witness :
  GetIPFromExternalSource 3 (λ i, if decide (i = 1) then Body "10.0.0.1" else GetFails) =
  Some ("10.0.0.1", true, [10000000000%Z]).
Proof.
  destruct (GetIPFromExternalSource_spec 3
    (λ i, if decide (i = 1) then Body "10.0.0.1" else GetFails) ltac:(unfold int64_max; lia))
    as (waits & H & -> & _). rewrite H. reflexivity.
Defined.

Lemma lookup_returns retries answers :
  (retries < int64_max)%Z → is_Some (GetIPFromExternalSource retries answers).
Proof.
  intros Hr. unfold GetIPFromExternalSource. destruct (decide (0 ≤ retries)%Z).
  - by rewrite (lookup_loop_spec _ (Z.to_nat retries)) by lia; destruct (first_body _ _ _) as [[]|].
  - cbn [lookup_loop]. by rewrite decide_False by lia.
Qed.

Fixpoint first_pong (n : nat) (pings : nat → error) (i : nat) : option nat :=
  match n with
  | O => None
  | S n => match pings i with None => Some i | Some _ => first_pong n pings (S i) end
  end.

Lemma connect_bounded fuel n attempts attempt pings i :
  (0 ≤ attempt)%Z → (attempts ≤ int64_max)%Z → Z.of_nat n = (attempts - attempt)%Z → n < fuel →
  connect fuel attempts attempt (λ n, Ok (pings n)) i =
  Some (match first_pong (S n) pings i with Some j => Ok (S j) | None => Exited 1 end).
Proof.
  revert n attempt i. induction fuel as [|fuel IH]; intros n attempt i Ha Hr Hn Hf; [lia|].
  cbn [connect]. rewrite decide_True by (right; lia). simpl.
  destruct (pings i) as [e|]; [|done]. destruct n as [|n].
  - by rewrite decide_True by lia.
  - rewrite decide_False by lia. rewrite add64_small by lia. apply (IH n); lia.
Qed.

Lemma connect_forever fuel n attempt pings i j :
  first_pong n pings i = Some j → n ≤ fuel → (0 ≤ attempt)%Z →
  (attempt + Z.of_nat n ≤ int64_max)%Z →
  connect fuel (-1) attempt (λ n, Ok (pings n)) i = Some (Ok (S j)).
Proof.
  revert n attempt i. induction fuel as [|fuel IH]; intros n attempt i Hp Hf Ha Hm.
  { destruct n; [done|lia]. }
  cbn [connect]. rewrite decide_True by (by left). destruct n as [|n]; [done|]. simpl in Hp.
  destruct (pings i) as [e|]; [|by injection Hp as <-].
  rewrite decide_False by lia. rewrite add64_small by lia. apply (IH n); [done|lia..].
Qed.

(** Connecting to the backend. With [n >= 0] retries it ends after the first
    of [n + 1] pings that succeeds, or else with the process; with [-1] it ends at
    the first ping that succeeds, if ever; with any other negative number there
    is no ping at all. *)
Theorem connect_spec attempts pings : in_int64 attempts →
  (∀ fuel, (0 ≤ attempts)%Z → Z.to_nat attempts < fuel →
     connect fuel attempts 0 (λ n, Ok (pings n)) 0 =
     Some (match first_pong (S (Z.to_nat attempts)) pings 0 with
           | Some j => Ok (S j) | None => Exited 1 end)) ∧
  (∀ fuel n j, attempts = (-1)%Z → first_pong n pings 0 = Some j → n ≤ fuel →
     (Z.of_nat n ≤ int64_max)%Z →
     connect fuel attempts 0 (λ n, Ok (pings n)) 0 = Some (Ok (S j))) ∧
  (∀ fuel, (attempts < -1)%Z → connect (S fuel) attempts 0 (λ n, Ok (pings n)) 0 = Some (Ok 0)).
Proof.
  intros [_ Hmax]. split; [|split].
  - intros fuel Ha Hf. apply connect_bounded; [lia..|done].
  - intros fuel n j -> Hp Hf Hn. by apply (connect_forever fuel n).
  - intros fuel Ha. cbn [connect]. by rewrite decide_False by lia.
Qed.

Lemma connect_spec_witness :
  connect 3 2 0 (λ n, Ok (if decide (n = 2) then None else Some "refused")) 0 = Some (Ok 3) ∧
  connect 2 1 0 (λ n, Ok (if decide (n = 2) then None else Some "refused")) 0 = Some (Exited 1).
Proof.
  assert (in_int64 2 ∧ in_int64 1) as [H2 H1] by (unfold in_int64, int64_min, int64_max; lia).
  split.
  - destruct (connect_spec 2 (λ n, if decide (n = 2) then None else Some "refused") H2) as (H & _).
    rewrite H by lia. reflexivity.
  - destruct (connect_spec 1 (λ n, if decide (n = 2) then None else Some "refused") H1) as (H & _).
    rewrite H by lia. reflexivity.
Defined.

(** ** The configuration *)
Definition address_or_none (s : string) : Prop := s = "" ∨ dotted_quad s.

Lemma discover_address flags lookup ip : discover flags lookup = Ok ip → address_or_none ip.
Proof.
  unfold discover, address_or_none. case_decide; [|intros [= <-]; by left].
  destruct lookup as [s []]; simpl; [|done]. intros [= <-].
  destruct (match_string ipRegEx s) eqn:Hm; [right; by apply ipRegEx_lang|by left].
Qed.

Lemma assert_Ok err : assert err = Ok () ↔ err = None.
Proof. destruct err; simpl; split; congruence. Qed.

Lemma host_ip_invalid ip :
  ¬ (ip ≠ "" ∧ match_string ipRegEx ip = false) ↔ address_or_none ip.
Proof.
  unfold address_or_none. rewrite <- ipRegEx_lang.
  destruct (decide (ip = "")) as [->|Hne]; [naive_solver|].
  destruct (match_string ipRegEx ip); naive_solver.
Qed.

(** The conditions under which [main] goes on to create the bridge. *)
Definition flags_ok (flags : Flags.t) (dockerErr : error) : Prop :=
  length (Flags.args flags) = 1 ∧ address_or_none (Flags.hostIp flags) ∧
  (0 < Flags.ipLookupRetries flags)%Z ∧
  ttl_error flags = None ∧ (0 < Flags.retryInterval flags)%Z ∧ dockerErr = None ∧
  (Flags.deregister flags = "always" ∨ Flags.deregister flags = "on-success").

Lemma configure_Ok flags lookup dockerErr r :
  configure flags lookup dockerErr = Ok r →
  flags_ok flags dockerErr ∧ discover flags lookup = Ok r.1 ∧
  Config.HostIp r.2 = (if decide (r.1 ≠ "") then r.1 else Flags.hostIp flags) ∧
  Config.RefreshTtl r.2 = Flags.refreshTtl flags ∧
  Config.RefreshInterval r.2 = Flags.refreshInterval flags.
Proof.
  unfold configure, flags_ok. rewrite <- host_ip_invalid. do 3 (case_decide; [done|]).
  destruct (discover flags lookup) as [ip| | |]; try done. simpl.
  destruct (ttl_error flags); [done|]. simpl.
  destruct (decide (Flags.retryInterval flags ≤ 0)%Z); [done|]. simpl.
  destruct dockerErr; [done|]. simpl.
  destruct (decide (Flags.deregister flags ≠ "always" ∧ _)); [done|]. intros [= <-]. simpl.
  repeat split; try done; try lia. destruct (decide (Flags.deregister flags = "always")); [by left|].
  right. destruct (decide (Flags.deregister flags = "on-success")); tauto.
Qed.

Lemma configure_exit flags lookup dockerErr r : configure flags lookup dockerErr = Ok r →
  Config.ExitOnIPLookupFailure r.2 = Flags.exitOnIpLookupFailure flags.
Proof. unfold configure. go_unfold. repeat case_match; by intros [= <-] || done. Qed.

Lemma flags_ok_configure flags lookup dockerErr ip :
  flags_ok flags dockerErr → discover flags lookup = Ok ip →
  is_Ok (configure flags lookup dockerErr) = true.
Proof.
  intros (Hn & Hip%host_ip_invalid & Hr & Ht & Hi & -> & Hd) Hdisc. unfold configure.
  rewrite decide_False by lia. rewrite decide_False by done. rewrite decide_False by lia.
  rewrite Hdisc, Ht. simpl. destruct (decide (Flags.retryInterval flags ≤ 0)%Z); [lia|]. simpl.
  destruct (decide (Flags.deregister flags ≠ "always" ∧ _)); [naive_solver|done].
Qed.

Lemma configure_ends flags lookup dockerErr :
  match configure flags lookup dockerErr with
  | Ok _ => flags_ok flags dockerErr
  | Exited c => c = 1%Z ∨ c = 2%Z
  | _ => False
  end.
Proof.
  destruct (configure flags lookup dockerErr) eqn:Hc; [by apply configure_Ok in Hc as [? _]|..];
  revert Hc; unfold configure, discover, assert; go_unfold; repeat case_match; naive_solver.
Qed.

Lemma configure_address flags lookup dockerErr r :
  configure flags lookup dockerErr = Ok r → address_or_none (Config.HostIp r.2).
Proof.
  intros ((_ & Hhost & _) & Hd & Hip & _)%configure_Ok. rewrite Hip.
  case_decide; [by eapply discover_address|done].
Qed.

(** The flags of the timing, as Go integers that are not negative. *)
Definition timing_flags (flags : Flags.t) : Prop :=
  in_int64 (Flags.refreshTtl flags) ∧ in_int64 (Flags.refreshInterval flags) ∧
  (0 ≤ Flags.refreshTtl flags)%Z ∧ (0 ≤ Flags.refreshInterval flags)%Z.

Lemma configure_timed flags lookup dockerErr r : timing_flags flags →
  configure flags lookup dockerErr = Ok r → timed r.2.
Proof. intros Ht (_ & _ & _ & Httl & Hint)%configure_Ok. unfold timed. by rewrite Httl, Hint. Qed.

(** C27: [main] creates a bridge exactly when the flags and the environment are in
    order. The addresses it uses are then dotted quads or empty; and, unless a
    negative number was given, a TTL comes with a shorter refresh interval and
    the other way round, so that a service is refreshed before it expires. *)
Theorem configure_spec flags lookup dockerErr :
  (is_Ok (configure flags lookup dockerErr) = true ↔
     flags_ok flags dockerErr ∧ is_Ok (discover flags lookup) = true) ∧
  ∀ discoveredIP config, configure flags lookup dockerErr = Ok (discoveredIP, config) →
    address_or_none discoveredIP ∧ address_or_none (Config.HostIp config) ∧
    (timing_flags flags →
     timed config ∧
     (Config.RefreshTtl config = 0 ∧ Config.RefreshInterval config = 0 ∨
      0 < Config.RefreshInterval config < Config.RefreshTtl config)%Z).
Proof.
  split.
  - split.
    + destruct (configure flags lookup dockerErr) as [r| | |] eqn:Hc; try done. intros _.
      apply configure_Ok in Hc as (Hok & Hd & _). by rewrite Hd.
    + intros [Hok Hd]. destruct (discover flags lookup) as [ip| | |] eqn:Hdisc; try done.
      by eapply flags_ok_configure.
  - intros ip config Hc. pose proof (configure_Ok _ _ _ _ Hc) as (Hok & Hd & _ & Httl & Hint).
    split; [by eapply discover_address|]. split; [by apply (configure_address _ _ _ _ Hc)|].
    intros Hf. split; [by apply (configure_timed _ _ _ _ Hf Hc)|]. simpl in *. rewrite Httl, Hint.
    destruct Hok as (_ & _ & _ & Ht & _). destruct Hf as (_ & _ & H3 & H4). unfold ttl_error in Ht.
    repeat case_decide; try discriminate Ht; lia.
Qed.

Module MainRuns.
Definition flags : Flags.t :=
  {| Flags.hostIp := "192.168.1.102"; Flags.internal := false; Flags.useIpFromLabel := "";
     Flags.refreshInterval := 10; Flags.refreshTtl := 30; Flags.forceTags := "";
     Flags.resyncInterval := 0; Flags.deregister := "on-success"; Flags.retryAttempts := 0;
     Flags.retryInterval := 2000; Flags.cleanup := true; Flags.requireLabel := false;
     Flags.ipLookupSource := "http://ip"; Flags.ipLookupRetries := 1;
     Flags.exitOnIpLookupFailure := false; Flags.args := ["consul://"] |}.
End MainRuns.

(** ** Resynchronising *)
Lemma resync_address config source lookup discoveredIP ip m :
  resyncProcess config source lookup discoveredIP = Ok (ip, Some m) →
  SyncMessage.Quiet m = true ∧ address_or_none (SyncMessage.IP m) ∧
  (source = "" → SyncMessage.IP m = "" ∧ ip = discoveredIP).
Proof.
  unfold resyncProcess, address_or_none. case_decide as Hs; [|intros [= <- <-]; naive_solver].
  destruct lookup as [t []]; simpl; [|destruct (ShouldExitOnIPLookupFailure config); done].
  destruct (match_string ipRegEx t) eqn:Hm; [|done]. intros [= <- <-]. simpl.
  split; [done|]. split; [right; by apply ipRegEx_lang|done].
Qed.

(** A sync message of the timers is quiet and carries no address, or the
    valid address just looked up; but an invalid address, though not sent, is
    kept as the address that containers started from then on are added with. *)
Theorem resyncProcess_spec config source lookup discoveredIP :
  (∀ ip m, resyncProcess config source lookup discoveredIP = Ok (ip, Some m) →
     SyncMessage.Quiet m = true ∧ address_or_none (SyncMessage.IP m) ∧
     (source = "" → SyncMessage.IP m = "" ∧ ip = discoveredIP)) ∧
  (∀ bad docker id, source ≠ "" → ¬ dotted_quad bad →
     ∃ ip, resyncProcess config source (bad, true) discoveredIP = Ok (ip, None) ∧
       event_operation docker ip (Event "start" id) = Some (OpAdd docker id false bad)).
Proof.
  split; [intros ip m; apply resync_address|].
  unfold resyncProcess.
  intros bad docker id Hs Hbad. rewrite decide_True by done. simpl.
  destruct (match_string ipRegEx bad) eqn:Hm; [by apply ipRegEx_lang in Hm|]. by exists bad.
Qed.

Lemma configure_spec_witness :
  ∃ config, configure MainRuns.flags ("10.0.0.7", true) None = Ok ("10.0.0.7", config) ∧
    Config.HostIp config = "10.0.0.7" ∧ timed config.
Proof.
  eexists. split; [vm_compute; reflexivity|]. split; [reflexivity|].
  destruct (configure_spec MainRuns.flags ("10.0.0.7", true) None) as [_ H].
  edestruct H as (_ & _ & Ht); [vm_compute; reflexivity|].
  apply Ht. unfold timing_flags, in_int64, int64_min, int64_max. simpl. lia.
Defined.

Lemma resyncProcess_spec_witness :
  ∃ ip, resyncProcess Fixtures.config "http://ip" ("not an address", true) "10.0.0.7" =
      Ok (ip, None) ∧ ip = "not an address".
Proof.
  destruct (resyncProcess_spec Fixtures.config "http://ip" ("", false) "10.0.0.7")
    as [_ H].
  destruct (H "not an address" Fixtures.docker "" ltac:(discriminate)) as (ip & Hr & Hop).
  { rewrite <- ipRegEx_lang. vm_compute. discriminate. }
  exists ip. split; [exact Hr|]. injection Hop as ->. reflexivity.
Defined.
