(* ===== verification/Backend.v ===== *)
(** * What the bridge promises a backend, and a backend the bridge

    A key-value backend files a service under a key. The interface states what
    its calls do to the entries when they report no error; the Consul backend
    (ConsulAgent.v) implements it with the services of its agent for entries, the
    backends of KvBackends.v with what was last written under each key and with
    which TTL (the store may have dropped it since). The bridge in turn changes the
    registry through these calls only, so the entries are those the trace of calls
    amounts to. *)
From stdpp Require Import relations.
From S2P Require Import Prelude GoStrings Types Metadata ServiceId NewService Fixtures.
From S2P Require Import Bridge BridgeLemmas BridgeInv BridgeProps ServiceSync SyncLemmas System.
From S2P Require Import Threads Concurrency Sections Interleavings.

(** ** The interface *)
(** [V] is what is filed for a service. *)
Class KeyedBackend (R V : Type) `{RA : RegistryAdapter R} := {
  (** The entries: what is filed under a key. *)
  entry : R → string → option V;
  key : R → Service.t → string;
  value : Service.t → V;
  (** Does [Refresh] write the entry again? *)
  refresh_writes : bool;
  (** The keys do not depend on the entries. *)
  key_stable s0 s r o r' :
    Register s0 r = (o, r') ∨ Deregister s0 r = (o, r') ∨ Refresh s0 r = (o, r') →
    key r' s = key r s;
  key_stable_services s r o r' : Services r = (o, r') → key r' s = key r s;
  register_writes s r r' : Register s r = (Ok None, r') →
    ∀ k, entry r' k = if decide (k = key r s) then Some (value s) else entry r k;
  deregister_deletes s r r' : Deregister s r = (Ok None, r') →
    ∀ k, entry r' k = if decide (k = key r s) then None else entry r k;
  refresh_effect s r r' : Refresh s r = (Ok None, r') →
    ∀ k, entry r' k =
      if refresh_writes then if decide (k = key r s) then Some (value s) else entry r k
      else entry r k;
  services_reads r o r' : Services r = (o, r') → ∀ k, entry r' k = entry r k
}.
#[export] Hint Mode KeyedBackend ! - - : typeclass_instances.

(** ** Properties of the registry and the trace

    A relation between the registry and the calls made that each call keeps is
    kept by every section of every operation. *)
Section registry_inv.
Context {R : Type} `{RA : RegistryAdapter R} `{O : MapOrder}.
Context (host : Host.t) (env : Env.t) (P : R → list call → Prop).

Definition call_keeps {A} (op : GoM R A) (note : A → call) : Prop :=
  ∀ r cs a r', P r cs → op r = (Ok a, r') → P r' (cs ++ [note a]).

Context (HRegister : ∀ s, call_keeps (Register s) (CRegister s)).
Context (HDeregister : ∀ s, call_keeps (Deregister s) (CDeregister s)).
Context (HRefresh : ∀ s, call_keeps (Refresh s) (CRefresh s)).
Context (HServices : call_keeps Services (λ r, CServices r.2)).

Definition registry_inv (b : Bridge.t R) : Prop := P (Bridge.registry b) (Bridge.calls b).

Lemma steady_call {A} (op : GoM R A) note :
  call_keeps op note → steady registry_inv (atomic (registry_call op note)).
Proof.
  intros Hop. apply steady_atomic. intros b x b' Hb. unfold registry_call.
  destruct (op (Bridge.registry b)) as [[a| | |] r] eqn:Hr; intros [= <- <-].
  unfold registry_inv. simpl. by eapply Hop.
Qed.

Lemma operation_registry op : steady registry_inv (operation_t host op).
Proof.
  apply (operation_steady host (λ b : Bridge.t R, (Bridge.registry b, Bridge.calls b))
           (λ x, P x.1 x.2)); try done; intros; apply (steady_call _ _); auto.
Qed.

Lemma interleaved_registry r config s :
  rtc (istep host env) (Initialize (Bridge.init r config)) s → P r [] → registry_inv (Sys.bridge s).
Proof.
  intros Hsteps HP.
  by apply (steady_system host env registry_inv operation_registry ltac:(done) _ _ Hsteps).
Qed.
End registry_inv.

(** ** The entries are what the trace amounts to *)
Create HintDb faithful.

Definition call_error (c : call) : error :=
  match c with
  | CRegister _ e | CDeregister _ e | CRefresh _ e | CServices e => e
  end.

Definition error_free (cs : list call) : Prop := Forall (λ c, call_error c = None) cs.

(** The abstract store: a partial function from keys to values. *)
Definition store (V : Type) : Type := string → option V.

Definition write {V} (k : string) (v : V) (m : store V) : store V :=
  λ k', if decide (k' = k) then Some v else m k'.
Definition erase {V} (k : string) (m : store V) : store V :=
  λ k', if decide (k' = k) then None else m k'.

Section replay.
Context {R V : Type} `{KB : KeyedBackend R V}.

Definition replay_call (r0 : R) (m : store V) (c : call) : store V :=
  match c with
  | CRegister s _ => write (key r0 s) (value s) m
  | CDeregister s _ => erase (key r0 s) m
  | CRefresh s _ => if refresh_writes then write (key r0 s) (value s) m else m
  | CServices _ => m
  end.

Definition replay (r0 : R) (cs : list call) : store V := foldl (replay_call r0) (entry r0) cs.

Definition faithful (r0 r : R) (cs : list call) : Prop :=
  (∀ s, key r s = key r0 s) ∧
  (error_free cs → ∀ k, entry r k = replay r0 cs k).

(** A call keeps the entries in step with the trace if it does what the trace
    says whenever it reports no error. *)
Lemma call_keeps_faithful r0 {A} (op : GoM R A) (note : A → call) :
  (∀ r o r' s, op r = (o, r') → key r' s = key r s) →
  (∀ r a r', (∀ s, key r s = key r0 s) → op r = (Ok a, r') → call_error (note a) = None →
     ∀ k, entry r' k = replay_call r0 (entry r) (note a) k) →
  call_keeps (faithful r0) op note.
Proof.
  intros Hkey Hop r cs a r' [Hk He] Hr. split.
  - intros s. by rewrite (Hkey _ _ _ _ Hr).
  - intros [Hcs Ha]%Forall_app k. unfold replay. rewrite foldl_app. simpl.
    inversion Ha; subst. rewrite (Hop r a r') by done.
    specialize (He Hcs). unfold replay in He. destruct (note a); simpl; unfold write, erase;
      rewrite ?He; try done. by destruct refresh_writes; rewrite ?He.
Qed.

(** Deregistrations in a row. *)
Lemma replay_deregistered r0 gone errs m k : length errs = length gone →
  foldl (replay_call r0) m (zip_with CDeregister gone errs) k =
  if decide (k ∈ key r0 <$> gone) then None else m k.
Proof.
  revert errs m. induction gone as [|s gone IH]; intros [|e errs] m Hl; try done. injection Hl as Hl.
  simpl. rewrite (IH errs) by done. unfold erase.
  destruct (decide (k ∈ key r0 <$> gone)), (decide (k = key r0 s)), (decide (k ∈ _ :: _)); set_solver.
Qed.

Lemma faithful_Register r0 s : call_keeps (faithful r0) (Register s) (CRegister s).
Proof.
  apply call_keeps_faithful; [intros r o r' s' Hr; eapply key_stable; by left|].
  intros r a r' Hk Hr Ha k. simpl in Ha. subst. rewrite (register_writes _ _ _ Hr), Hk. done.
Qed.

Lemma faithful_Deregister r0 s : call_keeps (faithful r0) (Deregister s) (CDeregister s).
Proof.
  apply call_keeps_faithful; [intros r o r' s' Hr; eapply key_stable; right; by left|].
  intros r a r' Hk Hr Ha k. simpl in Ha. subst. rewrite (deregister_deletes _ _ _ Hr), Hk. done.
Qed.

Lemma faithful_Refresh r0 s : call_keeps (faithful r0) (Refresh s) (CRefresh s).
Proof.
  apply call_keeps_faithful; [intros r o r' s' Hr; eapply key_stable; right; by right|].
  intros r a r' Hk Hr Ha k. simpl in Ha. subst. rewrite (refresh_effect _ _ _ Hr), Hk. simpl.
  by destruct refresh_writes.
Qed.

Lemma faithful_Services r0 : call_keeps (faithful r0) Services (λ r, CServices r.2).
Proof.
  apply call_keeps_faithful; [intros r o r' s' Hr; by eapply key_stable_services|].
  intros r a r' Hk Hr _ k. by apply (services_reads _ _ _ Hr).
Qed.

(** The same for the calls made from some moment on. *)
Definition faithful_since (r0 : R) (before : list call) (r : R) (cs : list call) : Prop :=
  ∃ since, cs = before ++ since ∧ faithful r0 r since.

Lemma call_keeps_since r0 before {A} (op : GoM R A) note :
  call_keeps (faithful r0) op note → call_keeps (faithful_since r0 before) op note.
Proof.
  intros Hop r cs a r' (since & -> & Hs) Hr. exists (since ++ [note a]).
  split; [by rewrite app_assoc|]. by eapply Hop.
Qed.
Local Hint Resolve faithful_Register faithful_Deregister faithful_Refresh
  faithful_Services : faithful.

Context `{O : MapOrder} (host : Host.t) (env : Env.t).

(** What a cleanup does to the entries. *)
Lemma cleanup_entries docker b b' cs :
  cleanup host docker b = (Ok (), b') → Bridge.calls b' = Bridge.calls b ++ cs → error_free cs →
  ∀ k, entry (Bridge.registry b') k = replay (Bridge.registry b) cs k.
Proof.
  set (P := faithful_since (Bridge.registry b) (Bridge.calls b)). intros Hrun Hcalls Hok.
  assert (registry_inv P b') as (since & Heq & _ & Hf).
  { apply (steady_alone (registry_inv P) (cleanup_t host docker) b () b').
    - apply (cleanup_steady host (λ b : Bridge.t R, (Bridge.registry b, Bridge.calls b))
        (λ x, P x.1 x.2)); try done; intros; apply (steady_call P), call_keeps_since; eauto with faithful.
    - exists []. split; [by rewrite app_nil_r|done].
    - by rewrite cleanup_alone. }
  rewrite Hcalls in Heq. apply app_inv_head in Heq as <-. by apply Hf.
Qed.

(** However the goroutines interleave, as long as the registry reports no
    error its entries are at any time those that the trace of the bridge's calls
    amounts to: the last registration (or writing refresh) of a key that is not
    deregistered since, and the entries of others untouched. *)
Theorem interleaved_entries r0 config s :
  rtc (istep host env) (Initialize (Bridge.init r0 config)) s →
  error_free (Bridge.calls (Sys.bridge s)) →
  ∀ k, entry (Bridge.registry (Sys.bridge s)) k = replay r0 (Bridge.calls (Sys.bridge s)) k.
Proof.
  intros Hreach Hok.
  eapply (interleaved_registry host env (faithful r0)) in Hreach; [|eauto with faithful..|by split].
  by apply Hreach.
Qed.
End replay.
