(* ===== verification/KvBackends.v ===== *)
(** * The key-value backends: consulkv/, etcd/ and skydns2/

    The clients of Consul and etcd are third-party packages: they are an
    interface here, and so is what was last written through them. The state of an
    adapter is that of its client; the path is fixed when the adapter is made. *)
From stdpp Require Import relations.
From S2P Require Import Prelude GoStrings Types Metadata ServiceId NewService Fixtures.
From S2P Require Import Bridge BridgeProps System Threads Concurrency Sections Interleavings Backend.

(** ** The clients

    [kv_set key value ttl]: etcd's [Set], and Consul's [Put] without a TTL. *)
Class KvClient (C : Type) := {
  kv_set : string → string → option Z → GoM C error;
  kv_delete : string → GoM C error;
  (** The status request of [Ping], and etcd's [SyncCluster]. *)
  kv_ping : GoM C error;
  kv_sync : GoM C bool
}.

(** Calls return, with or without error. *)
Class KvCallsReturn (C : Type) `{KvClient C} : Prop := {
  kv_set_returns k v ttl c : is_Ok (kv_set k v ttl c).1 = true;
  kv_delete_returns k c : is_Ok (kv_delete k c).1 = true;
  kv_sync_returns c : is_Ok (kv_sync c).1 = true
}.

(** What was last written under a key: the value, and the TTL it was written with;
    nothing, if the last that was done to the key was to delete it. This is a history
    and not what a reader of the store finds: once its TTL has passed, the store drops
    an entry by itself, unless it has been written again. A call without error writes
    or deletes under its own key only. *)
Class KvHistory (C : Type) `{KvClient C} := {
  kv_written : C → string → option (string * option Z);
  kv_sync_reads c k : kv_written (kv_sync c).2 k = kv_written c k;
  kv_set_written k v ttl c c' : kv_set k v ttl c = (Ok None, c') →
    ∀ k', kv_written c' k' = if decide (k' = k) then Some (v, ttl) else kv_written c k';
  kv_delete_written k c c' : kv_delete k c = (Ok None, c') →
    ∀ k', kv_written c' k' = if decide (k' = k) then None else kv_written c k'
}.

(** The key of a service under a path, and its value: the address and port. *)
Definition service_key (path : string) (s : Service.t) : string :=
  path +:+ "/" +:+ Service.Name s +:+ "/" +:+ Service.ID s.

Definition service_addr (s : Service.t) : string :=
  JoinHostPort (Service.IP s) (Itoa (Service.Port s)).

(** ** consulkv/consulkv.go *)
Module ConsulKV.
Record t (path : string) (C : Type) := mk { client : C }.
Arguments mk {path C}.
Arguments client {path C}.

Section adapter.
Context {path : string} {C : Type} `{KvClient C}.

Definition on_client {A} (op : GoM C A) : GoM (t path C) A := λ r,
  let '(o, c) := op (client r) in (o, mk c).

Definition Ping : GoM (t path C) error := on_client kv_ping.

Definition Register (service : Service.t) : GoM (t path C) error :=
  base ← lift_outcome (slice_from path 1);
  on_client (kv_set (service_key base service) (service_addr service) None).

Definition Deregister (service : Service.t) : GoM (t path C) error :=
  base ← lift_outcome (slice_from path 1);
  on_client (kv_delete (service_key base service)).

Definition Refresh (service : Service.t) : GoM (t path C) error := mret None.

Definition Services : GoM (t path C) (list Service.t * error) := mret ([], None).

#[global] Instance adapter : RegistryAdapter (t path C) :=
  {| Types.Ping := Ping; Types.Register := Register; Types.Deregister := Deregister;
     Types.Refresh := Refresh; Types.Services := Services |}.
End adapter.
End ConsulKV.

(** ** etcd/etcd.go

    One of the two clients is set: the one for etcd 0.4, or the one for 2.x. *)
Module Etcd.
Record t (path : string) (C0 C2 : Type) := mk { client : C0 + C2 }.
Arguments mk {path C0 C2}.
Arguments client {path C0 C2}.

(** Does the body of [/version] match [0\.4\.*]? The expression is not anchored,
    and needs the three bytes only. *)
Definition uses_v0 (body : string) : bool := Contains body "0.4".

Section adapter.
Context {path : string} {C0 C2 : Type} `{KvClient C0} `{KvClient C2}.

Definition on_client {A} (op0 : GoM C0 A) (op2 : GoM C2 A) : GoM (t path C0 C2) A := λ r,
  match client r with
  | inl c => let '(o, c) := op0 c in (o, mk (inl c))
  | inr c => let '(o, c) := op2 c in (o, mk (inr c))
  end.

Definition syncEtcdCluster : GoM (t path C0 C2) unit :=
  _ ← on_client kv_sync kv_sync; mret ().

Definition Ping : GoM (t path C0 C2) error :=
  _ ← syncEtcdCluster; on_client kv_ping kv_ping.

Definition Register (service : Service.t) : GoM (t path C0 C2) error :=
  _ ← syncEtcdCluster;
  let key := service_key path service in
  let ttl := Some (to_uint64 (Service.TTL service)) in
  on_client (kv_set key (service_addr service) ttl) (kv_set key (service_addr service) ttl).

Definition Deregister (service : Service.t) : GoM (t path C0 C2) error :=
  _ ← syncEtcdCluster;
  let key := service_key path service in
  on_client (kv_delete key) (kv_delete key).

Definition Refresh (service : Service.t) : GoM (t path C0 C2) error := Register service.

Definition Services : GoM (t path C0 C2) (list Service.t * error) := mret ([], None).

#[global] Instance adapter : RegistryAdapter (t path C0 C2) :=
  {| Types.Ping := Ping; Types.Register := Register; Types.Deregister := Deregister;
     Types.Refresh := Refresh; Types.Services := Services |}.
End adapter.
End Etcd.

(** ** skydns2/skydns2.go *)
Definition quote : string := String (ascii_of_nat 34) "".

(** The swapping loop of [domainPath]. *)
Fixpoint swap_loop (fuel i j : nat) (components : list string) : list string :=
  match fuel with
  | O => components
  | S fuel =>
      if decide (i < j) then
        let ci := default "" (components !! i) in
        let cj := default "" (components !! j) in
        swap_loop fuel (i + 1) (j - 1) (<[j := ci]> (<[i := cj]> components))
      else components
  end.

Definition domainPath (domain : string) : string :=
  let components := Split domain "." in
  "/skydns/" +:+ Join (swap_loop (length components) 0 (length components - 1) components) "/".

Module Skydns2.
Record t (path : string) (C : Type) := mk { client : C }.
Arguments mk {path C}.
Arguments client {path C}.

(** The path of the adapter [New] makes for a URI. *)
Definition New_path (uriPath : string) : outcome string :=
  if decide (String.length uriPath < 2) then Exited 1
  else domain ← slice_from uriPath 1; mret (domainPath domain).

Section adapter.
Context {path : string} {C : Type} `{KvClient C}.

Definition on_client {A} (op : GoM C A) : GoM (t path C) A := λ r,
  let '(o, c) := op (client r) in (o, mk c).

Definition Ping : GoM (t path C) error := on_client kv_ping.

Definition record (service : Service.t) : string :=
  "{" +:+ quote +:+ "host" +:+ quote +:+ ":" +:+ quote +:+ Service.IP service +:+ quote +:+ "," +:+
  quote +:+ "port" +:+ quote +:+ ":" +:+ Itoa (Service.Port service) +:+ "}".

Definition servicePath (service : Service.t) : string := service_key path service.

Definition Register (service : Service.t) : GoM (t path C) error :=
  on_client (kv_set (servicePath service) (record service)
               (Some (to_uint64 (Service.TTL service)))).

Definition Deregister (service : Service.t) : GoM (t path C) error :=
  on_client (kv_delete (servicePath service)).

Definition Refresh (service : Service.t) : GoM (t path C) error := Register service.

Definition Services : GoM (t path C) (list Service.t * error) := mret ([], None).

#[global] Instance adapter : RegistryAdapter (t path C) :=
  {| Types.Ping := Ping; Types.Register := Register; Types.Deregister := Deregister;
     Types.Refresh := Refresh; Types.Services := Services |}.
End adapter.
End Skydns2.

(** ** The backends implement the interface *)
Section consulkv.
Context {path : string} {C : Type} `{KC : KvClient C} `{KR : !KvCallsReturn C} `{KH : !KvHistory C}.
Implicit Types r : ConsulKV.t path C.

Lemma consulkv_on_client {A} (op : GoM C A) r o r' :
  ConsulKV.on_client op r = (o, r') → ∃ c, op (ConsulKV.client r) = (o, c) ∧ r' = ConsulKV.mk c.
Proof. unfold ConsulKV.on_client. destruct (op _) as [o' c]. intros [= <- <-]. eauto. Qed.

Lemma consulkv_call {A} (op : string → GoM C A) r o r' :
  (base ← lift_outcome (slice_from path 1); ConsulKV.on_client (op base)) r = (o, r') →
  is_Ok o = true →
  ∃ c, op (sdrop 1 path) (ConsulKV.client r) = (o, c) ∧ r' = ConsulKV.mk c.
Proof.
  unfold slice_from. case_decide; [|by intros [= <- <-]]. intros Hr _. by apply consulkv_on_client.
Qed.

#[export] Program Instance consulkv_keyed : KeyedBackend (ConsulKV.t path C) (string * option Z) := {|
  entry r := kv_written (ConsulKV.client r);
  key _ := service_key (sdrop 1 path);
  value s := (service_addr s, None);
  refresh_writes := false
|}.
Next Obligation. done. Qed.
Next Obligation. done. Qed.
Next Obligation.
  intros s r r' Hr k. apply consulkv_call in Hr as (c & Hc & ->); [|done].
  by apply (kv_set_written _ _ _ _ _ Hc).
Qed.
Next Obligation.
  intros s r r' Hr k. apply consulkv_call in Hr as (c & Hc & ->); [|done].
  by apply (kv_delete_written _ _ _ Hc).
Qed.
Next Obligation. intros s r r' [= <-] k. done. Qed.
Next Obligation. intros r o r' [= <- <-] k. done. Qed.

Lemma consulkv_returns : path ≠ "" → RegistryReturns (ConsulKV.t path C).
Proof.
  intros Hp. assert (slice_from path 1 = Ok (sdrop 1 path)) as Hs.
  { unfold slice_from. rewrite decide_True; [done|]. destruct path; [done|simpl; lia]. }
  split; simpl; try done; intros s r.
  - unfold ConsulKV.Register. rewrite Hs. erewrite GoM_bind_Ok by reflexivity.
    unfold ConsulKV.on_client.
    pose proof (kv_set_returns (service_key (sdrop 1 path) s) (service_addr s) None
                  (ConsulKV.client r)). by destruct (kv_set _ _ _ _).
  - unfold ConsulKV.Deregister. rewrite Hs. erewrite GoM_bind_Ok by reflexivity.
    unfold ConsulKV.on_client.
    pose proof (kv_delete_returns (service_key (sdrop 1 path) s) (ConsulKV.client r)).
    by destruct (kv_delete _ _).
Qed.
End consulkv.

Section skydns2.
Context {path : string} {C : Type} `{KC : KvClient C} `{KR : !KvCallsReturn C} `{KH : !KvHistory C}.
Implicit Types r : Skydns2.t path C.

Lemma skydns2_on_client {A} (op : GoM C A) r o r' :
  Skydns2.on_client op r = (o, r') → ∃ c, op (Skydns2.client r) = (o, c) ∧ r' = Skydns2.mk c.
Proof. unfold Skydns2.on_client. destruct (op _) as [o' c]. intros [= <- <-]. eauto. Qed.

#[export] Program Instance skydns2_keyed : KeyedBackend (Skydns2.t path C) (string * option Z) := {|
  entry r := kv_written (Skydns2.client r);
  key _ := service_key path;
  value s := (Skydns2.record s, Some (to_uint64 (Service.TTL s)));
  refresh_writes := true
|}.
Next Obligation. done. Qed.
Next Obligation. done. Qed.
Next Obligation.
  intros s r r' (c & Hc & ->)%skydns2_on_client k. by apply (kv_set_written _ _ _ _ _ Hc).
Qed.
Next Obligation.
  intros s r r' (c & Hc & ->)%skydns2_on_client k. by apply (kv_delete_written _ _ _ Hc).
Qed.
Next Obligation.
  intros s r r' (c & Hc & ->)%skydns2_on_client k. by apply (kv_set_written _ _ _ _ _ Hc).
Qed.
Next Obligation. intros r o r' [= <- <-] k. done. Qed.

#[export] Instance skydns2_returns : RegistryReturns (Skydns2.t path C).
Proof.
  assert (∀ (op : GoM C error) r, is_Ok (op (Skydns2.client r)).1 = true →
            is_Ok (Skydns2.on_client (path := path) op r).1 = true) as Hop.
  { intros op r. unfold Skydns2.on_client. by destruct (op _). }
  split; intros; try done; apply Hop; first [apply kv_set_returns|apply kv_delete_returns].
Qed.
End skydns2.

Section etcd.
Context {path : string} {C0 C2 : Type} `{K0 : KvClient C0} `{K2 : KvClient C2}.
Context `{R0 : !KvCallsReturn C0} `{R2 : !KvCallsReturn C2} `{H0 : !KvHistory C0} `{H2 : !KvHistory C2}.
Implicit Types r : Etcd.t path C0 C2.

Definition etcd_written (r : Etcd.t path C0 C2) : string → option (string * option Z) :=
  match Etcd.client r with inl c => kv_written c | inr c => kv_written c end.

Lemma etcd_sync_returns r : is_Ok (Etcd.syncEtcdCluster r).1 = true.
Proof using R0 R2.
  unfold Etcd.syncEtcdCluster, Etcd.on_client, mbind, GoM_bind.
  destruct (Etcd.client r) as [c|c]; pose proof (kv_sync_returns c) as Hs;
    by destruct (kv_sync c) as [[]].
Qed.

Lemma etcd_sync {A} (k : GoM (Etcd.t path C0 C2) A) r a r' :
  (_ ← Etcd.syncEtcdCluster; k) r = (Ok a, r') →
  ∃ r1, k r1 = (Ok a, r') ∧ ∀ key, etcd_written r1 key = etcd_written r key.
Proof using.
  intros ([] & r1 & Hs & Hk)%GoM_bind_inv. exists r1. split; [done|]. intros key.
  unfold Etcd.syncEtcdCluster, Etcd.on_client, mbind, GoM_bind in Hs.
  unfold etcd_written. destruct (Etcd.client r) as [c|c]; pose proof (kv_sync_reads c key) as Hr;
    destruct (kv_sync c) as [[]]; try done; injection Hs as <-; done.
Qed.

Lemma etcd_set k v ttl r r' :
  Etcd.on_client (kv_set k v ttl) (kv_set k v ttl) r = (Ok None, r') →
  ∀ k', etcd_written r' k' = if decide (k' = k) then Some (v, ttl) else etcd_written r k'.
Proof.
  unfold Etcd.on_client, etcd_written. destruct (Etcd.client r) as [c|c];
    destruct (kv_set k v ttl c) as [o c'] eqn:Hc; intros [= -> <-]; by eapply kv_set_written.
Qed.

Lemma etcd_delete k r r' :
  Etcd.on_client (kv_delete k) (kv_delete k) r = (Ok None, r') →
  ∀ k', etcd_written r' k' = if decide (k' = k) then None else etcd_written r k'.
Proof.
  unfold Etcd.on_client, etcd_written. destruct (Etcd.client r) as [c|c];
    destruct (kv_delete k c) as [o c'] eqn:Hc; intros [= -> <-]; by eapply kv_delete_written.
Qed.

#[export] Program Instance etcd_keyed : KeyedBackend (Etcd.t path C0 C2) (string * option Z) := {|
  entry := etcd_written;
  key _ := service_key path;
  value s := (service_addr s, Some (to_uint64 (Service.TTL s)));
  refresh_writes := true
|}.
Next Obligation. done. Qed.
Next Obligation. done. Qed.
Next Obligation.
  intros s r r' (r1 & Hr & Hk)%etcd_sync k. by rewrite (etcd_set _ _ _ _ _ Hr k), Hk.
Qed.
Next Obligation.
  intros s r r' (r1 & Hr & Hk)%etcd_sync k. by rewrite (etcd_delete _ _ _ Hr k), Hk.
Qed.
Next Obligation.
  intros s r r' (r1 & Hr & Hk)%etcd_sync k. by rewrite (etcd_set _ _ _ _ _ Hr k), Hk.
Qed.
Next Obligation. intros r o r' [= <- <-] k. done. Qed.

#[export] Instance etcd_returns : RegistryReturns (Etcd.t path C0 C2).
Proof.
  assert (∀ (op0 : GoM C0 error) (op2 : GoM C2 error) r,
            (∀ c, is_Ok (op0 c).1 = true) → (∀ c, is_Ok (op2 c).1 = true) →
            is_Ok ((_ ← Etcd.syncEtcdCluster; Etcd.on_client op0 op2) r).1 = true) as Hop.
  { intros op0 op2 r Hop0 Hop2. pose proof (etcd_sync_returns r) as Hs. unfold mbind, GoM_bind.
    destruct (Etcd.syncEtcdCluster r) as [[]]; try done. unfold Etcd.on_client.
    destruct (Etcd.client _) as [c|c]; [specialize (Hop0 c)|specialize (Hop2 c)];
      [by destruct (op0 c)|by destruct (op2 c)]. }
  split; intros; try done; apply Hop; intros;
    first [apply kv_set_returns|apply kv_delete_returns].
Qed.
End etcd.

(** ** Keys *)
Lemma slash_cut (n1 n2 i1 i2 : string) :
  has_byte "/" n1 = false → has_byte "/" n2 = false →
  n1 +:+ "/" +:+ i1 = n2 +:+ "/" +:+ i2 → n1 = n2 ∧ i1 = i2.
Proof.
  revert n2. induction n1 as [|c n1 IH]; intros [|c2 n2] H1 H2 Heq.
  - rewrite !sapp_nil_l in Heq. by injection Heq.
  - rewrite sapp_nil_l, !sapp_cons, sapp_nil_l in Heq. injection Heq as <- _.
    rewrite has_byte_cons in H2. by rewrite bool_decide_eq_true_2 in H2.
  - rewrite sapp_nil_l, !sapp_cons, sapp_nil_l in Heq. injection Heq as -> _.
    rewrite has_byte_cons in H1. by rewrite bool_decide_eq_true_2 in H1.
  - rewrite !sapp_cons in Heq. injection Heq as -> Heq.
    rewrite has_byte_cons in H1, H2. apply orb_false_iff in H1 as [_ H1], H2 as [_ H2].
    destruct (IH n2 H1 H2) as [-> ->]; [|done]. by rewrite !sapp_cons, !sapp_nil_l.
Qed.

Lemma sapp_inj_l (p s t : string) : p +:+ s = p +:+ t → s = t.
Proof.
  induction p as [|c p IH]; [by rewrite !sapp_nil_l|]. rewrite !sapp_cons. intros [= H]. auto.
Qed.

(** Under one path, two services whose names have no slash share a key only
    if they have the same name and the same ID: no registration overwrites or
    deletes that of another service. *)
Theorem service_key_injective path s1 s2 :
  has_byte "/" (Service.Name s1) = false → has_byte "/" (Service.Name s2) = false →
  service_key path s1 = service_key path s2 →
  Service.Name s1 = Service.Name s2 ∧ Service.ID s1 = Service.ID s2.
Proof.
  unfold service_key. intros H1 H2 Hk%sapp_inj_l%(sapp_inj_l "/"). by apply slash_cut.
Qed.

Lemma service_key_injective_witness :
  let s := Service.mk "box:nginx.0:80" "shop-80" 8000 "10.0.0.1" false [] ∅ 30 ServicePort.zero in
  Service.Name s = Service.Name s ∧ Service.ID s = Service.ID s.
Proof.
  intros s. apply (service_key_injective "/services" s s); vm_compute; reflexivity.
Defined.

(** ** [domainPath] *)
Lemma swap_loop_lookup fuel i j (l : list string) k :
  i + j = length l - 1 → j - i < fuel → j < length l →
  swap_loop fuel i j l !! k = if decide (i ≤ k ≤ j) then l !! (length l - 1 - k) else l !! k.
Proof.
  revert i j l. induction fuel as [|fuel IH]; intros i j l Hij Hf Hj; [lia|]. simpl.
  destruct (decide (i < j)) as [Hlt|Hge].
  - destruct (lookup_lt_is_Some_2 l i ltac:(lia)) as [ci Hci].
    destruct (lookup_lt_is_Some_2 l j Hj) as [cj Hcj]. rewrite Hci, Hcj. simpl.
    rewrite IH; rewrite ?length_insert; try lia. replace (length l - 1) with (i + j) by lia.
    assert (∀ m, m ≠ i → m ≠ j → <[j:=ci]> (<[i:=cj]> l) !! m = l !! m) as Hother.
    { intros m Hi' Hj'. by rewrite !list_lookup_insert_ne by done. }
    assert (<[j:=ci]> (<[i:=cj]> l) !! j = Some ci) as Hatj.
    { by apply list_lookup_insert_eq; rewrite length_insert. }
    assert (<[j:=ci]> (<[i:=cj]> l) !! i = Some cj) as Hati.
    { rewrite list_lookup_insert_ne by lia. apply list_lookup_insert_eq. lia. }
    destruct (decide (k = i)) as [->|Hki].
    { rewrite decide_False, decide_True by lia. rewrite Hati. by replace (i + j - i) with j by lia. }
    destruct (decide (k = j)) as [->|Hkj].
    { rewrite decide_False, decide_True by lia. rewrite Hatj. by replace (i + j - j) with i by lia. }
    destruct (decide (i ≤ k ≤ j)).
    + rewrite decide_True by lia. apply Hother; lia.
    + rewrite decide_False by lia. apply Hother; lia.
  - case_decide; [|done]. by replace (length l - 1 - k) with k by lia.
Qed.

Lemma swap_loop_reverse (l : list string) :
  swap_loop (length l) 0 (length l - 1) l = reverse l.
Proof.
  destruct (decide (l = [])) as [->|Hne]; [done|].
  assert (0 < length l) by (destruct l; simpl; [done|lia]).
  apply list_eq. intros k. rewrite swap_loop_lookup by lia. case_decide as Hk.
  - rewrite reverse_lookup by lia. f_equal. lia.
  - rewrite (lookup_ge_None_2 l k) by lia. symmetry. apply lookup_ge_None_2.
    rewrite length_reverse. lia.
Qed.

(** The path SkyDNS 2 looks a domain up under has its labels from the last
    to the first, and taking it apart gives the domain back. *)
Theorem domainPath_spec domain : has_byte "/" domain = false →
  domainPath domain = "/skydns/" +:+ Join (reverse (Split domain ".")) "/" ∧
  Join (reverse (Split (sdrop 8 (domainPath domain)) "/")) "." = domain.
Proof.
  intros Hd. assert (domainPath domain = "/skydns/" +:+ Join (reverse (Split domain ".")) "/") as Hp.
  { unfold domainPath. by rewrite swap_loop_reverse. }
  split; [done|]. rewrite Hp. change (sdrop 8 ("/skydns/" +:+ ?s)) with s.
  rewrite Split_Join, reverse_involutive; [apply Join_Split|..].
  - intros Hr. apply (f_equal reverse) in Hr. rewrite reverse_involutive in Hr.
    by apply Split_nonempty in Hr.
  - by apply Forall_reverse, Split_has_byte.
Qed.

Lemma domainPath_spec_witness :
  domainPath "skydns.local" = "/skydns/" +:+ Join (reverse ["skydns"; "local"]) "/" ∧
  Join (reverse (Split (sdrop 8 (domainPath "skydns.local")) "/")) "." = "skydns.local".
Proof. apply (domainPath_spec "skydns.local"). vm_compute. reflexivity. Defined.

(** ** A store in memory, and the bridge on top of it *)
Module KvRuns.
Definition kv : Type := gmap string (string * option Z).

#[global] Instance kv_client : KvClient kv := {|
  kv_set k v ttl m := (Ok None, <[k := (v, ttl)]> m);
  kv_delete k m := (Ok None, delete k m);
  kv_ping m := (Ok None, m);
  kv_sync m := (Ok true, m)
|}.

#[global] Instance kv_calls_return : KvCallsReturn kv.
Proof. by split. Qed.

#[global] Program Instance kv_history : KvHistory kv := {| kv_written m k := m !! k |}.
Next Obligation. done. Qed.
Next Obligation.
  intros k v ttl c c' [= <-] k'. destruct (decide (k' = k)) as [->|Hne];
      [apply (lookup_insert_eq (M := gmap string))|by apply (lookup_insert_ne (M := gmap string))].
Qed.
Next Obligation.
  intros k c c' [= <-] k'. destruct (decide (k' = k)) as [->|Hne];
      [apply (lookup_delete_eq (M := gmap string))|by apply (lookup_delete_ne (M := gmap string))].
Qed.

Definition etcd : Etcd.t "/services" kv kv := Etcd.mk (inr ∅).

Definition start : operation := OpAdd Fixtures.docker Fixtures.web_id false "".

Definition added : Bridge.t (Etcd.t "/services" kv kv) :=
  (run_operation (O := ascending) Fixtures.host start (Bridge.init etcd Fixtures.config)).2.

Lemma added_reachable :
  rtc (istep (O := ascending) Fixtures.host Env.any) (Initialize (Bridge.init etcd Fixtures.config))
    (Sys.mk added [Ret ()] 0 [] ChWait).
Proof.
  eapply rtc_l; [by apply (istep_call _ _ start)|]. apply (run_alone _ _ 0 [] ChWait [] []).
  etrans; [apply add_alone|]. vm_compute. reflexivity.
Qed.
End KvRuns.

Lemma interleaved_entries_witness :
  entry (Bridge.registry KvRuns.added) "/services/shop-80/box:nginx.0:80" =
    Some ("192.168.1.102:8000", Some 30%Z) ∧
  ∀ k, entry (Bridge.registry KvRuns.added) k = replay KvRuns.etcd (Bridge.calls KvRuns.added) k.
Proof.
  split; [vm_compute; reflexivity|].
  apply (interleaved_entries (O := ascending) Fixtures.host Env.any KvRuns.etcd Fixtures.config _
    KvRuns.added_reachable).
  vm_compute. repeat constructor.
Defined.
