(* ===== verification/Zookeeper.v ===== *)
(** * The ZooKeeper backend: zookeeper/zookeeper.go

    The connection is a third-party package: an interface here. The body of a
    znode is the structure [json.Marshal] encodes (which cannot fail for it), or
    nothing. *)
From S2P Require Import Prelude GoStrings Types.

Module ZnodeBody.
Record t := mk {
  Name : string;
  IP : string;
  PublicPort : Z;
  PrivatePort : Z;
  ContainerID : string;
  Tags : list string;
  Attrs : gmap string string
}.
End ZnodeBody.

Class ZkConn (C : Type) := {
  zk_Exists : string → GoM C (bool * error);
  (** The flag says whether the node is ephemeral. *)
  zk_Create : string → option ZnodeBody.t → bool → GoM C error;
  zk_Delete : string → GoM C error;
  zk_Children : string → GoM C (list string * error)
}.

Module Zk.
Section adapter.
Context {C : Type} `{ZkConn C} (path : string).

Definition basePath (service : Service.t) : string :=
  if decide (path = "/") then path +:+ Service.Name service
  else path +:+ "/" +:+ Service.Name service.

Definition nodePath (service : Service.t) : string :=
  basePath service +:+ "/" +:+ Service.IP service +:+ ":" +:+ Itoa (Service.Port service).

Definition body (service : Service.t) : ZnodeBody.t :=
  {| ZnodeBody.Name := Service.Name service;
     ZnodeBody.IP := Service.IP service;
     ZnodeBody.PublicPort := Service.Port service;
     ZnodeBody.PrivatePort := (Atoi (ServicePort.ExposedPort (Service.Origin service))).1;
     ZnodeBody.ContainerID := ServicePort.ContainerHostname (Service.Origin service);
     ZnodeBody.Tags := Service.Tags service;
     ZnodeBody.Attrs := Service.Attrs service |}.

(** The variable [err] of the inner blocks is not the one that is returned. *)
Definition Register (service : Service.t) : GoM C error :=
  '(exists_, err) ← zk_Exists (basePath service);
  match err with
  | Some _ => mret err
  | None =>
      _ ← (if (exists_ : bool) then mret None else zk_Create (basePath service) None false);
      _ ← zk_Create (nodePath service) (Some (body service)) true;
      mret err
  end.

Definition Ping : GoM C error := '(_, err) ← zk_Exists "/"; mret err.

Definition Deregister (service : Service.t) : GoM C error :=
  _ ← zk_Delete (nodePath service);
  '(children, err) ← zk_Children (basePath service);
  _ ← (if decide (length children = 0) then zk_Delete (basePath service) else mret None);
  mret err.

Definition Refresh (service : Service.t) : GoM C error := Register service.

Definition Services : GoM C (list Service.t * error) := mret ([], None).

Definition adapter : RegistryAdapter C :=
  {| Types.Ping := Ping; Types.Register := Register; Types.Deregister := Deregister;
     Types.Refresh := Refresh; Types.Services := Services |}.
End adapter.
End Zk.

(** ** The server

    A node is created under an existing parent only, and deleted when it has no
    children. The parent of a path ends at its last slash. *)
Definition znode_tree : Type := gmap string (option ZnodeBody.t).

Definition parent (p : string) : string :=
  match LastIndex p "/" with
  | Some 0 | None => "/"
  | Some i => stake i p
  end.

Definition present (tree : znode_tree) (p : string) : bool :=
  bool_decide (p = "/") || bool_decide (is_Some (tree !! p)).

Definition children (tree : znode_tree) (p : string) : list string :=
  filter (λ c, c ≠ "/" ∧ parent c = p) (map_to_list tree).*1.

(** What ZooKeeper documents of the calls, while no other client is at work. A call
    returns. A check and a listing change nothing, and without error they report what
    there is. A node that exists is not created and one without a parent neither, and
    one with children is not deleted: these are errors, and the tree stays. There are
    others, as when the connection is lost, after which the change may have been made
    or not; without error it has been made. *)
Class ZkServer (C : Type) `{ZkConn C} := {
  znodes : C → znode_tree;
  zk_Exists_effect p c : ∃ b err, (zk_Exists p c).1 = Ok (b, err) ∧
    znodes (zk_Exists p c).2 = znodes c ∧ (err = None → b = present (znodes c) p);
  zk_Create_effect p b e c : ∃ err, (zk_Create p b e c).1 = Ok err ∧
    (err ≠ None ∧ znodes (zk_Create p b e c).2 = znodes c ∨
     present (znodes c) p = false ∧ present (znodes c) (parent p) = true ∧
     znodes (zk_Create p b e c).2 = <[p := b]> (znodes c));
  zk_Delete_effect p c : ∃ err, (zk_Delete p c).1 = Ok err ∧
    (err ≠ None ∧ znodes (zk_Delete p c).2 = znodes c ∨
     present (znodes c) p = true ∧ children (znodes c) p = [] ∧
     znodes (zk_Delete p c).2 = delete p (znodes c));
  zk_Children_effect p c : ∃ kids err, (zk_Children p c).1 = Ok (kids, err) ∧
    znodes (zk_Children p c).2 = znodes c ∧
    (err = None → kids = [] ↔ children (znodes c) p = [])
}.





Section effects.
Context {C : Type} `{ZS : ZkServer C} (path : string).
Implicit Types (s : Service.t) (c : C) (t : znode_tree).










End effects.

(** ** A server in memory *)
Module ZkTree.
Definition t : Type := znode_tree.

Definition Create (p : string) (b : option ZnodeBody.t) (tree : t) : outcome error * t :=
  if present tree p then (Ok (Some "node exists"), tree)
  else if present tree (parent p) then (Ok None, <[p := b]> tree)
  else (Ok (Some "no parent"), tree).

Definition Delete (p : string) (tree : t) : outcome error * t :=
  if present tree p then
    if decide (children tree p = []) then (Ok None, delete p tree)
    else (Ok (Some "not empty"), tree)
  else (Ok (Some "no node"), tree).

#[global] Instance conn : ZkConn t := {|
  zk_Exists p tree := (Ok (present tree p, None), tree);
  zk_Create p b _ tree := Create p b tree;
  zk_Delete p tree := Delete p tree;
  zk_Children p tree :=
    if present tree p then (Ok (children tree p, None), tree)
    else (Ok ([], Some "no node"), tree)
|}.

#[global] Program Instance server : ZkServer t := {| znodes tree := tree |}.
Next Obligation. intros p c. by eexists _, _. Qed.
Next Obligation.
  intros p b e c. simpl. unfold Create. destruct (present c p); [eexists; split; [done|by left]|].
  destruct (present c (parent p)); eexists; (split; [done|]); [by right|by left].
Qed.
Next Obligation.
  intros p c. simpl. unfold Delete. destruct (present c p); [|eexists; split; [done|by left]].
  case_decide; eexists; (split; [done|]); [by right|by left].
Qed.
Next Obligation. intros p c. simpl. destruct (present c p); by eexists _, _. Qed.

End ZkTree.

