(* ===== verification/Consul.v ===== *)
(** * The Consul backend: consul/consul.go

    The Consul client is a third-party package: an interface here. *)
From S2P Require Import Prelude GoStrings Types.

(** [AgentServiceCheck]: the fields the adapter sets. *)
Module Check.
Record t := mk {
  Status : string;
  HTTP : string;
  Timeout : string;
  Script : string;
  TTL : string;
  TCP : string;
  Interval : string
}.
#[global] Instance eq_dec : EqDecision t.
Proof. solve_decision. Defined.
End Check.

Module Registration.
Record t := mk {
  ID : string;
  Name : string;
  Port : Z;
  Tags : list string;
  Address : string;
  Check : option Check.t
}.
End Registration.

Definition DefaultInterval : string := "10s".

Definition interpolateService (script : string) (service : Service.t) : string :=
  let withIp := Replace script "$SERVICE_IP" (ServicePort.HostIP (Service.Origin service)) in
  Replace withIp "$SERVICE_PORT" (ServicePort.HostPort (Service.Origin service)).

(** The cascade of [buildCheck]: the first attribute set decides the kind of the
    check. *)
Definition check_kind (service : Service.t) : outcome (option Check.t) :=
  let status := attr service "check_initial_status" in
  let host_port := Service.IP service +:+ ":" +:+ Itoa (Service.Port service) in
  let timeout := attr service "check_timeout" in
  if decide (attr service "check_http" ≠ "") then
    mret (Some (Check.mk status ("http://" +:+ host_port +:+ attr service "check_http")
                  timeout "" "" "" ""))
  else if decide (attr service "check_https" ≠ "") then
    mret (Some (Check.mk status ("https://" +:+ host_port +:+ attr service "check_https")
                  timeout "" "" "" ""))
  else if decide (attr service "check_cmd" ≠ "") then
    id ← slice_to (ServicePort.ContainerID (Service.Origin service)) 12;
    mret (Some (Check.mk status "" ""
      ("check-cmd " +:+ id +:+ " " +:+ ServicePort.ExposedPort (Service.Origin service) +:+ " " +:+
         attr service "check_cmd") "" "" ""))
  else if decide (attr service "check_script" ≠ "") then
    mret (Some (Check.mk status "" ""
      (interpolateService (attr service "check_script") service) "" "" ""))
  else if decide (attr service "check_ttl" ≠ "") then
    mret (Some (Check.mk status "" "" "" (attr service "check_ttl") "" ""))
  else if decide (attr service "check_tcp" ≠ "") then
    mret (Some (Check.mk status "" timeout "" "" host_port ""))
  else mret None.

Definition set_Interval (i : string) (c : Check.t) : Check.t :=
  Check.mk (Check.Status c) (Check.HTTP c) (Check.Timeout c) (Check.Script c) (Check.TTL c)
    (Check.TCP c) i.

Definition buildCheck (service : Service.t) : outcome (option Check.t) :=
  check ← check_kind service;
  match check with
  | None => mret None
  | Some check =>
      if decide (Check.Script check ≠ "" ∨ Check.HTTP check ≠ "" ∨ Check.TCP check ≠ "") then
        let interval := attr service "check_interval" in
        mret (Some (set_Interval (if decide (interval ≠ "") then interval else DefaultInterval) check))
      else mret (Some check)
  end.

(** [AgentService], as [Agent().Services()] lists it. *)
Module AgentService.
Record t := mk {
  ID : string;
  Service : string;
  Port : Z;
  Tags : list string;
  Address : string
}.
End AgentService.

Class ConsulClient (C : Type) := {
  consul_Leader : GoM C (string * error);
  consul_ServiceRegister : Registration.t → GoM C error;
  consul_ServiceDeregister : string → GoM C error;
  (** The services by ID. *)
  consul_Services : GoM C (gmap string AgentService.t + string)
}.

Module Consul.
Section adapter.
Context {C : Type} `{ConsulClient C} `{MapOrder}.

Definition Ping : GoM C error := '(_, err) ← consul_Leader; mret err.

Definition registration (service : Service.t) : outcome Registration.t :=
  check ← buildCheck service;
  mret {| Registration.ID := Service.ID service;
          Registration.Name := Service.Name service;
          Registration.Port := Service.Port service;
          Registration.Tags := Service.Tags service;
          Registration.Address := Service.IP service;
          Registration.Check := check |}.

Definition Register (service : Service.t) : GoM C error :=
  reg ← lift_outcome (registration service);
  consul_ServiceRegister reg.

Definition Deregister (service : Service.t) : GoM C error :=
  consul_ServiceDeregister (Service.ID service).

Definition Refresh (service : Service.t) : GoM C error := mret None.

Definition listed (v : AgentService.t) : Service.t :=
  Service.mk (AgentService.ID v) (AgentService.Service v) (AgentService.Port v)
    (AgentService.Address v) false (AgentService.Tags v) ∅ 0 ServicePort.zero.

Definition Services : GoM C (list Service.t * error) :=
  services ← consul_Services;
  match services with
  | inr err => mret ([], Some err)
  | inl services => mret (listed <$> (range services).*2, None)
  end.

#[global] Instance adapter : RegistryAdapter C :=
  {| Types.Ping := Ping; Types.Register := Register; Types.Deregister := Deregister;
     Types.Refresh := Refresh; Types.Services := Services |}.
End adapter.
End Consul.

(** ** The check that is built *)
Definition check_keys : list string :=
  ["check_http"; "check_https"; "check_cmd"; "check_script"; "check_ttl"; "check_tcp"].

(** How many things a check runs, asks or waits for. *)
Definition targets (c : Check.t) : nat :=
  Nat.b2n (bool_decide (Check.HTTP c ≠ "")) + Nat.b2n (bool_decide (Check.Script c ≠ "")) +
  Nat.b2n (bool_decide (Check.TTL c ≠ "")) + Nat.b2n (bool_decide (Check.TCP c ≠ "")).

(** A check as the cascade makes it: at most one target, and no interval yet. *)
Definition plain (service : Service.t) (c : Check.t) : Prop :=
  targets c ≤ 1 ∧ Check.Interval c = "" ∧
  Check.Status c = attr service "check_initial_status".

Local Ltac plain_check :=
  split; [split; [done|intros Hall; repeat (inversion Hall as [|? ? ? Hall']; clear Hall;
                                             rename Hall' into Hall; subst); done]|];
  intros ? [= <-]; repeat split; unfold targets; simpl;
  repeat case_bool_decide; simpl; done || lia.

Lemma check_kind_spec service :
  (12 ≤ String.length (ServicePort.ContainerID (Service.Origin service)) ∨
   attr service "check_cmd" = "") →
  ∃ c, check_kind service = Ok c ∧
    (c = None ↔ Forall (λ k, attr service k = "") check_keys) ∧
    ∀ check, c = Some check → plain service check.
Proof.
  intros Hid. unfold check_kind, check_keys.
  case_decide as H1; [eexists; split; [reflexivity|plain_check]|].
  case_decide as H2; [eexists; split; [reflexivity|plain_check]|].
  case_decide as H3.
  { unfold slice_to. rewrite decide_True by naive_solver.
    eexists; split; [reflexivity|plain_check]. }
  case_decide as H4; [eexists; split; [reflexivity|plain_check]|].
  case_decide as H5; [eexists; split; [reflexivity|plain_check]|].
  case_decide as H6; [eexists; split; [reflexivity|plain_check]|].
  exists None. split; [done|]. split; [|done]. split; [|done]. intros _.
  by repeat (apply Forall_cons; split; [done|]); apply Forall_nil.
Qed.

(** C32: [buildCheck] panics only for a [check_cmd] on a container ID of less than
    12 bytes; it builds a check exactly when one of the check attributes is set.
    The check has at most one target, and an interval exactly when that target
    has to be polled, that is, unless it is a TTL check. *)
Theorem buildCheck_spec service :
  (12 ≤ String.length (ServicePort.ContainerID (Service.Origin service)) ∨
   attr service "check_cmd" = "") →
  ∃ c, buildCheck service = Ok c ∧
    (c = None ↔ Forall (λ k, attr service k = "") check_keys) ∧
    ∀ check, c = Some check →
      targets check ≤ 1 ∧
      Check.Status check = attr service "check_initial_status" ∧
      (Check.Interval check ≠ "" ↔
         Check.HTTP check ≠ "" ∨ Check.Script check ≠ "" ∨ Check.TCP check ≠ "") ∧
      (Check.TTL check ≠ "" → Check.Interval check = "").
Proof.
  intros Hid. destruct (check_kind_spec service Hid) as (c & Hc & Hnone & Hplain).
  unfold buildCheck. rewrite Hc. simpl. destruct c as [check|]; [|by exists None].
  destruct (Hplain check eq_refl) as (Ht & Hi & Hs). clear Hplain Hc.
  case_decide as Hpoll.
  - eexists. split; [reflexivity|]. split; [rewrite <- Hnone; done|].
    intros ? [= <-]. split; [exact Ht|]. split; [exact Hs|]. simpl.
    assert ((if decide (attr service "check_interval" ≠ "") then attr service "check_interval"
             else DefaultInterval) ≠ "") as Hne by (by case_decide).
    split; [tauto|]. intros Httl. unfold targets in Ht. repeat case_bool_decide; simpl in Ht;
      try lia; tauto.
  - exists (Some check). split; [done|]. split; [done|]. intros ? [= <-].
    split; [done|]. split; [done|]. rewrite Hi. tauto.
Qed.

Lemma buildCheck_spec_witness :
  let s := Service.mk "box:nginx.0:80" "shop" 8000 "10.0.0.1" false []
             {["check_http" := "/health"; "check_ttl" := "30s"]} 30 ServicePort.zero in
  ∃ check, buildCheck s = Ok (Some check) ∧ Check.HTTP check = "http://10.0.0.1:8000/health" ∧
    targets check ≤ 1 ∧ Check.Interval check ≠ "".
Proof.
  intros s. destruct (buildCheck_spec s) as (c & Hc & _ & Hs); [right; vm_compute; reflexivity|].
  destruct c as [check|]; [|vm_compute in Hc; discriminate Hc].
  assert (Check.HTTP check = "http://10.0.0.1:8000/health") as Hh.
  { vm_compute in Hc. injection Hc as <-. reflexivity. }
  destruct (Hs check eq_refl) as (Ht & _ & Hi & _).
  exists check. split; [exact Hc|]. split; [exact Hh|]. split; [exact Ht|].
  apply Hi. left. rewrite Hh. discriminate.
Defined.
