(* ===== verification/ConsulAgent.v ===== *)
(** * A Consul agent, and what cleanup makes of it

    The laws of Consul's agent as its API documents them, and the Consul backend as a
    [KeyedBackend] over it: a service is filed under its ID, as the agent lists it. *)
From stdpp Require Import relations.
From S2P Require Import Prelude GoStrings Types Metadata Regex ServiceId NewService Fixtures.
From S2P Require Import Bridge BridgeLemmas BridgeInv BridgeProps ServiceSync SyncLemmas SyncProps System.
From S2P Require Import Threads Concurrency Sections Interleavings Backend Consul.

(** ** The agent *)
(** The ID the agent files a registration under: its name, if it has none. *)
Definition agent_key (id name : string) : string := if decide (id = "") then name else id.

(** What the agent lists for a registration. *)
Definition agent_service (reg : Registration.t) : AgentService.t :=
  AgentService.mk (agent_key (Registration.ID reg) (Registration.Name reg)) (Registration.Name reg)
    (Registration.Port reg) (Registration.Tags reg) (Registration.Address reg).

Class ConsulAgent (C : Type) `{CC : ConsulClient C} := {
  (** The services of the agent. *)
  agent : C → gmap string AgentService.t;
  agent_ids c id v : agent c !! id = Some v → AgentService.ID v = id;
  agent_registers reg c c' : consul_ServiceRegister reg c = (Ok None, c') →
    agent c' = <[AgentService.ID (agent_service reg) := agent_service reg]> (agent c);
  (** An empty ID is refused. *)
  agent_deregisters id c c' : consul_ServiceDeregister id c = (Ok None, c') →
    id ≠ "" ∧ agent c' = delete id (agent c);
  agent_lists m c c' : consul_Services c = (Ok (inl m), c') → m = agent c;
  agent_reads o c c' : consul_Services c = (o, c') → agent c' = agent c;
  agent_answers_deregister id c : is_Ok (consul_ServiceDeregister id c).1 = true;
  agent_answers_services c : is_Ok (consul_Services c).1 = true
}.

Section consul.
Context {C : Type} `{CA : ConsulAgent C} `{O : MapOrder}.
Implicit Types (c : C) (s : Service.t) (b : Bridge.t C).

(** What becomes of a service. *)
Definition filed s : AgentService.t :=
  AgentService.mk (agent_key (Service.ID s) (Service.Name s)) (Service.Name s) (Service.Port s)
    (Service.Tags s) (Service.IP s).

Lemma consul_Register_inv s c c' : Consul.Register s c = (Ok None, c') →
  ∃ reg, agent_service reg = filed s ∧ consul_ServiceRegister reg c = (Ok None, c').
Proof.
  unfold Consul.Register, Consul.registration. intros Hr.
  apply GoM_bind_inv in Hr as (reg & c1 & Hreg & Hr). exists reg. unfold lift_outcome in Hreg.
  unfold mbind, outcome_bind in Hreg. destruct (buildCheck s) as [check| | |]; try done.
  by injection Hreg as <- <-.
Qed.

Lemma consul_Services_inv c o c' : Consul.Services c = (o, c') → agent c' = agent c.
Proof.
  unfold Consul.Services, mbind, GoM_bind. destruct (consul_Services c) as [r c1] eqn:Hs.
  intros Hr. rewrite <- (agent_reads _ _ _ Hs). by destruct r as [[m|e]| | |]; injection Hr as <- <-.
Qed.

#[export] Program Instance consul_keyed : KeyedBackend C AgentService.t := {|
  entry c id := agent c !! id;
  key _ s := AgentService.ID (filed s);
  value := filed;
  refresh_writes := false
|}.
Next Obligation. done. Qed.
Next Obligation. done. Qed.
Next Obligation.
  intros s c c' (reg & Hf & Hr)%consul_Register_inv k. rewrite (agent_registers _ _ _ Hr), Hf.
  case_decide as Hk; [subst k; apply lookup_insert_eq|by apply lookup_insert_ne].
Qed.
Next Obligation.
  intros s c c' [Hid Hd]%agent_deregisters k. rewrite Hd. simpl. unfold agent_key.
  rewrite (decide_False (P := Service.ID s = "")) by done.
  case_decide as Hk; [subst k; apply lookup_delete_eq|by apply lookup_delete_ne].
Qed.
Next Obligation. by intros s c c' [= <-] k. Qed.
Next Obligation. intros c o c' Hs k. cbv beta. pose proof (consul_Services_inv _ _ _ Hs) as ->. done. Qed.

#[export] Instance consul_drops : RegistryDrops C.
Proof.
  split; [intros s c; apply agent_answers_deregister|]. intros c. simpl.
  unfold Consul.Services, mbind, GoM_bind. pose proof (agent_answers_services c) as Hs.
  destruct (consul_Services c) as [[[m|e]| | |] c']; done.
Qed.

(** ** Cleanup *)
Context (host : Host.t).

Lemma consul_Services_run c o c' : Consul.Services c = (Ok (o, None), c') →
  o = Consul.listed <$> (range (agent c)).*2.
Proof.
  unfold Consul.Services, mbind, GoM_bind. destruct (consul_Services c) as [[[m|e]| | |] c1] eqn:Hs; try done.
  rewrite (agent_lists _ _ _ Hs). by intros [= <- _].
Qed.

(** A dangling service is filed under the ID it is listed with. *)
Lemma dangling_key tracked v : dangling host tracked (Consul.listed v) = true →
  AgentService.ID (filed (Consul.listed v)) = AgentService.ID v.
Proof.
  unfold dangling. simpl. unfold agent_key. case_decide as Hid; [|done]. rewrite Hid.
  by vm_compute (parse_service_id "").
Qed.

Lemma dangling_keys tracked c id :
  id ∈ (λ s, AgentService.ID (filed s)) <$>
         List.filter (dangling host tracked) (Consul.listed <$> (range (agent c)).*2) ↔
  ∃ v, agent c !! id = Some v ∧ dangling host tracked (Consul.listed v) = true.
Proof.
  rewrite list_elem_of_fmap. split.
  - intros (s & -> & Hs). apply list_elem_of_In, filter_In in Hs as [Hs%list_elem_of_In Hd].
    apply list_elem_of_fmap in Hs as (v & -> & Hv). apply list_elem_of_fmap in Hv as ([k v'] & -> & Hk).
    apply range_elem in Hk. exists v'. rewrite (dangling_key _ _ Hd). simpl. by rewrite (agent_ids _ _ _ Hk).
  - intros (v & Hv & Hd). exists (Consul.listed v). rewrite (dangling_key _ _ Hd), (agent_ids _ _ _ Hv).
    split; [done|]. apply list_elem_of_In, filter_In. split; [|done]. apply list_elem_of_In.
    apply list_elem_of_fmap. exists v. split; [done|]. apply list_elem_of_fmap. exists (id, v).
    by rewrite range_elem.
Qed.

(** C15: cleanup over a Consul agent: it returns, the tables stay, and unless a call
    reports an error the agent is left with exactly the services it had that another
    host made, that have no ID of this program's, or that a tracked service stands
    for: every dangling one of this host is gone, and nothing else is touched. *)
Theorem consul_cleanup docker running b : bridge_inv b →
  DockerClient.ListContainers docker StatusFilters = inl running →
  ∃ b' cs, cleanup host docker b = (Ok (), b') ∧
    Bridge.services b' = Bridge.services b ∧ Bridge.deadContainers b' = Bridge.deadContainers b ∧
    Bridge.calls b' = Bridge.calls b ++ cs ∧
    (error_free cs → ∀ id,
       agent (Bridge.registry b') !! id =
       (v ← agent (Bridge.registry b) !! id;
        if dangling host (tracked_services b) (Consul.listed v) then None else Some v)).
Proof.
  intros Hinv Hlist.
  destruct (cleanup_run host docker running b Hinv Hlist) as (r & ext & err & errs & Hs & Hl & Hrun).
  eexists _, _. split; [exact Hrun|]. do 3 (split; [done|]). intros Hok id.
  pose proof (cleanup_entries host docker _ _ _ Hrun eq_refl Hok id) as He.
  etrans; [exact He|]. clear He Hrun.
  apply Forall_cons in Hok as [Hnone _]. simpl in Hnone. subst err.
  destruct (Types.Services (Bridge.registry b)) as [o c'] eqn:Hsv. simpl in Hs. subst o.
  apply consul_Services_run in Hsv as ->. unfold replay. simpl.
  rewrite (replay_deregistered (Bridge.registry b)) by done. simpl. case_decide as Hd.
  - apply dangling_keys in Hd as (v & -> & Hd). simpl. by rewrite Hd.
  - destruct (agent (Bridge.registry b) !! id) as [v|] eqn:Hv; [|done]. simpl.
    destruct (dangling _ _ _) eqn:Hdv; [|done]. destruct Hd. apply dangling_keys. eauto.
Qed.
End consul.

(** * A concrete run *)
Module ConsulRuns.
(** An agent in memory: the services, the latest first. *)
Record t := mk { known : list AgentService.t }.

Definition services (c : t) : gmap string AgentService.t :=
  list_to_map ((λ v, (AgentService.ID v, v)) <$> known c).

#[global] Instance client : ConsulClient t := {|
  consul_Leader c := (Ok ("10.0.0.1:8300", None), c);
  consul_ServiceRegister reg c := (Ok None, mk (agent_service reg :: known c));
  consul_ServiceDeregister id c :=
    if decide (id = "") then (Ok (Some "Missing service ID"), c)
    else (Ok None, mk (filter (λ v, AgentService.ID v ≠ id) (known c)));
  consul_Services c := (Ok (inl (services c)), c)
|}.

Lemma services_ids c id v : services c !! id = Some v → AgentService.ID v = id.
Proof.
  intros Hv%elem_of_list_to_map_2. apply list_elem_of_fmap in Hv as (v' & [= -> ->] & _). done.
Qed.

Lemma services_filter vs id :
  services (mk (filter (λ v, AgentService.ID v ≠ id) vs)) = delete id (services (mk vs)).
Proof.
  unfold services. cbn [known]. induction vs as [|v vs IH]; [symmetry; apply (delete_empty (M := gmap string))|].
  rewrite filter_cons, fmap_cons, list_to_map_cons. case_decide as Hid.
  - by rewrite fmap_cons, list_to_map_cons, IH, delete_insert_ne.
  - subst id. by rewrite IH, delete_insert_eq.
Qed.

#[global] Instance in_memory : ConsulAgent t.
Proof.
  refine {| agent := services; agent_ids := services_ids |}; simpl; try done.
  - by intros reg c c' [= <-].
  - intros id [vs] c'. case_decide; intros [= <-]. split; [done|apply services_filter].
  - by intros m c c' [= <- <-].
  - by intros o c c' [= _ <-].
  - intros id c. by case_decide.
Defined.

(** The services of [web], which is tracked with the first of them; one that this host
    made for a container that is gone; and one of another host. *)
Definition serving (id name : string) : AgentService.t := AgentService.mk id name 80 [] "10.0.0.1".

Definition tracking : Bridge.t t :=
  Bridge.set_services {[Fixtures.web_id := [SyncRuns.web_service]]}
    (Bridge.init (mk [serving "box:nginx.0:443" "shop-443"; serving "box:nginx.0:80" "shop-80";
                      serving "box:gone:80" "shop-80"; serving "elsewhere:gone:80" "shop-80"])
       Fixtures.config).

Lemma tracking_ok : bridge_inv tracking.
Proof. apply (SyncRuns.tracking_inv false). Qed.
End ConsulRuns.

(** The service of [web] that is not tracked is deregistered as well, although the
    container runs. *)
Lemma consul_cleanup_witness :
  ∃ b', @cleanup _ (@Consul.adapter _ _ ascending) ascending Fixtures.host Fixtures.docker
          ConsulRuns.tracking = (Ok (), b') ∧
    agent (Bridge.registry b') !! "box:nginx.0:443" =
      Some (ConsulRuns.serving "box:nginx.0:443" "shop-443") ∧
    agent (Bridge.registry b') !! "box:nginx.0:80" = None ∧
    agent (Bridge.registry b') !! "box:gone:80" = None ∧
    agent (Bridge.registry b') !! "elsewhere:gone:80" =
      Some (ConsulRuns.serving "elsewhere:gone:80" "shop-80").
Proof.
  destruct (@consul_cleanup _ _ _ ascending Fixtures.host Fixtures.docker
              [Fixtures.web_id; Fixtures.side_id] ConsulRuns.tracking ConsulRuns.tracking_ok eq_refl)
    as (b' & cs & Hrun & _ & _ & Hcs & Hagent).
  exists b'. split; [exact Hrun|].
  assert (error_free cs) as Hok.
  { revert Hrun Hcs. vm_compute (cleanup _ _ _). intros [= <-]. simpl. intros <-. repeat constructor. }
  rewrite !(Hagent Hok). split_and!; vm_compute; reflexivity.
Defined.
