(* ===== verification/Aws.v ===== *)
(** * AWS support: aws/cache.go, aws/metadata.go, aws/structs.go and the sessions of
      aws/elb.go

    The package's variables are the state: the cache with the time it is read
    at, the previous statuses, the EC2 metadata retrieved once, and the Eureka
    client's own state. The AWS SDK, the EC2 metadata service and the Eureka
    client are third-party: their answers are parameters. AWS answers by the
    time and the region it is asked in, so that what a later attempt sees may
    differ. Times are in nanoseconds. *)
From S2P Require Import Prelude GoStrings Types.

Definition second : Z := 1000000000.
Definition millisecond : Z := 1000000.
Definition DEFAULT_EXP_TIME : Z := 10 * second.
Definition NoExpiration : Z := -1.

(** ** Data *)
Module LbInfo.
Record t := mk {
  DNSName : string;
  Port : Z;
  ELBEndpoint : string;
  TargetGroupArn : string;
  IpAddress : string;
  VipAddress : string
}.
#[global] Instance eq_dec : EqDecision t.
Proof. solve_decision. Defined.
Definition zero : t := mk "" 0 "" "" "" "".
End LbInfo.

Module LookupValues.
Record t := mk {
  InstanceID : string;
  Port : Z;
  ClusterName : string;
  ServiceName : string;
  TaskArn : string
}.
End LookupValues.

(** [TargetHealthDescription]: the target and its state. *)
Module Target.
Record t := mk { Id : string; Port : Z; State : string }.
#[global] Instance eq_dec : EqDecision t.
Proof. solve_decision. Defined.
End Target.

(** ** The answers of the AWS API

    The fields that the code reads. A pointer that may be nil is an option; ARNs
    and names, which AWS always sends, are not. Every operation of the SDK returns
    an output or an error, never neither. *)
Module TargetGroup.
Record t := mk { TargetGroupArn : string; LoadBalancerArns : option (list string) }.
#[global] Instance eq_dec : EqDecision t.
Proof. solve_decision. Defined.
End TargetGroup.

(** [DescribeTargetGroupsInput] and [DescribeTargetGroupsOutput] *)
Module TgInput.
Record t := mk {
  TargetGroupArns : list (option string);
  PageSize : option Z;
  Marker : option string
}.
End TgInput.

Module TgPage.
Record t := mk { TargetGroups : list (option TargetGroup.t); NextMarker : option string }.
#[global] Instance eq_dec : EqDecision t.
Proof. solve_decision. Defined.
End TgPage.

(** The target groups of the default actions; nil for an action without one. *)
Module Listener.
Record t := mk { Port : option Z; DefaultActions : list (option string) }.
#[global] Instance eq_dec : EqDecision t.
Proof. solve_decision. Defined.
End Listener.

Module LoadBalancer.
Record t := mk { LoadBalancerArn : string; DNSName : string }.
#[global] Instance eq_dec : EqDecision t.
Proof. solve_decision. Defined.
End LoadBalancer.

(** A service of ECS, with the target groups of its load balancers. *)
Module EcsService.
Record t := mk {
  ServiceName : string;
  TaskDefinition : string;
  LoadBalancers : list (option string)
}.
#[global] Instance eq_dec : EqDecision t.
Proof. solve_decision. Defined.
End EcsService.

Module Api.
Record t := mk {
  DescribeServices : string → list string → list EcsService.t + string;
  (** The pages the callback is given, and the error the call ends with. *)
  ListServicesPages : string → list (list string) * error;
  (** The task definitions of the tasks. *)
  DescribeTasks : string → list string → list string + string;
  DescribeTargetGroups : TgInput.t → TgPage.t + string;
  DescribeTargetHealth : string → list (option Target.t) + string;
  DescribeListeners : string → list Listener.t + string;
  DescribeLoadBalancers : option (list string) → list LoadBalancer.t + string
}.
End Api.

(** What the cache holds: the load balancer of a container, the healthy targets
    of a group, or an answer of the API. *)
Inductive cached :=
| CachedLb (info : LbInfo.t)
| CachedTargets (targets : list Target.t)
| CachedHealth (output : list (option Target.t))
| CachedGroups (pages : list TgPage.t)
| CachedListeners (listeners : list Listener.t)
| CachedLoadBalancers (balancers : list LoadBalancer.t).

Module HostMetadata.
Record t := mk {
  InstanceID : string;
  PrivateIP : string;
  PublicIP : string;
  PrivateHostname : string;
  PublicHostname : string;
  AvailabilityZone : string;
  Region : string
}.
Definition zero : t := mk "" "" "" "" "" "" "".
End HostMetadata.

(** The EC2 metadata service. *)
Module Ec2.
Record t := mk {
  Available : bool;
  (** The region of the identity document, if it can be had. *)
  IdentityRegion : option string;
  GetMetadata : string → option string
}.
End Ec2.

(** The world outside: the EC2 metadata service, whether a session can be made,
    AWS at a time and in a region, and the [n]th number below 5000 of the generator
    with a seed. [pages] is how many pages of target groups are asked for after
    the first before the loop is taken to be endless. *)
Module Cloud.
Record t := mk {
  ec2 : Ec2.t;
  NewSession : error;
  api : Z → string → Api.t;
  Intn : Z → nat → Z;
  pages : nat
}.
End Cloud.

Module Session.
Record t := mk { Region : string }.
End Session.

Definition status := string.
Definition UP : status := "UP".
Definition DOWN : status := "DOWN".
Definition STARTING : status := "STARTING".
Definition UNKNOWN : status := "UNKNOWN".

(** ** fargo's [Instance]: the fields registrator sets *)
Module AmazonMetadata.
Record t := mk {
  AvailabilityZone : string;
  PublicHostname : string;
  PublicIpv4 : string;
  InstanceID : string;
  LocalHostname : string;
  HostName : string;
  LocalIpv4 : string
}.
Definition zero : t := mk "" "" "" "" "" "" "".
End AmazonMetadata.

Module Instance.
Record t := mk {
  HostName : string;
  App : string;
  IPAddr : string;
  VipAddress : string;
  Status : status;
  Port : Z;
  DataCenterName : string;
  DataCenterMetadata : AmazonMetadata.t;
  RenewalIntervalInSecs : Z;
  DurationInSecs : Z;
  Metadata : gmap string string
}.
Definition set_Status (st : status) (i : t) : t :=
  mk (HostName i) (App i) (IPAddr i) (VipAddress i) st (Port i) (DataCenterName i)
    (DataCenterMetadata i) (RenewalIntervalInSecs i) (DurationInSecs i) (Metadata i).
Definition SetMetadataString (k v : string) (i : t) : t :=
  mk (HostName i) (App i) (IPAddr i) (VipAddress i) (Status i) (Port i) (DataCenterName i)
    (DataCenterMetadata i) (RenewalIntervalInSecs i) (DurationInSecs i) (<[k := v]> (Metadata i)).
End Instance.

Definition MyOwn : string := "MyOwn".
Definition Amazon : string := "Amazon".

Definition GetUniqueID (i : Instance.t) : string :=
  Instance.HostName i +:+ "_" +:+ Itoa (Instance.Port i).

Class EurekaClient (E : Type) := {
  GetApps : GoM E error;
  GetInstance : string → string → GoM E (option Instance.t * error);
  RegisterInstance : Instance.t → GoM E error;
  ReregisterInstance : Instance.t → GoM E error;
  DeregisterInstance : Instance.t → GoM E error;
  HeartBeatInstance : Instance.t → GoM E error
}.

(** ** State *)
Module Aws.
Record t (E : Type) := mk {
  now : Z;
  (** [Expiration = 0]: never. *)
  items : gmap string (cached * Z);
  previousStatus : gmap string status;
  (** [sync.Once] has run. *)
  once : bool;
  metadataCache : option HostMetadata.t;
  client : E
}.
Arguments mk {E}.
Arguments now {E}.
Arguments items {E}.
Arguments previousStatus {E}.
Arguments once {E}.
Arguments metadataCache {E}.
Arguments client {E}.
Section setters.
Context {E : Type}.
Implicit Types a : t E.
Definition set_now n a : t E :=
  mk n (items a) (previousStatus a) (once a) (metadataCache a) (client a).
Definition set_items m a : t E :=
  mk (now a) m (previousStatus a) (once a) (metadataCache a) (client a).
Definition set_previous m a : t E :=
  mk (now a) (items a) m (once a) (metadataCache a) (client a).
Definition set_metadata md a : t E :=
  mk (now a) (items a) (previousStatus a) true md (client a).
Definition set_client e a : t E :=
  mk (now a) (items a) (previousStatus a) (once a) (metadataCache a) e.
End setters.
End Aws.

Section aws.
Context {E : Type} `{EurekaClient E}.

Definition on_eureka {A} (op : GoM E A) : GoM (Aws.t E) A := λ a,
  let '(o, e) := op (Aws.client a) in (o, Aws.set_client e a).

Definition sleep (period : Z) : GoM (Aws.t E) unit :=
  modify (λ a, Aws.set_now (Aws.now a + period)%Z a).

(** ** aws/cache.go, with [Get], [Set] and [Delete] of go-cache *)
Definition cache_Get (k : string) (a : Aws.t E) : option cached :=
  '(x, e) ← Aws.items a !! k;
  if decide (0 < e ∧ e < Aws.now a)%Z then None else Some x.

Definition cache_Set (k : string) (x : cached) (d : Z) : GoM (Aws.t E) unit :=
  modify (λ a,
    let d := if decide (d = 0)%Z then DEFAULT_EXP_TIME else d in
    let e := if decide (0 < d)%Z then (Aws.now a + d)%Z else 0%Z in
    Aws.set_items (<[k := (x, e)]> (Aws.items a)) a).

Definition GetAndCache (k : string) (f : GoM (Aws.t E) (cached + string)) (cacheTime : Z)
    : GoM (Aws.t E) (cached + string) :=
  a ← get_state;
  match cache_Get k a with
  | Some result => mret (inl result)
  | None =>
      out ← f;
      match out with
      | inl output => _ ← cache_Set k output cacheTime; mret (inl output)
      | inr err => mret (inr err)
      end
  end.

Definition AddToCache (k : string) (v : cached) (cacheTime : Z) : GoM (Aws.t E) unit :=
  cache_Set k v cacheTime.

Definition RemoveKeyFromCache (k : string) : GoM (Aws.t E) unit :=
  modify (λ a, Aws.set_items (delete k (Aws.items a)) a).

(** ** aws/metadata.go *)
Definition getDataOrFail (svc : Ec2.t) (k : string) : string := default "" (Ec2.GetMetadata svc k).

Definition retrieveMetadata (svc : Ec2.t) : HostMetadata.t :=
  if Ec2.Available svc then
    {| HostMetadata.Region := default "" (Ec2.IdentityRegion svc);
       HostMetadata.InstanceID := getDataOrFail svc "instance-id";
       HostMetadata.PrivateIP := getDataOrFail svc "local-ipv4";
       HostMetadata.PublicIP := getDataOrFail svc "public-ipv4";
       HostMetadata.PrivateHostname := getDataOrFail svc "local-hostname";
       HostMetadata.PublicHostname := getDataOrFail svc "public-hostname";
       HostMetadata.AvailabilityZone := getDataOrFail svc "placement/availability-zone" |}
  else HostMetadata.zero.

Definition SetMetadata (md : option HostMetadata.t) : GoM (Aws.t E) unit :=
  modify (Aws.set_metadata md).

(** The function of [once.Do]. When no session can be made that is logged, and
    [ec2metadata.New(nil)] panics; [Do] takes the function to have run. *)
Definition init_metadata (cloud : Cloud.t) : GoM (Aws.t E) unit :=
  match Cloud.NewSession cloud with
  | Some _ =>
      _ ← modify (λ a, Aws.set_metadata (Aws.metadataCache a) a);
      lift_outcome Panicked
  | None => modify (Aws.set_metadata (Some (retrieveMetadata (Cloud.ec2 cloud))))
  end.

(** A nil pointer is dereferenced by every caller. *)
Definition GetMetadata (cloud : Cloud.t) : GoM (Aws.t E) HostMetadata.t :=
  a ← get_state;
  _ ← (if Aws.once a then mret () else init_metadata cloud);
  a ← get_state;
  lift_outcome (match Aws.metadataCache a with Some md => Ok md | None => Panicked end).

(** ** Sessions (aws/elb.go), which are for a region *)
Context (cloud : Cloud.t).

Definition new_session : GoM (Aws.t E) (Session.t + string) :=
  match Cloud.NewSession cloud with
  | Some err => mret (inr ("Failed to create session connecting to AWS: " +:+ err))
  | None =>
      awsMetadata ← GetMetadata cloud;
      mret (inl (Session.mk (HostMetadata.Region awsMetadata)))
  end.

Definition getSession : GoM (Aws.t E) (Session.t + string) := new_session.
Definition getECSSession : GoM (Aws.t E) (Session.t + string) := new_session.

(** The answer AWS gives now. *)
Definition on_aws {A} (svc : Session.t) (f : Api.t → A) : GoM (Aws.t E) A :=
  a ← get_state; mret (f (Cloud.api cloud (Aws.now a) (Session.Region svc))).
End aws.

(** ** Properties *)
Section props.
Context {E : Type} `{EC : EurekaClient E}.
Implicit Types a : Aws.t E.

Lemma cache_Get_Set k x d a a' t :
  cache_Set k x d a = (Ok (), a') → (0 < d)%Z →
  (0 < Aws.now a)%Z →
  cache_Get k (Aws.set_now t a') = if decide (t ≤ Aws.now a + d)%Z then Some x else None.
Proof.
  intros [= <-] Hd Hn. unfold cache_Get. simpl. rewrite (decide_False (P := d = 0%Z)) by lia.
  rewrite decide_True by done. rewrite lookup_insert_eq. simpl.
  repeat case_decide; simpl; try done; lia.
Qed.

Lemma cache_Get_forever k x a a' t :
  cache_Set k x NoExpiration a = (Ok (), a') → cache_Get k (Aws.set_now t a') = Some x.
Proof. intros [= <-]. unfold cache_Get. simpl. rewrite lookup_insert_eq. done. Qed.

Lemma GetAndCache_hit k f d a x : cache_Get k a = Some x → GetAndCache k f d a = (Ok (inl x), a).
Proof. intros Hk. unfold GetAndCache. erewrite GoM_bind_Ok by reflexivity. by rewrite Hk. Qed.

Lemma GetAndCache_miss k f d a x a1 :
  cache_Get k a = None → f a = (Ok (inl x), a1) →
  GetAndCache k f d a = (Ok (inl x), (cache_Set k x d a1).2).
Proof.
  intros Hm Hf. unfold GetAndCache. erewrite GoM_bind_Ok by reflexivity. rewrite Hm.
  by rewrite (GoM_bind_Ok _ _ _ _ _ Hf).
Qed.

(** The cache computes a value once and then answers for it for the given
    time, without the function being called again, and computes it anew after
    that; a failure is passed on and not remembered. *)
Theorem GetAndCache_spec k f d a x a1 :
  (0 < Aws.now a1)%Z → (0 < d)%Z → cache_Get k a = None → f a = (Ok (inl x), a1) →
  ∃ a2, GetAndCache k f d a = (Ok (inl x), a2) ∧
    (∀ t g d', (t ≤ Aws.now a1 + d)%Z →
       GetAndCache k g d' (Aws.set_now t a2) = (Ok (inl x), Aws.set_now t a2)) ∧
    (∀ t g d' err a3, (Aws.now a1 + d < t)%Z → g (Aws.set_now t a2) = (Ok (inr err), a3) →
       GetAndCache k g d' (Aws.set_now t a2) = (Ok (inr err), a3)).
Proof.
  intros Hn Hd Hm Hf. eexists. split; [by apply GetAndCache_miss|].
  assert (∀ t, cache_Get k (Aws.set_now t (cache_Set k x d a1).2) =
            if decide (t ≤ Aws.now a1 + d)%Z then Some x else None) as Hget.
  { intros t. by apply cache_Get_Set with (a := a1). }
  split.
  - intros t g d' Ht. apply GetAndCache_hit. by rewrite Hget, decide_True.
  - intros t g d' err a3 Ht Hg. unfold GetAndCache. erewrite GoM_bind_Ok by reflexivity.
    rewrite Hget, decide_False by lia. by rewrite (GoM_bind_Ok _ _ _ _ _ Hg).
Qed.

(** ** The metadata and the sessions *)
(** The EC2 metadata can be had. *)
Definition metadata_ready a : Prop := Aws.once a = true → is_Some (Aws.metadataCache a).

(** The state once the metadata has been asked for, and its region. *)
Definition with_metadata (cloud : Cloud.t) a : Aws.t E := (GetMetadata cloud a).2.

Definition region (cloud : Cloud.t) a : string :=
  match Aws.metadataCache (with_metadata cloud a) with
  | Some md => HostMetadata.Region md
  | None => ""
  end.

Lemma with_metadata_unfold cloud a : with_metadata cloud a =
  if Aws.once a then a
  else Aws.set_metadata (match Cloud.NewSession cloud with
                         | Some _ => Aws.metadataCache a
                         | None => Some (retrieveMetadata (Cloud.ec2 cloud))
                         end) a.
Proof.
  unfold with_metadata, GetMetadata, init_metadata. go_unfold. destruct (Aws.once a); [done|].
  by destruct (Cloud.NewSession cloud).
Qed.

Lemma GetMetadata_ready cloud a : metadata_ready a → Cloud.NewSession cloud = None →
  ∃ md, GetMetadata cloud a = (Ok md, with_metadata cloud a) ∧
        region cloud a = HostMetadata.Region md.
Proof.
  intros Hr Hn. unfold metadata_ready, region in *. rewrite with_metadata_unfold.
  unfold GetMetadata, init_metadata. rewrite Hn. go_unfold.
  destruct (Aws.once a); simpl; [|by eexists]. destruct Hr as [md Hmd]; [done|]. rewrite Hmd. by eexists.
Qed.

Lemma with_metadata_keeps cloud a :
  Aws.client (with_metadata cloud a) = Aws.client a ∧
  Aws.items (with_metadata cloud a) = Aws.items a ∧
  Aws.now (with_metadata cloud a) = Aws.now a ∧
  Aws.previousStatus (with_metadata cloud a) = Aws.previousStatus a.
Proof. rewrite with_metadata_unfold. by destruct (Aws.once a). Qed.

Lemma with_metadata_ready cloud a : metadata_ready a → Cloud.NewSession cloud = None →
  metadata_ready (with_metadata cloud a).
Proof.
  intros Hr Hn. unfold metadata_ready in *. rewrite with_metadata_unfold, Hn.
  destruct (Aws.once a) eqn:Ho; simpl; [by rewrite Ho|eauto].
Qed.

Lemma with_metadata_idemp cloud a : with_metadata cloud (with_metadata cloud a) = with_metadata cloud a.
Proof. rewrite !with_metadata_unfold. by destruct (Aws.once a) eqn:Ho; simpl; rewrite ?Ho. Qed.

Lemma new_session_spec cloud a : metadata_ready a →
  new_session cloud a =
    match Cloud.NewSession cloud with
    | Some err => (Ok (inr ("Failed to create session connecting to AWS: " +:+ err)), a)
    | None => (Ok (inl (Session.mk (region cloud a))), with_metadata cloud a)
    end.
Proof.
  intros Hr. unfold new_session. destruct (Cloud.NewSession cloud) eqn:Hn; [done|].
  destruct (GetMetadata_ready cloud a Hr Hn) as (md & Hmd & Hre).
  by rewrite (GoM_bind_Ok _ _ _ _ _ Hmd), Hre.
Qed.
End props.

(** * Concrete runs *)
Module AwsRuns.
#[global] Instance no_eureka : EurekaClient unit := {|
  GetApps e := (Ok None, e);
  GetInstance _ _ e := (Ok (None, Some "404"), e);
  RegisterInstance _ e := (Ok None, e);
  ReregisterInstance _ e := (Ok None, e);
  DeregisterInstance _ e := (Ok None, e);
  HeartBeatInstance _ e := (Ok None, e)
|}.

Definition empty : Aws.t unit := Aws.mk 1000 ∅ ∅ false None ().

Definition answer (r : cached + string) : GoM (Aws.t unit) (cached + string) := mret r.
End AwsRuns.

Lemma GetAndCache_spec_witness :
  ∃ a2, GetAndCache "k" (AwsRuns.answer (inl (CachedTargets []))) 500 AwsRuns.empty =
      (Ok (inl (CachedTargets [])), a2) ∧
    GetAndCache "k" (AwsRuns.answer (inr "down")) 500 (Aws.set_now 1500 a2) =
      (Ok (inl (CachedTargets [])), Aws.set_now 1500 a2).
Proof.
  destruct (GetAndCache_spec "k" (AwsRuns.answer (inl (CachedTargets []))) 500 AwsRuns.empty
              (CachedTargets []) AwsRuns.empty) as (a2 & H1 & H2 & _);
    [vm_compute; reflexivity..|].
  exists a2. split; [exact H1|]. apply H2. simpl. lia.
Defined.
