(* ===== verification/Health.v ===== *)
(** * Health checks: aws/healthchecks.go, with [getELBStatus] of aws/elb.go

    What a load balancer is registered as, from its status in Eureka, the status
    registered before and the targets of its group. *)
From S2P Require Import Prelude GoStrings Types Aws.

Section health.
Context {E : Type} `{EurekaClient E} (cloud : Cloud.t).


Definition getPreviousStatus (containerID : string) (a : Aws.t E) : status :=
  default "" (Aws.previousStatus a !! containerID).

Definition setPreviousStatus (containerID : string) (st : status) : GoM (Aws.t E) unit :=
  modify (λ a, Aws.set_previous (<[containerID := st]> (Aws.previousStatus a)) a).

(** [DescribeTargetHealth] lists pointers, which are followed without a check. *)
Definition getHealthyTargets (tgArn : string) : GoM (Aws.t E) (cached + string) :=
  svc ←? getSession cloud;
  tarH ←? on_aws cloud svc (λ api, Api.DescribeTargetHealth api tgArn);
  lift_outcome (
    healthyTargets ← fold_outcome (λ healthyTargets thd,
      match thd with
      | None => Panicked
      | Some thd =>
          Ok (if decide (Target.State thd = "healthy") then healthyTargets ++ [thd]
              else healthyTargets)
      end) [] tarH;
    Ok (inl (CachedTargets healthyTargets))).

(** [refreshInterval] is a variable of the package that nothing sets. *)
Definition refreshInterval : Z := 0.

Definition GetHealthyTargets (tgArn : string) : GoM (Aws.t E) (list Target.t + string) :=
  let healthCheckCacheTime :=
    if decide (refreshInterval ≠ 0)%Z then (refreshInterval * second - second)%Z
    else DEFAULT_EXP_TIME in
  out ← GetAndCache ("tg_arn_" +:+ tgArn) (getHealthyTargets tgArn) healthCheckCacheTime;
  match out with
  | inr err => mret (inr err)
  | inl (CachedTargets ret) => mret (inl ret)
  | inl _ => mret (inl [])
  end.

(** The status to remember and the status to register. *)
Definition determineNewEurekaStatus (containerID : string) (eurekaStatus inputStatus : status)
    : GoM (Aws.t E) (status * status) :=
  if decide (eurekaStatus = UP) then mret (UP, UP) else
  if decide (inputStatus ≠ UP) then
    a ← get_state;
    match cache_Get ("container_" +:+ containerID) a with
    | Some (CachedLb elbMetadata) =>
        thList ← GetHealthyTargets (LbInfo.TargetGroupArn elbMetadata);
        match thList with
        | inr _ => mret (UNKNOWN, STARTING)
        | inl thList =>
            if decide (length thList = 0) then mret (STARTING, STARTING) else mret (UP, UP)
        end
    | _ => mret (UNKNOWN, STARTING)
    end
  else mret (UP, UP).

Definition getELBStatus (registration : Instance.t) : GoM (Aws.t E) status :=
  '(result, err) ← on_eureka (GetInstance (Instance.App registration) (GetUniqueID registration));
  match err, result with
  | None, Some i => mret (Instance.Status i)
  | _, _ => mret UNKNOWN
  end.

Definition testHealth (service : Service.t) (elbReg : Instance.t) : GoM (Aws.t E) Instance.t :=
  let containerID := ServicePort.ContainerID (Service.Origin service) in
  eurekaStatus ← getELBStatus elbReg;
  a ← get_state;
  let last := getPreviousStatus containerID a in
  '(newStatus, registrationStatus) ← determineNewEurekaStatus containerID eurekaStatus last;
  _ ← setPreviousStatus containerID newStatus;
  mret (Instance.set_Status registrationStatus elbReg).
End health.

(** ** Properties *)
Class EurekaReturns (E : Type) `{EurekaClient E} := {
  GetInstance_returns app id e : is_Ok (GetInstance app id e).1 = true
}.

Section props.
Context {E : Type} `{EC : EurekaClient E}.
Implicit Types a : Aws.t E.

Context `{ER : !EurekaReturns E} (cloud : Cloud.t).

(** The entries of AWS's answers on target health are there. *)
Definition no_nil_targets : Prop := ∀ t r arn ts,
  Api.DescribeTargetHealth (Cloud.api cloud t r) arn = inl ts → None ∉ ts.

(** What the cache or AWS knows of a group's healthy targets. *)
Definition healthy_known (tgArn : string) a : Prop :=
  match cache_Get ("tg_arn_" +:+ tgArn) a with
  | Some (CachedTargets ts) => ts ≠ []
  | Some _ => False
  | None =>
      Cloud.NewSession cloud = None ∧
      ∃ ts t, Api.DescribeTargetHealth (Cloud.api cloud (Aws.now a) (region cloud a)) tgArn = inl ts ∧
              Some t ∈ ts ∧ Target.State t = "healthy"
  end.

Lemma healthy_fold acc ts : None ∉ ts →
  fold_outcome (λ healthyTargets thd,
    match thd with
    | None => Panicked
    | Some thd =>
        Ok (if decide (Target.State thd = "healthy") then healthyTargets ++ [thd]
            else healthyTargets)
    end) acc ts =
  Ok (acc ++ omap (λ thd, thd ≫= λ thd, guard (Target.State thd = "healthy") ;; Some thd) ts).
Proof.
  revert acc. induction ts as [|[t|] ts IH]; intros acc Hn; simpl; [by rewrite app_nil_r| |].
  - apply not_elem_of_cons in Hn as [_ Hn]. rewrite IH by done.
    case_decide; simplify_option_eq; by rewrite <- ?(assoc_L app).
  - destruct Hn. left.
Qed.

(** [getHealthyTargets], run: the healthy targets or an error, and the metadata
    are the only change. *)
Lemma getHealthyTargets_spec tgArn a : metadata_ready a → no_nil_targets →
  ∃ r a', getHealthyTargets cloud tgArn a = (Ok r, a') ∧
    (a' = a ∨ a' = with_metadata cloud a) ∧
    (∀ x, r = inl x → ∃ ts, x = CachedTargets ts) ∧
    ((∃ ts, r = inl (CachedTargets ts) ∧ ts ≠ []) ↔
      Cloud.NewSession cloud = None ∧
      ∃ ts t, Api.DescribeTargetHealth (Cloud.api cloud (Aws.now a) (region cloud a)) tgArn = inl ts ∧
              Some t ∈ ts ∧ Target.State t = "healthy").
Proof.
  intros Hr Hn. unfold getHealthyTargets. pose proof (new_session_spec cloud a Hr) as Hs.
  destruct (Cloud.NewSession cloud) as [e|].
  { rewrite (try_bind_inr _ _ _ _ _ Hs). eexists _, a. split; [reflexivity|]. naive_solver. }
  rewrite (try_bind_inl _ _ _ _ _ Hs). unfold try_bind, on_aws. go_unfold.
  destruct (with_metadata_keeps cloud a) as (_ & _ & -> & _).
  destruct (Api.DescribeTargetHealth _ tgArn) as [ts|e] eqn:Hts; simpl.
  - rewrite healthy_fold by eauto. eexists _, _. split; [reflexivity|]. split; [by right|].
    split; [intros x [= <-]; by eexists|]. simpl. split.
    + intros (l & [= <-] & Hne). split; [done|].
      destruct (omap _ ts) as [|t l] eqn:Ho; [done|].
      assert (t ∈ omap (λ thd, thd ≫= λ thd, guard (Target.State thd = "healthy") ;; Some thd) ts)
        as ([t'|] & Hin & Ht)%list_elem_of_omap by (rewrite Ho; left); simplify_option_eq.
      by eexists _, t.
    + intros (_ & ts' & t & [= <-] & Hin & Ht). eexists. split; [reflexivity|].
      intros Hnil. apply (not_elem_of_nil t). rewrite <- Hnil.
      apply list_elem_of_omap. exists (Some t). split; [done|]. by simplify_option_eq.
  - eexists _, _. split; [reflexivity|]. naive_solver.
Qed.

Lemma GetHealthyTargets_spec tgArn a : metadata_ready a → no_nil_targets →
  ∃ r a', GetHealthyTargets cloud tgArn a = (Ok r, a') ∧
    Aws.previousStatus a' = Aws.previousStatus a ∧
    ((∃ ts, r = inl ts ∧ ts ≠ []) ↔ healthy_known tgArn a).
Proof.
  intros Hr Hn. unfold GetHealthyTargets, GetAndCache, healthy_known.
  set (d := if decide (refreshInterval ≠ 0%Z) then _ else _). clearbody d.
  unfold mbind at 1, GoM_bind at 1. unfold mbind at 1, GoM_bind at 1. simpl.
  destruct (cache_Get ("tg_arn_" +:+ tgArn) a) as [c|] eqn:Hc.
  - destruct c; simpl; eexists _, a; (split; [reflexivity|]); (split; [done|]); naive_solver.
  - destruct (getHealthyTargets_spec tgArn a Hr Hn) as (r & a' & Hrun & Ha' & Hx & Hk).
    assert (Aws.previousStatus a' = Aws.previousStatus a) as Hp
      by (destruct Ha' as [->| ->]; [done|apply with_metadata_keeps]).
    setoid_rewrite <- Hk. unfold mbind, GoM_bind. rewrite Hrun. simpl. destruct r as [x|e]; simpl.
    + destruct (Hx x eq_refl) as [ts ->]. eexists _, _. split; [reflexivity|].
      split; [exact Hp|]. naive_solver.
    + eexists _, _. split; [reflexivity|]. split; [done|]. naive_solver.
Qed.

Lemma determine_spec id eurekaStatus last a : metadata_ready a → no_nil_targets →
  ∃ new reg a', determineNewEurekaStatus cloud id eurekaStatus last a = (Ok (new, reg), a') ∧
    Aws.previousStatus a' = Aws.previousStatus a ∧
    (reg = UP ∨ reg = STARTING) ∧ (new = UP ↔ reg = UP) ∧
    (reg = UP ↔ eurekaStatus = UP ∨ last = UP ∨
       ∃ info, cache_Get ("container_" +:+ id) a = Some (CachedLb info) ∧
               healthy_known (LbInfo.TargetGroupArn info) a).
Proof.
  intros Hrd Hn. unfold determineNewEurekaStatus.
  case_decide as Heu; [by exists UP, UP, a; naive_solver|].
  case_decide as Hl; [|by exists UP, UP, a; naive_solver].
  erewrite GoM_bind_Ok by reflexivity.
  destruct (cache_Get ("container_" +:+ id) a) as [[info| | | | |]|];
    [|exists UNKNOWN, STARTING, a; naive_solver..].
  destruct (GetHealthyTargets_spec (LbInfo.TargetGroupArn info) a Hrd Hn)
    as (r & a' & Hr & Hp & Hh).
  rewrite (GoM_bind_Ok _ _ _ _ _ Hr). destruct r as [ts|e].
  - case_decide as Hlen.
    + apply nil_length_inv in Hlen. subst. exists STARTING, STARTING, a'.
      split; [done|]. split; [done|]. split; [by right|]. split; [done|].
      split; [done|]. intros [?|[?|(info' & [= <-] & Hk)]]; [done..|].
      apply Hh in Hk as (? & [= <-] & ?). done.
    + exists UP, UP, a'. split; [done|]. split; [done|]. split; [by left|]. split; [done|].
      split; [|done]. intros _. right. right. exists info. split; [done|]. apply Hh.
      exists ts. split; [done|]. by destruct ts.
  - exists UNKNOWN, STARTING, a'. split; [done|]. split; [done|]. split; [by right|].
    split; [done|]. split; [done|]. intros [?|[?|(info' & [= <-] & Hk)]]; [done..|].
    apply Hh in Hk as (? & [=] & _).
Qed.

(** C40: a health test registers UP or STARTING, and remembers UP exactly when it
    registers it. It is UP when Eureka says so, when it was UP before, or when
    the load balancer of the container is known and has a healthy target: once UP
    a container stays UP, whatever becomes of its targets. *)
Theorem testHealth_spec service reg a : metadata_ready a → no_nil_targets →
  let id := ServicePort.ContainerID (Service.Origin service) in
  ∃ eurekaStatus reg' e a',
    getELBStatus reg a = (Ok eurekaStatus, Aws.set_client e a) ∧
    testHealth cloud service reg a = (Ok reg', a') ∧
    (Instance.Status reg' = UP ∨ Instance.Status reg' = STARTING) ∧
    (getPreviousStatus id a' = UP ↔ Instance.Status reg' = UP) ∧
    (Instance.Status reg' = UP ↔
       eurekaStatus = UP ∨ getPreviousStatus id a = UP ∨
       ∃ info, cache_Get ("container_" +:+ id) a = Some (CachedLb info) ∧
               healthy_known (LbInfo.TargetGroupArn info) a).
Proof.
  intros Hrd Hn id.
  assert (∃ st e, getELBStatus reg a = (Ok st, Aws.set_client e a)) as (st & e & Hst).
  { unfold getELBStatus, on_eureka, mbind, GoM_bind.
    pose proof (GetInstance_returns (Instance.App reg) (GetUniqueID reg) (Aws.client a)) as Hr.
    destruct (GetInstance _ _ _) as [[[r err]| | |] e]; try done.
    destruct err, r; by eexists _, _. }
  destruct (determine_spec id st (getPreviousStatus id a) (Aws.set_client e a) Hrd Hn)
    as (new & rs & a2 & Hd & Hp & Hrs & Hnew & Hup).
  exists st, (Instance.set_Status rs reg), e. eexists.
  split; [done|]. split.
  { unfold testHealth. rewrite (GoM_bind_Ok _ _ _ _ _ Hst). erewrite GoM_bind_Ok by reflexivity.
    change (getPreviousStatus id (Aws.set_client e a)) with (getPreviousStatus id a).
    fold id. rewrite (GoM_bind_Ok _ _ _ _ _ Hd). reflexivity. }
  split; [done|]. split; [|].
  - unfold getPreviousStatus. simpl. by rewrite lookup_insert_eq.
  - unfold healthy_known, region in *. rewrite !with_metadata_unfold in *.
    revert Hup. simpl. by destruct (Aws.once a).
Qed.

(** The lookup of load balancers and the health test share a cache key for
    values of different types: while the answer of the lookup is cached, the
    health test sees no healthy target, however healthy the group is, and keeps a
    new service at STARTING. *)
Theorem target_cache_collision id info out eurekaStatus last a :
  cache_Get ("container_" +:+ id) a = Some (CachedLb info) →
  cache_Get ("tg_arn_" +:+ LbInfo.TargetGroupArn info) a = Some (CachedHealth out) →
  eurekaStatus ≠ UP → last ≠ UP →
  determineNewEurekaStatus cloud id eurekaStatus last a = (Ok (STARTING, STARTING), a).
Proof.
  intros Hlb Htg Heu Hl. unfold determineNewEurekaStatus.
  rewrite decide_False, decide_True by done. erewrite GoM_bind_Ok by reflexivity. rewrite Hlb.
  assert (GetHealthyTargets cloud (LbInfo.TargetGroupArn info) a = (Ok (inl []), a)) as Hg.
  { unfold GetHealthyTargets, GetAndCache, mbind, GoM_bind. simpl. by rewrite Htg. }
  by rewrite (GoM_bind_Ok _ _ _ _ _ Hg).
Qed.
End props.

(** * Concrete runs *)
Module HealthRuns.
Definition info : LbInfo.t := LbInfo.mk "lb.example" 80 "" "arn:1" "" "".
Definition healthy : list (option Target.t) := [Some (Target.mk "i-1" 8000 "healthy")].

(** AWS knows one group, with a healthy target. *)
Definition cloud : Cloud.t :=
  Cloud.mk (Ec2.mk false None (λ _, None)) None
    (λ _ _, Api.mk (λ _ _, inr "") (λ _, ([], None)) (λ _ _, inr "") (λ _, inr "")
              (λ arn, if decide (arn = "arn:1") then inl healthy else inr "no such group")
              (λ _, inr "") (λ _, inr ""))
    (λ _ _, 0%Z) 0.

(** The load balancer is cached, and so is the lookup's answer for its group. *)
Definition looked_up : Aws.t unit :=
  Aws.mk 1000 {["container_c1" := (CachedLb info, 0%Z);
                "tg_arn_arn:1" := (CachedHealth healthy, 5000%Z)]} ∅ false None ().
End HealthRuns.

#[export] Instance no_eureka_returns : EurekaReturns unit.
Proof. by split. Qed.

Lemma target_cache_collision_witness :
  determineNewEurekaStatus HealthRuns.cloud "c1" UNKNOWN "" HealthRuns.looked_up =
  (Ok (STARTING, STARTING), HealthRuns.looked_up).
Proof.
  apply (target_cache_collision HealthRuns.cloud "c1" HealthRuns.info HealthRuns.healthy);
    [vm_compute; reflexivity..|discriminate|discriminate].
Defined.

Lemma testHealth_spec_witness :
  let s := Service.mk "box:nginx.0:80" "shop" 8000 "10.0.0.1" false [] ∅ 30
             (ServicePort.mk "8000" "10.0.0.1" "80" "" "tcp" "" "c1" "" None) in
  let a := Aws.set_items {["container_c1" := (CachedLb HealthRuns.info, 0%Z)]} AwsRuns.empty in
  let reg := Instance.mk "" "shop" "" "" STARTING 80 "" AmazonMetadata.zero 0 0 ∅ in
  ∃ reg' a', testHealth HealthRuns.cloud s reg a = (Ok reg', a') ∧
    Instance.Status reg' = UP.
Proof.
  intros s a reg.
  destruct (testHealth_spec HealthRuns.cloud s reg a)
    as (st & reg' & e & a' & _ & Hrun & _ & _ & Hup).
  - intros [=].
  - intros t r arn ts. simpl. case_decide; intros [= <-]. intros Hin.
    apply list_elem_of_singleton in Hin. discriminate.
  - exists reg', a'. split; [exact Hrun|]. apply Hup. right. right. exists HealthRuns.info.
    split; [vm_compute; reflexivity|]. split; [reflexivity|].
    exists HealthRuns.healthy, (Target.mk "i-1" 8000 "healthy").
    split; [reflexivity|]. split; [left|reflexivity].
Defined.
