(* ===== verification/Elb.v ===== *)
(** * The search for a container's load balancer: aws/elb.go

    From the service name through ECS, or else through every target group, to the
    load balancer, the port of its listener and its DNS name. *)
From S2P Require Import Prelude GoStrings Types Aws.

Section elb.
Context {E : Type} (cloud : Cloud.t).
Abbreviation M := (GoM (Aws.t E)).

(** [xs[0]], which panics on an empty slice. *)
Definition head_or_panic {A} (xs : list A) : outcome A :=
  match xs with x :: _ => Ok x | [] => Panicked end.

(** A pointer that is followed. *)
Definition deref {A} (x : option A) : outcome A :=
  match x with Some x => Ok x | None => Panicked end.

(** An answer of the API as the cache takes it. *)
Definition cached_as {A} (c : A → cached) (r : A + string) : cached + string :=
  match r with inl out => inl (c out) | inr err => inr err end.

(** [GetAndCache(key, params, svc.Describe..., DEFAULT_EXP_TIME)] *)
Definition ask {A} (svc : Session.t) (k : string) (c : A → cached) (f : Api.t → A + string)
    : M (cached + string) :=
  GetAndCache k (on_aws cloud svc (λ api, cached_as c (f api))) DEFAULT_EXP_TIME.

(** ** By the name of the service *)
Definition getLoadBalancerFromService (serviceName clusterName : string)
    : M (LoadBalancer.t * TargetGroup.t + string) :=
  svc ←? getECSSession cloud;
  svc2 ←? getSession cloud;
  out ←? on_aws cloud svc (λ api, Api.DescribeServices api clusterName [serviceName]);
  match out with
  | {| EcsService.LoadBalancers := tgArn :: _ |} :: _ =>
      out3 ←? on_aws cloud svc2 (λ api,
        Api.DescribeTargetGroups api (TgInput.mk [tgArn] None None));
      tg ← lift_outcome (head_or_panic (TgPage.TargetGroups out3));
      tg ← lift_outcome (deref tg);
      out2 ←? on_aws cloud svc2 (λ api,
        Api.DescribeLoadBalancers api (TargetGroup.LoadBalancerArns tg));
      lb ← lift_outcome (head_or_panic out2);
      mret (inl (lb, tg))
  | _ => mret (inr "Load balancer not found.  It possibly doesn't exist for this service.")
  end.

(** ** All target groups *)
Definition getTargetGroupsPage (svc : Session.t) (marker : option string) : M (TgPage.t + string) :=
  on_aws cloud svc (λ api, Api.DescribeTargetGroups api (TgInput.mk [] (Some 400%Z) marker)).

(** The pages after the first. When one of them fails, the marker of a nil page is
    read before the error is. *)
Fixpoint more_pages (fuel : nat) (svc : Session.t) (mark : option string) (tgs : list TgPage.t)
    : M (list TgPage.t + string) :=
  match mark with
  | None => mret (inl tgs)
  | Some _ =>
      match fuel with
      | O => lift_outcome Blocked
      | S fuel =>
          tg ← getTargetGroupsPage svc mark;
          match tg with
          | inr _ => lift_outcome Panicked
          | inl tg => more_pages fuel svc (TgPage.NextMarker tg) (tgs ++ [tg])
          end
      end
  end.

Definition getAllTargetGroups (svc : Session.t) : M (list TgPage.t + string) :=
  tg ←? getTargetGroupsPage svc None;
  more_pages (Cloud.pages cloud) svc (TgPage.NextMarker tg) [tg].

(** ** The name of the service of a task *)
(** The API is called after every tenth service and after the last one. *)
Fixpoint match_services (svc : Session.t) (clusterName taskDefArn : string) (total i : Z)
    (servChunk matchedServices servicesList : list string) : M (list string + string) :=
  match servicesList with
  | [] => mret (inl matchedServices)
  | s :: servicesList =>
      let servChunk := servChunk ++ [s] in
      if decide (((i + 1) mod 10 = 0 ∧ 0 < i) ∨ i = total - 1)%Z then
        dsout ←? on_aws cloud svc (λ api, Api.DescribeServices api clusterName servChunk);
        let matched := filter (λ ser, EcsService.TaskDefinition ser = taskDefArn) dsout in
        match_services svc clusterName taskDefArn total (i + 1) []
          (matchedServices ++ (EcsService.ServiceName <$> matched)) servicesList
      else
        match_services svc clusterName taskDefArn total (i + 1) servChunk matchedServices
          servicesList
  end.

Definition lookupServiceName (clusterName taskArn : string) : M string :=
  svc ← getECSSession cloud;
  match svc with
  | inr _ => mret ""
  | inl svc =>
      '(pages, err) ← on_aws cloud svc (λ api, Api.ListServicesPages api clusterName);
      let servicesList := concat pages in
      if decide (err ≠ None ∨ servicesList = []) then mret "" else
      dtout ← on_aws cloud svc (λ api, Api.DescribeTasks api clusterName [taskArn]);
      match dtout with
      | inl (taskDefArn :: _) =>
          matchedServices ← match_services svc clusterName taskDefArn
            (Z.of_nat (length servicesList)) 0 [] [] servicesList;
          match matchedServices with
          | inl [name] => mret name
          | _ => mret ""
          end
      | _ => mret ""
      end
  end.

(** ** By the targets of the groups *)
Definition is_target (l : LookupValues.t) (thd : option Target.t) : bool :=
  match thd with
  | None => false
  | Some thd => bool_decide (Target.Port thd = LookupValues.Port l ∧
                             Target.Id thd = LookupValues.InstanceID l)
  end.

(** The load balancers and the group found so far; a nil slice is [None]. *)
Definition found : Type := option (list string) * string.

Fixpoint check_groups (svc : Session.t) (l : LookupValues.t) (groups : list (option TargetGroup.t))
    (f : found) : M (found + string) :=
  match groups with
  | [] => mret (inl f)
  | None :: groups => check_groups svc l groups f
  | Some tg :: groups =>
      let arn := TargetGroup.TargetGroupArn tg in
      out2 ←? ask svc ("tg_arn_" +:+ arn) CachedHealth (λ api, Api.DescribeTargetHealth api arn);
      match out2 with
      | CachedHealth tarH =>
          check_groups svc l groups
            (if existsb (is_target l) tarH then (TargetGroup.LoadBalancerArns tg, arn) else f)
      | _ => check_groups svc l groups f
      end
  end.

Fixpoint check_pages (svc : Session.t) (l : LookupValues.t) (tgslice : list TgPage.t) (f : found)
    : M (found + string) :=
  match tgslice with
  | [] => mret (inl f)
  | tgs :: tgslice =>
      f ←? check_groups svc l (TgPage.TargetGroups tgs) f;
      if decide (f.1 ≠ None ∧ f.2 ≠ "") then mret (inl f) else check_pages svc l tgslice f
  end.

(** ** The port of the listener: the last one that forwards to the group *)
Fixpoint action_port (tgArn : string) (port lbPort : option Z) (acts : list (option string))
    : outcome (option Z) :=
  match acts with
  | [] => Ok lbPort
  | act :: acts =>
      act ← deref act;
      if decide (act = tgArn) then Ok port else action_port tgArn port lbPort acts
  end.

Definition listener_port (tgArn : string) (listeners : list Listener.t) : outcome (option Z) :=
  fold_outcome (λ lbPort listener,
    action_port tgArn (Listener.Port listener) lbPort (Listener.DefaultActions listener))
    None listeners.

(** ** The whole search *)
Definition all_groups (svc : Session.t) : M (list TgPage.t + string) :=
  out1 ← GetAndCache "tg"
           (pages ←? getAllTargetGroups svc; mret (inl (CachedGroups pages))) DEFAULT_EXP_TIME;
  match out1 with
  | inr err => mret (inr ("Failed to retrieve Target Groups: " +:+ err))
  | inl (CachedGroups tgslice) => mret (inl tgslice)
  | inl _ => mret (inl [])
  end.

Definition search_groups (svc : Session.t) (l : LookupValues.t) : M (list string * string + string) :=
  tgslice ←? all_groups svc;
  f ←? check_pages svc l tgslice (None, "");
  match f with
  | (Some lbArns, tgArn) => mret (inl (lbArns, tgArn))
  | (None, _) => mret (inr "failed to retrieve load balancer ARN")
  end.

(** The end of the search: the listener's port and the DNS name. *)
Definition lb_details (svc : Session.t) (lbArns : list string) (tgArn : string)
    : M (LbInfo.t + string) :=
  lbArn ← lift_outcome (head_or_panic lbArns);
  out3 ←? ask svc ("lsnr_" +:+ lbArn) CachedListeners (λ api, Api.DescribeListeners api lbArn);
  lnrData ← lift_outcome (match out3 with CachedListeners ls => Ok ls | _ => Panicked end);
  lbPort ← lift_outcome (listener_port tgArn lnrData);
  match lbPort with
  | None => mret (inr "error: Unable to identify listener port for ELBv2")
  | Some lbPort =>
      out4 ←? ask svc ("lb_" +:+ lbArn) CachedLoadBalancers (λ api, Api.DescribeLoadBalancers api (Some lbArns));
      lbData ← lift_outcome (match out4 with CachedLoadBalancers ls => Ok ls | _ => Panicked end);
      lb ← lift_outcome (head_or_panic lbData);
      mret (inl {| LbInfo.DNSName := LoadBalancer.DNSName lb; LbInfo.Port := lbPort;
                   LbInfo.ELBEndpoint := ""; LbInfo.TargetGroupArn := tgArn;
                   LbInfo.IpAddress := ""; LbInfo.VipAddress := "" |})
  end.

(** The service name of the label, or the one ECS has for the task; the cluster is
    kept in the second case only. *)
Definition service_and_cluster (l : LookupValues.t) : M (string * string) :=
  if decide (LookupValues.ServiceName l ≠ "") then mret (LookupValues.ServiceName l, "") else
  if decide (LookupValues.ClusterName l ≠ "" ∧ LookupValues.TaskArn l ≠ "") then
    serviceName ← lookupServiceName (LookupValues.ClusterName l) (LookupValues.TaskArn l);
    mret (serviceName, LookupValues.ClusterName l)
  else mret ("", "").

Definition getELBAndCacheDetails (l : LookupValues.t) : M (LbInfo.t + string) :=
  a ← get_state;
  _ ← sleep (millisecond * Cloud.Intn cloud (Aws.now a) 0)%Z;
  svc ←? getSession cloud;
  '(serviceName, clusterName) ← service_and_cluster l;
  '(lbArns, tgArn) ←?
    (if decide (serviceName = "") then search_groups svc l
     else
       '(lb, tg) ←? getLoadBalancerFromService serviceName clusterName;
       mret (inl ([LoadBalancer.LoadBalancerArn lb], TargetGroup.TargetGroupArn tg)));
  lb_details svc lbArns tgArn.
End elb.
