(* ===== verification/ElbProps.v ===== *)
(** * What the search for a load balancer finds

    Paging through the target groups, the batches of services, the group and the
    listener that are chosen, and the types of what is cached. *)
From S2P Require Import Prelude GoStrings Types Aws Elb.

Section paging.
Context {E : Type} (cloud : Cloud.t).
Implicit Types (a : Aws.t E) (svc : Session.t).

Definition page_at svc a (mark : option string) : TgPage.t + string :=
  Api.DescribeTargetGroups (Cloud.api cloud (Aws.now a) (Session.Region svc))
    (TgInput.mk [] (Some 400%Z) mark).

(** Pages of target groups that follow one another from a marker to the last. *)
Inductive chain svc a : option string → list TgPage.t → Prop :=
| chain_last mark p :
    page_at svc a mark = inl p → TgPage.NextMarker p = None → chain svc a mark [p]
| chain_more mark p m ps :
    page_at svc a mark = inl p → TgPage.NextMarker p = Some m → chain svc a (Some m) ps →
    chain svc a mark (p :: ps).

(** A marker, given out by a page, that AWS answers with an error. *)
Inductive broken svc a : option string → nat → Prop :=
| broken_here mark err : page_at svc a mark = inr err → broken svc a mark 0
| broken_later mark p m n :
    page_at svc a mark = inl p → TgPage.NextMarker p = Some m → broken svc a (Some m) n →
    broken svc a mark (S n).

Lemma getTargetGroupsPage_run svc mark a :
  getTargetGroupsPage cloud svc mark a = (Ok (page_at svc a mark), a).
Proof. done. Qed.

Lemma more_pages_chain fuel svc m ps tgs a :
  chain svc a (Some m) ps → length ps ≤ fuel →
  more_pages cloud fuel svc (Some m) tgs a = (Ok (inl (tgs ++ ps)), a).
Proof.
  intros Hc. remember (Some m) as mark eqn:Hm. revert m Hm fuel tgs.
  induction Hc as [mark p Hp Hn|mark p m' ps Hp Hn Hc IH]; intros m -> [|fuel] tgs Hf;
    simpl in Hf; try lia; cbn [more_pages];
    erewrite GoM_bind_Ok by apply getTargetGroupsPage_run; rewrite Hp, Hn.
  - by destruct fuel.
  - rewrite (IH m' eq_refl) by lia. by rewrite <- (assoc_L app).
Qed.

Lemma more_pages_broken fuel svc m n tgs a :
  broken svc a (Some m) n → n < fuel →
  more_pages cloud fuel svc (Some m) tgs a = (Panicked, a).
Proof.
  intros Hb. remember (Some m) as mark eqn:Hm. revert m Hm fuel tgs.
  induction Hb as [mark err Hp|mark p m' n Hp Hn Hb IH]; intros m -> [|fuel] tgs Hf;
    try lia; cbn [more_pages];
    erewrite GoM_bind_Ok by apply getTargetGroupsPage_run; rewrite Hp; [done|].
  rewrite Hn. apply (IH m' eq_refl). lia.
Qed.

Lemma getAllTargetGroups_chain svc ps a :
  chain svc a None ps → length ps ≤ S (Cloud.pages cloud) →
  getAllTargetGroups cloud svc a = (Ok (inl ps), a).
Proof.
  unfold getAllTargetGroups, try_bind. erewrite GoM_bind_Ok by apply getTargetGroupsPage_run.
  intros Hc Hl. inversion Hc as [mark p Hp Hn|mark p m ps' Hp Hn Hc']; subst; rewrite Hp, Hn.
  - by destruct (Cloud.pages cloud).
  - apply (more_pages_chain _ svc m ps' [p]); [done|]. simpl in Hl. lia.
Qed.

(** C37: the target groups are retrieved page by page: when the pages end, the loop
    ends with all of them, in order and with nothing changed. An error on the
    first page is returned; an error on any later page is not, the program panics
    instead. *)
Theorem getAllTargetGroups_spec svc a :
  (∀ ps, chain svc a None ps → length ps ≤ S (Cloud.pages cloud) →
     getAllTargetGroups cloud svc a = (Ok (inl ps), a)) ∧
  (∀ err, page_at svc a None = inr err → getAllTargetGroups cloud svc a = (Ok (inr err), a)) ∧
  (∀ n, broken svc a None (S n) → n < Cloud.pages cloud →
     getAllTargetGroups cloud svc a = (Panicked, a)).
Proof.
  split; [intros; by apply getAllTargetGroups_chain|].
  unfold getAllTargetGroups, try_bind. erewrite GoM_bind_Ok by apply getTargetGroupsPage_run.
  split; [by intros err ->|].
  intros n Hb Hf. inversion Hb as [|mark p m n' Hp Hn Hb']; subst. rewrite Hp, Hn.
  by apply more_pages_broken with n.
Qed.
End paging.

(** ** The service of a task

    ECS describes up to ten services in a call, in any order, and leaves out those
    it does not know. *)
Section service_name.
Context {E : Type} (cloud : Cloud.t) (clusterName : string).
Context (describe : string → option EcsService.t).
Implicit Types (a : Aws.t E) (svc : Session.t).

Definition describes_batches svc a : Prop := ∀ batch,
  batch ≠ [] → length batch ≤ 10 →
  ∃ out, Api.DescribeServices (Cloud.api cloud (Aws.now a) (Session.Region svc)) clusterName batch =
           inl out ∧ out ≡ₚ omap describe batch.

(** The names of the services that run a task definition. *)
Definition running (taskDef : string) (arns : list string) : list string :=
  EcsService.ServiceName <$>
    filter (λ ser, EcsService.TaskDefinition ser = taskDef) (omap describe arns).

Lemma running_app td l k : running td (l ++ k) = running td l ++ running td k.
Proof. unfold running. by rewrite omap_app, filter_app, fmap_app. Qed.

Lemma running_perm td out l : out ≡ₚ omap describe l →
  EcsService.ServiceName <$> filter (λ ser, EcsService.TaskDefinition ser = td) out ≡ₚ running td l.
Proof. intros Hp. unfold running. by rewrite Hp. Qed.

Lemma match_services_spec svc td rest i chunk matched a :
  describes_batches svc a → (0 ≤ i)%Z → Z.of_nat (length chunk) = (i mod 10)%Z → rest ≠ [] →
  ∃ names,
    match_services cloud svc clusterName td (i + Z.of_nat (length rest)) i chunk matched rest a =
      (Ok (inl (matched ++ names)), a) ∧ names ≡ₚ running td (chunk ++ rest).
Proof.
  intros Hd. revert i chunk matched.
  induction rest as [|s rest IH]; intros i chunk matched Hi Hc Hne; [done|].
  assert (length (chunk ++ [s]) ≤ 10) as Hlen.
  { rewrite length_app. simpl. pose proof (Z.mod_pos_bound i 10). lia. }
  cbn [match_services].
  replace (i + Z.of_nat (length (s :: rest)))%Z with ((i + 1) + Z.of_nat (length rest))%Z
    by (simpl length; lia).
  case_decide as Hcall.
  - destruct (Hd (chunk ++ [s])) as (out & Hout & Hp); [by destruct chunk|done|].
    erewrite try_bind_inl; [|unfold on_aws; go_unfold; by rewrite Hout].
    apply (running_perm td) in Hp. destruct rest as [|s' rest].
    + eexists. by split; [reflexivity|].
    + destruct (IH (i + 1)%Z [] (matched ++
         (EcsService.ServiceName <$> filter (λ ser, EcsService.TaskDefinition ser = td) out)))
        as (names & Hrun & Hn); [lia| |done|].
      { simpl. destruct Hcall as [[-> _]|Heq]; [done|]. simpl length in Heq. lia. }
      rewrite <- (assoc_L app) in Hrun. eexists. split; [exact Hrun|].
      rewrite Hp, Hn, (cons_middle s chunk (s' :: rest)), (assoc_L app).
      by rewrite (running_app td (chunk ++ [s])).
  - destruct rest as [|s' rest]; [destruct Hcall; right; simpl; lia|].
    destruct (IH (i + 1)%Z (chunk ++ [s]) matched) as (names & Hrun & Hn); [lia| |done|].
    { rewrite length_app, Nat2Z.inj_add, Hc. simpl.
      assert ((i + 1) mod 10 ≠ 0)%Z; [|clear -Hi H; Z.to_euclidean_division_equations; lia].
      intros Hm. apply Hcall. left. split; [done|]. destruct (decide (i = 0)%Z) as [->|]; [done|lia]. }
    exists names. split; [exact Hrun|]. by rewrite Hn, <- (assoc_L app).
Qed.

(** C36: the service of a task is found exactly when one service of the cluster
    alone runs the task's definition, however many batches of services it takes;
    no batch has more than the ten services ECS allows. Otherwise the empty name
    is returned. *)
Theorem lookupServiceName_spec taskArn pages taskDef rest a :
  metadata_ready a → Cloud.NewSession cloud = None →
  let a' := with_metadata cloud a in
  let svc := Session.mk (region cloud a) in
  let api := Cloud.api cloud (Aws.now a) (region cloud a) in
  describes_batches svc a' →
  Api.ListServicesPages api clusterName = (pages, None) →
  Api.DescribeTasks api clusterName [taskArn] = inl (taskDef :: rest) →
  lookupServiceName cloud clusterName taskArn a =
    (Ok (match running taskDef (concat pages) with [name] => name | _ => "" end), a').
Proof.
  intros Hr Hns a' svc api Hd Hl Ht. unfold api in Hl, Ht. clear api. unfold lookupServiceName.
  pose proof (new_session_spec cloud a Hr) as Hs. rewrite Hns in Hs.
  rewrite (GoM_bind_Ok _ _ _ _ _ Hs). fold a' svc.
  assert (Aws.now a' = Aws.now a) as Hnow by apply with_metadata_keeps.
  erewrite GoM_bind_Ok; [|unfold on_aws; go_unfold; by rewrite Hnow, Hl].
  cbv beta iota zeta. case_decide as Hnil; [destruct Hnil as [|Hnil]; [done|]; by rewrite Hnil|].
  erewrite GoM_bind_Ok; [|unfold on_aws; go_unfold; by rewrite Hnow, Ht].
  destruct (match_services_spec svc taskDef (concat pages) 0 [] [] a')
    as (names & Hrun & Hn); [done|lia|done|by intros ?; apply Hnil; right|].
  rewrite Z.add_0_l in Hrun. rewrite (GoM_bind_Ok _ _ _ _ _ Hrun). simpl in *.
  destruct names as [|x [|y names]].
  - by apply Permutation_nil_l in Hn as <-.
  - by apply Permutation_singleton_l in Hn as <-.
  - destruct (running taskDef (concat pages)) as [|x' [|y' l]]; [|apply Permutation_length in Hn; simpl in Hn; lia|done].
    apply Permutation_length in Hn. done.
Qed.
End service_name.

(** ** Queries through the cache *)
Section queries.
Context {E : Type}.
Implicit Types a : Aws.t E.

(** What a query of AWS through the cache answers. *)
Definition answer_of (k : string) (r : cached + string) a : cached + string :=
  match cache_Get k a with Some x => inl x | None => r end.

Definition answered (r : cached + string) : option cached :=
  match r with inl x => Some x | inr _ => None end.

Context (cloud : Cloud.t) (svc : Session.t).

Definition api_at a : Api.t := Cloud.api cloud (Aws.now a) (Session.Region svc).

(** It changes the cache alone, and there the answer to the query alone. *)
Lemma ask_spec {A} k (c : A → cached) (f : Api.t → A + string) a :
  let r := answer_of k (cached_as c (f (api_at a))) a in
  ∃ a', ask cloud svc k c f a = (Ok r, a') ∧ (∃ m, a' = Aws.set_items m a) ∧
    ∀ k', cache_Get k' a' = if decide (k' = k) then answered r else cache_Get k' a.
Proof.
  unfold ask, GetAndCache, answer_of. erewrite GoM_bind_Ok by reflexivity.
  destruct (cache_Get k a) as [x|] eqn:Hk.
  { exists a. split; [done|]. split; [exists (Aws.items a); by destruct a|].
    intros k'. case_decide; by subst. }
  erewrite GoM_bind_Ok by reflexivity. fold (api_at a). destruct (f (api_at a)) as [x|err]; simpl.
  - eexists. split; [reflexivity|]. split; [by eexists|].
    intros k'. unfold cache_Get. simpl. case_decide as Heq.
    + subst. rewrite lookup_insert_eq. simpl. case_decide; [|done].
      unfold DEFAULT_EXP_TIME, second in *. lia.
    + by rewrite lookup_insert_ne by done.
  - exists a. split; [done|]. split; [exists (Aws.items a); by destruct a|].
    intros k'. case_decide; by subst.
Qed.

(** The targets of a group, as the cache and AWS have them; a cached value of
    another type counts as no targets. *)
Definition seen a (arn : string) : list (option Target.t) + string :=
  match cache_Get ("tg_arn_" +:+ arn) a with
  | Some (CachedHealth ts) => inl ts
  | Some _ => inl []
  | None => Api.DescribeTargetHealth (api_at a) arn
  end.

(** The group has the instance with the port among its targets. *)
Definition matched (l : LookupValues.t) a (tg : TargetGroup.t) : bool :=
  match seen a (TargetGroup.TargetGroupArn tg) with
  | inl ts => existsb (is_target l) ts
  | inr _ => false
  end.

(** The search of the groups leaves everything but the cached groups and targets
    alone, and the targets as they were seen. *)
Definition same_view a a' : Prop :=
  (∃ m, a' = Aws.set_items m a) ∧ (∀ arn, seen a' arn = seen a arn) ∧
  ∀ k, k ≠ "tg" → (∀ arn, k ≠ "tg_arn_" +:+ arn) → cache_Get k a' = cache_Get k a.

Lemma same_view_refl a : same_view a a.
Proof. split; [exists (Aws.items a); by destruct a|]. by split. Qed.

Lemma same_view_trans a1 a2 a3 : same_view a1 a2 → same_view a2 a3 → same_view a1 a3.
Proof.
  intros ([m ->] & H1 & K1) ([m' ->] & H2 & K2). split; [by exists m'|]. split.
  - intros arn. by rewrite H2, H1.
  - intros k Htg Hk. by rewrite K2, K1.
Qed.

Lemma same_view_matched l a a' tg : same_view a a' → matched l a' tg = matched l a tg.
Proof. unfold matched. by intros (_ & -> & _). Qed.

(** One group's query. *)
Lemma target_query arn a ts : seen a arn = inl ts →
  ∃ x a', ask cloud svc ("tg_arn_" +:+ arn) CachedHealth
            (λ api, Api.DescribeTargetHealth api arn) a = (Ok (inl x), a') ∧
    ts = match x with CachedHealth ts => ts | _ => [] end ∧ same_view a a'.
Proof.
  intros Hs. destruct (ask_spec ("tg_arn_" +:+ arn) CachedHealth
    (λ api, Api.DescribeTargetHealth api arn) a) as (a' & Hrun & [m ->] & Hk).
  set (r := answer_of _ _ _) in *.
  assert (∃ x, r = inl x ∧ ts = match x with CachedHealth ts => ts | _ => [] end) as (x & Hx & Hts).
  { subst r. unfold answer_of. unfold seen in Hs. destruct (cache_Get _ a) as [x|].
    - exists x. split; [done|]. destruct x; congruence.
    - rewrite Hs. by eexists. }
  rewrite Hx in *. exists x. eexists. split; [exact Hrun|]. split; [done|].
  split; [by eexists|]. split.
  - intros arn'. unfold seen at 1. rewrite Hk. case_decide as Heq; [|done].
    apply (inj (String.append "tg_arn_")) in Heq as ->. rewrite Hs, Hts. by destruct x.
  - intros k _ Hne. rewrite Hk. case_decide; [by destruct (Hne arn)|done].
Qed.
End queries.

(** * Concrete runs *)
Module ElbRuns.
Definition tg_a := TargetGroup.mk "arn:a" (Some ["lb:a"]).
Definition tg_b := TargetGroup.mk "arn:b" (Some ["lb:b"]).
Definition page1 := TgPage.mk [Some tg_a] (Some "2").
Definition page2 := TgPage.mk [None; Some tg_b] None.

(** Twelve services, the last of which runs the task. *)
Definition services : list string :=
  ["s0"; "s1"; "s2"; "s3"; "s4"; "s5"; "s6"; "s7"; "s8"; "s9"; "s10"; "s11"].

Definition describe (s : string) : option EcsService.t :=
  Some (EcsService.mk s (if decide (s = "s11") then "td:1" else "td:0") [Some "arn:b"]).

(** The pages after the second cannot be had, if [broken] neither can the second. *)
Definition api (broken : bool) : Api.t := {|
  Api.DescribeServices _ batch :=
    if decide (length batch ≤ 10) then inl (omap describe batch) else inr "too many";
  Api.ListServicesPages _ := ([take 7 services; drop 7 services], None);
  Api.DescribeTasks _ _ := inl ["td:1"];
  Api.DescribeTargetGroups input :=
    match TgInput.TargetGroupArns input, TgInput.Marker input with
    | [], None => inl page1
    | [], Some _ => if broken then inr "throttled" else inl page2
    | _, _ => inl (TgPage.mk [Some tg_b] None)
    end;
  Api.DescribeTargetHealth arn :=
    inl [Some (Target.mk "i-1" (if decide (arn = "arn:b") then 8000 else 80) "healthy")];
  Api.DescribeListeners lb := inl [Listener.mk (Some 80%Z) [Some "arn:a"];
                                   Listener.mk (Some 443%Z) [Some "arn:b"]];
  Api.DescribeLoadBalancers lbs := inl [LoadBalancer.mk "lb:b" "b.example"]
|}.

Definition cloud (broken : bool) : Cloud.t :=
  Cloud.mk (Ec2.mk false None (λ _, None)) None (λ _ _, api broken) (λ _ _, 250%Z) 5.

Definition svc : Session.t := Session.mk "".
End ElbRuns.

Lemma getAllTargetGroups_spec_witness :
  getAllTargetGroups (ElbRuns.cloud false) ElbRuns.svc AwsRuns.empty =
    (Ok (inl [ElbRuns.page1; ElbRuns.page2]), AwsRuns.empty) ∧
  getAllTargetGroups (ElbRuns.cloud true) ElbRuns.svc AwsRuns.empty = (Panicked, AwsRuns.empty).
Proof.
  split.
  - apply (getAllTargetGroups_spec (ElbRuns.cloud false) ElbRuns.svc AwsRuns.empty); [|simpl; lia].
    eapply chain_more; [reflexivity..|]. by apply chain_last.
  - apply (getAllTargetGroups_spec (ElbRuns.cloud true) ElbRuns.svc AwsRuns.empty) with 0;
      [|simpl; lia].
    eapply broken_later; [reflexivity..|]. by eapply broken_here.
Defined.

Lemma lookupServiceName_spec_witness :
  lookupServiceName (ElbRuns.cloud false) "main" "task:1" AwsRuns.empty =
    (Ok "s11", with_metadata (ElbRuns.cloud false) AwsRuns.empty).
Proof.
  apply (lookupServiceName_spec (ElbRuns.cloud false) "main" ElbRuns.describe "task:1"
    [take 7 ElbRuns.services; drop 7 ElbRuns.services] "td:1" [] AwsRuns.empty).
  - intros [=].
  - reflexivity.
  - intros batch _ Hb. eexists. split; [|reflexivity]. simpl. by rewrite decide_True.
  - reflexivity.
  - reflexivity.
Defined.
