(* ===== verification/ElbSearch.v ===== *)
(** * The search for a load balancer as a whole

    Which group, listener and balancer [getELBAndCacheDetails] settles on, through
    the target groups and through the service, and when it finds none. *)
From S2P Require Import Prelude GoStrings Types Aws Elb ElbProps.

Section search.
Context {E : Type} (cloud : Cloud.t) (svc : Session.t) (l : LookupValues.t).
Implicit Types a : Aws.t E.

(** ** The target group *)
Definition choose a (f : found) (tg : option TargetGroup.t) : found :=
  match tg with
  | Some tg => if matched cloud svc l a tg
               then (TargetGroup.LoadBalancerArns tg, TargetGroup.TargetGroupArn tg) else f
  | None => f
  end.

Lemma choose_view a a' f tgs : same_view cloud svc a a' →
  foldl (choose a') f tgs = foldl (choose a) f tgs.
Proof.
  intros Hv. revert f. induction tgs as [|[tg|] tgs IH]; intros f; simpl; [done| |done].
  by rewrite (same_view_matched _ _ _ _ _ _ Hv), IH.
Qed.

(** The health of every group on the pages can be had. *)
Definition all_seen a (tgs : list (option TargetGroup.t)) : Prop :=
  ∀ tg, Some tg ∈ tgs → ∃ ts, seen cloud svc a (TargetGroup.TargetGroupArn tg) = inl ts.

Lemma all_seen_view a a' tgs : same_view cloud svc a a' → all_seen a tgs → all_seen a' tgs.
Proof. intros (_ & Hs & _) Ha tg Htg. rewrite Hs. by apply Ha. Qed.

Lemma check_groups_spec tgs f a : all_seen a tgs →
  ∃ a', check_groups cloud svc l tgs f a = (Ok (inl (foldl (choose a) f tgs)), a') ∧
        same_view cloud svc a a'.
Proof.
  revert f a. induction tgs as [|[tg|] tgs IH]; intros f a Ha; simpl.
  - exists a. split; [done|apply same_view_refl].
  - destruct (Ha tg) as [ts Hts]; [left|].
    destruct (target_query cloud svc _ a ts Hts) as (x & a1 & Hrun & -> & Hv).
    rewrite (try_bind_inl _ _ _ _ _ Hrun).
    destruct (IH (choose a f (Some tg)) a1) as (a2 & Hrun2 & Hv2).
    { eapply all_seen_view; [exact Hv|]. intros tg' Htg'. apply Ha. by right. }
    rewrite (choose_view a a1) in Hrun2 by done.
    exists a2. split; [|by eapply same_view_trans].
    etrans; [|exact Hrun2]. unfold choose at 1, matched. rewrite Hts. by destruct x.
  - apply IH. intros tg Htg. apply Ha. by right.
Qed.

(** Page by page, up to the first after which a group with balancers is chosen. *)
Fixpoint settle a (pages : list TgPage.t) (f : found) : found :=
  match pages with
  | [] => f
  | p :: pages =>
      let f := foldl (choose a) f (TgPage.TargetGroups p) in
      if decide (f.1 ≠ None ∧ f.2 ≠ "") then f else settle a pages f
  end.

Lemma settle_view a a' pages f : same_view cloud svc a a' → settle a' pages f = settle a pages f.
Proof.
  intros Hv. revert f. induction pages as [|p pages IH]; intros f; simpl; [done|].
  rewrite (choose_view a a') by done. case_decide; [done|apply IH].
Qed.

Lemma check_pages_spec pages f a : all_seen a (pages ≫= TgPage.TargetGroups) →
  ∃ a', check_pages cloud svc l pages f a = (Ok (inl (settle a pages f)), a') ∧
        same_view cloud svc a a'.
Proof.
  revert f a. induction pages as [|p pages IH]; intros f a Ha; simpl.
  { exists a. split; [done|apply same_view_refl]. }
  destruct (check_groups_spec (TgPage.TargetGroups p) f a) as (a1 & Hrun & Hv).
  { intros tg Htg. apply Ha. apply elem_of_app. by left. }
  rewrite (try_bind_inl _ _ _ _ _ Hrun). case_decide as Hd; [by exists a1|].
  destruct (IH (foldl (choose a) f (TgPage.TargetGroups p)) a1) as (a2 & Hrun2 & Hv2).
  { eapply all_seen_view; [exact Hv|]. intros tg Htg. apply Ha. apply elem_of_app. by right. }
  rewrite (settle_view a a1) in Hrun2 by done.
  exists a2. split; [done|by eapply same_view_trans].
Qed.

(** A choice comes from a group that has the target. *)
Lemma foldl_choose_sound a f tgs :
  foldl (choose a) f tgs = f ∨
  ∃ tg, Some tg ∈ tgs ∧ matched cloud svc l a tg = true ∧
    foldl (choose a) f tgs = (TargetGroup.LoadBalancerArns tg, TargetGroup.TargetGroupArn tg).
Proof.
  revert f. induction tgs as [|[tg|] tgs IH]; intros f; simpl; [by left| |].
  - destruct (IH (choose a f (Some tg))) as [Heq|(tg' & Hin & Hm & Heq)].
    + simpl in Heq. destruct (matched cloud svc l a tg) eqn:Hm.
      * right. exists tg. split; [left|done].
      * by left.
    + right. exists tg'. split; [by right|done].
  - destruct (IH f) as [?|(tg & Hin & ?)]; [by left|]. right. exists tg. split; [by right|done].
Qed.

Lemma settle_sound a f pages :
  settle a pages f = f ∨
  ∃ tg, Some tg ∈ pages ≫= TgPage.TargetGroups ∧ matched cloud svc l a tg = true ∧
    settle a pages f = (TargetGroup.LoadBalancerArns tg, TargetGroup.TargetGroupArn tg).
Proof.
  revert f. induction pages as [|p pages IH]; intros f; simpl; [by left|].
  set (f1 := foldl (choose a) f (TgPage.TargetGroups p)).
  assert (f1 = f ∨ ∃ tg, Some tg ∈ TgPage.TargetGroups p ++ (pages ≫= TgPage.TargetGroups) ∧
    matched cloud svc l a tg = true ∧
    f1 = (TargetGroup.LoadBalancerArns tg, TargetGroup.TargetGroupArn tg)) as H1.
  { destruct (foldl_choose_sound a f (TgPage.TargetGroups p)) as [?|(tg & ? & ?)]; [by left|].
    right. exists tg. split; [apply elem_of_app; by left|done]. }
  case_decide; [done|]. destruct (IH f1) as [->|(tg & Hin & ?)]; [done|].
  right. exists tg. split; [apply elem_of_app; by right|done].
Qed.

(** A group that alone has the target is the one chosen. *)
Lemma foldl_choose_only a f tgs tg :
  (∀ tg', Some tg' ∈ tgs → matched cloud svc l a tg' = true → tg' = tg) →
  Some tg ∈ tgs → matched cloud svc l a tg = true →
  foldl (choose a) f tgs = (TargetGroup.LoadBalancerArns tg, TargetGroup.TargetGroupArn tg).
Proof.
  intros Hu Hin Hm. apply list_elem_of_split in Hin as (l1 & l2 & ->).
  rewrite foldl_app. simpl. rewrite Hm.
  destruct (foldl_choose_sound a (TargetGroup.LoadBalancerArns tg, TargetGroup.TargetGroupArn tg) l2)
    as [->|(tg' & Hin & Hm' & ->)]; [done|].
  rewrite (Hu tg'); [done| |done]. apply elem_of_app. right. by right.
Qed.

Lemma foldl_choose_none a f tgs :
  (∀ tg, Some tg ∈ tgs → matched cloud svc l a tg = false) → foldl (choose a) f tgs = f.
Proof.
  intros Hn. destruct (foldl_choose_sound a f tgs) as [?|(tg & Hin & Hm & _)]; [done|].
  by rewrite (Hn tg Hin) in Hm.
Qed.

Lemma settle_only a pages tg lbs :
  (∀ tg', Some tg' ∈ pages ≫= TgPage.TargetGroups → matched cloud svc l a tg' = true → tg' = tg) →
  Some tg ∈ pages ≫= TgPage.TargetGroups → matched cloud svc l a tg = true →
  TargetGroup.LoadBalancerArns tg = Some lbs → TargetGroup.TargetGroupArn tg ≠ "" →
  settle a pages (None, "") = (Some lbs, TargetGroup.TargetGroupArn tg).
Proof.
  intros Hu Hin Hm Hlb Harn. induction pages as [|p pages IH]; [by apply not_elem_of_nil in Hin|].
  simpl. destruct (decide (Some tg ∈ TgPage.TargetGroups p)) as [Hp|Hp].
  - rewrite (foldl_choose_only a _ _ tg); [|intros; apply Hu; [apply elem_of_app; by left|done]|done..].
    rewrite Hlb. by rewrite decide_True.
  - rewrite foldl_choose_none.
    + rewrite decide_False by (simpl; naive_solver). apply IH.
      * intros. apply Hu; [apply elem_of_app; by right|done].
      * simpl in Hin. by apply elem_of_app in Hin as [?|?].
    + intros tg' Hin'. apply not_true_iff_false. intros Hm'.
      rewrite (Hu tg') in Hin'; [done|apply elem_of_app; by left|done].
Qed.

(** The pages of groups, as the cache and AWS have them. *)
Definition groups_known a (pages : list TgPage.t) : Prop :=
  match cache_Get "tg" a with
  | Some (CachedGroups ps) => pages = ps
  | Some _ => pages = []
  | None => chain cloud svc a None pages ∧ length pages ≤ S (Cloud.pages cloud)
  end.

Lemma all_groups_spec pages a : groups_known a pages →
  ∃ a', all_groups cloud svc a = (Ok (inl pages), a') ∧ same_view cloud svc a a'.
Proof.
  unfold groups_known, all_groups. intros Hg.
  destruct (cache_Get "tg" a) as [x|] eqn:Hk.
  { exists a. split; [|apply same_view_refl]. erewrite GoM_bind_Ok; [|by apply GetAndCache_hit].
    destruct x; by subst. }
  destruct Hg as [Hc Hlen]. pose proof (getAllTargetGroups_chain cloud svc pages a Hc Hlen) as Hrun.
  erewrite GoM_bind_Ok by (apply GetAndCache_miss; [done|];
    by rewrite (try_bind_inl _ _ _ _ _ Hrun)).
  eexists. split; [reflexivity|]. split; [by eexists|]. split.
  - intros arn. unfold seen, cache_Get. simpl. by rewrite lookup_insert_ne by done.
  - intros k Htg _. unfold cache_Get. simpl. by rewrite lookup_insert_ne by done.
Qed.

(** What the search of the groups returns. *)
Definition search_result (f : found) : list string * string + string :=
  match f with
  | (Some lbArns, tgArn) => inl (lbArns, tgArn)
  | (None, _) => inr "failed to retrieve load balancer ARN"
  end.

Lemma search_groups_run pages a :
  groups_known a pages → all_seen a (pages ≫= TgPage.TargetGroups) →
  ∃ a', search_groups cloud svc l a = (Ok (search_result (settle a pages (None, ""))), a') ∧
        same_view cloud svc a a'.
Proof.
  intros Hg Hs. unfold search_groups.
  destruct (all_groups_spec pages a Hg) as (a1 & Hrun & Hv).
  rewrite (try_bind_inl _ _ _ _ _ Hrun).
  destruct (check_pages_spec pages (None, "") a1) as (a2 & Hrun2 & Hv2);
    [by eapply all_seen_view|].
  rewrite (try_bind_inl _ _ _ _ _ Hrun2), (settle_view a a1) by done.
  exists a2. split; [|by eapply same_view_trans].
  by destruct (settle a pages (None, "")) as [[lbs|] arn].
Qed.

(** ** The listener and the balancer *)
Lemma action_port_spec tgArn port lbPort acts : None ∉ acts →
  action_port tgArn port lbPort acts =
    Ok (if decide (Some tgArn ∈ acts) then port else lbPort).
Proof.
  induction acts as [|[act|] acts IH]; intros Hn.
  - by rewrite decide_False by apply not_elem_of_nil.
  - apply not_elem_of_cons in Hn as [_ Hn]. simpl. specialize (IH Hn).
    destruct (decide (act = tgArn)) as [->|Hne]; [by rewrite decide_True by set_solver|].
    rewrite IH. f_equal. apply decide_ext. set_solver.
  - destruct Hn. left.
Qed.

(** The last listener that forwards to the group. *)
Definition forwards (tgArn : string) (ls : list Listener.t) : option Listener.t :=
  last (filter (λ li, Some tgArn ∈ Listener.DefaultActions li) ls).

Lemma listener_port_spec tgArn ls : (∀ li, li ∈ ls → None ∉ Listener.DefaultActions li) →
  listener_port tgArn ls = Ok (forwards tgArn ls ≫= Listener.Port).
Proof.
  intros Hn. unfold listener_port, forwards.
  assert (∀ p, fold_outcome (λ lbPort listener, action_port tgArn (Listener.Port listener) lbPort
      (Listener.DefaultActions listener)) p ls =
    Ok (match last (filter (λ li, Some tgArn ∈ Listener.DefaultActions li) ls) with
        | Some li => Listener.Port li | None => p end)) as Hgen.
  { induction ls as [|li ls IH]; intros p; [done|]. simpl.
    rewrite action_port_spec by (apply Hn; left). unfold mbind. simpl.
    rewrite IH by (intros; apply Hn; by right). rewrite filter_cons.
    case_decide; [|done]. rewrite last_cons. by destruct (last _). }
  rewrite Hgen. by destruct (last _).
Qed.

Definition listeners_known a (lb : string) : cached + string :=
  answer_of ("lsnr_" +:+ lb) (cached_as CachedListeners (Api.DescribeListeners (api_at cloud svc a) lb)) a.

Definition balancers_known a (lbs : list string) (lb : string) : cached + string :=
  answer_of ("lb_" +:+ lb)
    (cached_as CachedLoadBalancers (Api.DescribeLoadBalancers (api_at cloud svc a) (Some lbs))) a.

Lemma lb_details_spec a lb lbs tgArn ls li port b bs :
  listeners_known a lb = inl (CachedListeners ls) →
  (∀ li, li ∈ ls → None ∉ Listener.DefaultActions li) →
  forwards tgArn ls = Some li → Listener.Port li = Some port →
  balancers_known a (lb :: lbs) lb = inl (CachedLoadBalancers (b :: bs)) →
  ∃ a', lb_details cloud svc (lb :: lbs) tgArn a =
    (Ok (inl (LbInfo.mk (LoadBalancer.DNSName b) port "" tgArn "" "")), a').
Proof.
  intros Hls Hn Hf Hp Hbs. unfold lb_details. erewrite GoM_bind_Ok by reflexivity.
  destruct (ask_spec cloud svc ("lsnr_" +:+ lb) CachedListeners
    (λ api, Api.DescribeListeners api lb) a) as (a1 & Hrun & [m ->] & Hk).
  fold (listeners_known a lb) in Hrun. rewrite Hls in Hrun.
  rewrite (try_bind_inl _ _ _ _ _ Hrun). erewrite GoM_bind_Ok by reflexivity.
  erewrite GoM_bind_Ok by (unfold lift_outcome; by rewrite listener_port_spec, Hf; simpl; rewrite ?Hp).
  destruct (ask_spec cloud svc ("lb_" +:+ lb) CachedLoadBalancers
    (λ api, Api.DescribeLoadBalancers api (Some (lb :: lbs))) (Aws.set_items m a))
    as (a2 & Hrun2 & _ & _).
  unfold answer_of in Hrun2. rewrite (Hk ("lb_" +:+ lb)), decide_False in Hrun2 by done.
  fold (answer_of ("lb_" +:+ lb) (cached_as CachedLoadBalancers
    (Api.DescribeLoadBalancers (api_at cloud svc (Aws.set_items m a)) (Some (lb :: lbs)))) a) in Hrun2.
  change (api_at cloud svc (Aws.set_items m a)) with (api_at cloud svc a) in Hrun2.
  fold (balancers_known a (lb :: lbs) lb) in Hrun2. rewrite Hbs in Hrun2.
  rewrite (try_bind_inl _ _ _ _ _ Hrun2). by eexists.
Qed.
End search.

(** ** The whole search *)
Section whole.
Context {E : Type} (cloud : Cloud.t).
Implicit Types (a : Aws.t E) (l : LookupValues.t).

(** The state after the initial wait, with the metadata. *)
Definition after_wait a : Aws.t E :=
  with_metadata cloud
    (Aws.set_now (Aws.now a + millisecond * Cloud.Intn cloud (Aws.now a) 0)%Z a).

Abbreviation session a := (Session.mk (region cloud (after_wait a))).

Lemma region_after_wait a : region cloud
    (Aws.set_now (Aws.now a + millisecond * Cloud.Intn cloud (Aws.now a) 0)%Z a) =
  region cloud (after_wait a).
Proof. unfold region, after_wait. by rewrite with_metadata_idemp. Qed.

(** The search once the service is known or known to be unknown. *)
Lemma getELBAndCacheDetails_run l a serviceName clusterName :
  metadata_ready a → Cloud.NewSession cloud = None →
  service_and_cluster cloud l (after_wait a) = (Ok (serviceName, clusterName), after_wait a) →
  getELBAndCacheDetails cloud l a =
    try_bind (if decide (serviceName = "") then search_groups cloud (session a) l
       else try_bind (getLoadBalancerFromService cloud serviceName clusterName) (λ '(lb, tg),
         mret (inl ([LoadBalancer.LoadBalancerArn lb], TargetGroup.TargetGroupArn tg))))
      (λ '(lbArns, tgArn), lb_details cloud (session a) lbArns tgArn) (after_wait a).
Proof.
  intros Hr Hns Hsc. unfold getELBAndCacheDetails.
  erewrite GoM_bind_Ok by reflexivity. erewrite GoM_bind_Ok by reflexivity.
  erewrite try_bind_inl.
  2: { unfold getSession. rewrite new_session_spec by exact Hr. rewrite Hns. reflexivity. }
  fold (after_wait a). rewrite (GoM_bind_Ok _ _ _ _ _ Hsc), region_after_wait. done.
Qed.

(** What is known of a balancer: the listeners, none of which lacks a target
    group, the last one that forwards to the group, and the description. *)
Definition balancer_known a lbs lb tgArn port b : Prop :=
  ∃ ls li bs,
    listeners_known cloud (session a) (after_wait a) lb = inl (CachedListeners ls) ∧
    (∀ li, li ∈ ls → None ∉ Listener.DefaultActions li) ∧
    forwards tgArn ls = Some li ∧ Listener.Port li = Some port ∧
    balancers_known cloud (session a) (after_wait a) (lb :: lbs) lb =
      inl (CachedLoadBalancers (b :: bs)).

(** The targets with the container's instance ID and port. *)
Lemma matched_target l a tg ts :
  seen cloud (session a) (after_wait a) (TargetGroup.TargetGroupArn tg) = inl ts →
  matched cloud (session a) l (after_wait a) tg = true ↔
  ∃ t, Some t ∈ ts ∧ Target.Id t = LookupValues.InstanceID l ∧ Target.Port t = LookupValues.Port l.
Proof.
  intros Hts. unfold matched. rewrite Hts, existsb_exists. split.
  - intros ([t|] & Hin & Hb); [|done]. apply bool_decide_eq_true in Hb as [? ?].
    exists t. by split; [apply list_elem_of_In|].
  - intros (t & Hin & ? & ?). exists (Some t). split; [by apply list_elem_of_In|].
    by apply bool_decide_eq_true.
Qed.

(** C33: without a service name, the load balancer is found through the target
    groups: when the targets of every group are known, one group alone has a target
    with the container's instance ID and its port, and that group belongs to a
    balancer, the answer is that group, the port of the last of the balancer's
    listeners that forwards to it, and the balancer's DNS name. *)
Theorem find_by_targets l a c pages tg lb lbs port b :
  metadata_ready a → Cloud.NewSession cloud = None →
  service_and_cluster cloud l (after_wait a) = (Ok ("", c), after_wait a) →
  groups_known cloud (session a) (after_wait a) pages →
  Some tg ∈ pages ≫= TgPage.TargetGroups →
  (∀ tg', Some tg' ∈ pages ≫= TgPage.TargetGroups →
     ∃ ts, seen cloud (session a) (after_wait a) (TargetGroup.TargetGroupArn tg') = inl ts ∧
       ((∃ t, Some t ∈ ts ∧ Target.Id t = LookupValues.InstanceID l ∧
              Target.Port t = LookupValues.Port l) ↔ tg' = tg)) →
  TargetGroup.LoadBalancerArns tg = Some (lb :: lbs) → TargetGroup.TargetGroupArn tg ≠ "" →
  balancer_known a lbs lb (TargetGroup.TargetGroupArn tg) port b →
  ∃ a', getELBAndCacheDetails cloud l a =
    (Ok (inl (LbInfo.mk (LoadBalancer.DNSName b) port "" (TargetGroup.TargetGroupArn tg) "" "")), a').
Proof.
  intros Hr Hns Hsc Hg Hin Hm Hlb Harn (ls & li & bs & Hls & Hn & Hf & Hp & Hbs).
  rewrite (getELBAndCacheDetails_run _ _ _ _ Hr Hns Hsc), decide_True by done.
  destruct (search_groups_run cloud (session a) l pages (after_wait a) Hg) as (a1 & Hrun & Hv).
  { intros tg' Htg'. destruct (Hm tg' Htg') as (ts & Hts & _). by exists ts. }
  assert (∀ tg', Some tg' ∈ pages ≫= TgPage.TargetGroups →
    matched cloud (session a) l (after_wait a) tg' = true ↔ tg' = tg) as Hmt.
  { intros tg' Htg'. destruct (Hm tg' Htg') as (ts & Hts & Hiff). by rewrite (matched_target _ _ _ _ Hts). }
  clear Hm. rewrite (settle_only _ _ _ _ _ tg (lb :: lbs)) in Hrun; [|naive_solver..].
  rewrite (try_bind_inl _ _ _ _ _ Hrun).
  destruct Hv as ([m ->] & _ & Hk).
  eapply lb_details_spec; [|exact Hn|exact Hf|exact Hp|].
  - rewrite <- Hls. unfold listeners_known, answer_of. rewrite Hk; [done|done|].
    intros arn. done.
  - rewrite <- Hbs. unfold balancers_known, answer_of. rewrite Hk; [done|done|]. done.
Qed.

(** C35: when no group is seen to have the target, the search fails. A group whose
    healthy targets are cached is seen to have none, since the health test keeps
    them under the key of the search: while they are cached, a container behind
    that group is not found. *)
Theorem not_found l a c pages :
  metadata_ready a → Cloud.NewSession cloud = None →
  service_and_cluster cloud l (after_wait a) = (Ok ("", c), after_wait a) →
  groups_known cloud (session a) (after_wait a) pages →
  (∀ tg, Some tg ∈ pages ≫= TgPage.TargetGroups →
     (∃ ts, cache_Get ("tg_arn_" +:+ TargetGroup.TargetGroupArn tg) (after_wait a) =
            Some (CachedTargets ts)) ∨
     (∃ ts, seen cloud (session a) (after_wait a) (TargetGroup.TargetGroupArn tg) = inl ts ∧
            ∀ t, Some t ∈ ts → ¬ (Target.Port t = LookupValues.Port l ∧
                                  Target.Id t = LookupValues.InstanceID l))) →
  ∃ a', getELBAndCacheDetails cloud l a = (Ok (inr "failed to retrieve load balancer ARN"), a').
Proof.
  intros Hr Hns Hsc Hg Hno.
  rewrite (getELBAndCacheDetails_run _ _ _ _ Hr Hns Hsc), decide_True by done.
  destruct (search_groups_run cloud (session a) l pages (after_wait a) Hg) as (a1 & Hrun & Hv).
  { intros tg Htg. destruct (Hno tg Htg) as [[ts Hts]|(ts & Hts & _)]; [|by exists ts].
    exists []. unfold seen. by rewrite Hts. }
  destruct (settle_sound cloud (session a) l (after_wait a) (None, "") pages)
    as [Heq|(tg & Hin & Hm & _)].
  - rewrite Heq in Hrun. rewrite (try_bind_inr _ _ _ _ _ Hrun). by eexists.
  - exfalso. revert Hm. unfold matched. destruct (Hno tg Hin) as [[ts Hts]|(ts & Hts & Ht)].
    + unfold seen. by rewrite Hts.
    + rewrite Hts. intros ([t|] & Hint & Hb)%existsb_exists; [|done].
      apply bool_decide_eq_true in Hb. apply (Ht t); [by apply list_elem_of_In|done].
Qed.

Lemma getLoadBalancerFromService_run a name cluster s tgArn arns ss tg tgs next b0 bs0 :
  metadata_ready a → Cloud.NewSession cloud = None →
  let api := Cloud.api cloud (Aws.now (after_wait a)) (region cloud (after_wait a)) in
  Api.DescribeServices api cluster [name] = inl (s :: ss) →
  EcsService.LoadBalancers s = tgArn :: arns →
  Api.DescribeTargetGroups api (TgInput.mk [tgArn] None None) = inl (TgPage.mk (Some tg :: tgs) next) →
  Api.DescribeLoadBalancers api (TargetGroup.LoadBalancerArns tg) = inl (b0 :: bs0) →
  getLoadBalancerFromService cloud name cluster (after_wait a) = (Ok (inl (b0, tg)), after_wait a).
Proof.
  intros Hr Hns api Hsv Hlb Htg Hdlb. unfold api in Hsv, Htg, Hdlb.
  assert (new_session cloud (after_wait a) = (Ok (inl (session a)), after_wait a)) as Hsess.
  { rewrite new_session_spec by by apply with_metadata_ready. rewrite Hns.
    unfold after_wait at 2. by rewrite with_metadata_idemp. }
  unfold getLoadBalancerFromService.
  rewrite (try_bind_inl _ _ _ _ _ Hsess), (try_bind_inl _ _ _ _ _ Hsess).
  erewrite try_bind_inl; [|unfold on_aws; go_unfold; by rewrite Hsv].
  destruct s as [sn td lbs]. simpl in Hlb. subst lbs.
  erewrite try_bind_inl; [|unfold on_aws; go_unfold; by rewrite Htg].
  erewrite GoM_bind_Ok by reflexivity. erewrite GoM_bind_Ok by reflexivity.
  erewrite try_bind_inl; [|unfold on_aws; go_unfold; by rewrite Hdlb]. done.
Qed.

(** C34: with a service name, the load balancer is found through ECS: the first
    target group of the service, the first balancer of that group. A name from the
    container's label is looked up in the default cluster, whatever cluster the
    container belongs to; a name found for the task is looked up in its cluster. *)
Theorem find_by_service l a name cluster s tgArn arns ss tg tgs next b0 bs0 port b :
  metadata_ready a → Cloud.NewSession cloud = None → name ≠ "" →
  (LookupValues.ServiceName l = name ∧ cluster = "" ∨
   LookupValues.ServiceName l = "" ∧ LookupValues.ClusterName l = cluster ∧ cluster ≠ "" ∧
   LookupValues.TaskArn l ≠ "" ∧
   lookupServiceName cloud cluster (LookupValues.TaskArn l) (after_wait a) =
     (Ok name, after_wait a)) →
  let api := Cloud.api cloud (Aws.now (after_wait a)) (region cloud (after_wait a)) in
  Api.DescribeServices api cluster [name] = inl (s :: ss) →
  EcsService.LoadBalancers s = tgArn :: arns →
  Api.DescribeTargetGroups api (TgInput.mk [tgArn] None None) = inl (TgPage.mk (Some tg :: tgs) next) →
  Api.DescribeLoadBalancers api (TargetGroup.LoadBalancerArns tg) = inl (b0 :: bs0) →
  balancer_known a [] (LoadBalancer.LoadBalancerArn b0) (TargetGroup.TargetGroupArn tg) port b →
  ∃ a', getELBAndCacheDetails cloud l a =
    (Ok (inl (LbInfo.mk (LoadBalancer.DNSName b) port "" (TargetGroup.TargetGroupArn tg) "" "")), a').
Proof.
  intros Hr Hns Hne Hsrc api Hsv Hlb Htg Hdlb (ls & li & bs & Hls & Hn & Hf & Hp & Hbs).
  assert (service_and_cluster cloud l (after_wait a) = (Ok (name, cluster), after_wait a)) as Hsc.
  { unfold service_and_cluster. destruct Hsrc as [[Hnm ->]|(Hnm & Hcl & Hc & Htask & Hrun)].
    - by rewrite Hnm, decide_True by done.
    - rewrite Hnm, Hcl, decide_False by naive_solver. rewrite decide_True by done.
      by rewrite (GoM_bind_Ok _ _ _ _ _ Hrun). }
  rewrite (getELBAndCacheDetails_run _ _ _ _ Hr Hns Hsc), decide_False by done.
  pose proof (getLoadBalancerFromService_run a name cluster s tgArn arns ss tg tgs next b0 bs0
    Hr Hns Hsv Hlb Htg Hdlb) as Hget.
  erewrite try_bind_inl by (by rewrite (try_bind_inl _ _ _ _ _ Hget)).
  eapply lb_details_spec; eassumption.
Qed.
End whole.

(** * Concrete runs *)
Module SearchRuns.
Definition cloud := ElbRuns.cloud false.
(** A container's values, its service's name, its cluster, and its task. *)
Definition values (service cluster task : string) : LookupValues.t :=
  LookupValues.mk "i-1" 8000 cluster service task.

Definition found : LbInfo.t := LbInfo.mk "b.example" 443 "" "arn:b" "" "".

(** The healthy targets of the container's group are cached. *)
Definition checked : Aws.t unit :=
  Aws.set_items {["tg_arn_arn:b" := (CachedTargets [Target.mk "i-1" 8000 "healthy"], 0%Z)]}
    AwsRuns.empty.

Lemma ready : metadata_ready AwsRuns.empty.
Proof. intros [=]. Defined.

Lemma groups (a : Aws.t unit) : Aws.items a !! "tg" = None →
  groups_known cloud (Session.mk (region cloud (after_wait cloud a)))
    (after_wait cloud a) [ElbRuns.page1; ElbRuns.page2].
Proof.
  intros Ha. unfold groups_known, cache_Get, after_wait.
  destruct (with_metadata_keeps cloud (Aws.set_now
    (Aws.now a + millisecond * Cloud.Intn cloud (Aws.now a) 0) a)) as (_ & -> & _).
  simpl. rewrite Ha. simpl. split; [|lia].
  eapply chain_more; [reflexivity..|]. by apply chain_last.
Defined.

Lemma known lb : balancer_known cloud AwsRuns.empty [] lb "arn:b" 443 (LoadBalancer.mk "lb:b" "b.example").
Proof.
  exists [Listener.mk (Some 80%Z) [Some "arn:a"]; Listener.mk (Some 443%Z) [Some "arn:b"]].
  eexists _, []. split_and!; [reflexivity| |reflexivity|reflexivity|reflexivity].
  intros li [->|[->|?%not_elem_of_nil]%elem_of_cons]%elem_of_cons; simpl; [..|done];
    intros ?%list_elem_of_singleton; discriminate.
Defined.
End SearchRuns.

Lemma find_by_targets_witness :
  ∃ a', getELBAndCacheDetails SearchRuns.cloud (SearchRuns.values "" "" "") AwsRuns.empty =
    (Ok (inl SearchRuns.found), a').
Proof.
  apply (find_by_targets SearchRuns.cloud (SearchRuns.values "" "" "") AwsRuns.empty ""
    [ElbRuns.page1; ElbRuns.page2] ElbRuns.tg_b "lb:b" [] 443 (LoadBalancer.mk "lb:b" "b.example")).
  - apply SearchRuns.ready.
  - reflexivity.
  - reflexivity.
  - by apply SearchRuns.groups.
  - apply elem_of_app. right. apply elem_of_app. left. right. left.
  - intros tg'. simpl. rewrite !elem_of_cons, elem_of_nil. intros [[= ->]|[?|[[= ->]|[]]]]; [|done|];
      (eexists; split; [reflexivity|]); (split; [|intros H; try discriminate H]).
    + intros (t & [= ->]%list_elem_of_singleton & _ & [=]).
    + done.
    + eexists. split; [by left|done].
  - reflexivity.
  - discriminate.
  - apply SearchRuns.known.
Defined.

Lemma not_found_witness :
  ∃ a', getELBAndCacheDetails SearchRuns.cloud (SearchRuns.values "" "" "") SearchRuns.checked =
    (Ok (inr "failed to retrieve load balancer ARN"), a').
Proof.
  apply (not_found SearchRuns.cloud (SearchRuns.values "" "" "") SearchRuns.checked ""
    [ElbRuns.page1; ElbRuns.page2]).
  - intros [=].
  - reflexivity.
  - reflexivity.
  - by apply SearchRuns.groups.
  - intros tg. simpl. rewrite !elem_of_cons, elem_of_nil. intros [[= ->]|[?|[[= ->]|[]]]]; [|done|].
    + right. eexists. split; [reflexivity|]. intros t [= ->]%list_elem_of_singleton [[=] _].
    + left. by eexists.
Defined.

Lemma find_by_service_witness :
  (∃ a', getELBAndCacheDetails SearchRuns.cloud (SearchRuns.values "web" "main" "task:1")
           AwsRuns.empty = (Ok (inl SearchRuns.found), a')) ∧
  (∃ a', getELBAndCacheDetails SearchRuns.cloud (SearchRuns.values "" "main" "task:1")
           AwsRuns.empty = (Ok (inl SearchRuns.found), a')).
Proof.
  split.
  - apply (find_by_service SearchRuns.cloud (SearchRuns.values "web" "main" "task:1") AwsRuns.empty
      "web" "" (EcsService.mk "web" "td:0" [Some "arn:b"]) (Some "arn:b") [] [] ElbRuns.tg_b [] None
      (LoadBalancer.mk "lb:b" "b.example") [] 443 (LoadBalancer.mk "lb:b" "b.example"));
      try reflexivity; [intros [=]|discriminate|by left|apply SearchRuns.known].
  - apply (find_by_service SearchRuns.cloud (SearchRuns.values "" "main" "task:1") AwsRuns.empty
      "s11" "main" (EcsService.mk "s11" "td:1" [Some "arn:b"]) (Some "arn:b") [] [] ElbRuns.tg_b [] None
      (LoadBalancer.mk "lb:b" "b.example") [] 443 (LoadBalancer.mk "lb:b" "b.example"));
      try reflexivity; [intros [=]|discriminate| |apply SearchRuns.known].
    right. split_and!; [reflexivity|reflexivity|discriminate|discriminate|vm_compute; reflexivity].
Defined.
