(* ===== verification/ElbReg.v ===== *)
(** * Registering load balancers: aws/elb.go

    The flags that ask for it, the balancer given or looked up, the registration
    rewritten for it, with the retries, and its heartbeat. *)
From S2P Require Import Prelude GoStrings Types Aws Health Elb.

(** ** Flags *)
Definition explicit_elb (service : Service.t) : bool :=
  bool_decide (attr service "eureka_elbv2_hostname" ≠ "" ∧
               attr service "eureka_elbv2_port" ≠ "" ∧
               attr service "eureka_elbv2_targetgroup" ≠ "").

(** A port that does not parse as a 16-bit number is logged, but the flag that
    records it is then overwritten. *)
Definition CheckELBFlags (service : Service.t) : bool :=
  let isAws := bool_decide (attr service "eureka_datacenterinfo_name" ≠ MyOwn) in
  let hasExplicit := explicit_elb service in
  let useLookup :=
    if decide (attr service "eureka_lookup_elbv2_endpoint" ≠ "")
    then (ParseBool (attr service "eureka_lookup_elbv2_endpoint")).1
    else explicit_elb service in
  (hasExplicit || useLookup) && isAws.

Definition CheckELBOnlyReg (service : Service.t) : bool :=
  if decide (attr service "eureka_elbv2_only_registration" ≠ "") then
    match ParseBool (attr service "eureka_elbv2_only_registration") with
    | (_, true) => true
    | (v, false) => v
    end
  else true.

Section elb_registration.
Context {E : Type} `{EC : EurekaClient E} (cloud : Cloud.t).

Definition GetELBV2ForContainer (containerID : string) (l : LookupValues.t)
    : GoM (Aws.t E) (option LbInfo.t * error) :=
  out ← GetAndCache ("container_" +:+ containerID)
          (lbinfo ←? getELBAndCacheDetails cloud l; mret (inl (CachedLb lbinfo))) NoExpiration;
  match out with
  | inr err => mret (None, Some err)
  | inl (CachedLb info) => mret (Some info, None)
  | inl _ => mret (None, None)
  end.

Definition getELBMetadata (service : Service.t) (port : Z) : GoM (Aws.t E) (LbInfo.t + string) :=
  awsMetadata ← GetMetadata cloud;
  let containerID := ServicePort.ContainerID (Service.Origin service) in
  if explicit_elb service then
    let info := {| LbInfo.DNSName := attr service "eureka_elbv2_hostname";
                   LbInfo.Port := (Atoi (attr service "eureka_elbv2_port")).1;
                   LbInfo.ELBEndpoint := attr service "eureka_elbv2_hostname" +:+ "_" +:+
                                           attr service "eureka_elbv2_port";
                   LbInfo.TargetGroupArn := attr service "eureka_elbv2_targetgroup";
                   LbInfo.IpAddress := ""; LbInfo.VipAddress := "" |} in
    _ ← AddToCache ("container_" +:+ containerID) (CachedLb info) NoExpiration;
    mret (inl info)
  else
    '(found, err) ← GetELBV2ForContainer containerID
      {| LookupValues.InstanceID := HostMetadata.InstanceID awsMetadata;
         LookupValues.Port := port;
         LookupValues.ClusterName := attr service "com.amazonaws.ecs.cluster";
         LookupValues.ServiceName := attr service "ecs_service";
         LookupValues.TaskArn := attr service "com.amazonaws.ecs.task-arn" |};
    match err, found with
    | None, Some info =>
        mret (inl {| LbInfo.DNSName := LbInfo.DNSName info; LbInfo.Port := LbInfo.Port info;
                     LbInfo.ELBEndpoint := LbInfo.DNSName info +:+ "_" +:+ Itoa (LbInfo.Port info);
                     LbInfo.TargetGroupArn := LbInfo.TargetGroupArn info;
                     LbInfo.IpAddress := ""; LbInfo.VipAddress := LbInfo.VipAddress info |})
    | _, _ => mret (inr "No ELB data available")
    end.

(** The registration, rewritten for the load balancer. *)
Definition elb_registration (service : Service.t) (registration : Instance.t) (elb : LbInfo.t)
    : Instance.t :=
  let host := LbInfo.DNSName elb in
  let uid := host +:+ "_" +:+ Itoa (LbInfo.Port elb) in
  let md := <["elbv2-endpoint" := LbInfo.ELBEndpoint elb]>
              (<["has-elbv2" := "true"]> (Instance.Metadata registration)) in
  let only := CheckELBOnlyReg service in
  {| Instance.HostName := host;
     Instance.App := Instance.App registration;
     Instance.IPAddr := LbInfo.IpAddress elb;
     Instance.VipAddress := LbInfo.IpAddress elb;
     Instance.Status := Instance.Status registration;
     Instance.Port := LbInfo.Port elb;
     Instance.DataCenterName := Instance.DataCenterName registration;
     Instance.DataCenterMetadata :=
       if only then AmazonMetadata.mk "" host "" uid "" host ""
       else Instance.DataCenterMetadata registration;
     Instance.RenewalIntervalInSecs := 0;
     Instance.DurationInSecs := 35;
     Instance.Metadata :=
       if only then <["aws-instance-id" := ""]> (<["container-name" := ""]>
                      (<["container-id" := ""]> md))
       else md |}.

Definition mutateRegistrationInfo (service : Service.t) (registration : Instance.t)
    : GoM (Aws.t E) (option Instance.t) :=
  elb ← getELBMetadata service (Instance.Port registration);
  match elb with
  | inr _ => mret None
  | inl elb => mret (Some (elb_registration service registration elb))
  end.

Definition register_elb (service : Service.t) (elbReg : Instance.t) : GoM (Aws.t E) error :=
  elbReg ← testHealth cloud service elbReg;
  on_eureka (ReregisterInstance elbReg).

(** The three retries, each after a wait of 5 to 10 seconds and 10 more per
    attempt. *)
Fixpoint elb_retries (seed : Z) (attempts : list nat) (service : Service.t) (registration : Instance.t)
    : GoM (Aws.t E) error :=
  match attempts with
  | [] => mret (Some ("unable to register ELBv2: " +:+ GetUniqueID registration))
  | i :: attempts =>
      _ ← sleep (millisecond * Cloud.Intn cloud seed (i - 1) + 5 * second +
                 DEFAULT_EXP_TIME * Z.of_nat i)%Z;
      elbReg ← mutateRegistrationInfo service registration;
      match elbReg with
      | Some elbReg => register_elb service elbReg
      | None => elb_retries seed attempts service registration
      end
  end.

Definition RegisterWithELBv2 (service : Service.t) (registration : Instance.t)
    : GoM (Aws.t E) error :=
  if CheckELBFlags service then
    elbReg ← mutateRegistrationInfo service registration;
    match elbReg with
    | Some elbReg => register_elb service elbReg
    | None => a ← get_state; elb_retries (Aws.now a) [1; 2; 3] service registration
    end
  else mret (Some ("unable to register ELBv2: " +:+ GetUniqueID registration)).

Definition HeartbeatELBv2 (service : Service.t) (registration : Instance.t)
    : GoM (Aws.t E) error :=
  let failed := Some ("unable to heartbeat ELBv2. " +:+ GetUniqueID registration) in
  if CheckELBFlags service then
    elbReg ← mutateRegistrationInfo service registration;
    match elbReg with
    | None => mret failed
    | Some elbReg =>
        err ← on_eureka (HeartBeatInstance elbReg);
        a ← get_state;
        if decide (getPreviousStatus (ServicePort.ContainerID (Service.Origin service)) a ≠ UP) then
          err' ← register_elb service elbReg;
          match err' with Some _ => mret err' | None => mret err end
        else mret err
    end
  else mret failed.
End elb_registration.

(** ** Properties *)
(** A service is registered through its load balancer exactly when it is not
    declared to be outside AWS, and either the balancer is spelled out in three
    attributes or its lookup is asked for; that the port is a number is not
    required. *)
Theorem CheckELBFlags_spec s :
  CheckELBFlags s = true ↔
  attr s "eureka_datacenterinfo_name" ≠ MyOwn ∧
  ((attr s "eureka_elbv2_hostname" ≠ "" ∧ attr s "eureka_elbv2_port" ≠ "" ∧
    attr s "eureka_elbv2_targetgroup" ≠ "") ∨
   attr s "eureka_lookup_elbv2_endpoint" ∈ ["1"; "t"; "T"; "TRUE"; "true"; "True"]).
Proof.
  unfold CheckELBFlags, explicit_elb, ParseBool.
  rewrite andb_true_iff, orb_true_iff, !bool_decide_eq_true.
  case_decide as Hl; [|rewrite bool_decide_eq_true].
  - case_decide as Ht; [tauto|]. case_decide; simpl; intuition congruence.
  - rewrite Hl.
    assert ("" ∉ ["1"; "t"; "T"; "TRUE"; "true"; "True"]) as Hno.
    { rewrite !not_elem_of_cons. repeat split; try discriminate. apply not_elem_of_nil. }
    tauto.
Qed.
