(* ===== verification/Eureka.v ===== *)
(** * The Eureka backend: eureka/eureka.go *)
From S2P Require Import Prelude GoStrings Types Aws Health Elb ElbReg.

Definition checkBooleanFlag (service : Service.t) (flag : string) : bool :=
  if decide (attr service flag ≠ "") then
    match ParseBool (attr service flag) with
    | (_, true) => false
    | (v, false) => v
    end
  else false.

Definition ShortHandTernary (string1 string2 : string) : string :=
  if decide (string1 ≠ "") then string1 else string2.

(** [GetUniqueID] reads two fields of the instance. *)
Definition eureka_GetUniqueID (HostName : string) (Port : Z) : string :=
  HostName +:+ "_" +:+ Itoa Port.

Section eureka.
Context {E : Type} `{EC : EurekaClient E} `{O : MapOrder} (cloud : Cloud.t).

Definition lease_seconds (service : Service.t) (flag : string) (default_ : Z) : Z :=
  if decide (attr service flag ≠ "") then
    match Atoi (attr service flag) with
    | (v, None) => to_int32 v
    | (_, Some _) => 0%Z
    end
  else default_.

Definition instance_metadata (service : Service.t) : gmap string string :=
  let md := foldl (λ md kv,
      if HasPrefix kv.1 "eureka_metadata_"
      then <[TrimPrefix kv.1 "eureka_metadata_" := kv.2]> md else md)
    ∅ (range (Service.Attrs service)) in
  <["container-name" := ServicePort.ContainerName (Service.Origin service)]>
    (<["container-id" := ServicePort.ContainerID (Service.Origin service)]>
       (<["is-container" := "true"]> md)).

Definition instanceInformation (service : Service.t) : GoM (Aws.t E) Instance.t :=
  let port := Service.Port service in
  let uid host := eureka_GetUniqueID host port in
  let myOwn := bool_decide (attr service "eureka_datacenterinfo_name" = MyOwn) in
  let auto := checkBooleanFlag service "eureka_datacenterinfo_auto_populate" in
  let public := checkBooleanFlag service "eureka_register_aws_public_ip" in
  let md := instance_metadata service in
  let st := if decide (attr service "eureka_status" = DOWN) then DOWN else UP in
  let renewal := lease_seconds service "eureka_leaseinfo_renewalintervalinsecs" 30 in
  let duration := lease_seconds service "eureka_leaseinfo_durationinsecs" 90 in
  let hostIP := ServicePort.HostIP (Service.Origin service) in
  let attr_or k d := ShortHandTernary (attr service k) d in
  if negb myOwn && auto then
    aws ← GetMetadata cloud;
    let host := HostMetadata.PrivateHostname aws in
    let addr := if public then HostMetadata.PublicIP aws else Service.IP service in
    mret {| Instance.HostName := host; Instance.App := Service.Name service;
            Instance.IPAddr := attr_or "eureka_ipaddr" addr;
            Instance.VipAddress := attr_or "eureka_vip" addr;
            Instance.Status := st; Instance.Port := port; Instance.DataCenterName := Amazon;
            Instance.DataCenterMetadata :=
              {| AmazonMetadata.AvailabilityZone := HostMetadata.AvailabilityZone aws;
                 AmazonMetadata.PublicHostname := HostMetadata.PublicHostname aws;
                 AmazonMetadata.PublicIpv4 := HostMetadata.PublicIP aws;
                 AmazonMetadata.InstanceID := uid host;
                 AmazonMetadata.LocalHostname := host; AmazonMetadata.HostName := host;
                 AmazonMetadata.LocalIpv4 := HostMetadata.PrivateIP aws |};
            Instance.RenewalIntervalInSecs := renewal; Instance.DurationInSecs := duration;
            Instance.Metadata := <["aws-instance-id" := HostMetadata.InstanceID aws]> md |}
  else if negb myOwn then
    let host := attr_or "eureka_datacenterinfo_localhostname" (Service.IP service) in
    mret {| Instance.HostName := host; Instance.App := Service.Name service;
            Instance.IPAddr := attr_or "eureka_ipaddr" (Service.IP service);
            Instance.VipAddress := attr_or "eureka_vip" (Service.IP service);
            Instance.Status := st; Instance.Port := port; Instance.DataCenterName := Amazon;
            Instance.DataCenterMetadata :=
              {| AmazonMetadata.AvailabilityZone := "";
                 AmazonMetadata.PublicHostname :=
                   attr_or "eureka_datacenterinfo_publichostname" hostIP;
                 AmazonMetadata.PublicIpv4 := attr_or "eureka_datacenterinfo_publicipv4" hostIP;
                 AmazonMetadata.InstanceID := uid host;
                 AmazonMetadata.LocalHostname := host; AmazonMetadata.HostName := host;
                 AmazonMetadata.LocalIpv4 :=
                   attr_or "eureka_datacenterinfo_localipv4" (Service.IP service) |};
            Instance.RenewalIntervalInSecs := renewal; Instance.DurationInSecs := duration;
            Instance.Metadata := md |}
  else
    mret {| Instance.HostName := uid (Service.IP service); Instance.App := Service.Name service;
            Instance.IPAddr := attr_or "eureka_ipaddr" (Service.IP service);
            Instance.VipAddress := attr_or "eureka_vip" (Service.IP service);
            Instance.Status := st; Instance.Port := port; Instance.DataCenterName := MyOwn;
            Instance.DataCenterMetadata := AmazonMetadata.zero;
            Instance.RenewalIntervalInSecs := renewal; Instance.DurationInSecs := duration;
            Instance.Metadata := md |}.

Definition eureka_Ping : GoM (Aws.t E) error := on_eureka GetApps.

Definition eureka_Register (service : Service.t) : GoM (Aws.t E) error :=
  registration ← instanceInformation service;
  if CheckELBFlags service then RegisterWithELBv2 cloud service registration
  else on_eureka (RegisterInstance registration).

Definition eureka_Deregister (service : Service.t) : GoM (Aws.t E) error :=
  registration ← instanceInformation service;
  _ ← (if CheckELBFlags service
       then RemoveKeyFromCache ("container_" +:+ ServicePort.ContainerID (Service.Origin service))
       else mret ());
  if CheckELBFlags service then mret None
  else on_eureka (DeregisterInstance registration).

Definition eureka_Refresh (service : Service.t) : GoM (Aws.t E) error :=
  registration ← instanceInformation service;
  if CheckELBFlags service then _ ← HeartbeatELBv2 cloud service registration; mret None
  else
    err ← on_eureka (HeartBeatInstance registration);
    match err with
    | Some msg =>
        if Contains msg "heartbeat failed, rcode = 404" then
          _ ← on_eureka (RegisterInstance registration); mret None
        else mret err
    | None => mret None
    end.

Definition eureka_Services : GoM (Aws.t E) (list Service.t * error) := mret ([], None).

#[export] Instance eureka_adapter : RegistryAdapter (Aws.t E) :=
  {| Ping := eureka_Ping; Register := eureka_Register; Deregister := eureka_Deregister;
     Refresh := eureka_Refresh; Services := eureka_Services |}.
End eureka.

(** ** Properties *)
Section props.
Context {E : Type} `{EC : EurekaClient E} `{O : MapOrder} (cloud : Cloud.t).
Implicit Types (a : Aws.t E) (s : Service.t).

Lemma instanceInformation_returns s a : metadata_ready a → Cloud.NewSession cloud = None →
  ∃ i (md : bool), instanceInformation cloud s a = (Ok i, if md then with_metadata cloud a else a).
Proof.
  intros Hmd Hn. destruct (GetMetadata_ready cloud a Hmd Hn) as (m & Hm & _).
  unfold instanceInformation. destruct (negb _ && _).
  - rewrite (GoM_bind_Ok _ _ _ _ _ Hm). by eexists _, true.
  - destruct (negb _); by eexists _, false.
Qed.

(** Deregistration from Eureka. A load balancer is never deregistered, since
    other containers may stand behind it: only what is cached for the container
    is dropped, and its entry expires in Eureka. Otherwise the instance that
    registration would use is deregistered, with a single call. *)
Theorem eureka_Deregister_spec s a : metadata_ready a → Cloud.NewSession cloud = None →
  ∃ i a1, instanceInformation cloud s a = (Ok i, a1) ∧
    if CheckELBFlags s then
      ∃ a', eureka_Deregister cloud s a = (Ok None, a') ∧ Aws.client a' = Aws.client a ∧
        cache_Get ("container_" +:+ ServicePort.ContainerID (Service.Origin s)) a' = None
    else
      Aws.client a1 = Aws.client a ∧
      eureka_Deregister cloud s a =
        ((DeregisterInstance i (Aws.client a)).1,
         Aws.set_client (DeregisterInstance i (Aws.client a)).2 a1).
Proof.
  intros Hmd Hn. destruct (instanceInformation_returns s a Hmd Hn) as (i & md & Hi).
  assert (Aws.client (if md then with_metadata cloud a else a) = Aws.client a) as Hc.
  { destruct md; [apply with_metadata_keeps|done]. }
  eexists i, _. split; [exact Hi|]. unfold eureka_Deregister.
  rewrite (GoM_bind_Ok _ _ _ _ _ Hi). destruct (CheckELBFlags s).
  - eexists. split; [reflexivity|]. split; [exact Hc|].
    unfold cache_Get. simpl. by rewrite lookup_delete_eq.
  - split; [done|]. erewrite GoM_bind_Ok by reflexivity. unfold on_eureka. rewrite Hc.
    by destruct (DeregisterInstance i (Aws.client a)).
Qed.
End props.

Lemma eureka_Deregister_spec_witness :
  let s := Service.mk "box:nginx.0:80" "shop" 8000 "10.0.0.1" false []
             {["eureka_lookup_elbv2_endpoint" := "true"]} 30
             (ServicePort.mk "8000" "10.0.0.1" "80" "" "tcp" "" "c1" "" None) in
  ∃ a', eureka_Deregister (O := ascending) HealthRuns.cloud s HealthRuns.looked_up =
      (Ok None, a') ∧ cache_Get "container_c1" a' = None.
Proof.
  intros s.
  destruct (eureka_Deregister_spec (O := ascending) HealthRuns.cloud s
              HealthRuns.looked_up) as (i & a1 & _ & H); [intros [=]|reflexivity|].
  destruct H as (a' & Hrun & _ & Hc). exists a'. split; [exact Hrun|exact Hc].
Defined.
