(* ===== verification/EurekaProps.v ===== *)
(** * The Eureka backend over the cache and the clock

    Every operation of the adapter keeps each kind of value under its own keys of
    the shared cache, and a registration takes a bounded time. *)
From S2P Require Import Prelude GoStrings Types Aws Health Elb ElbProps ElbReg Eureka.

(** ** The types of cached values *)
Definition well_typed (k : string) (x : cached) : Prop :=
  match x with
  | CachedLb _ => ∃ id, k = "container_" +:+ id
  | CachedTargets _ | CachedHealth _ => ∃ arn, k = "tg_arn_" +:+ arn
  | CachedGroups _ => k = "tg"
  | CachedListeners _ => ∃ arn, k = "lsnr_" +:+ arn
  | CachedLoadBalancers _ => ∃ arn, k = "lb_" +:+ arn
  end.

(** ** Invariants of the cache and the clock

    [inv W q]: the cached values satisfy [W], which holds at least of well-typed
    values, and the time satisfies [q]. *)
Section invariant.
Context {E : Type} `{EC : EurekaClient E} `{O : MapOrder} (cloud : Cloud.t).
Context (W : string → cached → Prop) (q : Z → Prop) (HW : ∀ k x, well_typed k x → W k x).
Implicit Types a : Aws.t E.

Definition inv a : Prop :=
  (∀ k x e, Aws.items a !! k = Some (x, e) → W k x) ∧ q (Aws.now a).

(** The results that may be cached under a key. *)
Definition fits (k : string) (r : cached + string) : Prop := ∀ x, r = inl x → W k x.

Lemma inv_get k x a : inv a → cache_Get k a = Some x → W k x.
Proof.
  unfold cache_Get. intros [Ht _]. destruct (Aws.items a !! k) as [[y e]|] eqn:Hk; [|done]. simpl.
  case_decide; [done|]. intros [= <-]. by eapply Ht.
Qed.

Lemma keeps_Set k x d : W k x → keeps inv (cache_Set (E := E) k x d) (λ _, True).
Proof.
  intros Hx. apply keeps_modify. intros a [Ha Hq]. split; [|done]. intros k' x' e'. simpl.
  rewrite lookup_insert. case_decide; [naive_solver|apply Ha].
Qed.

Lemma keeps_GetAndCache k f d :
  keeps inv f (fits k) → keeps inv (GetAndCache (E := E) k f d) (fits k).
Proof.
  intros Hf. apply keeps_bind with inv; [apply keeps_get|]. intros a Ha.
  destruct (cache_Get k a) as [x|] eqn:Hk.
  { apply keeps_ret. intros ? [= <-]. by eapply inv_get. }
  apply keeps_bind with (fits k); [done|]. intros [x|e] Hx; [|by apply keeps_ret].
  apply keeps_bind with (λ _, True); [apply keeps_Set; by apply Hx|].
  intros _ _. by apply keeps_ret.
Qed.

(** Code that leaves the cache and the clock alone. *)
Lemma keeps_items {A} (m : GoM (Aws.t E) A) :
  (∀ a, Aws.items (m a).2 = Aws.items a ∧ Aws.now (m a).2 = Aws.now a) → keeps inv m (λ _, True).
Proof. intros Hm a Ha. split; [|done]. unfold inv. by destruct (Hm a) as [-> ->]. Qed.

Lemma keeps_eureka {A} (op : GoM E A) : keeps inv (on_eureka op) (λ _, True).
Proof. apply keeps_items. intros a. unfold on_eureka. by destruct (op (Aws.client a)). Qed.

Lemma keeps_metadata : keeps inv (GetMetadata (E := E) cloud) (λ _, True).
Proof.
  apply keeps_items. intros a. unfold GetMetadata, init_metadata. go_unfold.
  destruct (Aws.once a); simpl; [by destruct (Aws.metadataCache a)|]. by destruct (Cloud.NewSession cloud).
Qed.

Lemma keeps_session : keeps inv (new_session (E := E) cloud) (λ _, True).
Proof.
  unfold new_session. destruct (Cloud.NewSession cloud); [by apply keeps_ret|].
  apply keeps_bind with (λ _, True); [apply keeps_metadata|]. intros. by apply keeps_ret.
Qed.

Lemma keeps_aws {A} svc (f : Api.t → A) : keeps inv (on_aws (E := E) cloud svc f) (λ _, True).
Proof. by apply keeps_items. Qed.

Lemma keeps_ask {A} svc k (c : A → cached) f :
  (∀ x, W k (c x)) → keeps inv (ask (E := E) cloud svc k c f) (fits k).
Proof.
  intros Hc. apply keeps_GetAndCache. apply keeps_bind with inv; [apply keeps_get|].
  intros a _. apply keeps_ret. unfold cached_as. destruct (f _); [|done]. by intros ? [= <-].
Qed.
End invariant.

Create HintDb typed.

(** One step of a computation none of whose results matters. *)
Ltac keeps_step :=
  match goal with
  | |- keeps _ (mret _) _ => by apply keeps_ret
  | |- keeps _ (lift_outcome _) _ => by apply keeps_lift
  | |- keeps _ get_state _ => eapply keeps_weaken; [apply keeps_get|done]
  | |- keeps _ (try_bind _ _) _ => unfold try_bind
  | |- keeps _ (on_eureka _) _ => apply keeps_eureka
  | |- keeps _ (GetMetadata _) _ => apply keeps_metadata
  | |- keeps _ (getSession _) _ => apply keeps_session
  | |- keeps _ (getECSSession _) _ => apply keeps_session
  | |- keeps _ (on_aws _ _ _) _ => apply keeps_aws
  | |- keeps _ (getTargetGroupsPage _ _ _) _ => apply keeps_aws
  | |- keeps _ (ask _ _ _ _ _) _ =>
      eapply keeps_weaken; [apply keeps_ask; intros; auto with typed|done]
  | |- keeps _ (_ ≫= _) _ => apply keeps_bind with (λ _, True); [|intros ? _]
  | |- keeps _ (match ?x with _ => _ end) _ => destruct x
  | |- keeps _ _ (λ _, True) => solve [eauto with typed]
  end.

Lemma typed_targets arn ts : well_typed ("tg_arn_" +:+ arn) (CachedTargets ts).
Proof. by exists arn. Qed.
Lemma typed_health arn ts : well_typed ("tg_arn_" +:+ arn) (CachedHealth ts).
Proof. by exists arn. Qed.
Lemma typed_listeners arn ls : well_typed ("lsnr_" +:+ arn) (CachedListeners ls).
Proof. by exists arn. Qed.
Lemma typed_balancers arn bs : well_typed ("lb_" +:+ arn) (CachedLoadBalancers bs).
Proof. by exists arn. Qed.
Lemma typed_lb id info : well_typed ("container_" +:+ id) (CachedLb info).
Proof. by exists id. Qed.
#[export] Hint Resolve typed_targets typed_health typed_listeners typed_balancers typed_lb : typed.

Section adapter.
Context {E : Type} `{EC : EurekaClient E} `{O : MapOrder} (cloud : Cloud.t).
Context (W : string → cached → Prop) (q : Z → Prop) (HW : ∀ k x, well_typed k x → W k x).
Abbreviation safe m := (keeps (inv (E := E) W q) m (λ _, True)).
Hint Resolve HW : typed.

Lemma safe_more_pages fuel svc mark tgs : safe (more_pages cloud fuel svc mark tgs).
Proof.
  revert mark tgs. induction fuel as [|fuel IH]; intros [m|] tgs; simpl; repeat keeps_step.
Qed.

Lemma safe_match_services svc c td n i chunk ms rest :
  safe (match_services cloud svc c td n i chunk ms rest).
Proof.
  revert i chunk ms. induction rest as [|s rest IH]; intros i chunk ms; simpl; repeat keeps_step.
Qed.

Lemma safe_check_groups svc l tgs f : safe (check_groups cloud svc l tgs f).
Proof.
  revert f. induction tgs as [|[tg|] tgs IH]; intros f; simpl; repeat keeps_step.
Qed.
Hint Resolve safe_more_pages safe_match_services safe_check_groups : typed.

Lemma safe_check_pages svc l pages f : safe (check_pages cloud svc l pages f).
Proof.
  revert f. induction pages as [|p pages IH]; intros f; simpl; repeat keeps_step.
Qed.
Hint Resolve safe_check_pages : typed.

Lemma safe_all_groups svc : safe (all_groups cloud svc).
Proof.
  unfold all_groups. apply keeps_bind with (λ _, True); [|intros; repeat keeps_step].
  eapply keeps_weaken; [apply keeps_GetAndCache|done].
  apply keeps_bind with (λ _, True); [unfold getAllTargetGroups; repeat keeps_step|].
  intros [ps|e] _; apply keeps_ret; [intros ? [= <-]; by apply HW|done].
Qed.
Hint Resolve safe_all_groups : typed.

(** What [getELBAndCacheDetails] does after its wait. *)
Definition search_now (l : LookupValues.t) : GoM (Aws.t E) (LbInfo.t + string) :=
  svc ←? getSession cloud;
  '(serviceName, clusterName) ← service_and_cluster cloud l;
  '(lbArns, tgArn) ←?
    (if decide (serviceName = "") then search_groups cloud svc l
     else
       '(lb, tg) ←? getLoadBalancerFromService cloud serviceName clusterName;
       mret (inl ([LoadBalancer.LoadBalancerArn lb], TargetGroup.TargetGroupArn tg)));
  lb_details cloud svc lbArns tgArn.

Lemma safe_search_now l : safe (search_now l).
Proof.
  unfold search_now, service_and_cluster, lookupServiceName, search_groups,
    getLoadBalancerFromService, lb_details.
  repeat keeps_step.
Qed.

Lemma safe_GetHealthyTargets arn : safe (GetHealthyTargets cloud arn).
Proof.
  unfold GetHealthyTargets. apply keeps_bind with (λ _, True); [|intros; repeat keeps_step].
  eapply keeps_weaken; [apply keeps_GetAndCache|done]. unfold getHealthyTargets, try_bind.
  apply keeps_bind with (λ _, True); [apply keeps_session|]. intros [svc|e] _; [|by apply keeps_ret].
  apply keeps_bind with (λ _, True); [apply keeps_aws|]. intros [ts|e] _; [|by apply keeps_ret].
  apply keeps_lift. intros r. destruct (fold_outcome _ _ _); intros [= <-] ? [= <-].
  auto with typed.
Qed.
Hint Resolve safe_GetHealthyTargets : typed.

Lemma safe_register_elb s i : safe (register_elb cloud s i).
Proof.
  unfold register_elb, testHealth, getELBStatus, determineNewEurekaStatus, setPreviousStatus.
  repeat keeps_step; by apply keeps_items.
Qed.
Hint Resolve safe_register_elb : typed.

Lemma safe_instance s : safe (instanceInformation cloud s).
Proof. unfold instanceInformation. repeat keeps_step. Qed.

Lemma safe_remove k : safe (RemoveKeyFromCache k).
Proof.
  apply keeps_modify. intros a [Ha Hq]. split; [|done]. intros k' x e. simpl. rewrite lookup_delete.
  case_decide; [done|apply Ha].
Qed.
Hint Resolve safe_instance safe_remove : typed.

(** *** Operations that wait *)
Context (q_sleep : ∀ n d, q n → q (n + d)%Z).

Lemma safe_sleep d : safe (sleep d).
Proof. apply keeps_modify. intros a [Ha Hq]. split; [done|]. by apply q_sleep. Qed.
Hint Resolve safe_sleep safe_search_now : typed.

Lemma safe_getELBAndCacheDetails l : safe (getELBAndCacheDetails cloud l).
Proof.
  apply keeps_bind with (λ _, True); [repeat keeps_step|]. intros a _.
  apply keeps_bind with (λ _, True); [repeat keeps_step|]. intros _ _. apply safe_search_now.
Qed.
Hint Resolve safe_getELBAndCacheDetails : typed.

Lemma safe_getELBMetadata s port : safe (getELBMetadata cloud s port).
Proof.
  unfold getELBMetadata. apply keeps_bind with (λ _, True); [apply keeps_metadata|]. intros md _.
  destruct (explicit_elb s).
  - apply keeps_bind with (λ _, True); [|intros; by apply keeps_ret].
    apply keeps_Set. auto with typed.
  - apply keeps_bind with (λ _, True); [|intros [? ?] _; repeat keeps_step].
    unfold GetELBV2ForContainer. apply keeps_bind with (λ _, True); [|intros; repeat keeps_step].
    eapply keeps_weaken; [apply keeps_GetAndCache|done].
    apply keeps_bind with (λ _, True); [repeat keeps_step|].
    intros [x|e] _; apply keeps_ret; [intros ? [= <-]; auto with typed|done].
Qed.
Hint Resolve safe_getELBMetadata : typed.

Lemma safe_mutate s i : safe (mutateRegistrationInfo cloud s i).
Proof. unfold mutateRegistrationInfo. repeat keeps_step. Qed.
Hint Resolve safe_mutate : typed.

Lemma safe_retries seed ns s i : safe (elb_retries cloud seed ns s i).
Proof. induction ns as [|n ns IH]; simpl; repeat keeps_step. Qed.
Hint Resolve safe_retries : typed.

Lemma safe_adapter (s : Service.t) :
  safe (eureka_Register cloud s) ∧ safe (eureka_Refresh cloud s) ∧
  safe (eureka_Deregister cloud s) ∧ safe eureka_Ping.
Proof.
  split_and!.
  - unfold eureka_Register, RegisterWithELBv2. repeat keeps_step.
  - unfold eureka_Refresh, HeartbeatELBv2. repeat keeps_step.
  - unfold eureka_Deregister. repeat keeps_step.
  - apply keeps_eureka.
Qed.
End adapter.

(** ** Properties *)
Section props.
Context {E : Type} `{EC : EurekaClient E} `{O : MapOrder} (cloud : Cloud.t).
Implicit Types (a : Aws.t E) (s : Service.t).

Definition typed a : Prop := ∀ k x e, Aws.items a !! k = Some (x, e) → well_typed k x.

(** C38: the cache is shared by all lookups, and its values are interfaces that are
    cast by whoever reads them. Every operation of the adapter, however it ends,
    keeps each type of value under its own keys: balancers under "container_",
    pages of groups under "tg", listeners under "lsnr_", descriptions under "lb_".
    The one key with two types is that of a group's targets. *)
Theorem cache_typed s a : typed a →
  typed (eureka_Register cloud s a).2 ∧ typed (eureka_Refresh cloud s a).2 ∧
  typed (eureka_Deregister cloud s a).2 ∧ typed (eureka_Ping a).2 ∧
  (∀ k x, cache_Get k a = Some x → well_typed k x).
Proof.
  intros Ha. assert (inv well_typed (λ _, True) a) as Hi by done.
  destruct (safe_adapter cloud well_typed (λ _, True)) with s as (H1 & H2 & H3 & H4); [done..|].
  split_and!; [exact (proj1 (proj1 (H1 a Hi)))|exact (proj1 (proj1 (H2 a Hi)))|
    exact (proj1 (proj1 (H3 a Hi)))|exact (proj1 (proj1 (H4 a Hi)))|].
  intros. by eapply inv_get.
Qed.

(** *** Time *)
(** [m] takes at most [d], however it ends. *)
Definition within {A} (d : Z) (m : GoM (Aws.t E) A) : Prop :=
  ∀ a, (Aws.now a ≤ Aws.now (m a).2 ≤ Aws.now a + d)%Z.

Lemma within_bind {A B} d1 d2 (m : GoM (Aws.t E) A) (f : A → GoM (Aws.t E) B) :
  (0 ≤ d2)%Z → within d1 m → (∀ x, within d2 (f x)) → within (d1 + d2) (m ≫= f).
Proof.
  intros Hd Hm Hf a. specialize (Hm a). unfold mbind, GoM_bind.
  destruct (m a) as [[x| | |] a']; simpl in *; [specialize (Hf x a'); lia|lia..].
Qed.

Lemma within_le {A} d1 d2 (m : GoM (Aws.t E) A) : within d1 m → (d1 ≤ d2)%Z → within d2 m.
Proof. intros Hm Hd a. specialize (Hm a). lia. Qed.

Lemma within_sleep d d' : (0 ≤ d ≤ d')%Z → within d' (sleep d).
Proof. intros Hd a. simpl. lia. Qed.

(** Code that keeps every time as it is takes none. *)
Lemma within_safe {A} (m : GoM (Aws.t E) A) :
  (∀ q, keeps (inv (λ _ _, True) q) m (λ _, True)) → within 0 m.
Proof.
  intros Hm a. destruct (Hm (eq (Aws.now a)) a) as [[_ Hn] _]; [by split|]. lia.
Qed.

Context (Intn_bound : ∀ seed n, (0 ≤ Cloud.Intn cloud seed n < 5000)%Z).

Lemma within_lookup l : within (5 * second) (getELBAndCacheDetails cloud l).
Proof.
  apply (within_le (0 + (5 * second + 0))); [|lia].
  apply within_bind; [unfold second; lia|apply within_safe; intros; repeat keeps_step|]. intros a.
  apply within_bind; [lia| |intros []; apply within_safe; intros; by apply safe_search_now].
  apply within_sleep. specialize (Intn_bound (Aws.now a) 0). unfold millisecond, second. lia.
Qed.

Lemma within_cached k f d c : within d f → (0 ≤ d)%Z → within d (GetAndCache (E := E) k f c).
Proof.
  intros Hf Hd a. specialize (Hf a). unfold GetAndCache. go_unfold.
  destruct (cache_Get k a); simpl; [lia|].
  by destruct (f a) as [[[x|e]| | |] a'].
Qed.

Lemma within_mutate s i : within (5 * second) (mutateRegistrationInfo cloud s i).
Proof.
  apply (within_le (5 * second + 0)); [|lia]. apply within_bind; [lia| |];
    [|intros [?|?]; apply within_safe; intros; repeat keeps_step].
  apply (within_le (0 + 5 * second)); [|lia].
  apply within_bind; [unfold second; lia|apply within_safe; intros; apply keeps_metadata|].
  intros md. destruct (explicit_elb s).
  { eapply within_le; [apply within_safe|unfold second; lia]. intros q.
    apply keeps_bind with (λ _, True); [by apply keeps_Set|]. intros. by apply keeps_ret. }
  apply (within_le (5 * second + 0)); [|lia]. apply within_bind; [lia| |];
    [|intros [? ?]; apply within_safe; intros; repeat keeps_step].
  apply (within_le (5 * second + 0)); [|lia]. apply within_bind; [lia| |];
    [|intros [[]|]; apply within_safe; intros; repeat keeps_step].
  apply within_cached; [|unfold second; lia].
  apply (within_le (5 * second + 0)); [|lia]. apply within_bind; [lia|apply within_lookup|].
  intros []; apply within_safe; intros; repeat keeps_step.
Qed.

Lemma within_register s i : within 0 (register_elb cloud s i).
Proof. apply within_safe. intros q. by apply safe_register_elb. Qed.

(** An attempt waits for at most 10 seconds and 10 more per attempt made. *)
Lemma within_retry seed n ns s i d : (0 ≤ d)%Z →
  within d (elb_retries cloud seed ns s i) →
  within (15 * second + DEFAULT_EXP_TIME * Z.of_nat n + d) (elb_retries cloud seed (n :: ns) s i).
Proof.
  intros Hd Hns. simpl.
  apply (within_le ((10 * second + DEFAULT_EXP_TIME * Z.of_nat n) + (5 * second + d))); [|lia].
  apply within_bind; [unfold second; lia| |].
  { apply within_sleep. specialize (Intn_bound seed (n - 1)).
    unfold DEFAULT_EXP_TIME, millisecond, second. lia. }
  intros _. apply within_bind; [lia|apply within_mutate|]. intros [elbReg|]; [|done].
  by eapply within_le; [apply within_register|].
Qed.

(** C39: registering a service through its load balancer, during which the bridge
    waits, takes at most 110 seconds of waits, whatever AWS and Eureka answer; a
    heartbeat waits at most 5 seconds. *)
Theorem registration_time s reg :
  within (110 * second) (RegisterWithELBv2 cloud s reg) ∧
  within (5 * second) (HeartbeatELBv2 cloud s reg).
Proof.
  split.
  - unfold RegisterWithELBv2. destruct (CheckELBFlags s);
      [|eapply within_le; [apply within_safe; intros; repeat keeps_step|unfold second; lia]].
    apply (within_le (5 * second + 105 * second)); [|lia].
    apply within_bind; [unfold second; lia|apply within_mutate|]. intros [elbReg|].
    { eapply within_le; [apply within_register|unfold second; lia]. }
    apply (within_le (0 + 105 * second)); [|lia].
    apply within_bind; [unfold second; lia|apply within_safe; intros; repeat keeps_step|].
    intros a.
    apply (within_le (15 * second + DEFAULT_EXP_TIME * Z.of_nat 1 +
      (15 * second + DEFAULT_EXP_TIME * Z.of_nat 2 +
      (15 * second + DEFAULT_EXP_TIME * Z.of_nat 3 + 0)))); [|by vm_compute].
    repeat (apply within_retry; [by vm_compute|]).
    apply within_safe. intros. by apply keeps_ret.
  - unfold HeartbeatELBv2. destruct (CheckELBFlags s);
      [|eapply within_le; [apply within_safe; intros; repeat keeps_step|unfold second; lia]].
    apply (within_le (5 * second + 0)); [|lia].
    apply within_bind; [lia|apply within_mutate|]. intros [elbReg|]; apply within_safe; intros q;
      pose proof (safe_register_elb cloud (λ _ _, True) q (λ _ _ _, I) s); repeat keeps_step.
    all: eauto with typed.
Qed.
End props.

(** * Concrete runs *)
Module EurekaRuns.
Definition service : Service.t :=
  Service.mk "box:nginx.0:80" "shop" 8000 "10.0.0.1" false []
    {["eureka_lookup_elbv2_endpoint" := "true"]} 30
    (ServicePort.mk "8000" "10.0.0.1" "80" "" "tcp" "" "c1" "" None).

Definition instance : Instance.t :=
  Instance.mk "10.0.0.1" "shop" "" "" UP 8000 Amazon AmazonMetadata.zero 30 90 ∅.
End EurekaRuns.

Lemma cache_typed_witness :
  typed (eureka_Register (O := ascending) (ElbRuns.cloud false) EurekaRuns.service AwsRuns.empty).2.
Proof.
  destruct (cache_typed (O := ascending) (ElbRuns.cloud false) EurekaRuns.service AwsRuns.empty)
    as [H _]; [|exact H].
  intros k x e. simpl. rewrite lookup_empty. discriminate.
Defined.

Lemma registration_time_witness :
  (Aws.now (RegisterWithELBv2 (ElbRuns.cloud false) EurekaRuns.service EurekaRuns.instance
              AwsRuns.empty).2 ≤ 110 * second + 1000)%Z.
Proof.
  destruct (registration_time (E := unit) (ElbRuns.cloud false)) with
    EurekaRuns.service EurekaRuns.instance as [H _].
  - intros seed n. simpl. lia.
  - specialize (H AwsRuns.empty) as [_ H]. rewrite Z.add_comm in H. exact H.
Defined.
