(* ===== verification/EurekaSafe.v ===== *)
(** * When the Eureka backend returns

    The adapter follows pointers and takes first elements without looking. When all of
    them are there, every operation of the adapter returns. AWS promises no such
    thing: a target group may be attached to no load balancer, a later page may be
    refused, a listener may redirect instead of forwarding, and on each of these the
    adapter panics. *)
From S2P Require Import Prelude GoStrings Types Aws Health Elb ElbProps ElbReg Eureka.

(** ** Answers that the adapter can take *)
(** A target group that is attached to a load balancer. *)
Definition attached (tg : TargetGroup.t) : Prop :=
  ∃ arn arns, TargetGroup.LoadBalancerArns tg = Some (arn :: arns).

Definition page_ok (p : TgPage.t) : Prop := ∀ tg, Some tg ∈ TgPage.TargetGroups p → attached tg.

(** No page after the first fails, and the last comes within [fuel] pages. *)
Fixpoint pages_end (api : Api.t) (fuel : nat) (mark : option string) : Prop :=
  match mark, fuel with
  | None, _ => True
  | Some _, O => False
  | Some _, S fuel =>
      ∃ p, Api.DescribeTargetGroups api (TgInput.mk [] (Some 400%Z) mark) = inl p ∧
           pages_end api fuel (TgPage.NextMarker p)
  end.

Definition listener_ok (l : Listener.t) : Prop := None ∉ Listener.DefaultActions l.

(** A session can be made; no entry on target health is nil; once the first page of target
    groups has come, so do all others; every group is attached, and one that is asked
    for by name exists; so does every load balancer that is asked for; and every
    default action forwards to a target group. *)
Record complete (cloud : Cloud.t) : Prop := {
  complete_session : Cloud.NewSession cloud = None;
  complete_targets : no_nil_targets cloud;
  complete_pages t r p :
    Api.DescribeTargetGroups (Cloud.api cloud t r) (TgInput.mk [] (Some 400%Z) None) = inl p →
    pages_end (Cloud.api cloud t r) (Cloud.pages cloud) (TgPage.NextMarker p);
  complete_groups t r input p :
    Api.DescribeTargetGroups (Cloud.api cloud t r) input = inl p → page_ok p;
  complete_group t r arn p :
    Api.DescribeTargetGroups (Cloud.api cloud t r) (TgInput.mk [arn] None None) = inl p →
    ∃ tg tgs, TgPage.TargetGroups p = Some tg :: tgs;
  complete_balancers t r arn arns lbs :
    Api.DescribeLoadBalancers (Cloud.api cloud t r) (Some (arn :: arns)) = inl lbs → lbs ≠ [];
  complete_listeners t r arn ls :
    Api.DescribeListeners (Cloud.api cloud t r) arn = inl ls → Forall listener_ok ls
}.

(** The Eureka client's calls return. *)
Class EurekaCallsReturn (E : Type) `{EurekaClient E} : Prop := {
  GetInstance_call app id e : is_Ok (GetInstance app id e).1 = true;
  RegisterInstance_call i e : is_Ok (RegisterInstance i e).1 = true;
  ReregisterInstance_call i e : is_Ok (ReregisterInstance i e).1 = true;
  DeregisterInstance_call i e : is_Ok (DeregisterInstance i e).1 = true;
  HeartBeatInstance_call i e : is_Ok (HeartBeatInstance i e).1 = true
}.

(** ** The state *)
(** What may be cached under a key. *)
Definition sound_item (k : string) (x : cached) : Prop :=
  match x with
  | CachedLb _ => ∃ id, k = "container_" +:+ id
  | CachedTargets _ | CachedHealth _ => ∃ arn, k = "tg_arn_" +:+ arn
  | CachedGroups pages => k = "tg" ∧ Forall page_ok pages
  | CachedListeners ls => (∃ arn, k = "lsnr_" +:+ arn) ∧ Forall listener_ok ls
  | CachedLoadBalancers lbs => (∃ arn, k = "lb_" +:+ arn) ∧ lbs ≠ []
  end.

Create HintDb settles.

Section returns.
Context {E : Type} `{EC : EurekaClient E} `{ER : !EurekaCallsReturn E} `{O : MapOrder}.
Context (cloud : Cloud.t) (Hcloud : complete cloud).
Implicit Types a : Aws.t E.

Definition eureka_ok a : Prop :=
  (∀ k x e, Aws.items a !! k = Some (x, e) → sound_item k x) ∧ metadata_ready a.

Local Abbreviation returns m Q := (settles eureka_ok m Q).

Lemma ok_get k x a : eureka_ok a → cache_Get k a = Some x → sound_item k x.
Proof using.
  unfold cache_Get. intros [Ht _]. destruct (Aws.items a !! k) as [[y e]|] eqn:Hk; [|done]. simpl.
  case_decide; [done|]. intros [= <-]. by eapply Ht.
Qed.

(** *** Primitive steps *)
Lemma returns_eureka {A} (op : GoM E A) :
  (∀ e, is_Ok (op e).1 = true) → returns (on_eureka op) (λ _, True).
Proof using.
  intros Hop a Ha. unfold on_eureka. specialize (Hop (Aws.client a)).
  destruct (op (Aws.client a)) as [[x| | |] e]; try done. by eexists _, _.
Qed.

Lemma returns_metadata : returns (GetMetadata cloud) (λ _, True).
Proof using Hcloud.
  intros a [Hi Hm]. pose proof (complete_session _ Hcloud) as Hn.
  destruct (GetMetadata_ready cloud a Hm Hn) as (md & Hrun & _).
  exists md, (with_metadata cloud a). split; [done|]. split; [|done].
  split; [|by apply with_metadata_ready]. destruct (with_metadata_keeps cloud a) as (_ & -> & _). done.
Qed.

Lemma returns_session : returns (new_session cloud) (λ _, True).
Proof using Hcloud.
  unfold new_session. destruct (Cloud.NewSession cloud); [by apply settles_ret|].
  apply settles_bind with (λ _, True); [apply returns_metadata|]. intros. by apply settles_ret.
Qed.

Lemma returns_aws {A} svc (f : Api.t → A) :
  returns (on_aws cloud svc f) (λ x, ∃ t r, x = f (Cloud.api cloud t r)).
Proof using. intros a Ha. eexists _, a. split; [reflexivity|]. eauto. Qed.

Lemma returns_aws_any {A} svc (f : Api.t → A) : returns (on_aws cloud svc f) (λ _, True).
Proof using. eapply settles_weaken; [apply returns_aws|done]. Qed.

Lemma returns_sleep d : returns (sleep d) (λ _, True).
Proof using. by apply settles_modify. Qed.

Lemma returns_Set k x d : sound_item k x → returns (cache_Set k x d) (λ _, True).
Proof using.
  intros Hx. apply settles_modify. intros a [Ha Hm]. split; [|done]. intros k' x' e'. simpl.
  rewrite lookup_insert. case_decide; [naive_solver|apply Ha].
Qed.

Definition sound_result (k : string) (r : cached + string) : Prop := ∀ x, r = inl x → sound_item k x.

Lemma returns_GetAndCache k f d :
  returns f (sound_result k) → returns (GetAndCache k f d) (sound_result k).
Proof using.
  intros Hf. apply settles_bind with eureka_ok; [apply settles_get|]. intros a Ha.
  destruct (cache_Get k a) as [x|] eqn:Hk.
  { apply settles_ret. intros ? [= <-]. by eapply ok_get. }
  apply settles_bind with (sound_result k); [done|]. intros [x|e] Hx; [|by apply settles_ret].
  apply settles_bind with (λ _, True); [apply returns_Set; by apply Hx|].
  intros _ _. by apply settles_ret.
Qed.

Lemma returns_ask {A} svc k (c : A → cached) f :
  (∀ t r out, f (Cloud.api cloud t r) = inl out → sound_item k (c out)) →
  returns (ask cloud svc k c f) (sound_result k).
Proof using.
  intros Hc. apply returns_GetAndCache. eapply settles_weaken; [apply returns_aws|].
  intros x (t & r & ->). unfold cached_as. destruct (f _) as [out|] eqn:Hf; [|done].
  intros ? [= <-]. by eapply Hc.
Qed.

(** One step of a computation whose result does not matter. *)
Local Ltac settle :=
  match goal with
  | |- settles _ (mret _) _ => by apply settles_ret
  | |- settles _ get_state _ => eapply settles_weaken; [apply settles_get|done]
  | |- settles _ (try_bind _ _) _ => unfold try_bind
  | |- settles _ (on_eureka _) _ =>
      apply returns_eureka; first [apply GetInstance_call|apply RegisterInstance_call
        |apply ReregisterInstance_call|apply DeregisterInstance_call|apply HeartBeatInstance_call]
  | |- settles _ (GetMetadata _) _ => apply returns_metadata
  | |- settles _ (getSession _) _ => apply returns_session
  | |- settles _ (getECSSession _) _ => apply returns_session
  | |- settles _ (on_aws _ _ _) _ => apply returns_aws_any
  | |- settles _ (sleep _) _ => apply returns_sleep
  | |- settles _ (_ ≫= _) _ => apply settles_bind with (λ _, True); [|intros ? _]
  | |- settles _ (match ?x with _ => _ end) _ => destruct x
  | |- settles _ _ (λ _, True) => solve [eauto with settles]
  end.

(** *** Searching *)
Lemma more_pages_end fuel svc mark tgs a :
  pages_end (Cloud.api cloud (Aws.now a) (Session.Region svc)) fuel mark → Forall page_ok tgs →
  ∃ ps, more_pages cloud fuel svc mark tgs a = (Ok (inl ps), a) ∧ Forall page_ok ps.
Proof using Hcloud.
  revert mark tgs. induction fuel as [|fuel IH]; intros [m|] tgs Hend Htgs; cbn [more_pages];
    try (by exists tgs).
  destruct Hend as (p & Hp & Hend). erewrite GoM_bind_Ok by apply getTargetGroupsPage_run.
  unfold page_at. rewrite Hp. apply IH; [done|]. apply Forall_app_2; [done|].
  apply Forall_singleton. by eapply complete_groups.
Qed.

Lemma returns_getAllTargetGroups svc :
  returns (getAllTargetGroups cloud svc) (λ r, ∀ ps, r = inl ps → Forall page_ok ps).
Proof using Hcloud.
  intros a Ha. unfold getAllTargetGroups, try_bind.
  erewrite GoM_bind_Ok by apply getTargetGroupsPage_run. unfold page_at.
  destruct (Api.DescribeTargetGroups _ _) as [p|e] eqn:Hp; [|by eexists _, a].
  destruct (more_pages_end (Cloud.pages cloud) svc (TgPage.NextMarker p) [p] a) as (ps & Hrun & Hps).
  - by eapply complete_pages.
  - apply Forall_singleton. by eapply complete_groups.
  - eexists _, a. split; [exact Hrun|]. split; [done|]. by intros ? [= <-].
Qed.

Lemma returns_all_groups svc :
  returns (all_groups cloud svc) (λ r, ∀ ps, r = inl ps → Forall page_ok ps).
Proof using Hcloud.
  unfold all_groups. apply settles_bind with (sound_result "tg").
  - apply returns_GetAndCache. unfold try_bind.
    apply settles_bind with (λ r, ∀ ps, r = inl ps → Forall page_ok ps);
      [apply returns_getAllTargetGroups|].
    intros [ps|e] Hps; apply settles_ret; [|done]. intros ? [= <-]. split; auto.
  - intros [x|e] Hx; [|by apply settles_ret]. specialize (Hx x eq_refl).
    destruct x; apply settles_ret; intros ? [= <-]; try constructor. apply Hx.
Qed.

(** What the search has found so far has a load balancer, if it has a list. *)
Definition found_ok (f : found) : Prop := f.1 ≠ Some [].

Lemma returns_check_groups svc l tgs f : (∀ tg, Some tg ∈ tgs → attached tg) → found_ok f →
  returns (check_groups cloud svc l tgs f) (λ r, ∀ f, r = inl f → found_ok f).
Proof using Hcloud.
  revert f. induction tgs as [|[tg|] tgs IH]; intros f Ht Hf; cbn [check_groups].
  - apply settles_ret. by intros ? [= <-].
  - assert (∀ tg, Some tg ∈ tgs → attached tg) as Ht' by (intros; apply Ht; by right).
    apply settles_try with (λ _, True).
    { eapply settles_weaken; [apply returns_ask|done]. intros. by eexists. }
    intros [] _; try by apply IH. apply IH; [done|]. destruct (existsb _ _); [|done].
    destruct (Ht tg) as (arn & arns & Htg); [left|]. unfold found_ok. simpl. by rewrite Htg.
  - apply IH; [|done]. intros. apply Ht. by right.
Qed.

Lemma returns_check_pages svc l ps f : Forall page_ok ps → found_ok f →
  returns (check_pages cloud svc l ps f) (λ r, ∀ f, r = inl f → found_ok f).
Proof using Hcloud.
  intros Hps. revert f. induction Hps as [|p ps Hp _ IH]; intros f Hf; cbn [check_pages].
  - apply settles_ret. by intros ? [= <-].
  - apply settles_try with found_ok; [by apply returns_check_groups|]. intros f' Hf'.
    case_decide; [apply settles_ret; by intros ? [= <-]|by apply IH].
Qed.

Lemma returns_search_groups svc l :
  returns (search_groups cloud svc l) (λ r, ∀ x, r = inl x → x.1 ≠ []).
Proof using Hcloud.
  unfold search_groups. apply settles_try with (Forall page_ok); [apply returns_all_groups|].
  intros ps Hps. apply settles_try with found_ok; [by apply returns_check_pages|].
  intros [[arns|] arn] Hf; apply settles_ret; [|done]. intros x [= <-]. unfold found_ok in Hf.
  simpl in *. congruence.
Qed.

Lemma returns_getLoadBalancerFromService name cluster :
  returns (getLoadBalancerFromService cloud name cluster) (λ _, True).
Proof using Hcloud.
  unfold getLoadBalancerFromService, try_bind.
  settle; [settle|]. match goal with x : _ + _ |- _ => destruct x as [svc|] end; [|settle].
  settle; [settle|]. match goal with x : _ + _ |- _ => destruct x as [svc2|] end; [|settle].
  settle; [settle|]. match goal with x : _ + _ |- _ => destruct x as [services|] end; [|settle].
  destruct services as [|[n td [|tgArn tgs]] services]; [settle..|].
  eapply settles_bind; [apply returns_aws|]. intros out3 (t & r & Ho).
  destruct out3 as [out3|e]; [|settle]. symmetry in Ho.
  destruct (complete_group _ Hcloud _ _ _ _ Ho) as (tg & tgs' & Htg). rewrite Htg.
  eapply settles_bind; [by eapply (settles_lift _ _ _ (λ x, x = Some tg))|]. intros ? ->.
  eapply settles_bind; [by eapply (settles_lift _ _ _ (λ x, x = tg))|]. intros ? ->.
  eapply settles_bind; [apply returns_aws|]. intros out2 (t2 & r2 & Ho2).
  destruct out2 as [lbs|e]; [|settle]. symmetry in Ho2.
  destruct (complete_groups _ Hcloud _ _ _ _ Ho tg) as (arn & arns & Harn); [rewrite Htg; left|].
  rewrite Harn in Ho2. apply (complete_balancers _ Hcloud) in Ho2. destruct lbs as [|lb lbs]; [done|].
  eapply settles_bind; [by eapply (settles_lift _ _ _ (λ _, True))|]. intros. by apply settles_ret.
Qed.

Lemma returns_match_services svc c td n i chunk ms rest :
  returns (match_services cloud svc c td n i chunk ms rest) (λ _, True).
Proof using Hcloud.
  revert i chunk ms. induction rest as [|s rest IH]; intros i chunk ms; cbn [match_services];
    repeat (apply IH || settle).
Qed.
Hint Resolve returns_match_services : settles.

Lemma returns_service_and_cluster l : returns (service_and_cluster cloud l) (λ _, True).
Proof using Hcloud. unfold service_and_cluster, lookupServiceName. repeat settle. Qed.

(** The keys of listeners and of balancers hold these and nothing else. *)
Lemma sound_listeners arn x : sound_item ("lsnr_" +:+ arn) x →
  ∃ ls, x = CachedListeners ls ∧ Forall listener_ok ls.
Proof using.
  destruct x; simpl; try (by intros [? [=]]); [by intros [[=] _]|intros [_ ?]; eauto|
    by intros [[? [=]] _]].
Qed.

Lemma sound_balancers arn x : sound_item ("lb_" +:+ arn) x →
  ∃ lb lbs, x = CachedLoadBalancers (lb :: lbs).
Proof using.
  destruct x as [| | | | |[|lb lbs]]; simpl; try (by intros [? [=]]);
    [by intros [[=] _]|by intros [[? [=]] _]|by intros [_ ?]|eauto].
Qed.

Lemma listener_port_ok arn ls : Forall listener_ok ls → ∃ port, listener_port arn ls = Ok port.
Proof using.
  unfold listener_port. generalize (None : option Z). intros lbPort Hls. revert lbPort.
  induction Hls as [|l ls Hl _ IH]; intros lbPort; [by eexists|]. cbn [fold_outcome].
  assert (∃ p, action_port arn (Listener.Port l) lbPort (Listener.DefaultActions l) = Ok p) as [p Hp].
  { unfold listener_ok in Hl. induction (Listener.DefaultActions l) as [|[act|] acts IHacts];
      [by eexists| |destruct Hl; left]. cbn [action_port deref]. simpl.
    case_decide; [by eexists|]. apply IHacts. intros Hin. apply Hl. by right. }
  rewrite Hp. simpl. apply IH.
Qed.

Lemma returns_lb_details svc arns arn : arns ≠ [] →
  returns (lb_details cloud svc arns arn) (λ _, True).
Proof using Hcloud.
  intros Hne. destruct arns as [|lbArn arns]; [done|]. unfold lb_details, try_bind.
  eapply settles_bind; [by eapply (settles_lift _ _ _ (λ x, x = lbArn))|]. intros ? ->.
  eapply settles_bind; [apply returns_ask|].
  { intros t r out Ho. split; [by eexists|]. by eapply complete_listeners. }
  intros [x|e] Hx; [|settle]. destruct (sound_listeners lbArn x (Hx x eq_refl)) as (ls & -> & Hls).
  eapply settles_bind; [by eapply (settles_lift _ _ _ (λ x, x = ls))|]. intros ? ->.
  destruct (listener_port_ok arn ls Hls) as [port Hp].
  eapply settles_bind; [by eapply (settles_lift _ _ _ (λ _, True))|]. intros [lbPort|] _; [|settle].
  eapply settles_bind; [apply returns_ask|].
  { intros t r out Ho. split; [by eexists|]. by eapply complete_balancers. }
  intros [y|e] Hy; [|settle]. destruct (sound_balancers lbArn y (Hy y eq_refl)) as (lb & lbs & ->).
  eapply settles_bind; [by eapply (settles_lift _ _ _ (λ x, x = lb :: lbs))|]. intros ? ->.
  eapply settles_bind; [by eapply (settles_lift _ _ _ (λ _, True))|]. intros. settle.
Qed.

Lemma returns_getELBAndCacheDetails l : returns (getELBAndCacheDetails cloud l) (λ _, True).
Proof using Hcloud.
  unfold getELBAndCacheDetails. do 2 (settle; [settle|]). unfold try_bind at 1. settle; [settle|].
  match goal with x : Session.t + _ |- _ => destruct x as [svc|] end; [|settle].
  eapply settles_bind; [apply returns_service_and_cluster|]. intros [name cluster] _.
  unfold try_bind at 1. apply settles_bind with (λ r, ∀ x, r = inl x → x.1 ≠ []).
  - case_decide; [apply returns_search_groups|]. unfold try_bind.
    eapply settles_bind; [apply returns_getLoadBalancerFromService|].
    intros [[lb tg]|e] _; apply settles_ret; [|done]. by intros x [= <-].
  - intros [[arns arn]|e] Hx; [|settle]. apply returns_lb_details. by apply (Hx (arns, arn)).
Qed.

(** *** Registering *)
Lemma returns_GetHealthyTargets arn : returns (GetHealthyTargets cloud arn) (λ _, True).
Proof using Hcloud.
  unfold GetHealthyTargets. apply settles_bind with (λ _, True); [|intros; repeat settle].
  eapply settles_weaken; [apply returns_GetAndCache|done]. unfold getHealthyTargets, try_bind.
  eapply settles_bind; [apply returns_session|]. intros [svc|e] _; [|by apply settles_ret].
  eapply settles_bind; [apply returns_aws|]. intros out (t & r & Ho).
  destruct out as [ts|e]; [|by apply settles_ret]. symmetry in Ho.
  eapply settles_lift; [rewrite healthy_fold; [reflexivity|]|].
  - by eapply (complete_targets _ Hcloud).
  - intros ? [= <-]. by eexists.
Qed.
Hint Resolve returns_GetHealthyTargets : settles.

Lemma returns_register_elb s i : returns (register_elb cloud s i) (λ _, True).
Proof using Hcloud ER.
  unfold register_elb, testHealth, getELBStatus, determineNewEurekaStatus.
  repeat settle. by apply settles_modify.
Qed.
Hint Resolve returns_register_elb : settles.

Lemma returns_mutate s i : returns (mutateRegistrationInfo cloud s i) (λ _, True).
Proof using Hcloud.
  unfold mutateRegistrationInfo, getELBMetadata. settle; [|repeat settle].
  settle; [settle|]. destruct (explicit_elb s).
  - settle; [|settle]. apply returns_Set. by eexists.
  - settle; [|repeat settle]. unfold GetELBV2ForContainer.
    apply settles_bind with (λ _, True); [|intros; repeat settle].
    eapply settles_weaken; [apply returns_GetAndCache|done]. unfold try_bind.
    eapply settles_bind; [apply returns_getELBAndCacheDetails|].
    intros [x|e] _; apply settles_ret; [intros ? [= <-]; by eexists|done].
Qed.
Hint Resolve returns_mutate : settles.

Lemma returns_retries seed ns s i : returns (elb_retries cloud seed ns s i) (λ _, True).
Proof using Hcloud ER. induction ns as [|n ns IH]; cbn [elb_retries]; repeat (apply IH || settle). Qed.
Hint Resolve returns_retries : settles.

Lemma returns_instance s : returns (instanceInformation cloud s) (λ _, True).
Proof using Hcloud. unfold instanceInformation. repeat settle. Qed.
Hint Resolve returns_instance : settles.

Lemma returns_remove k : returns (RemoveKeyFromCache k) (λ _, True).
Proof using.
  apply settles_modify. intros a [Ha Hm]. split; [|done]. intros k' x e. simpl. rewrite lookup_delete.
  case_decide; [done|apply Ha].
Qed.
Hint Resolve returns_remove : settles.

(** *** The adapter *)
Lemma returns_adapter (s : Service.t) :
  returns (eureka_Register cloud s) (λ _, True) ∧ returns (eureka_Refresh cloud s) (λ _, True) ∧
  returns (eureka_Deregister cloud s) (λ _, True).
Proof using Hcloud ER.
  split_and!.
  - unfold eureka_Register, RegisterWithELBv2. repeat settle.
  - unfold eureka_Refresh, HeartbeatELBv2. repeat settle.
  - unfold eureka_Deregister. repeat settle.
Qed.

#[local] Instance eureka_safe : RegistrySafe (H := eureka_adapter cloud) eureka_ok.
Proof using Hcloud ER.
  split.
  - intros a Ha. simpl. unfold eureka_Ping, on_eureka. by destruct (GetApps (Aws.client a)).
  - intros s _ a Ha. by eapply settles_safe; [apply returns_adapter|].
  - intros s a Ha. by eapply settles_safe; [apply returns_adapter|].
  - intros s a Ha. by eapply settles_safe; [apply returns_adapter|].
  - intros a Ha. done.
Qed.
End returns.
