(* ===== verification/ExtPoints.v ===== *)
(** * Extension points: bridge/extpoints.go

    The table of named components for each interface. Extension points are shared
    by pointer: [heap] holds them, a pointer is an index, and the registry maps the
    name of an interface to the pointer of its point. Each point has a mutex of its
    own, as has the registry. What [reflect] says of components and interfaces are
    parameters: the name of an interface, the name of a component's type, and
    whether the component implements the interface. *)
From S2P Require Import Prelude GoStrings Types.

Module ExtPoint.
Record t (C I : Type) := mk { locked : bool; iface : I; components : gmap string C }.
Arguments mk {C I}.
Arguments locked {C I}.
Arguments iface {C I}.
Arguments components {C I}.
End ExtPoint.

Module Exts.
Record t (C I : Type) := mk {
  locked : bool;
  extpoints : gmap string nat;
  heap : list (ExtPoint.t C I)
}.
Arguments mk {C I}.
Arguments locked {C I}.
Arguments extpoints {C I}.
Arguments heap {C I}.
Definition set_locked {C I} l (s : t C I) : t C I := mk l (extpoints s) (heap s).
Definition set_extpoints {C I} m (s : t C I) : t C I := mk (locked s) m (heap s).
Definition set_heap {C I} h (s : t C I) : t C I := mk (locked s) (extpoints s) h.
(** The package's variable before any code runs. *)
Definition init {C I} : t C I := mk false ∅ [].
End Exts.

Module Ext.
Section extpoints.
Context {C I : Type} `{O : MapOrder}.
Context (Name : I → string) (ElemName : C → string) (Implements : C → I → bool).
Abbreviation S := (Exts.t C I).

(** ** Mutexes and pointers *)
Definition Lock : GoM S unit := λ s,
  if Exts.locked s then (Blocked, s) else (Ok (), Exts.set_locked true s).
Definition Unlock : GoM S unit := λ s,
  if Exts.locked s then (Ok (), Exts.set_locked false s) else (Panicked, s).

Definition load (ep : nat) : GoM S (ExtPoint.t C I) := λ s,
  (match Exts.heap s !! ep with Some e => Ok e | None => Panicked end, s).
Definition store (ep : nat) (e : ExtPoint.t C I) : GoM S unit :=
  modify (λ s, Exts.set_heap (<[ep := e]> (Exts.heap s)) s).

Definition ep_Lock (ep : nat) : GoM S unit :=
  e ← load ep;
  if ExtPoint.locked e then lift_outcome Blocked
  else store ep (ExtPoint.mk true (ExtPoint.iface e) (ExtPoint.components e)).
Definition ep_Unlock (ep : nat) : GoM S unit :=
  e ← load ep;
  if ExtPoint.locked e
  then store ep (ExtPoint.mk false (ExtPoint.iface e) (ExtPoint.components e))
  else lift_outcome Panicked.

(** [ep.Lock(); defer ep.Unlock(); ...] with a body on the components. *)
Definition with_ep {A} (ep : nat) (body : gmap string C → A * gmap string C) : GoM S A :=
  _ ← ep_Lock ep;
  e ← load ep;
  let '(r, m) := body (ExtPoint.components e) in
  _ ← store ep (ExtPoint.mk (ExtPoint.locked e) (ExtPoint.iface e) m);
  _ ← ep_Unlock ep;
  mret r.

(** ** Extension points *)
Definition newExtensionPoint (iface : I) : GoM S nat :=
  s ← get_state;
  let ep := length (Exts.heap s) in
  _ ← modify (λ s, Exts.set_heap (Exts.heap s ++ [ExtPoint.mk false iface ∅]) s);
  _ ← Lock;
  _ ← modify (λ s, Exts.set_extpoints (<[Name iface := ep]> (Exts.extpoints s)) s);
  _ ← Unlock;
  mret ep.

Definition lookup (ep : nat) (name : string) : GoM S (option C) :=
  with_ep ep (λ m, (m !! name, m)).

Definition all (ep : nat) : GoM S (gmap string C) :=
  with_ep ep (λ m, (foldl (λ all kv, <[kv.1 := kv.2]> all) ∅ (range m), m)).

Definition register (ep : nat) (component : C) (name : string) : GoM S bool :=
  with_ep ep (λ m,
    let name := if decide (name = "") then ElemName component else name in
    match m !! name with
    | Some _ => (false, m)
    | None => (true, <[name := component]> m)
    end).

Definition unregister (ep : nat) (name : string) : GoM S bool :=
  with_ep ep (λ m,
    match m !! name with
    | None => (false, m)
    | Some _ => (true, delete name m)
    end).

(** ** The registry *)
Fixpoint implements_loop (component : C) (points : list (string * nat)) : GoM S (list string) :=
  match points with
  | [] => mret []
  | (name, ep) :: points =>
      e ← load ep;
      ifaces ← implements_loop component points;
      mret (if Implements component (ExtPoint.iface e) then name :: ifaces else ifaces)
  end.

Definition implements (component : C) : GoM S (list string) :=
  s ← get_state; implements_loop component (range (Exts.extpoints s)).

(** The interfaces for which a call on their point, looked up by name, is true. *)
Fixpoint accepted (call : nat → GoM S bool) (ifaces : list string) : GoM S (list string) :=
  match ifaces with
  | [] => mret []
  | iface :: ifaces =>
      s ← get_state;
      ep ← lift_outcome (match Exts.extpoints s !! iface with Some ep => Ok ep | None => Panicked end);
      ok ← call ep;
      rest ← accepted call ifaces;
      mret (if (ok : bool) then iface :: rest else rest)
  end.

Definition Register (component : C) (name : string) : GoM S (list string) :=
  _ ← Lock;
  ifaces ← implements component;
  ifaces ← accepted (λ ep, register ep component name) ifaces;
  _ ← Unlock;
  mret ifaces.

Definition Unregister (name : string) : GoM S (list string) :=
  _ ← Lock;
  s ← get_state;
  ifaces ← accepted (λ ep, unregister ep name) (range (Exts.extpoints s)).*1;
  _ ← Unlock;
  mret ifaces.

(** ** AdapterFactories: the point [ep] of the interface [adapterFactory] *)
Context (adapterFactory : I) (ep : nat).

Definition Factories_Register (component : C) (name : string) : GoM S bool :=
  register ep component name.

Definition Factories_Unregister (name : string) : GoM S bool := unregister ep name.

(** The type assertion panics on a component of another type. *)
Definition as_factory (component : C) : outcome C :=
  if Implements component adapterFactory then Ok component else Panicked.

Definition Factories_Lookup (name : string) : GoM S (option C) :=
  ext ← lookup ep name;
  match ext with
  | None => mret None
  | Some ext => ext ← lift_outcome (as_factory ext); mret (Some ext)
  end.

Definition Factories_All : GoM S (gmap string C) :=
  m ← all ep;
  lift_outcome (fold_outcome (λ all kv, v ← as_factory kv.2; Ok (<[kv.1 := v]> all)) ∅ (range m)).
End extpoints.
End Ext.

(** ** Properties *)
Section props.
Context {C I : Type} `{O : MapOrder}.
Context (Name : I → string) (Implements : C → I → bool).
Implicit Types s : Exts.t C I.

(** No mutex is held, the registry points at the point of the interface it names,
    and every component implements the interface of its point. *)
Definition ext_wf s : Prop :=
  Exts.locked s = false ∧
  (∀ name p, Exts.extpoints s !! name = Some p →
     ∃ e, Exts.heap s !! p = Some e ∧ Name (ExtPoint.iface e) = name) ∧
  (∀ p e, Exts.heap s !! p = Some e → ExtPoint.locked e = false ∧
     ∀ n c, ExtPoint.components e !! n = Some c → Implements c (ExtPoint.iface e) = true).

Definition unlocked s : Prop :=
  ∀ p e, Exts.heap s !! p = Some e → ExtPoint.locked e = false.

(** The effect of a call on the components of a point. *)
Definition set_components (p : nat) (e : ExtPoint.t C I) m s : Exts.t C I :=
  Exts.set_heap (<[p := ExtPoint.mk false (ExtPoint.iface e) m]> (Exts.heap s)) s.

Lemma with_ep_run {A} p e (body : gmap string C → A * gmap string C) s :
  Exts.heap s !! p = Some e → ExtPoint.locked e = false →
  Ext.with_ep p body s =
    (Ok (body (ExtPoint.components e)).1, set_components p e (body (ExtPoint.components e)).2 s).
Proof.
  intros Hp Hl. pose proof (lookup_lt_Some _ _ _ Hp) as Hlt.
  unfold Ext.with_ep, Ext.ep_Lock, Ext.ep_Unlock, Ext.load, Ext.store, set_components.
  go_unfold. rewrite Hp. simpl. rewrite Hl. simpl.
  rewrite list_lookup_insert_eq by done. simpl.
  destruct (body (ExtPoint.components e)) as [r m]. simpl.
  rewrite list_lookup_insert_eq by (by rewrite length_insert). simpl.
  by rewrite !list_insert_insert_eq.
Qed.

Lemma lookup_set_components p e m s q : Exts.heap s !! p = Some e →
  Exts.heap (set_components p e m s) !! q =
    if decide (q = p) then Some (ExtPoint.mk false (ExtPoint.iface e) m) else Exts.heap s !! q.
Proof.
  intros Hp%lookup_lt_Some. simpl. case_decide; subst;
    [by rewrite list_lookup_insert_eq|by rewrite list_lookup_insert_ne].
Qed.

(** What a call does to the point of each interface it is made for. *)
Definition updates (f : gmap string C → bool * gmap string C) (ifaces oks : list string) s s' : Prop :=
  Exts.extpoints s' = Exts.extpoints s ∧ Exts.locked s' = Exts.locked s ∧
  length (Exts.heap s') = length (Exts.heap s) ∧
  (∀ i, i ∈ oks → i ∈ ifaces) ∧
  ∀ p e, Exts.heap s !! p = Some e →
    let i := Name (ExtPoint.iface e) in
    if decide (i ∈ ifaces ∧ Exts.extpoints s !! i = Some p) then
      (i ∈ oks ↔ (f (ExtPoint.components e)).1 = true) ∧
      Exts.heap s' !! p = Some (ExtPoint.mk false (ExtPoint.iface e) (f (ExtPoint.components e)).2)
    else Exts.heap s' !! p = Some e.

Definition named s : Prop := ∀ name p, Exts.extpoints s !! name = Some p →
  ∃ e, Exts.heap s !! p = Some e ∧ Name (ExtPoint.iface e) = name.

(** A call on the point of one more interface, made first. *)
Lemma updates_cons f i ifaces oks p e s s' :
  i ∉ ifaces → Exts.extpoints s !! i = Some p → Exts.heap s !! p = Some e →
  Name (ExtPoint.iface e) = i →
  updates f ifaces oks (set_components p e (f (ExtPoint.components e)).2 s) s' →
  updates f (i :: ifaces) (if (f (ExtPoint.components e)).1 then i :: oks else oks) s s'.
Proof.
  intros Hi Hp He Hname (Hx & Hl & Hlen & Hd & Hup).
  pose proof (λ q, lookup_set_components p e (f (ExtPoint.components e)).2 s q He) as Hs1.
  split_and!; [exact Hx|exact Hl|by rewrite Hlen; apply length_insert| |].
  { intros j. destruct (f _).1; rewrite ?elem_of_cons; naive_solver. }
  intros q e' Hq. cbv zeta. destruct (decide (q = p)) as [->|Hqp].
  - rewrite He in Hq. injection Hq as <-. rewrite Hname.
    rewrite decide_True by (split; [left|done]).
    specialize (Hup p _ ltac:(by rewrite Hs1, decide_True)). simpl in Hup. rewrite Hname in Hup.
    rewrite decide_False in Hup by naive_solver. split; [|done].
    destruct (f _).1 eqn:Hf; [split; [done|by left]|]. split; [by intros Hj%Hd|done].
  - specialize (Hup q e' ltac:(by rewrite Hs1, decide_False)). simpl in Hup.
    assert (Exts.extpoints s !! Name (ExtPoint.iface e') = Some q → Name (ExtPoint.iface e') ≠ i)
      as Hne by (intros Hq' Heq; rewrite Heq in Hq'; congruence).
    destruct (decide (Name (ExtPoint.iface e') ∈ ifaces ∧ _)) as [[Hj1 Hj2]|Hno].
    + rewrite decide_True by (split; [by right|done]). destruct Hup as [Hiff Hh]. split; [|done].
      rewrite <- Hiff. specialize (Hne Hj2). destruct (f (ExtPoint.components e)).1; [|done].
      rewrite elem_of_cons. naive_solver.
    + rewrite decide_False; [done|]. intros [[?|?]%elem_of_cons Hj2]; [by apply Hne|by apply Hno].
Qed.

Lemma accepted_run f call ifaces s :
  (∀ p, call p = Ext.with_ep p f) → NoDup ifaces → named s → unlocked s →
  (∀ i, i ∈ ifaces → is_Some (Exts.extpoints s !! i)) →
  ∃ oks s', Ext.accepted call ifaces s = (Ok oks, s') ∧ updates f ifaces oks s s'.
Proof.
  intros Hcall. revert s. induction ifaces as [|i ifaces IH]; intros s Hnd Hn Hu Hin.
  { exists [], s. split; [done|]. split_and!; [done..|].
    intros p e Hp. rewrite decide_False; [done|]. intros [Hi _]. by apply not_elem_of_nil in Hi. }
  apply NoDup_cons in Hnd as [Hi Hnd]. destruct (Hin i) as [p Hp]; [left|].
  destruct (Hn i p Hp) as (e & He & Hname).
  pose proof (with_ep_run p e f s He (Hu p e He)) as Hrun.
  pose proof (λ q, lookup_set_components p e (f (ExtPoint.components e)).2 s q He) as Hs1.
  destruct (IH (set_components p e (f (ExtPoint.components e)).2 s))
    as (oks & s' & Hrest & Hup); [done| | | |].
  { intros j q Hq. rewrite Hs1. case_decide as Hqp; [|by apply Hn].
    subst. eexists. split; [reflexivity|]. simpl. destruct (Hn j p Hq) as (e' & He' & <-).
    by rewrite He in He'; simplify_eq. }
  { intros q e'. rewrite Hs1. case_decide; [by intros [= <-]|apply Hu]. }
  { intros j Hj. apply Hin. by right. }
  exists (if (f (ExtPoint.components e)).1 then i :: oks else oks), s'. split.
  - cbn [Ext.accepted]. erewrite GoM_bind_Ok by reflexivity.
    erewrite GoM_bind_Ok by (unfold lift_outcome; by rewrite Hp). rewrite Hcall.
    rewrite (GoM_bind_Ok _ _ _ _ _ Hrun), (GoM_bind_Ok _ _ _ _ _ Hrest). done.
  - by apply updates_cons with p.
Qed.

(** ** The table as its users see it *)
Definition point s (iface : string) : option (ExtPoint.t C I) :=
  p ← Exts.extpoints s !! iface; Exts.heap s !! p.

Definition component s (iface name : string) : option C :=
  e ← point s iface; ExtPoint.components e !! name.

Lemma point_name s i e : named s → point s i = Some e →
  ∃ p, Exts.extpoints s !! i = Some p ∧ Exts.heap s !! p = Some e ∧ Name (ExtPoint.iface e) = i.
Proof.
  intros Hn. unfold point. destruct (Exts.extpoints s !! i) as [p|] eqn:Hp; [|done]. simpl.
  intros He. destruct (Hn i p Hp) as (e' & He' & Hname). rewrite He in He'. simplify_eq. eauto.
Qed.

Lemma wf_named s : ext_wf s → named s ∧ unlocked s.
Proof. intros (_ & Hn & Hu). split; [exact Hn|]. intros p e He. by apply Hu in He as [? _]. Qed.

Lemma implements_loop_run c points s :
  (∀ i p, (i, p) ∈ points → Exts.extpoints s !! i = Some p) → named s → NoDup points.*1 →
  ∃ ifaces, Ext.implements_loop Implements c points s = (Ok ifaces, s) ∧ NoDup ifaces ∧
    ∀ i, i ∈ ifaces ↔ i ∈ points.*1 ∧
           ∃ e, point s i = Some e ∧ Implements c (ExtPoint.iface e) = true.
Proof.
  intros Hpt Hn. induction points as [|[i p] points IH]; intros Hnd; simpl in *.
  { exists []. split; [done|]. split; [constructor|]. intros i. rewrite elem_of_nil. tauto. }
  apply NoDup_cons in Hnd as [Hi Hnd].
  destruct IH as (ifaces & Hrun & Hndi & Hin); [intros; apply Hpt; by right|done|].
  destruct (Hn i p) as (e & He & Hname); [apply Hpt; left|].
  assert (point s i = Some e) as Hpe.
  { unfold point. rewrite (Hpt i p) by left. done. }
  exists (if Implements c (ExtPoint.iface e) then i :: ifaces else ifaces). split_and!.
  - erewrite GoM_bind_Ok by (unfold Ext.load; by rewrite He).
    by rewrite (GoM_bind_Ok _ _ _ _ _ Hrun).
  - destruct (Implements _ _); [|done]. constructor; [|done]. naive_solver.
  - intros j. destruct (Implements c (ExtPoint.iface e)) eqn:Him; rewrite ?elem_of_cons, Hin.
    + split; [intros [->|[? ?]]; [split; [by left|eauto]|split; [by right|done]]|].
      intros [[->|?] ?]; [by left|by right].
    + split; [intros [? ?]; split; [by right|done]|].
      intros [[->|?] (e' & He' & Him')]; [congruence|eauto].
Qed.

(** The body of [register] and of [unregister]. *)
Definition add_component (n : string) (c : C) (m : gmap string C) : bool * gmap string C :=
  match m !! n with Some _ => (false, m) | None => (true, <[n := c]> m) end.
Definition drop_component (n : string) (m : gmap string C) : bool * gmap string C :=
  match m !! n with None => (false, m) | Some _ => (true, delete n m) end.

(** What the table holds after the calls on some points. *)
Lemma updates_component f ifaces oks s s' i :
  named s → updates f ifaces oks s s' →
  point s' i = match point s i with
               | Some e => Some (if decide (i ∈ ifaces)
                   then ExtPoint.mk false (ExtPoint.iface e) (f (ExtPoint.components e)).2 else e)
               | None => None
               end ∧
  (i ∈ oks → i ∈ ifaces) ∧
  ∀ e, point s i = Some e → i ∈ ifaces → (i ∈ oks ↔ (f (ExtPoint.components e)).1 = true).
Proof.
  intros Hn (Hx & _ & _ & Hd & Hup). split_and!; [|apply Hd|].
  - unfold point at 1. rewrite Hx. destruct (point s i) as [e|] eqn:Hpt.
    + destruct (point_name s i e Hn Hpt) as (p & Hp & He & Hname). rewrite Hp. simpl.
      specialize (Hup p e He). simpl in Hup. rewrite Hname in Hup.
      destruct (decide (i ∈ ifaces)).
      * rewrite decide_True in Hup by done. by destruct Hup.
      * by rewrite decide_False in Hup by naive_solver.
    + destruct (Exts.extpoints s !! i) as [p|] eqn:Hp; [|done].
      destruct (Hn i p Hp) as (e & He & _). unfold point in Hpt. rewrite Hp in Hpt.
      simpl in Hpt. congruence.
  - intros e Hpt Hi. destruct (point_name s i e Hn Hpt) as (p & Hp & He & Hname).
    specialize (Hup p e He). simpl in Hup. rewrite Hname, decide_True in Hup by done. apply Hup.
Qed.

(** Calls that keep the components of the right type keep the table in order. *)
Lemma updates_wf f ifaces oks s s' :
  ext_wf s → updates f ifaces oks (Exts.set_locked true s) s' →
  (∀ i e n c, i ∈ ifaces → point s i = Some e → (f (ExtPoint.components e)).2 !! n = Some c →
     Implements c (ExtPoint.iface e) = true) →
  ext_wf (Exts.set_locked false s').
Proof.
  intros (Hl & Hn & Hu) (Hx & _ & Hlen & Hd & Hup) Hf.
  assert (∀ p e', Exts.heap s' !! p = Some e' → ∃ e, Exts.heap s !! p = Some e) as Hback.
  { intros p e' He'. apply lookup_lt_is_Some. simpl in Hlen. rewrite <- Hlen.
    by eapply lookup_lt_Some. }
  split_and!; [done| |].
  - intros i p Hp. simpl in *. rewrite Hx in Hp. destruct (Hn i p Hp) as (e & He & Hname).
    specialize (Hup p e He). simpl in Hup. case_decide; [|by exists e].
    destruct Hup as [_ Hup]. by eexists.
  - intros p e' He'. simpl in He'. destruct (Hback p e' He') as [e He].
    specialize (Hup p e He). simpl in Hup. case_decide as Hdec.
    + destruct Hup as [_ Hup]. rewrite He' in Hup. simplify_eq. split; [done|]. simpl. intros n c Hc.
      eapply Hf; [apply Hdec| |done]. unfold point. destruct Hdec as [_ ->]. done.
    + rewrite He' in Hup. simplify_eq. by apply (Hu p).
Qed.

(** The calls on some points, between [Lock] and [Unlock]. *)
Lemma locked_calls f call pts s :
  ext_wf s → (∀ p, call p = Ext.with_ep p f) → NoDup pts → (∀ i, i ∈ pts → is_Some (point s i)) →
  (∀ i e n c, i ∈ pts → point s i = Some e → (f (ExtPoint.components e)).2 !! n = Some c →
     Implements c (ExtPoint.iface e) = true) →
  ∃ oks s', Ext.accepted call pts (Exts.set_locked true s) = (Ok oks, s') ∧
    Ext.Unlock s' = (Ok (), Exts.set_locked false s') ∧ ext_wf (Exts.set_locked false s') ∧
    Exts.extpoints s' = Exts.extpoints s ∧
    (∀ i, i ∈ oks ↔ i ∈ pts ∧ ∃ e, point s i = Some e ∧ (f (ExtPoint.components e)).1 = true) ∧
    (∀ i m, component (Exts.set_locked false s') i m =
       if decide (i ∈ pts) then e ← point s i; (f (ExtPoint.components e)).2 !! m
       else component s i m).
Proof.
  intros Hwf Hcall Hnd His Hf. destruct (wf_named s Hwf) as [Hn Hu].
  destruct (accepted_run f call pts (Exts.set_locked true s)) as (oks & s' & Hrun & Hup);
    [done|done|exact Hn|exact Hu| |].
  { intros i [e He]%His. by destruct (point_name s i e Hn He) as (p & Hp & _); exists p. }
  pose proof (λ i, updates_component f pts oks (Exts.set_locked true s) s' i Hn Hup) as Hpt.
  change (point (Exts.set_locked true s)) with (point s) in Hpt.
  exists oks, s'. split_and!; [done| |by apply (updates_wf f pts oks s s')|apply Hup| |].
  - unfold Ext.Unlock. by destruct Hup as (_ & -> & _).
  - intros i. destruct (Hpt i) as (_ & Hoi & Hok). split.
    + intros Hio. destruct (His i (Hoi Hio)) as [e He]. split; [by apply Hoi|]. exists e.
      split; [done|]. by apply (Hok e He (Hoi Hio)).
    + intros (Hi & e & He & Ht). by apply (Hok e He Hi).
  - intros i m. unfold component at 1. change (point (Exts.set_locked false s') i) with (point s' i).
    destruct (Hpt i) as (-> & _). unfold component.
    destruct (point s i) as [e|]; simpl; by case_decide.
Qed.

Lemma Unregister_run name s : ext_wf s →
  ∃ ifaces s', Ext.Unregister name s = (Ok ifaces, s') ∧ ext_wf s' ∧
    (∀ i, i ∈ ifaces ↔ is_Some (component s i name)) ∧
    (∀ i m, component s' i m = if decide (m = name) then None else component s i m).
Proof.
  intros Hwf. destruct (wf_named s Hwf) as [Hn _]. pose proof Hwf as (Hl & _ & Hc).
  set (pts := (range (Exts.extpoints s)).*1).
  assert (∀ i, i ∈ pts ↔ is_Some (point s i)) as His.
  { intros i. unfold pts. rewrite list_elem_of_fmap. split.
    - intros ([i' p] & -> & Hp%range_elem). destruct (Hn i' p Hp) as (e & He & _). exists e.
      unfold point. simpl. by rewrite Hp.
    - intros [e He]. destruct (point_name s i e Hn He) as (p & Hp & _).
      exists (i, p). split; [done|by apply range_elem]. }
  destruct (locked_calls (drop_component name) (λ ep, Ext.unregister ep name) pts s)
    as (oks & s2 & Hrun & Hun & Hwf' & Hx & Hoks & Hcomp);
    [done|done|apply range_fst_NoDup|intros; by apply His| |].
  { intros i e m c' _ He. destruct (point_name s i e Hn He) as (p & _ & Hp & _).
    destruct (Hc p e Hp) as [_ Ht]. unfold drop_component.
    destruct (ExtPoint.components e !! name); simpl; [|apply Ht].
    rewrite lookup_delete. case_decide; [done|apply Ht]. }
  exists oks, (Exts.set_locked false s2). split_and!; [|done| |].
  - unfold Ext.Unregister, Ext.Lock at 1. unfold mbind at 1, GoM_bind at 1. rewrite Hl.
    erewrite GoM_bind_Ok by reflexivity. rewrite (GoM_bind_Ok _ _ _ _ _ Hrun).
    by rewrite (GoM_bind_Ok _ _ _ _ _ Hun).
  - intros i. rewrite Hoks, His. unfold component, drop_component.
    destruct (point s i) as [e|]; simpl; [|split; [by intros [[] _]|by intros []]].
    destruct (ExtPoint.components e !! name) eqn:Hfree; split; try by intros []; eauto.
    + intros _. split; [eauto|]. exists e. by rewrite Hfree.
    + intros (_ & e' & [= <-] & Hf). by rewrite Hfree in Hf.
  - intros i m. rewrite Hcomp. unfold component, drop_component.
    destruct (point s i) as [e|] eqn:He; simpl; [|by repeat case_decide].
    rewrite decide_True by (apply His; by rewrite He).
    destruct (ExtPoint.components e !! name) eqn:Hfree; simpl.
    + rewrite lookup_delete. apply decide_ext. naive_solver.
    + case_decide; congruence.
Qed.

(** Unregistering a name removes the component of that name from every point
    that has one, and reports the interfaces of these points; nothing else is
    removed. What was registered under a name that was free is thereby undone. *)
Theorem Ext_Unregister_spec name s : ext_wf s →
  ∃ ifaces s', Ext.Unregister name s = (Ok ifaces, s') ∧ ext_wf s' ∧
    (∀ i, i ∈ ifaces ↔ is_Some (component s i name)) ∧
    (∀ i m, component s' i m = if decide (m = name) then None else component s i m).
Proof. by apply Unregister_run. Qed.
Context (ElemName : C → string).

Definition effective_name (name : string) (c : C) : string :=
  if decide (name = "") then ElemName c else name.

Lemma Register_run c name s : ext_wf s →
  let n := effective_name name c in
  ∃ ifaces s', Ext.Register ElemName Implements c name s = (Ok ifaces, s') ∧ ext_wf s' ∧
    Exts.extpoints s' = Exts.extpoints s ∧
    (∀ i, i ∈ ifaces ↔ ∃ e, point s i = Some e ∧ Implements c (ExtPoint.iface e) = true ∧
                            component s i n = None) ∧
    (∀ i m, component s' i m =
            if decide (i ∈ ifaces ∧ m = n) then Some c else component s i m).
Proof.
  intros Hwf n. destruct (wf_named s Hwf) as [Hn _]. pose proof Hwf as (Hl & _ & Hc).
  destruct (implements_loop_run c (range (Exts.extpoints s)) (Exts.set_locked true s))
    as (pts & Hi & Hnd & Hin);
    [intros i p Hp; by apply range_elem in Hp|exact Hn|apply range_fst_NoDup|].
  change (point (Exts.set_locked true s)) with (point s) in Hin.
  assert (∀ i, i ∈ pts ↔ ∃ e, point s i = Some e ∧ Implements c (ExtPoint.iface e) = true) as His.
  { intros i. rewrite Hin. split; [tauto|]. intros (e & He & Him). split; [|eauto].
    destruct (point_name s i e Hn He) as (p & Hp & _). apply list_elem_of_fmap.
    exists (i, p). split; [done|by apply range_elem]. }
  destruct (locked_calls (add_component n c) (λ ep, Ext.register ElemName ep c name) pts s)
    as (oks & s2 & Hrun & Hun & Hwf' & Hx & Hoks & Hcomp); [done|done|done| | |].
  { intros i (e & He & _)%His. by exists e. }
  { intros i e m c' (e' & He' & Him)%His He. rewrite He in He'. injection He' as <-.
    destruct (point_name s i e Hn He) as (p & _ & Hp & _). destruct (Hc p e Hp) as [_ Ht].
    unfold add_component. destruct (ExtPoint.components e !! n); simpl; [apply Ht|].
    rewrite lookup_insert. case_decide; [by intros [= <-]|apply Ht]. }
  exists oks, (Exts.set_locked false s2). split_and!; [|done|exact Hx| |].
  - unfold Ext.Register, Ext.Lock at 1. unfold mbind at 1, GoM_bind at 1. rewrite Hl.
    erewrite GoM_bind_Ok by exact Hi. rewrite (GoM_bind_Ok _ _ _ _ _ Hrun).
    by rewrite (GoM_bind_Ok _ _ _ _ _ Hun).
  - intros i. rewrite Hoks, His. unfold component, add_component. split.
    + intros ((e & He & Him) & e' & He' & Hf). rewrite He in He'. injection He' as <-.
      exists e. rewrite He. simpl. by destruct (ExtPoint.components e !! n).
    + intros (e & He & Him & Hf). rewrite He in Hf. simpl in Hf. split; [eauto|].
      exists e. by rewrite Hf.
  - intros i m. rewrite Hcomp. unfold component, add_component.
    destruct (point s i) as [e|] eqn:He; simpl.
    2: { rewrite (decide_False (P := i ∈ oks ∧ m = n)); [by case_decide|].
         rewrite Hoks, He. naive_solver. }
    destruct (decide (i ∈ pts)) as [Hii|Hii].
    + unfold add_component in Hoks.
      destruct (ExtPoint.components e !! n) eqn:Hfree; simpl.
      * rewrite decide_False; [done|]. rewrite Hoks, He. intros [(_ & e' & [= <-] & Hf) _].
        by rewrite Hfree in Hf.
      * rewrite lookup_insert. assert (i ∈ oks) as Hio
          by (apply Hoks; split; [done|]; exists e; by rewrite Hfree).
        apply decide_ext. naive_solver.
    + rewrite decide_False; [done|]. rewrite Hoks. naive_solver.
Qed.

(** Registering a component under a name, the name of its type if none is
    given, adds it to the point of every interface it implements in which the name
    is free, and to no other: the first registration of a name wins. Everything
    else in the table stays, no mutex stays held and every component implements
    the interface of its point. *)
Theorem Ext_Register_spec c name s : ext_wf s →
  let n := effective_name name c in
  ∃ ifaces s', Ext.Register ElemName Implements c name s = (Ok ifaces, s') ∧ ext_wf s' ∧
    (∀ i, i ∈ ifaces ↔ ∃ e, point s i = Some e ∧ Implements c (ExtPoint.iface e) = true ∧
                            component s i n = None) ∧
    (∀ i m, component s' i m =
            if decide (i ∈ ifaces ∧ m = n) then Some c else component s i m).
Proof.
  intros Hwf n. destruct (Register_run c name s Hwf) as (ifaces & s' & Hrun & Hwf' & _ & Hspec).
  by exists ifaces, s'.
Qed.

End props.
