(* ===== verification/Factories.v ===== *)
(** * Making the backend: bridge.New and the factories

    [New] of bridge/bridge.go, the [init] functions and the factories of the
    backends, and modules.go. [url.Parse], the environment, the answer of etcd to
    the version request, the TLS set-up, the Consul client's own checks and the
    connection to ZooKeeper are parameters. *)
From S2P Require Import Prelude GoStrings Types Metadata NewService Bridge.
From S2P Require Import KvBackends Zookeeper ExtPoints.

(** A parsed URI: the fields the factories read, and its [String()]. *)
Module Url.
Record t := mk { Scheme : string; Host : string; Path : string; Text : string }.
End Url.

(** The configuration of a Consul client: the fields the factories set. [HttpClient]
    is a pointer; the value is whether its transport has a TLS configuration. *)
Module ConsulConfig.
Record t := mk { Address : string; Scheme : string; HttpClient : option bool }.
Definition set_Address (a : string) (c : t) : t := mk a (Scheme c) (HttpClient c).
End ConsulConfig.

Inductive factory :=
| ConsulFactory | ConsulKVFactory | EtcdFactory | EurekaFactory | Skydns2Factory | ZookeeperFactory.

(** The adapters, as far as the factories determine them. *)
Inductive adapter (C : Type) :=
| ConsulAdapter (config : ConsulConfig.t)
| ConsulKVAdapter (config : ConsulConfig.t) (path : string)
| EtcdAdapter (v0 : bool) (urls : list string) (path : string)
| EurekaAdapter (url : string)
| Skydns2Adapter (urls : list string) (path : string)
| ZkAdapter (client : C) (path : string).
Arguments ConsulAdapter {C}.
Arguments ConsulKVAdapter {C}.
Arguments EtcdAdapter {C}.
Arguments EurekaAdapter {C}.
Arguments Skydns2Adapter {C}.
Arguments ZkAdapter {C}.

Section factories.
Context {C : Type} `{ZkConn C} (getenv : string → string).
Context (SetupTLSConfig : string → string → string → string → error).
Context (NewClient : ConsulConfig.t → error).
Context (http_version : string → string + string).
Context (zk_Connect : string → C + string).

(** The default of the Consul package in the repository: there is no [HttpClient]
    until the client is made. *)
Definition DefaultConfig : ConsulConfig.t :=
  ConsulConfig.mk
    (if decide (getenv "CONSUL_HTTP_ADDR" ≠ "") then getenv "CONSUL_HTTP_ADDR" else "127.0.0.1:8500")
    (if (ParseBool (getenv "CONSUL_HTTP_SSL")).1 then "https" else "http")
    None.

Definition fatal_if (err : error) : outcome unit :=
  match err with Some _ => Exited 1 | None => Ok () end.

(** [config.HttpClient.Transport = transport] *)
Definition set_transport (c : ConsulConfig.t) : outcome ConsulConfig.t :=
  match ConsulConfig.HttpClient c with
  | None => Panicked
  | Some _ => Ok (ConsulConfig.mk (ConsulConfig.Address c) (ConsulConfig.Scheme c) (Some true))
  end.

Definition consul_New (uri : Url.t) : outcome (adapter C) :=
  let config := DefaultConfig in
  config ←
    (if decide (Url.Scheme uri = "consul-unix") then
       Ok (ConsulConfig.set_Address (TrimPrefix (Url.Text uri) "consul-") config)
     else if decide (Url.Scheme uri = "consul-tls") then
       _ ← fatal_if (SetupTLSConfig (Url.Host uri) (getenv "CONSUL_CACERT")
                       (getenv "CONSUL_TLSCERT") (getenv "CONSUL_TLSKEY"));
       let config := ConsulConfig.mk (ConsulConfig.Address config) "https"
                       (ConsulConfig.HttpClient config) in
       config ← set_transport config;
       Ok (ConsulConfig.set_Address (Url.Host uri) config)
     else if decide (Url.Host uri ≠ "") then Ok (ConsulConfig.set_Address (Url.Host uri) config)
     else Ok config);
  _ ← fatal_if (NewClient config);
  Ok (ConsulAdapter config).

(** [spl[1]] panics when the path has no colon. *)
Definition consulkv_New (uri : Url.t) : outcome (adapter C) :=
  let config := DefaultConfig in
  '(config, path) ←
    (if decide (Url.Scheme uri = "consulkv-unix") then
       match SplitN2 (Url.Path uri) ":" with
       | spl0 :: spl1 :: _ => Ok (ConsulConfig.set_Address ("unix://" +:+ spl0) config, spl1)
       | _ => Panicked
       end
     else if decide (Url.Host uri ≠ "")
     then Ok (ConsulConfig.set_Address (Url.Host uri) config, Url.Path uri)
     else Ok (config, Url.Path uri));
  _ ← fatal_if (NewClient config);
  Ok (ConsulKVAdapter config path).

Definition etcd_New (uri : Url.t) : outcome (adapter C) :=
  let url := if decide (Url.Host uri ≠ "") then "http://" +:+ Url.Host uri
             else "http://127.0.0.1:2379" in
  match http_version (url +:+ "/version") with
  | inr _ => Exited 1
  | inl body => Ok (EtcdAdapter (Etcd.uses_v0 body) [url] (Url.Path uri))
  end.

Definition eureka_New (uri : Url.t) : outcome (adapter C) :=
  Ok (EurekaAdapter
        (if decide (Url.Host uri ≠ "") then "http://" +:+ Url.Host uri +:+ Url.Path uri
         else "http://eureka:8761")).

Definition skydns2_New (uri : Url.t) : outcome (adapter C) :=
  let urls := if decide (Url.Host uri ≠ "") then ["http://" +:+ Url.Host uri] else [] in
  path ← Skydns2.New_path (Url.Path uri);
  Ok (Skydns2Adapter urls path).

(** The base path is created if it does not exist, whatever the answers are. *)
Definition zookeeper_New (uri : Url.t) : outcome (adapter C) :=
  match zk_Connect (Url.Host uri) with
  | inr _ => Panicked
  | inl c =>
      let '(r, c) :=
        ('(exists_, err) ← zk_Exists (Url.Path uri);
         if (exists_ : bool) then mret () else _ ← zk_Create (Url.Path uri) None false; mret ()) c in
      _ ← r; Ok (ZkAdapter c (Url.Path uri))
  end.

Definition factory_New (f : factory) : Url.t → outcome (adapter C) :=
  match f with
  | ConsulFactory => consul_New
  | ConsulKVFactory => consulkv_New
  | EtcdFactory => etcd_New
  | EurekaFactory => eureka_New
  | Skydns2Factory => skydns2_New
  | ZookeeperFactory => zookeeper_New
  end.
End factories.

(** ** The registrations made before [main] runs *)
Inductive interface := AdapterFactory.

(** What [reflect] says: the interface's name, the name of the type every factory
    has in its package, and that each has the method [New]. *)
Definition iface_Name (i : interface) : string := "AdapterFactory".
Definition factory_ElemName (f : factory) : string := "Factory".
Definition factory_Implements (f : factory) (i : interface) : bool := true.

Section init.
Context `{O : MapOrder}.
Abbreviation S := (Exts.t factory interface).
Abbreviation register := (Ext.Register factory_ElemName factory_Implements).

Definition consul_init : GoM S unit :=
  _ ← register ConsulFactory "consul";
  _ ← register ConsulFactory "consul-tls";
  _ ← register ConsulFactory "consul-unix"; mret ().
Definition consulkv_init : GoM S unit :=
  _ ← register ConsulKVFactory "consulkv";
  _ ← register ConsulKVFactory "consulkv-unix"; mret ().
Definition etcd_init : GoM S unit := _ ← register EtcdFactory "etcd"; mret ().
Definition eureka_init : GoM S unit := _ ← register EurekaFactory "eureka"; mret ().
Definition skydns2_init : GoM S unit := _ ← register Skydns2Factory "skydns2"; mret ().
Definition zookeeper_init : GoM S unit := _ ← register ZookeeperFactory "zookeeper"; mret ().

(** [AdapterFactories], initialised with the package, and the packages that
    modules.go imports. *)
Definition AdapterFactories : GoM S nat := Ext.newExtensionPoint iface_Name AdapterFactory.

Definition modules : GoM S nat :=
  ep ← AdapterFactories;
  _ ← consul_init; _ ← consulkv_init; _ ← etcd_init; _ ← eureka_init; _ ← skydns2_init;
  _ ← zookeeper_init;
  mret ep.
End init.

(** ** bridge.New

    [make] is the state of the backend an adapter starts with. *)
Section new.
Context {C R : Type} (Parse : string → Url.t + string) (make : adapter C → R).
Context (new_adapter : factory → Url.t → outcome (adapter C)).

Definition New (ep : nat) (adapterUri : string) (config : Config.t)
    : GoM (Exts.t factory interface) (Bridge.t R + string) :=
  match Parse adapterUri with
  | inr _ => mret (inr ("bad adapter uri: " +:+ adapterUri))
  | inl uri =>
      f ← Ext.Factories_Lookup factory_Implements AdapterFactory ep (Url.Scheme uri);
      match f with
      | None => mret (inr ("unrecognized adapter: " +:+ adapterUri))
      | Some f =>
          registry ← lift_outcome (new_adapter f uri);
          mret (inl (Bridge.init (make registry) config))
      end
  end.
End new.

(** ** Properties *)
(** The schemes and their factories. *)
Definition schemes : gmap string factory :=
  list_to_map [("consul", ConsulFactory); ("consul-tls", ConsulFactory);
    ("consul-unix", ConsulFactory); ("consulkv", ConsulKVFactory);
    ("consulkv-unix", ConsulKVFactory); ("etcd", EtcdFactory); ("eureka", EurekaFactory);
    ("skydns2", Skydns2Factory); ("zookeeper", ZookeeperFactory)].

Section props.
Context `{O : MapOrder}.
Implicit Types s : Exts.t factory interface.

(** The state of the table when the factories [m] are registered. *)
Definition table (m : gmap string factory) s : Prop :=
  ext_wf iface_Name factory_Implements s ∧ Exts.extpoints s = {["AdapterFactory" := 0]} ∧
  ∀ n, component s "AdapterFactory" n = m !! n.

Lemma table_new : ∃ s, AdapterFactories Exts.init = (Ok 0, s) ∧ table ∅ s.
Proof.
  exists (Exts.mk false {["AdapterFactory" := 0]} [ExtPoint.mk false AdapterFactory ∅]).
  split; [reflexivity|]. split; [|by split].
  split; [done|]. split.
  - intros name p Hp. simpl in Hp. apply lookup_singleton_Some in Hp as [<- <-]. by eexists.
  - intros [|p] e He; [|done]. simpl in He. simplify_eq. split; [done|].
    intros n c Hc. simpl in Hc. by rewrite lookup_empty in Hc.
Qed.

Lemma table_register f name m s : table m s → name ≠ "" → m !! name = None →
  ∃ ifaces s', Ext.Register factory_ElemName factory_Implements f name s = (Ok ifaces, s') ∧
    table (<[name := f]> m) s'.
Proof.
  intros (Hwf & Hx & Hm) Hname Hfree.
  destruct (Register_run iface_Name factory_Implements factory_ElemName f name s Hwf)
    as (ifaces & s' & Hrun & Hwf' & Hx' & Hin & Hcomp).
  unfold effective_name in *. rewrite decide_False in Hin, Hcomp by done.
  exists ifaces, s'. split; [done|]. split; [done|]. split; [by rewrite Hx'|].
  assert ("AdapterFactory" ∈ ifaces) as Hi.
  { apply Hin. destruct Hwf as (_ & Hn & _). destruct (Hn "AdapterFactory" 0) as (e & He & _).
    { by rewrite Hx, lookup_singleton_eq. }
    exists e. unfold point. rewrite Hx, lookup_singleton_eq. simpl. split; [done|].
    split; [done|]. by rewrite Hm. }
  intros n. rewrite Hcomp, lookup_insert, Hm. apply decide_ext. naive_solver.
Qed.

Lemma table_lookup m s name : table m s →
  Ext.Factories_Lookup factory_Implements AdapterFactory 0 name s = (Ok (m !! name), s).
Proof.
  intros (Hwf & Hx & Hm). pose proof Hwf as (_ & Hn & Hu).
  destruct (Hn "AdapterFactory" 0) as (e & He & _); [by rewrite Hx, lookup_singleton_eq|].
  destruct (Hu 0 e He) as [Hl _].
  assert (Ext.lookup 0 name s = (Ok (m !! name), s)) as Hrun.
  { unfold Ext.lookup. rewrite (with_ep_run 0 e) by done. simpl. f_equal.
    - rewrite <- Hm. unfold component, point. rewrite Hx, lookup_singleton_eq. simpl. by rewrite He.
    - unfold set_components. destruct e as [l i cs], s as [sl sx h]. simpl in *. subst l.
      rewrite list_insert_id by done. done. }
  unfold Ext.Factories_Lookup. rewrite (GoM_bind_Ok _ _ _ _ _ Hrun).
  by destruct (m !! name).
Qed.

Lemma modules_run : ∃ s, modules Exts.init = (Ok 0, s) ∧ table schemes s.
Proof.
  destruct table_new as (s0 & H0 & T).
  unfold modules, consul_init, consulkv_init, etcd_init, eureka_init, skydns2_init, zookeeper_init.
  rewrite (GoM_bind_Ok _ _ _ _ _ H0). clear H0.
  repeat match goal with
  | T : table ?m ?s |- context [Ext.Register _ _ ?f ?n] =>
      let Hrun := fresh in let T' := fresh in
      destruct (table_register f n m s T) as (? & ? & Hrun & T');
        [discriminate|vm_compute; reflexivity|];
      rewrite ?GoM_bind_assoc, (GoM_bind_Ok _ _ _ _ _ Hrun); clear T Hrun
  | |- context [mret _ ≫= _] => rewrite (GoM_bind_Ok (mret _) _ _ _ _ eq_refl)
  end.
  eexists. split; [reflexivity|].
  match goal with T : table ?m _ |- _ => by replace schemes with m by (vm_compute; reflexivity) end.
Qed.

Context {C R : Type} (Parse : string → Url.t + string) (make : adapter C → R).
Context (new_adapter : factory → Url.t → outcome (adapter C)).

Lemma New_table s uri config : table schemes s →
  New Parse make new_adapter 0 uri config s =
    (match Parse uri with
     | inr _ => Ok (inr ("bad adapter uri: " +:+ uri))
     | inl u =>
         match schemes !! Url.Scheme u with
         | None => Ok (inr ("unrecognized adapter: " +:+ uri))
         | Some f => registry ← new_adapter f u; Ok (inl (Bridge.init (make registry) config))
         end
     end, s).
Proof.
  intros T. unfold New. destruct (Parse uri) as [u|e]; [|done].
  rewrite (GoM_bind_Ok _ _ _ _ _ (table_lookup schemes s (Url.Scheme u) T)).
  destruct (schemes !! Url.Scheme u) as [f|]; [|done].
  unfold lift_outcome. go_unfold. by destruct (new_adapter f u).
Qed.

End props.

(** ** The factories *)
Section factory_props.
Context {C : Type} `{ZkConn C} (getenv : string → string).
Context (SetupTLSConfig : string → string → string → string → error).
Context (NewClient : ConsulConfig.t → error).
Context (http_version : string → string + string) (zk_Connect : string → C + string).

(** No URI of scheme consul-tls gives a bridge: the process ends when the TLS
    files cannot be read, and otherwise panics on the HTTP client that the default
    configuration does not have. *)
Theorem consul_tls_fails uri : Url.Scheme uri = "consul-tls" →
  consul_New (C := C) getenv SetupTLSConfig NewClient uri =
    match SetupTLSConfig (Url.Host uri) (getenv "CONSUL_CACERT") (getenv "CONSUL_TLSCERT")
            (getenv "CONSUL_TLSKEY") with
    | Some _ => Exited 1
    | None => Panicked
    end.
Proof.
  intros Hs. unfold consul_New. rewrite Hs, decide_False, decide_True by done.
  by destruct (SetupTLSConfig _ _ _ _).
Qed.

(** The socket and the path of a URI of scheme consulkv-unix: separated by the
    first colon of the URI's path, without which the program panics. *)
Lemma consulkv_unix_spec uri : Url.Scheme uri = "consulkv-unix" →
  if has_byte ":" (Url.Path uri) then
    ∃ sock path, Url.Path uri = sock +:+ String ":" path ∧ has_byte ":" sock = false ∧
      let config := ConsulConfig.set_Address ("unix://" +:+ sock) (DefaultConfig getenv) in
      consulkv_New (C := C) getenv NewClient uri =
        match NewClient config with Some _ => Exited 1 | None => Ok (ConsulKVAdapter config path) end
  else consulkv_New (C := C) getenv NewClient uri = Panicked.
Proof.
  intros Hs. unfold consulkv_New, SplitN2. rewrite Hs, decide_True by done.
  destruct (cut_spec (Url.Path uri) ":") as [[-> ->]|(sock & path & Hp & Hc & ->)]; [done|].
  assert (has_byte ":" (Url.Path uri) = true) as -> by (apply has_byte_true; eauto).
  exists sock, path. split; [done|]. split; [done|]. simpl. by destruct (NewClient _).
Qed.

(** *** What each scheme gives *)
Definition nine : list string :=
  ["consul"; "consul-tls"; "consul-unix"; "consulkv"; "consulkv-unix"; "etcd"; "eureka"; "skydns2";
   "zookeeper"].

(** Consul's client for an address; for a host, the environment and then port 8500 of
    this machine stand in if it is empty. *)
Definition client_at (address : string) : ConsulConfig.t :=
  ConsulConfig.mk address (if (ParseBool (getenv "CONSUL_HTTP_SSL")).1 then "https" else "http") None.
Definition agent_address (host : string) : string :=
  if decide (host ≠ "") then host
  else if decide (getenv "CONSUL_HTTP_ADDR" ≠ "") then getenv "CONSUL_HTTP_ADDR"
  else "127.0.0.1:8500".

(** The adapter that a URI asks for, if it can be had. *)
Inductive dialled (u : Url.t) : adapter C → Prop :=
| dialled_consul : Url.Scheme u = "consul" →
    NewClient (client_at (agent_address (Url.Host u))) = None →
    dialled u (ConsulAdapter (client_at (agent_address (Url.Host u))))
| dialled_consul_unix address : Url.Scheme u = "consul-unix" →
    Url.Text u = "consul-" +:+ address ∨
      HasPrefix (Url.Text u) "consul-" = false ∧ address = Url.Text u →
    NewClient (client_at address) = None →
    dialled u (ConsulAdapter (client_at address))
| dialled_consulkv : Url.Scheme u = "consulkv" →
    NewClient (client_at (agent_address (Url.Host u))) = None →
    dialled u (ConsulKVAdapter (client_at (agent_address (Url.Host u))) (Url.Path u))
| dialled_consulkv_unix sock path : Url.Scheme u = "consulkv-unix" →
    Url.Path u = sock +:+ String ":" path → has_byte ":" sock = false →
    NewClient (client_at ("unix://" +:+ sock)) = None →
    dialled u (ConsulKVAdapter (client_at ("unix://" +:+ sock)) path)
| dialled_etcd url body : Url.Scheme u = "etcd" →
    url = (if decide (Url.Host u = "") then "http://127.0.0.1:2379" else "http://" +:+ Url.Host u) →
    http_version (url +:+ "/version") = inl body →
    dialled u (EtcdAdapter (Contains body "0.4") [url] (Url.Path u))
| dialled_eureka : Url.Scheme u = "eureka" →
    dialled u (EurekaAdapter (if decide (Url.Host u = "") then "http://eureka:8761"
                              else "http://" +:+ Url.Host u +:+ Url.Path u))
| dialled_skydns2 slash domain : Url.Scheme u = "skydns2" →
    Url.Path u = String slash domain → domain ≠ "" →
    dialled u (Skydns2Adapter (if decide (Url.Host u = "") then [] else ["http://" +:+ Url.Host u])
                 ("/skydns/" +:+ Join (reverse (Split domain ".")) "/"))
| dialled_zookeeper c c1 c2 ex err : Url.Scheme u = "zookeeper" →
    zk_Connect (Url.Host u) = inl c → zk_Exists (Url.Path u) c = (Ok (ex, err), c1) →
    (if ex then c2 = c1 else ∃ e, zk_Create (Url.Path u) None false c1 = (Ok e, c2)) →
    dialled u (ZkAdapter c2 (Url.Path u)).

Local Abbreviation new_adapter :=
  (factory_New getenv SetupTLSConfig NewClient http_version zk_Connect).

Lemma schemes_nine k f : schemes !! k = Some f →
  (k, f) ∈ zip nine [ConsulFactory; ConsulFactory; ConsulFactory; ConsulKVFactory; ConsulKVFactory;
                     EtcdFactory; EurekaFactory; Skydns2Factory; ZookeeperFactory].
Proof. apply elem_of_list_to_map_2. Qed.

Lemma schemes_None k : schemes !! k = None ↔ k ∉ nine.
Proof.
  unfold schemes. rewrite <- not_elem_of_list_to_map.
  by replace (fst <$> _) with nine by (vm_compute; reflexivity).
Qed.

Lemma if_nonempty {A} (t : string) (x y : A) :
  (if decide (t ≠ "") then x else y) = (if decide (t = "") then y else x).
Proof. by repeat case_decide. Qed.

Lemma consul_config_spec host :
  (if decide (host ≠ "") then ConsulConfig.set_Address host (DefaultConfig getenv)
   else DefaultConfig getenv) =
  client_at (agent_address host).
Proof. unfold client_at, agent_address, DefaultConfig. by case_decide. Qed.

(** The client that was made, or that the process ended for. *)
Lemma NewClient_Ok {A} config (x a : A) :
  (_ ← fatal_if (NewClient config); Ok x) = Ok a ↔ NewClient config = None ∧ x = a.
Proof. destruct (NewClient config); simpl; [|naive_solver]. split; [done|by intros []]. Qed.

Lemma consul_dialled u a :
  Url.Scheme u = "consul" ∨ Url.Scheme u = "consul-tls" ∨ Url.Scheme u = "consul-unix" →
  consul_New getenv SetupTLSConfig NewClient u = Ok a → dialled u a.
Proof.
  intros [Hs|[Hs|Hs]].
  - unfold consul_New. rewrite Hs, !decide_False by done.
    pose proof (consul_config_spec (Url.Host u)) as Hc. revert Hc.
    case_decide; simpl; intros -> [Hn <-]%NewClient_Ok; by constructor.
  - rewrite consul_tls_fails by done. by destruct (SetupTLSConfig _ _ _ _).
  - unfold consul_New. rewrite Hs, decide_True by done. simpl. intros [Hn <-]%NewClient_Ok.
    apply dialled_consul_unix; [done| |done]. unfold TrimPrefix.
    destruct (HasPrefix _ _) eqn:Hp; [left; by apply prefix_true|by right].
Qed.

Lemma consulkv_dialled u a : Url.Scheme u = "consulkv" ∨ Url.Scheme u = "consulkv-unix" →
  consulkv_New getenv NewClient u = Ok a → dialled u a.
Proof.
  intros [Hs|Hs]; unfold consulkv_New; rewrite Hs.
  - rewrite decide_False by done. pose proof (consul_config_spec (Url.Host u)) as Hc. revert Hc.
    case_decide; simpl; intros -> [Hn <-]%NewClient_Ok; by constructor.
  - rewrite decide_True by done. unfold SplitN2.
    destruct (cut_spec (Url.Path u) ":") as [[_ ->]|(sock & path & Hp & Hc & ->)]; [done|]. simpl.
    intros [Hn <-]%NewClient_Ok. by apply dialled_consulkv_unix.
Qed.

Lemma skydns2_dialled u a : Url.Scheme u = "skydns2" → skydns2_New u = Ok a → dialled u a.
Proof.
  intros Hs. unfold skydns2_New, Skydns2.New_path, slice_from, domainPath.
  destruct (decide (String.length (Url.Path u) < 2)) as [Hl|Hl]; [done|].
  rewrite (decide_True (P := 1 ≤ String.length (Url.Path u))) by lia. simpl.
  rewrite swap_loop_reverse. intros [= <-].
  destruct (Url.Path u) as [|c d] eqn:Hp; [simpl in Hl; lia|]. simpl.
  rewrite if_nonempty.
  apply (dialled_skydns2 _ c); [done..|]. intros ->. simpl in Hl. lia.
Qed.

Lemma zookeeper_dialled u a : Url.Scheme u = "zookeeper" → zookeeper_New zk_Connect u = Ok a → dialled u a.
Proof.
  intros Hs. unfold zookeeper_New. destruct (zk_Connect _) as [c|] eqn:Hc; [|done].
  unfold mbind at 1, GoM_bind at 1. destruct (zk_Exists _ _) as [[[ex err]| | |] c1] eqn:He; try done.
  destruct ex; simpl.
  - intros [= <-]. by eapply dialled_zookeeper.
  - unfold mbind at 1, GoM_bind at 1. destruct (zk_Create _ _ _ _) as [[e| | |] c2] eqn:Hr; try done.
    intros [= <-]. eapply dialled_zookeeper; [done..|]. by eexists.
Qed.

Lemma dialled_New u a : dialled u a ↔ ∃ f, schemes !! Url.Scheme u = Some f ∧ new_adapter f u = Ok a.
Proof.
  split.
  - intros [Hs Hn|addr Hs Ha Hn|Hs Hn|sock path Hs Hp Hc Hn|url body Hs -> Hb|Hs|c d Hs Hp Hd|
            c c1 c2 ex err Hs Hc He Hr];
      rewrite Hs; (eexists; split; [reflexivity|]); cbn [snd factory_New].
    + unfold consul_New. rewrite Hs, !decide_False by done. pose proof (consul_config_spec (Url.Host u)) as Hc.
      revert Hc. case_decide; simpl; intros ->; by apply NewClient_Ok.
    + unfold consul_New. rewrite Hs, decide_True by done. simpl. apply NewClient_Ok.
      replace (TrimPrefix _ _) with addr; [done|]. unfold TrimPrefix.
      destruct Ha as [->|[-> ->]]; [|done]. unfold HasPrefix. by rewrite prefix_app.
    + unfold consulkv_New. rewrite Hs, decide_False by done. pose proof (consul_config_spec (Url.Host u)) as Hc.
      revert Hc. case_decide; simpl; intros ->; by apply NewClient_Ok.
    + unfold consulkv_New, SplitN2. rewrite Hs, decide_True, Hp, cut_app by done. simpl. by apply NewClient_Ok.
    + unfold etcd_New. rewrite if_nonempty. case_decide; by rewrite Hb.
    + unfold eureka_New. rewrite if_nonempty. by case_decide.
    + unfold skydns2_New, Skydns2.New_path, slice_from, domainPath. rewrite Hp. destruct d; [done|].
      rewrite (decide_False (P := _ < 2)), (decide_True (P := 1 ≤ _)) by (simpl; lia). simpl. rewrite swap_loop_reverse.
      rewrite if_nonempty. by case_decide.
    + unfold zookeeper_New. rewrite Hc, (GoM_bind_Ok _ _ _ _ _ He). destruct ex; [by subst|].
      destruct Hr as [e Hr]. by rewrite (GoM_bind_Ok _ _ _ _ _ Hr).
  - intros (f & Hf%schemes_nine & Hn).
    repeat (apply elem_of_cons in Hf as [[= Hs ->]|Hf]; [cbn [factory_New] in Hn|]);
      [..|by apply elem_of_nil in Hf].
    1-3: by apply consul_dialled; [auto|]. 1-2: by apply consulkv_dialled; [auto|].
    + unfold etcd_New in Hn. rewrite if_nonempty in Hn.
      destruct (http_version _) as [body|] eqn:Hb; [|done]. injection Hn as <-. by apply dialled_etcd.
    + unfold eureka_New in Hn. injection Hn as <-. rewrite if_nonempty. by apply dialled_eureka.
    + by apply skydns2_dialled.
    + by apply zookeeper_dialled.
Qed.

(** C29: once the packages are loaded, a bridge is made exactly for a URI that parses,
    whose scheme has a factory, and whose backend's client can be made: for consul and
    consulkv if Consul's client accepts the host, or failing that the environment's or
    the default address, and for consul-unix and consulkv-unix the socket, which the
    latter takes from before the first colon of the path; for etcd if it answers the
    version request, which also chooses the client; for skydns2 if the path names a
    domain, whose labels make the key from the last to the first; for zookeeper if the
    connection stands and the calls that look for and create the base path return,
    whatever they report; and for eureka always. There is no bridge for consul-tls,
    though it has a factory: the process exits or panics. An error is returned exactly
    for a URI that does not parse or whose scheme is none of the nine. The table of
    factories stays as it is, whatever the order in which Go visits maps. *)
Theorem New_spec `{O : MapOrder} {R : Type} (Parse : string → Url.t + string) (make : adapter C → R) :
  ∃ s, modules Exts.init = (Ok 0, s) ∧
  ∀ uri config, ∃ o, New Parse make new_adapter 0 uri config s = (o, s) ∧
    (∀ b, o = Ok (inl b) ↔
       ∃ u a, Parse uri = inl u ∧ dialled u a ∧ b = Bridge.init (make a) config) ∧
    (∀ e, o = Ok (inr e) ↔
       (∃ x, Parse uri = inr x) ∧ e = "bad adapter uri: " +:+ uri ∨
       (∃ u, Parse uri = inl u ∧ Url.Scheme u ∉ nine) ∧ e = "unrecognized adapter: " +:+ uri) ∧
    (∀ u, Parse uri = inl u → Url.Scheme u = "consul-tls" → o = Exited 1 ∨ o = Panicked).
Proof.
  destruct modules_run as (s & Hrun & T). exists s. split; [done|]. intros uri config.
  rewrite (New_table Parse make new_adapter s uri config T). eexists. split; [done|].
  destruct (Parse uri) as [u|x]; [|naive_solver].
  setoid_rewrite dialled_New. setoid_rewrite <- schemes_None.
  destruct (schemes !! Url.Scheme u) as [f|] eqn:Hf; split_and!.
  - intros b. split.
    + destruct (new_adapter f u) as [a| | |] eqn:Hn; try done. intros [= <-]. exists u, a. eauto.
    + intros (u' & a & [= <-] & (f' & Hf' & Hn) & ->). rewrite Hf in Hf'. injection Hf' as <-. by rewrite Hn.
  - intros e. split; [by destruct (new_adapter f u)|]. intros [[[x [=]] _]|[(u' & [= <-] & Hf') _]]. congruence.
  - intros ? [= <-] Hs. assert (f = ConsulFactory) as -> by (rewrite Hs in Hf; by injection Hf).
    cbn [factory_New]. rewrite consul_tls_fails by done. destruct (SetupTLSConfig _ _ _ _); [by left|by right].
  - intros b. split; [done|]. intros (u' & a & [= <-] & (f' & Hf' & _) & _). congruence.
  - intros e. split; [intros [= <-]; right; eauto|]. by intros [[[x [=]] _]|[_ ->]].
  - intros ? [= <-] Hs. by rewrite Hs in Hf.
Qed.
End factory_props.

(** * Concrete runs *)
Module FactoryRuns.
#[global] Instance no_zk : ZkConn unit := {|
  zk_Exists _ c := (Ok (true, None), c);
  zk_Create _ _ _ c := (Ok None, c);
  zk_Delete _ c := (Ok None, c);
  zk_Children _ c := (Ok ([], None), c)
|}.
Definition tls : Url.t := Url.mk "consul-tls" "10.0.0.1:8501" "" "consul-tls://10.0.0.1:8501".
End FactoryRuns.

Lemma consul_tls_fails_witness :
  consul_New (C := unit) (λ _, "") (λ _ _ _ _, None) (λ _, None) FactoryRuns.tls = Panicked.
Proof.
  rewrite (consul_tls_fails (C := unit) (λ _, "") (λ _ _ _ _, None) (λ _, None) FactoryRuns.tls
             eq_refl). reflexivity.
Defined.

Lemma Ext_Register_spec_witness :
  let s := (AdapterFactories Exts.init).2 in
  ∃ ifaces s', Ext.Register (O := ascending) factory_ElemName factory_Implements EtcdFactory "etcd" s =
      (Ok ifaces, s') ∧ component s' "AdapterFactory" "etcd" = Some EtcdFactory.
Proof.
  destruct table_new as (s & Hrun & Hwf & Hx & _). rewrite Hrun. simpl.
  destruct (Ext_Register_spec (O := ascending) iface_Name factory_Implements factory_ElemName
              EtcdFactory "etcd" s Hwf) as (ifaces & s' & Hrun' & _ & Hin & Hcomp).
  exists ifaces, s'. split; [exact Hrun'|]. injection Hrun as <-.
  rewrite Hcomp, decide_True; [reflexivity|]. split; [|reflexivity].
  apply Hin. eexists. split; [reflexivity|]. split; reflexivity.
Defined.

Lemma Ext_Unregister_spec_witness :
  let s := (modules (O := ascending) Exts.init).2 in
  ∃ ifaces s', Ext.Unregister (O := ascending) "etcd" s = (Ok ifaces, s') ∧
    component s' "AdapterFactory" "etcd" = None ∧
    component s' "AdapterFactory" "consul" = Some ConsulFactory.
Proof.
  destruct (modules_run (O := ascending)) as (s & Hrun & Hwf & _ & Hm). rewrite Hrun. simpl.
  destruct (Ext_Unregister_spec (O := ascending) iface_Name factory_Implements "etcd" s Hwf)
    as (ifaces & s' & Hrun' & _ & _ & Hcomp).
  exists ifaces, s'. split; [exact Hrun'|]. rewrite !Hcomp. simpl. split; [reflexivity|].
  rewrite Hm. reflexivity.
Defined.
