(* ===== verification/Program.v ===== *)
(** * The program: src/registrator.go, src/logging/logging.go

    [main] from the command line to the running system, its timers and its event
    loop, on top of the factories (Factories.v) and the goroutines
    (Concurrency.v). *)
From stdpp Require Import relations.
From S2P Require Import Prelude GoStrings Types Metadata NewService Fixtures Bridge BridgeInv.
From S2P Require Import System Threads Concurrency Main Zookeeper ExtPoints Factories.

(** ** Environment *)
Section env.
Context (getenv : string → string).

Definition getopt (name def : string) : string :=
  if decide (getenv name ≠ "") then getenv name else def.

(** ** logging.go *)
Inductive level := CRITICAL | ERROR | WARNING | NOTICE | INFO | DEBUG.

Definition getEnvLogLevel (logLevelEnvVarName : string) (defaultLevel : level) : level :=
  let levelOverride := ToUpper (getenv logLevelEnvVarName) in
  if decide (levelOverride = "DEBUG") then DEBUG
  else if decide (levelOverride = "INFO") then INFO
  else if decide (levelOverride = "NOTICE") then NOTICE
  else if decide (levelOverride = "WARNING") then WARNING
  else if decide (levelOverride = "ERROR") then ERROR
  else if decide (levelOverride = "CRITICAL") then CRITICAL
  else defaultLevel.

(** The levels of the modules; [""] is every other module. *)
Definition Configure : gmap string level :=
  <["fargo" := getEnvLogLevel "FARGO_LOG_LEVEL" NOTICE]>
    (<["" := getEnvLogLevel "REGISTRATOR_LOG_LEVEL" INFO]> ∅).
End env.

(** ** Timers *)
Inductive timer := IpTimer | PruneTimer | RefreshTimer | ResyncTimer.


Definition NewTicker (t : timer) (d : Z) : outcome (timer * Z) :=
  if decide (d ≤ 0)%Z then Panicked else Ok (t, d).

Definition start_if (c : bool) (t : timer) (d : Z) : outcome (list (timer * Z)) :=
  if c then ticker ← NewTicker t d; Ok [ticker] else Ok [].

(** The timers [main] starts, with their periods. *)
Definition timers (flags : Flags.t) : outcome (list (timer * Z)) :=
  let interval := Flags.refreshInterval flags in
  let resync := Flags.resyncInterval flags in
  ip ← start_if (bool_decide (Flags.ipLookupSource flags ≠ "")) IpTimer (seconds 10);
  prune ← start_if (bool_decide (0 < interval)%Z) PruneTimer (seconds interval);
  refresh ← start_if (bool_decide (0 < interval)%Z) RefreshTimer (seconds interval);
  resync ← start_if (bool_decide (0 < resync)%Z) ResyncTimer (seconds resync);
  Ok (ip ++ prune ++ refresh ++ resync).

(** ** The address lookup

    The variables of bridge/util.go that [main] sets. *)
Module IpLookup.
Record t := mk { ipLookupAddress : string; ipLookupRetries : Z }.
Definition init : t := mk "" 0.
End IpLookup.

Definition SetExternalIPSource (lookupAddress : string) (v : IpLookup.t) : IpLookup.t :=
  IpLookup.mk lookupAddress (IpLookup.ipLookupRetries v).
Definition SetIPLookupRetries (number : Z) (v : IpLookup.t) : IpLookup.t :=
  IpLookup.mk (IpLookup.ipLookupAddress v) number.

Definition set_lookup (flags : Flags.t) : IpLookup.t :=
  let v := SetIPLookupRetries (Flags.ipLookupRetries flags) IpLookup.init in
  if decide (Flags.ipLookupSource flags ≠ "") then SetExternalIPSource (Flags.ipLookupSource flags) v
  else v.

(** [GetIPFromExternalSource] when the addresses answer with [web]; by
    [lookup_returns] it does return, unless the retries are the largest integer. *)
Definition external_ip (v : IpLookup.t) (web : string → nat → lookup_answer) : string * bool :=
  match GetIPFromExternalSource (IpLookup.ipLookupRetries v) (web (IpLookup.ipLookupAddress v)) with
  | Some (ip, success, _) => (ip, success)
  | None => ("", false)
  end.

(** What the goroutine of a timer is doing: waiting for a tick, running a call of
    the bridge, or handing a message over to [channelRun]. *)
Inductive task (R : Type) :=
| Waiting
| Working (p : prog R unit)
| Sending (msg : SyncMessage.t).
Arguments Waiting {R}.
Arguments Working {R}.
Arguments Sending {R}.

(** What [main] is doing: handing over the first message, or serving events, with
    the timers started. *)
Inductive phase (R : Type) :=
| Pushing (msg : SyncMessage.t)
| Serving (tickers : list (timer * task R)).
Arguments Pushing {R}.
Arguments Serving {R}.

Module Program.
Record t (R : Type) := mk {
  (** The goroutines that are neither [main] nor those of the timers. *)
  sys : Sys.t R;
  main : phase R;
  discoveredIP : string;
  ipLookup : IpLookup.t;
  flags : Flags.t
}.
Arguments mk {R}.
Arguments sys {R}.
Arguments main {R}.
Arguments discoveredIP {R}.
Arguments ipLookup {R}.
Arguments flags {R}.
End Program.

Section program.
Context {R C : Type} `{RA : RegistryAdapter R} `{O : MapOrder} (host : Host.t).
Context (Parse : string → Url.t + string) (make : adapter C → R).
Context (new_adapter : factory → Url.t → outcome (adapter C)).
Implicit Types p : Program.t R.

(** The bridge for the registry URI, once the packages are loaded. *)
Definition new_bridge (flags : Flags.t) (config : Config.t) : outcome (Bridge.t R + string) :=
  let '(ep, exts) := modules Exts.init in
  ep ← ep;
  (New Parse make new_adapter ep (default "" (head (Flags.args flags))) config exts).1.

(** The deferred function of [main]: a panic of its goroutine ends the process. *)
Definition recovered {A} (o : outcome A) : outcome A :=
  match o with Panicked => Exited 1 | o => o end.

(** The bridge before the [n]-th ping; [idle] is what becomes of the registry while
    [main] sleeps between two pings. *)
Fixpoint bridge_at (idle : nat → R → R) (b : Bridge.t R) (n : nat) : Bridge.t R :=
  match n with
  | 0 => b
  | S n => let b' := (bridge_Ping (bridge_at idle b n)).2 in
           Bridge.set_registry (idle n (Bridge.registry b')) [] b'
  end.

Definition pings (idle : nat → R → R) (b : Bridge.t R) (n : nat) : outcome error :=
  (bridge_Ping (bridge_at idle b n)).1.

(** The bridge when the loop has made [n] pings. *)
Definition bridge_after (idle : nat → R → R) (b : Bridge.t R) (n : nat) : Bridge.t R :=
  match n with 0 => b | S n => (bridge_Ping (bridge_at idle b n)).2 end.

(** [main] up to the first sync message; [None]: still connecting after [fuel] pings. *)
Definition main_start (osArgs : list string) (flags : Flags.t) (web : string → nat → lookup_answer)
    (dockerErr : error) (idle : nat → R → R) (listenErr : error) (fuel : nat)
    : option (outcome (Program.t R)) :=
  if decide (length osArgs = 2 ∧ osArgs !! 1 = Some "--version") then Some (Exited 0) else
  match
    '(discoveredIP, config) ← configure flags (external_ip (set_lookup flags) web) dockerErr;
    b ← new_bridge flags config;
    match b with
    | inr _ => Exited 1
    | inl b => Ok (discoveredIP, config, b)
    end
  with
  | Ok (discoveredIP, config, b) =>
      connected ← connect fuel (Flags.retryAttempts flags) 0 (pings idle b) 0;
      Some (recovered (
        n ← connected;
        _ ← assert listenErr;
        Ok (Program.mk (Initialize (bridge_after idle b n))
              (Pushing (SyncMessage.mk false (Config.HostIp config)))
              discoveredIP (set_lookup flags) flags)))
  | Panicked => Some (recovered Panicked)
  | Blocked => Some Blocked
  | Exited c => Some (Exited c)
  end.

(** *** The event loop and the timers *)
Definition with_sys (s : Sys.t R) p : Program.t R :=
  Program.mk s (Program.main p) (Program.discoveredIP p) (Program.ipLookup p) (Program.flags p).
Definition with_main (m : phase R) p : Program.t R :=
  Program.mk (Program.sys p) m (Program.discoveredIP p) (Program.ipLookup p) (Program.flags p).
Definition with_ip (ip : string) p : Program.t R :=
  Program.mk (Program.sys p) (Program.main p) ip (Program.ipLookup p) (Program.flags p).

Definition on_event (docker : DockerClient.t) (e : event) p : Program.t R :=
  match event_operation docker (Program.discoveredIP p) e with
  | Some op => with_sys (start_operation host op (Program.sys p)) p
  | None => p
  end.

(** A tick: the new [discoveredIP], and what the timer's goroutine does next. *)
Definition on_tick (web : string → nat → lookup_answer) (t : timer) p : outcome (string * task R) :=
  match t with
  | PruneTimer => Ok (Program.discoveredIP p, Working (operation_t host OpPrune))
  | RefreshTimer => Ok (Program.discoveredIP p, Working (operation_t host OpRefresh))
  | IpTimer | ResyncTimer =>
      '(ip, msg) ← resyncProcess (Bridge.config (Sys.bridge (Program.sys p)))
                     (Flags.ipLookupSource (Program.flags p))
                     (external_ip (Program.ipLookup p) web) (Program.discoveredIP p);
      Ok (ip, match msg with Some m => Sending m | None => Waiting end)
  end.

(** [channelRun] receives [msg]. *)
Definition received (docker : DockerClient.t) (msg : SyncMessage.t) (s : Sys.t R) : Sys.t R :=
  Sys.mk (Sys.bridge s) (Sys.threads s) (Sys.wg s) (Sys.senders s)
    (ChHandle (handle_sync_t host docker msg)).

Definition with_bridge (b : Bridge.t R) (s : Sys.t R) : Sys.t R :=
  Sys.mk b (Sys.threads s) (Sys.wg s) (Sys.senders s) (Sys.chan s).

(** A step of the program. *)
Inductive pstep (env : Env.t) : relation (Program.t R) :=
(** The first message is received; [main] starts the timers and serves events. *)
| pstep_serve docker msg ts p :
    Env.docker env docker → Program.main p = Pushing msg → Sys.chan (Program.sys p) = ChReceive →
    timers (Program.flags p) = Ok ts →
    pstep env p (with_main (Serving ((λ t, (t.1, Waiting)) <$> ts))
                   (with_sys (received docker msg (Program.sys p)) p))
| pstep_event docker status id ts p :
    Env.docker env docker → Env.event env id → Program.main p = Serving ts →
    pstep env p (on_event docker (Event status id) p)
(** The goroutine of a timer. *)
| pstep_tick web ts1 t ts2 ip todo p :
    Program.main p = Serving (ts1 ++ (t, Waiting) :: ts2) → on_tick web t p = Ok (ip, todo) →
    pstep env p (with_main (Serving (ts1 ++ (t, todo) :: ts2)) (with_ip ip p))
| pstep_work ts1 t q q' b' ts2 p :
    Program.main p = Serving (ts1 ++ (t, Working q) :: ts2) →
    advance q (Sys.bridge (Program.sys p)) = Some (q', b') →
    pstep env p (with_main (Serving (ts1 ++ (t, Working q') :: ts2))
                   (with_sys (with_bridge b' (Program.sys p)) p))
| pstep_worked ts1 t ts2 p :
    Program.main p = Serving (ts1 ++ (t, Working (Ret ())) :: ts2) →
    pstep env p (with_main (Serving (ts1 ++ (t, Waiting) :: ts2)) p)
| pstep_sent docker ts1 t msg ts2 p :
    Env.docker env docker → Program.main p = Serving (ts1 ++ (t, Sending msg) :: ts2) →
    Sys.chan (Program.sys p) = ChReceive →
    pstep env p (with_main (Serving (ts1 ++ (t, Waiting) :: ts2))
                   (with_sys (received docker msg (Program.sys p)) p))
| pstep_goroutine s' p : gstep host env (Program.sys p) s' → pstep env p (with_sys s' p).

(** A section that ends the process: [os.Exit], or a panic, whose code is 2. *)
Definition section_ends {A} (q : prog R A) (b : Bridge.t R) : option Z :=
  match q with
  | Ret _ => None
  | Atom m _ => match (m b).1 with Exited c => Some c | Panicked => Some 2%Z | _ => None end
  end.

(** The process ends with a code. *)
Inductive ends p : Z → Prop :=
(** The events are over, and [main] returns. *)
| ends_closed ts : Program.main p = Serving ts → ends p 0
(** [main] panics on a timer. *)
| ends_timers msg c : Program.main p = Pushing msg → Sys.chan (Program.sys p) = ChReceive →
    recovered (timers (Program.flags p)) = Exited c → ends p c
| ends_lookup web ts t c : Program.main p = Serving ts → (t, Waiting) ∈ ts →
    on_tick web t p = Exited c → ends p c
| ends_timer ts t q c : Program.main p = Serving ts → (t, Working q) ∈ ts →
    section_ends q (Sys.bridge (Program.sys p)) = Some c → ends p c
| ends_thread q c : q ∈ Sys.threads (Program.sys p) →
    section_ends q (Sys.bridge (Program.sys p)) = Some c → ends p c
| ends_handler q c : Sys.chan (Program.sys p) = ChHandle q →
    section_ends q (Sys.bridge (Program.sys p)) = Some c → ends p c.
End program.

(** ** Logging levels *)
Definition level_name (l : level) : string :=
  match l with
  | CRITICAL => "CRITICAL" | ERROR => "ERROR" | WARNING => "WARNING" | NOTICE => "NOTICE"
  | INFO => "INFO" | DEBUG => "DEBUG"
  end.

(** The level is the one whose name the variable holds, in any case of letters,
    and otherwise the default. *)
Lemma getEnvLogLevel_spec getenv name def l :
  getEnvLogLevel getenv name def = l ↔
  ToUpper (getenv name) = level_name l ∨
  (l = def ∧ ∀ l', ToUpper (getenv name) ≠ level_name l').
Proof.
  unfold getEnvLogLevel. set (v := ToUpper (getenv name)). clearbody v.
  assert (∀ l1 l2, level_name l1 = level_name l2 → l1 = l2) as Hinj by (by intros [] []).
  split.
  - repeat case_decide; intros <-; subst; try (by left).
    right. split; [done|]. by intros [].
  - intros [->|[-> Hn]]; [by destruct l|].
    rewrite (decide_False (P := v = "DEBUG")) by exact (Hn DEBUG).
    rewrite (decide_False (P := v = "INFO")) by exact (Hn INFO).
    rewrite (decide_False (P := v = "NOTICE")) by exact (Hn NOTICE).
    rewrite (decide_False (P := v = "WARNING")) by exact (Hn WARNING).
    rewrite (decide_False (P := v = "ERROR")) by exact (Hn ERROR).
    by rewrite (decide_False (P := v = "CRITICAL")) by exact (Hn CRITICAL).
Qed.

(** ** Periods *)
(** The largest number of seconds a duration holds. *)
Definition max_seconds : Z := 9223372036.

Lemma seconds_exact n : (0 ≤ n ≤ max_seconds)%Z → seconds n = (n * 1000000000)%Z.
Proof.
  unfold max_seconds. intros Hn. apply wrap64_id. unfold in_int64, int64_min, int64_max. lia.
Qed.

Lemma seconds_negative n : (max_seconds < n ≤ 2 * max_seconds + 1)%Z → (seconds n < 0)%Z.
Proof.
  unfold max_seconds, seconds, wrap64. intros Hn.
  rewrite <- (Z.mod_unique_pos (n * 1000000000 + 2 ^ 63) (2 ^ 64) 1
                (n * 1000000000 - 2 ^ 63)); lia.
Qed.

Lemma start_if_exact c t n : (c = true → 0 < n ≤ max_seconds)%Z →
  start_if c t (seconds n) = Ok (if c then [(t, n * 1000000000)%Z] else []).
Proof.
  intros Hn. destruct c; [|done]. simpl. unfold NewTicker. rewrite seconds_exact by lia.
  by rewrite decide_False by lia.
Qed.

(** A timer is started for each flag that asks for it, with the period the flag
    gives, as long as the period is at most 9223372036 seconds; the program panics
    on the next 9223372037 values of the refresh interval, whose duration in
    nanoseconds overflows to a negative number. *)
Theorem timers_spec flags :
  let interval := Flags.refreshInterval flags in
  let resync := Flags.resyncInterval flags in
  ((interval ≤ max_seconds)%Z → (resync ≤ max_seconds)%Z →
     timers flags = Ok (
       (if bool_decide (Flags.ipLookupSource flags ≠ "") then [(IpTimer, 10000000000%Z)] else []) ++
       (if bool_decide (0 < interval)%Z then [(PruneTimer, interval * 1000000000)%Z] else []) ++
       (if bool_decide (0 < interval)%Z then [(RefreshTimer, interval * 1000000000)%Z] else []) ++
       (if bool_decide (0 < resync)%Z then [(ResyncTimer, resync * 1000000000)%Z] else []))) ∧
  ((max_seconds < interval ≤ 2 * max_seconds + 1)%Z → timers flags = Panicked).
Proof.
  cbv zeta. unfold timers. rewrite (start_if_exact _ IpTimer 10) by (intros _; by compute).
  split.
  - intros Hi Hr. rewrite !(start_if_exact (bool_decide (0 < _)%Z)); try done;
      intros H%bool_decide_eq_true; lia.
  - intros Hi. rewrite (bool_decide_true (0 < Flags.refreshInterval flags)%Z) by (unfold max_seconds in *; lia).
    assert (start_if true PruneTimer (seconds (Flags.refreshInterval flags)) = Panicked) as ->.
    { simpl. unfold NewTicker. by rewrite decide_True by (apply seconds_negative in Hi; lia). }
    by destruct (bool_decide _).
Qed.
