(* ===== verification/ProgramProps.v ===== *)
(** * What the program as a whole does

    [main] from the command line to the event loop, and then the program beside the
    interleaved system of Concurrency.v: each of its steps is matched by steps of
    the system, whose invariants it therefore has; and the codes with which the
    process can end. *)
From stdpp Require Import relations.
From S2P Require Import Prelude GoStrings Types Metadata Regex NewService Fixtures Bridge BridgeInv.
From S2P Require Import System Threads Concurrency Sections Interleavings Liveness Main Zookeeper.
From S2P Require Import ExtPoints Factories Program.

(** ** Up to the event loop *)
Section start.
Context {R C : Type} `{RA : RegistryAdapter R} `{O : MapOrder} (host : Host.t).
Context (Parse : string → Url.t + string) (make : adapter C → R).
Context (new_adapter : factory → Url.t → outcome (adapter C)).
Implicit Types p : Program.t R.

(** The bridge that [main] makes for a URI. *)
Lemma new_bridge_run flags config uri : Flags.args flags = [uri] →
  new_bridge Parse make new_adapter flags config =
  match Parse uri with
  | inr _ => Ok (inr ("bad adapter uri: " +:+ uri))
  | inl u =>
      match schemes !! Url.Scheme u with
      | None => Ok (inr ("unrecognized adapter: " +:+ uri))
      | Some f => registry ← new_adapter f u; Ok (inl (Bridge.init (make registry) config))
      end
  end.
Proof.
  intros Ha. destruct modules_run as (s & Hrun & T). unfold new_bridge. rewrite Hrun, Ha.
  simpl. unfold mbind at 1, outcome_bind. by rewrite (New_table Parse make new_adapter s).
Qed.

(** Pings change nothing but the registry. *)
Lemma ping_init r config :
  (bridge_Ping (Bridge.init r config)).2 = Bridge.init (Ping r).2 config.
Proof. unfold bridge_Ping. simpl. by destruct (Ping r) as [o r']. Qed.

Section pings.
Context (good : R → Prop) (Hping : ∀ r, good r → good (Ping r).2).
Context (idle : nat → R → R) (Hidle : ∀ n r, good r → good (idle n r)).

Lemma bridge_at_init r config n : good r →
  ∃ r', bridge_at idle (Bridge.init r config) n = Bridge.init r' config ∧ good r'.
Proof using Hping Hidle.
  intros Hr. induction n as [|n (r1 & IH & H1)]; [by exists r|]. cbn [bridge_at].
  rewrite IH, ping_init. eexists. split; [done|]. by apply Hidle, Hping.
Qed.

Lemma bridge_after_init r config n : good r →
  ∃ r', bridge_after idle (Bridge.init r config) n = Bridge.init r' config ∧ good r'.
Proof using Hping Hidle.
  intros Hr. destruct n as [|n]; [by exists r|]. cbn [bridge_after].
  destruct (bridge_at_init r config n Hr) as (r1 & -> & H1). rewrite ping_init. eauto.
Qed.
End pings.

(** What it takes to get to the event loop. *)
Lemma main_start_Ok osArgs flags web dockerErr idle listenErr fuel p :
  main_start Parse make new_adapter osArgs flags web dockerErr idle listenErr fuel = Some (Ok p) →
  ∃ uri u f a config n,
    Flags.args flags = [uri] ∧ Parse uri = inl u ∧ schemes !! Url.Scheme u = Some f ∧
    new_adapter f u = Ok a ∧
    configure flags (external_ip (set_lookup flags) web) dockerErr =
      Ok (Program.discoveredIP p, config) ∧
    p = Program.mk (Initialize (bridge_after idle (Bridge.init (make a) config) n))
          (Pushing (SyncMessage.mk false (Config.HostIp config)))
          (Program.discoveredIP p) (set_lookup flags) flags.
Proof.
  unfold main_start. case_decide; [done|].
  destruct (configure flags _ dockerErr) as [[ip config]| | |] eqn:Hc; try done.
  pose proof (configure_Ok _ _ _ _ Hc) as ((Hn & _) & _).
  destruct (Flags.args flags) as [|uri [|]] eqn:Ha; try done.
  unfold mbind at 1, outcome_bind at 1. rewrite (new_bridge_run flags config uri Ha).
  destruct (Parse uri) as [u|e] eqn:Hu; [|done].
  destruct (schemes !! Url.Scheme u) as [f|] eqn:Hf; [|done].
  destruct (new_adapter f u) as [a| | |] eqn:Hnew; try done. simpl.
  destruct (connect _ _ _ _ _) as [[n| | |]|]; try done. simpl.
  destruct listenErr; [done|]. intros [= <-]. by exists uri, u, f, a, config, n.
Qed.
End start.

(** ** The program and the interleaved system *)
(** Orders that do not matter: those of the goroutines and of the senders. *)
Lemma perm_pick {A} (l : list A) x k : l ≡ₚ x :: k → ∃ l1 l2, l = l1 ++ x :: l2 ∧ l1 ++ l2 ≡ₚ k.
Proof.
  intros Hp. assert (x ∈ l) as Hx by (rewrite Hp; left).
  apply list_elem_of_split in Hx as (l1 & l2 & ->). exists l1, l2. split; [done|].
  apply (Permutation_cons_inv (a := x)). by rewrite Permutation_middle.
Qed.

Lemma perm_add {A} (l1 l2 l3 : list A) x : ((l1 ++ l2) ++ l3) ++ [x] ≡ₚ (l1 ++ x :: l2) ++ l3.
Proof. by rewrite (Permutation_app_comm _ [x]), <- Permutation_middle. Qed.

Section picks.
Context {R : Type} `{RA : RegistryAdapter R} `{O : MapOrder} (host : Host.t) (env : Env.t).
Implicit Types (b : Bridge.t R) (p : prog R unit).

Lemma gstep_section_pick p b p' b' ts k wg q ch : advance p b = Some (p', b') → ts ≡ₚ p :: k →
  ∃ ts', gstep host env (Sys.mk b ts wg q ch) (Sys.mk b' ts' wg q ch) ∧ ts' ≡ₚ p' :: k.
Proof.
  intros Ha (ts1 & ts2 & -> & Hk)%perm_pick. exists (ts1 ++ p' :: ts2).
  split; [by apply gstep_section|]. by rewrite <- Permutation_middle, Hk.
Qed.

Lemma gstep_end_pick b ts k wg q ch : ts ≡ₚ Ret () :: k →
  ∃ ts', gstep host env (Sys.mk b ts wg q ch) (Sys.mk b ts' wg q ch) ∧ ts' ≡ₚ k.
Proof. intros (ts1 & ts2 & -> & Hk)%perm_pick. exists (ts1 ++ ts2). split; [by apply gstep_end|done]. Qed.

Lemma gstep_receive_pick docker msg b ts q k wg : Env.docker env docker → q ≡ₚ msg :: k →
  ∃ q', gstep host env (Sys.mk b ts wg q ChReceive)
          (Sys.mk b ts wg q' (ChHandle (handle_sync_t host docker msg))) ∧ q' ≡ₚ k.
Proof.
  intros Hd (q1 & q2 & -> & Hk)%perm_pick. exists (q1 ++ q2). split; [by apply gstep_receive|done].
Qed.
End picks.

(** What the goroutines of [main] and the timers are running and sending. *)
Definition working_of {R} (t : timer * task R) : option (prog R unit) :=
  match t.2 with Working q => Some q | _ => None end.
Definition sending_of {R} (t : timer * task R) : option SyncMessage.t :=
  match t.2 with Sending msg => Some msg | _ => None end.

Definition working {R} (p : Program.t R) : list (prog R unit) :=
  match Program.main p with Pushing _ => [] | Serving ts => omap working_of ts end.
Definition messages {R} (p : Program.t R) : list SyncMessage.t :=
  match Program.main p with Pushing msg => [msg] | Serving ts => omap sending_of ts end.

(** The system [s] is where the program is. *)
Record implements {R} (p : Program.t R) (s : Sys.t R) : Prop := {
  implements_bridge : Sys.bridge s = Sys.bridge (Program.sys p);
  implements_wg : Sys.wg s = Sys.wg (Program.sys p);
  implements_chan : Sys.chan s = Sys.chan (Program.sys p);
  implements_threads : Sys.threads s ≡ₚ working p ++ Sys.threads (Program.sys p);
  implements_senders : Sys.senders s ≡ₚ messages p ++ Sys.senders (Program.sys p)
}.

Section simulation.
Context {R : Type} `{RA : RegistryAdapter R} `{O : MapOrder} (host : Host.t) (env : Env.t).
Implicit Types (p : Program.t R) (s : Sys.t R).
Local Notation "s ⇝ s'" := (rtc (istep host env) s s') (at level 70).

(** The goroutines that are not [main]'s or a timer's. *)
Lemma simulate_goroutine p s s' : implements p s → gstep host env (Program.sys p) s' →
  ∃ s2, s ⇝ s2 ∧ implements (with_sys s' p) s2.
Proof.
  destruct p as [sp m ip lk fl]. destruct s as [b ts wg q ch]. intros [Hb Hw Hc Ht Hq]. simpl in *.
  unfold working, messages in *. simpl in *.
  assert (∀ s2, gstep host env (Sys.mk b ts wg q ch) s2 → Sys.mk b ts wg q ch ⇝ s2) as Hone
    by (intros; by apply rtc_once, istep_goroutine).
  destruct 1 as [docker gs1 g gs2 b0 ts0 wg0 q0 ch0 Hd Hg|ts1 p ts2 b0 p' b' wg0 q0 ch0 Ha
    |ts1 ts2 b0 wg0 q0 ch0|b0 ts0 q0|docker q1 msg q2 b0 ts0 wg0 Hd|p b0 p' b' ts0 wg0 q0 Ha|b0 ts0 wg0 q0];
    simpl in *; subst.
  - eexists. split; [by apply Hone, (gstep_go host env docker)|]. constructor; try done.
    simpl. rewrite Ht. by rewrite (assoc_L app).
  - rewrite (assoc_L app), <- Permutation_middle in Ht.
    destruct (gstep_section_pick host env p b0 p' b' _ _ wg0 q ch0 Ha Ht) as (ts' & Hs & Ht').
    eexists. split; [by apply Hone|]. constructor; try done. simpl.
    by rewrite Ht', (assoc_L app), <- Permutation_middle.
  - rewrite (assoc_L app), <- Permutation_middle in Ht.
    destruct (gstep_end_pick host env b0 _ _ wg0 q ch0 Ht) as (ts' & Hs & Ht').
    eexists. split; [by apply Hone|]. constructor; try done. simpl. by rewrite Ht', (assoc_L app).
  - eexists. split; [by apply Hone, gstep_wait|]. by constructor.
  - rewrite (assoc_L app), <- Permutation_middle in Hq.
    destruct (gstep_receive_pick host env docker msg b0 ts _ _ wg0 Hd Hq) as (q' & Hs & Hq').
    eexists. split; [by apply Hone|]. constructor; try done. simpl. by rewrite Hq', (assoc_L app).
  - eexists. split; [by apply Hone, gstep_handle|]. by constructor.
  - eexists. split; [by apply Hone, gstep_done|]. by constructor.
Qed.

Lemma event_called docker ip st id op : Env.docker env docker → Env.event env id →
  event_operation docker ip (Event st id) = Some op → called env op.
Proof. intros Hd He. simpl. repeat case_decide; intros [= <-]; done. Qed.

(** What a timer may be doing: a call, or handing over a message with an address
    that is valid, or with none. *)
Definition ticker_ok (t : timer) (todo : task R) : Prop :=
  match todo with
  | Waiting => True
  | Working _ => t = PruneTimer ∨ t = RefreshTimer
  | Sending msg => (t = IpTimer ∨ t = ResyncTimer) ∧ address_or_none (SyncMessage.IP msg)
  end.

Lemma tick_task web t p ip todo : on_tick host web t p = Ok (ip, todo) →
  ticker_ok t todo ∧
  match todo with
  | Working q => ∃ op, called env op ∧ q = operation_t host op
  | _ => True
  end.
Proof.
  destruct t; cbn [on_tick]; try (intros [= <- <-]; split; [simpl; by auto|];
    first [by exists OpPrune|by exists OpRefresh]).
  all: destruct (resyncProcess _ _ _ _) as [[ip1 [m|]]| | |] eqn:Hr; try done; intros [= <- <-];
    try done; apply resync_address in Hr as (_ & ? & _); by repeat split; auto.
Qed.

(** Show that the program is where the system is. *)
Local Ltac implemented :=
  constructor; simpl; unfold working, messages; simpl; rewrite ?omap_app; try done; simpl.

(** A tick starts a call, makes a sender of the timer, or does nothing. *)
Lemma simulate_tick web ts1 t ts2 ip todo p s :
  Program.main p = Serving (ts1 ++ (t, Waiting) :: ts2) → on_tick host web t p = Ok (ip, todo) →
  implements p s →
  ∃ s', s ⇝ s' ∧ implements (with_main (Serving (ts1 ++ (t, todo) :: ts2)) (with_ip ip p)) s'.
Proof.
  destruct p as [sp m ip0 lk fl], s as [b ths wg q0 ch]. intros Hm [_ Ht]%tick_task [Hb Hw Hc Hths Hq].
  simpl in *. subst. unfold working, messages in *. simpl in *. rewrite !omap_app in *. simpl in *.
  destruct todo as [|q|msg]; simpl in *.
  - eexists. split; [apply rtc_refl|]. implemented.
  - destruct Ht as (op & Hop & ->).
    exists (start_operation host op (Sys.mk (Sys.bridge sp) ths (Sys.wg sp) q0 (Sys.chan sp))).
    split; [by apply rtc_once, istep_call|]. implemented. by rewrite Hths, perm_add.
  - exists (PushServiceSync msg (Sys.mk (Sys.bridge sp) ths (Sys.wg sp) q0 (Sys.chan sp))).
    split; [by apply rtc_once, istep_push|]. implemented. by rewrite Hq, perm_add.
Qed.

Lemma simulate_event docker st id p s : Env.docker env docker → Env.event env id → implements p s →
  ∃ s', s ⇝ s' ∧ implements (on_event host docker (Event st id) p) s'.
Proof.
  intros Hd He [Hb Hw Hc Hths Hq]. unfold on_event.
  destruct (event_operation docker (Program.discoveredIP p) (Event st id)) as [op|] eqn:Ho.
  - exists (start_operation host op s). split; [apply rtc_once, istep_call; by eapply event_called|].
    constructor; try done. simpl. by rewrite Hths, (assoc_L app).
  - exists s. split; [apply rtc_refl|by constructor].
Qed.

(** Every step of the program is one of the system, or none. *)
Lemma simulate p p' s : pstep host env p p' → implements p s → ∃ s', s ⇝ s' ∧ implements p' s'.
Proof.
  intros Hstep Hi. destruct Hstep as [docker msg ts [sp m ip lk fl] Hd Hm Hch _
    |docker st id ts p Hd He Hm|web ts1 t ts2 ip todo p Hm Ht
    |ts1 t q q' b' ts2 [sp m ip lk fl] Hm Ha|ts1 t ts2 [sp m ip lk fl] Hm
    |docker ts1 t msg ts2 [sp m ip lk fl] Hd Hm Hch|s' p Hg].
  2: by apply simulate_event.
  2: by eapply simulate_tick.
  5: by apply simulate_goroutine.
  all: destruct s as [b ths wg q0 ch]; destruct Hi as [Hb Hw Hc Hths Hq]; simpl in *; subst;
    unfold working, messages in *; simpl in *; rewrite ?omap_app in *; simpl in *; rewrite ?Hch in *.
  - destruct (gstep_receive_pick host env docker msg (Sys.bridge sp) ths _ _ (Sys.wg sp) Hd Hq)
      as (q' & Hs & Hq').
    eexists. split; [by apply rtc_once, istep_goroutine|]. implemented.
    + rewrite Hths. by induction ts.
    + rewrite Hq'. by induction ts.
  - rewrite <- (assoc_L app) in Hths. simpl in Hths. rewrite <- Permutation_middle in Hths.
    destruct (gstep_section_pick host env q _ q' b' _ _ (Sys.wg sp) q0 (Sys.chan sp) Ha Hths)
      as (ths' & Hs & Hths').
    eexists. split; [by apply rtc_once, istep_goroutine|]. implemented.
    by rewrite Hths', <- (assoc_L app), Permutation_middle.
  - rewrite <- (assoc_L app) in Hths. simpl in Hths. rewrite <- Permutation_middle in Hths.
    destruct (gstep_end_pick host env (Sys.bridge sp) _ _ (Sys.wg sp) q0 (Sys.chan sp) Hths)
      as (ths' & Hs & Hths').
    eexists. split; [by apply rtc_once, istep_goroutine|]. implemented.
    by rewrite Hths', <- (assoc_L app).
  - rewrite <- (assoc_L app) in Hq. simpl in Hq. rewrite <- Permutation_middle in Hq.
    destruct (gstep_receive_pick host env docker msg (Sys.bridge sp) ths _ _ (Sys.wg sp) Hd Hq)
      as (q' & Hs & Hq').
    eexists. split; [by apply rtc_once, istep_goroutine|]. implemented.
    by rewrite Hq', <- (assoc_L app).
Qed.

Lemma simulate_run p p' s : rtc (pstep host env) p p' → implements p s →
  ∃ s', s ⇝ s' ∧ implements p' s'.
Proof.
  intros Hsteps. revert s. induction Hsteps as [|p1 p2 p3 Hstep _ IH]; intros s Hi.
  - exists s. split; [apply rtc_refl|done].
  - destruct (simulate p1 p2 s Hstep Hi) as (s1 & Hs1 & Hi1).
    destruct (IH s1 Hi1) as (s2 & Hs2 & Hi2). exists s2. split; [by etrans|done].
Qed.

(** *** What [main] and the timers keep *)
Definition all_timers : list timer := [IpTimer; PruneTimer; RefreshTimer; ResyncTimer].

(** Nobody else sends messages; each timer runs once, and does what it is for. *)
Definition program_ok (flags : Flags.t) p : Prop :=
  Program.flags p = flags ∧ Sys.senders (Program.sys p) = [] ∧
  match Program.main p with
  | Pushing msg => address_or_none (SyncMessage.IP msg)
  | Serving ts => sublist ts.*1 all_timers ∧ Forall (λ t, ticker_ok t.1 t.2) ts
  end.

Lemma timers_sublist flags ts : timers flags = Ok ts → sublist ts.*1 all_timers.
Proof.
  unfold timers, all_timers. intros Ht.
  assert (∀ c t d l, start_if c t d = Ok l → sublist l.*1 [t]) as H1.
  { intros [] t d l; simpl; [|intros [= <-]; apply sublist_nil_l]. unfold NewTicker.
    destruct (decide (d ≤ 0)%Z); [done|]. by intros [= <-]. }
  repeat match type of Ht with
  | mbind _ ?m = _ => destruct m as [?l| | |] eqn:?; try discriminate Ht;
      unfold mbind at 1, outcome_bind at 1 in Ht
  end.
  injection Ht as <-. rewrite !fmap_app.
  change [IpTimer; PruneTimer; RefreshTimer; ResyncTimer]
    with ([IpTimer] ++ [PruneTimer] ++ [RefreshTimer] ++ [ResyncTimer]).
  repeat apply sublist_app; eauto.
Qed.

Lemma gstep_senders (s s' : Sys.t R) : gstep host env s s' → Sys.senders s = [] → Sys.senders s' = [].
Proof. destruct 1; simpl; try done. intros [_ [=]]%app_eq_nil. Qed.

Lemma pstep_ok flags p p' : pstep host env p p' → program_ok flags p → program_ok flags p'.
Proof.
  unfold program_ok. intros Hstep (Hf & Hq & Hm).
  destruct Hstep as [docker msg ts p Hd Hp Hch Hts|docker st id ts p Hd He Hp
    |web ts1 t ts2 ip todo p Hp Ht|ts1 t q q' b' ts2 p Hp Ha|ts1 t ts2 p Hp
    |docker ts1 t msg ts2 p Hd Hp Hch|s' p Hg]; try rewrite Hp in Hm; simpl.
  - split; [done|]. split; [done|]. apply timers_sublist in Hts.
    rewrite <- list_fmap_compose. split; [done|]. by apply Forall_fmap, Forall_true.
  - unfold on_event. destruct (event_operation _ _ _); simpl; by rewrite Hp.
  - split; [done|]. split; [done|]. apply tick_task in Ht as [Ht _].
    rewrite !fmap_app, !Forall_app, !Forall_cons in *. naive_solver.
  - split; [done|]. split; [done|]. rewrite !fmap_app, !Forall_app, !Forall_cons in *. naive_solver.
  - split; [done|]. split; [done|]. rewrite !fmap_app, !Forall_app, !Forall_cons in *. naive_solver.
  - split; [done|]. split; [done|]. rewrite !fmap_app, !Forall_app, !Forall_cons in *. naive_solver.
  - split; [done|]. split; [by eapply gstep_senders|done].
Qed.

Lemma run_ok flags p p' : rtc (pstep host env) p p' → program_ok flags p → program_ok flags p'.
Proof. induction 1 as [|p1 p2 p3 Hstep _ IH]; [done|]. intros Hp. by eapply IH, pstep_ok. Qed.

(** The timers of a kind. *)
Definition calls (t : timer) : bool :=
  match t with PruneTimer | RefreshTimer => true | _ => false end.
Definition sends (t : timer) : bool := negb (calls t).

Fixpoint count_timers (c : timer → bool) (ts : list timer) : nat :=
  match ts with [] => 0 | t :: ts => (if c t then 1 else 0) + count_timers c ts end.

Lemma count_timers_sublist c ts ts' : sublist ts ts' → count_timers c ts ≤ count_timers c ts'.
Proof using. induction 1; simpl; [done|lia..]. Qed.

(** At most two timers run a call at any time, and two hand over a message. *)
Lemma program_ok_bounds flags p : program_ok flags p →
  length (working p) ≤ 2 ∧ length (messages p) ≤ 2 ∧
  Forall (λ m, address_or_none (SyncMessage.IP m)) (messages p).
Proof.
  unfold program_ok, working, messages. intros (_ & _ & Hm).
  destruct (Program.main p) as [msg|ts]; [split_and!; simpl; auto; by apply Forall_singleton|].
  destruct Hm as [Hs Hts]. split_and!.
  - transitivity (count_timers calls ts.*1).
    + clear Hs. induction Hts as [|[t [|q|msg]] ts Ht _ IH]; csimpl in *; [done|destruct (calls t); lia|..].
      * destruct Ht as [-> | ->]; simpl; lia.
      * destruct (calls t); lia.
    + exact (count_timers_sublist calls _ _ Hs).
  - transitivity (count_timers sends ts.*1).
    + clear Hs. induction Hts as [|[t [|q|msg]] ts Ht _ IH]; csimpl in *; [done|destruct (sends t); lia..|].
      destruct Ht as [[-> | ->] _]; simpl; lia.
    + exact (count_timers_sublist sends _ _ Hs).
  - clear Hs. induction Hts as [|[t [|q|msg]] ts Ht _ IH]; simpl; [done..|]. constructor; [apply Ht|done].
Qed.
End simulation.

(** ** Properties *)
Section properties.
Context {R C : Type} `{RA : RegistryAdapter R} `{O : MapOrder} (host : Host.t).
Context (Parse : string → Url.t + string) (make : adapter C → R).
Context (new_adapter : factory → Url.t → outcome (adapter C)).
Implicit Types p : Program.t R.

(** Every run of the program is matched by one of the system. *)
Lemma run_matched env flags web dockerErr p p' ip config r :
  configure flags (external_ip (set_lookup flags) web) dockerErr = Ok (ip, config) →
  p = Program.mk (Initialize (Bridge.init r config))
        (Pushing (SyncMessage.mk false (Config.HostIp config))) ip (set_lookup flags) flags →
  rtc (pstep host env) p p' →
  program_ok flags p' ∧
  ∃ s, rtc (istep host env) (Initialize (Bridge.init r config)) s ∧ implements p' s.
Proof.
  intros Hc -> Hsteps. split.
  - eapply run_ok; [exact Hsteps|]. split; [done|]. split; [done|].
    by apply (configure_address _ _ _ _ Hc).
  - set (msg := SyncMessage.mk false (Config.HostIp config)) in *.
    edestruct (simulate_run host env) as (s & Hs & Hi); [exact Hsteps| |].
    { instantiate (1 := PushServiceSync msg (Initialize (Bridge.init r config))). by constructor. }
    exists s. split; [|done]. eapply rtc_l; [apply istep_push|exact Hs].
Qed.

(** The configuration never changes. *)
Lemma config_constant env r config (s : Sys.t R) :
  rtc (istep host env) (Initialize (Bridge.init r config)) s → Bridge.config (Sys.bridge s) = config.
Proof.
  intros Hs. apply (steady_system host env (λ b, Bridge.config b = config)) in Hs; try done.
  assert (∀ A (m : GoM R A) note, leaves Bridge.config (registry_call m note)) as Hcall.
  { intros A m note b. unfold registry_call. by destruct (m (Bridge.registry b)) as [[] ?]. }
  intros op. apply (operation_steady host Bridge.config (λ c, c = config)); try done;
    intros; apply (steady_leaves Bridge.config (λ c, c = config)), Hcall.
Qed.

(** C2: from the command line on, for every backend, every URI and whatever events,
    timers and goroutines do in whatever order: if [main] gets to its first sync
    message, the URI has one of the nine schemes; every run of the program from
    then on is matched, step by step, by a run of the interleaved system on a
    bridge over the backend of that scheme; and in every state it reaches each tracked
    or dead container has exactly one service, made for it, and, if neither -ttl nor
    -ttl-refresh is negative, which [main] does not check, what is left of the TTL
    of a dead one is positive and at most -ttl; at most two timers run a call and at
    most two messages wait, each with a valid address or none, and the loop that
    handles them is not kept waiting by its wait group. *)
Theorem program_inv env osArgs flags web dockerErr idle listenErr fuel p :
  main_start Parse make new_adapter osArgs flags web dockerErr idle listenErr fuel = Some (Ok p) →
  ∃ uri u f a config n,
    Flags.args flags = [uri] ∧ Parse uri = inl u ∧ schemes !! Url.Scheme u = Some f ∧
    new_adapter f u = Ok a ∧
    configure flags (external_ip (set_lookup flags) web) dockerErr =
      Ok (Program.discoveredIP p, config) ∧
    ∀ p', rtc (pstep host env) p p' →
      (∃ s, rtc (istep host env) (Initialize (bridge_after idle (Bridge.init (make a) config) n)) s ∧
         implements p' s) ∧
      bridge_inv (Sys.bridge (Program.sys p')) ∧
      (timing_flags flags → map_Forall (λ _ d, (0 < DeadContainer.TTL d ≤ Flags.refreshTtl flags)%Z)
                              (Bridge.deadContainers (Sys.bridge (Program.sys p')))) ∧
      length (working p') ≤ 2 ∧ length (messages p') ≤ 2 ∧
      Forall (λ m, address_or_none (SyncMessage.IP m)) (messages p') ∧
      (Sys.chan (Program.sys p') = ChWait → Sys.wg (Program.sys p') = 0%Z).
Proof.
  intros (uri & u & f & a & config & n & Ha & Hu & Hf & Hn & Hc & Hp)%main_start_Ok.
  exists uri, u, f, a, config, n. do 5 (split; [done|]). intros p' Hsteps.
  destruct (bridge_after_init (λ _, True) ltac:(done) idle ltac:(done) (make a) config n I)
    as (r & Hr & _). rewrite Hr in *.
  destruct (run_matched env flags web dockerErr p p' _ config r Hc Hp Hsteps) as (Hok & s & Hrun & Hi).
  split; [by exists s|].
  destruct (reachable_sys_inv host env False (λ _, True) ltac:(done) ltac:(done) ltac:(done) r config s
    ltac:(done) Hrun) as [[[Hb _] _] Hw].
  pose proof (config_constant env r config s Hrun) as Hconfig.
  destruct Hi as [Eb Ew Ec _ _]. rewrite Eb, Ew, Ec in *. split; [done|]. split.
  { intros Ht id d Hd. pose proof (configure_timed _ _ _ _ Ht Hc) as Htimed. simpl in Htimed.
    apply configure_Ok in Hc as (_ & _ & _ & Httl & _). simpl in Httl. rewrite <- Httl.
    rewrite <- Hconfig in *. by apply (proj2 (proj2 Hb id d Hd)). }
  destruct (program_ok_bounds flags p') as (? & ? & ?); [done|].
  do 3 (split; [done|]). intros Hch. by rewrite Hch in Hw.
Qed.

(** A goroutine of the program is one of the system. *)
Lemma implements_goroutine p s q : implements p s →
  q ∈ working p ∨ q ∈ Sys.threads (Program.sys p) ∨ Sys.chan (Program.sys p) = ChHandle q →
  q ∈ goroutines s.
Proof.
  intros [_ _ Hc Ht _] Hq. unfold goroutines. rewrite Hc, elem_of_app, Ht, elem_of_app.
  destruct Hq as [?|[?| ->]]; auto. right. left.
Qed.

Lemma section_ends_exits (b : Bridge.t R) q c : section_ends q b = Some c →
  finished q ∨ runs b q ∨ exits b q ∨ waits b q → c = 1%Z ∧ exits b q.
Proof.
  unfold section_ends, runs, exits, waits. destruct q as [|X m k]; [done|]. simpl.
  destruct (m b) as [[x| | |d] b']; simpl; try done; intros [= <-] [[]|[[? [=]]|[H|[_ H]]]];
    simplify_eq; done.
Qed.

Lemma timers_end flags c : recovered (timers flags) = Exited c → c = 1%Z ∧ timers flags = Panicked.
Proof.
  unfold timers. intros Ht.
  assert (∀ b t d, (∃ l, start_if b t d = Ok l) ∨ start_if b t d = Panicked) as H1.
  { intros [] t d; simpl; [|left; by eexists]. unfold NewTicker.
    destruct (decide (d ≤ 0)%Z); [by right|left; by eexists]. }
  repeat match goal with
  | |- context [start_if ?b ?t ?d] =>
      let E := fresh in destruct (H1 b t d) as [[? E]|E]; rewrite E in Ht |- *;
      [|injection Ht as <-; done]
  end.
  done.
Qed.

Lemma tick_exits web t p c : on_tick host web t p = Exited c →
  c = 2%Z ∧ Config.ExitOnIPLookupFailure (Bridge.config (Sys.bridge (Program.sys p))) = true ∧
  Flags.ipLookupSource (Program.flags p) ≠ "".
Proof.
  assert (∀ config src lookup ip, resyncProcess config src lookup ip = Exited c →
    c = 2%Z ∧ Config.ExitOnIPLookupFailure config = true ∧ src ≠ "") as Hr.
  { intros config src [x success] ip. unfold resyncProcess, ShouldExitOnIPLookupFailure.
    go_unfold. case_decide; [|done].
    destruct success, (Config.ExitOnIPLookupFailure config), (match_string ipRegEx x);
      by intros [= <-] || done. }
  destruct t; cbn [on_tick]; try done;
    (destruct (resyncProcess _ _ _ _) as [[]| | |] eqn:E; try done); intros [= ->]; by apply Hr in E.
Qed.

(** How the process can end, once [main] has got to its first sync message and
    as long as Docker's answers are ones the code can take and the registry is in a state from
    which its calls return: with code 0 when the events are over; with code 1 when a
    goroutine calls [log.Fatal], or when [main] panics on a timer whose period is no
    positive duration; with code 2 when the address lookup fails and the flags ask
    to exit then. *)
Lemma program_ends_good (good : R → Prop) `{RS : !RegistrySafe good}
    osArgs flags web dockerErr idle listenErr fuel p p' c :
  (∀ n r, good r → good (idle n r)) →
  (∀ uri u f a, Flags.args flags = [uri] → Parse uri = inl u → schemes !! Url.Scheme u = Some f →
     new_adapter f u = Ok a → good (make a)) →
  main_start Parse make new_adapter osArgs flags web dockerErr idle listenErr fuel = Some (Ok p) →
  rtc (pstep host handled) p p' → ends host p' c →
  c = 0%Z ∧ (∃ ts, Program.main p' = Serving ts) ∨
  c = 1%Z ∧ (timers flags = Panicked ∨
             ∃ q, (q ∈ working p' ∨ q ∈ Sys.threads (Program.sys p') ∨
                   Sys.chan (Program.sys p') = ChHandle q) ∧ exits (Sys.bridge (Program.sys p')) q) ∨
  c = 2%Z ∧ Flags.exitOnIpLookupFailure flags = true ∧ Flags.ipLookupSource flags ≠ "".
Proof.
  intros Hidle Hmake (uri & u & f & a & config & n & Ha & Hu & Hf & Hn & Hc & Hp)%main_start_Ok
    Hsteps Hends.
  destruct (bridge_after_init good Ping_safe idle Hidle (make a) config n) as (r & Hr & Hgood);
    [by eapply Hmake|]. rewrite Hr in *.
  destruct (run_matched handled flags web dockerErr p p' _ config r Hc Hp Hsteps)
    as ((Hfl & _ & _) & s & Hrun & Hi).
  destruct (reachable_sys_inv host handled True good (λ _, RS) (λ _ _ H, H) (λ _ _ H, H) r config s
    (λ _, Hgood) Hrun) as [Hpool _].
  pose proof (config_constant handled r config s Hrun) as Hconfig.
  pose proof (implements_bridge _ _ Hi) as Eb. rewrite Eb in *.
  assert (∀ q, q ∈ working p' ∨ q ∈ Sys.threads (Program.sys p') ∨ Sys.chan (Program.sys p') = ChHandle q →
    section_ends q (Sys.bridge (Program.sys p')) = Some c →
    c = 1%Z ∧ (timers flags = Panicked ∨
               ∃ q, (q ∈ working p' ∨ q ∈ Sys.threads (Program.sys p') ∨
                     Sys.chan (Program.sys p') = ChHandle q) ∧ exits (Sys.bridge (Program.sys p')) q)) as Hq.
  { intros q Hq He. destruct (section_ends_exits _ q c He) as [-> ?]; [|by eauto].
    apply (pool_fate True good I _ (goroutines s)); [done|]. by eapply implements_goroutine. }
  destruct Hends as [ts Hm|msg c Hm Hch He|web' ts t c Hm Hin He|ts t q c Hm Hin He|q c Hin He|q c Hin He].
  - left. by eauto.
  - right. left. apply timers_end in He as [-> He]. rewrite Hfl in He. auto.
  - right. right. apply tick_exits in He as (-> & He & Hsrc).
    pose proof (configure_exit _ _ _ _ Hc) as Hexit. simpl in Hexit.
    rewrite Hconfig, Hexit in He. by rewrite Hfl in Hsrc.
  - right. left. apply (Hq q); [left|done].
    unfold working. rewrite Hm. apply list_elem_of_omap. by exists (t, Working q).
  - right. left. apply (Hq q); auto.
  - right. left. apply (Hq q); auto.
Qed.

(** C28: what [main] comes to before its first sync message. It gets there only when
    the flags are in order; the version flag, flags that are not, a URI it cannot
    parse or whose scheme it does not know, and a factory or a first ping that
    panics all end the process, with codes 0, 2 or 1, 1, 1 and 1; it never dies of
    a panic. *)
Theorem main_start_spec osArgs flags web dockerErr idle listenErr fuel :
  let start := main_start Parse make new_adapter osArgs flags web dockerErr idle listenErr fuel in
  start ≠ Some Panicked ∧
  (osArgs !! 1 = Some "--version" → length osArgs = 2 → start = Some (Exited 0)) ∧
  (¬ (length osArgs = 2 ∧ osArgs !! 1 = Some "--version") →
   (¬ flags_ok flags dockerErr → start = Some (Exited 1) ∨ start = Some (Exited 2)) ∧
   ∀ r uri, configure flags (external_ip (set_lookup flags) web) dockerErr = Ok r →
     Flags.args flags = [uri] →
     ((∃ e, Parse uri = inr e) → start = Some (Exited 1)) ∧
     (∀ u, Parse uri = inl u →
        (schemes !! Url.Scheme u = None → start = Some (Exited 1)) ∧
        (∀ f, schemes !! Url.Scheme u = Some f →
           (new_adapter f u = Panicked → start = Some (Exited 1)) ∧
           (∀ a, new_adapter f u = Ok a → (Ping (make a)).1 = Panicked → 0 < fuel →
              (-1 ≤ Flags.retryAttempts flags)%Z → start = Some (Exited 1))))).
Proof.
  cbv zeta. split; [|split; [|intros Hlen; split]].
  - unfold main_start. case_decide; [done|].
    destruct (_ ≫= _) as [[[ip config] b]| | |]; try done.
    destruct (connect _ _ _ _ _) as [o|]; [|done]. simpl.
    by destruct (o ≫= _).
  - intros Hv Hl. unfold main_start. by rewrite decide_True.
  - intros Hno. unfold main_start. rewrite decide_False by done.
    pose proof (configure_ends flags (external_ip (set_lookup flags) web) dockerErr) as Hends.
    destruct (configure flags (external_ip (set_lookup flags) web) dockerErr); try done. simpl.
    destruct Hends as [-> | ->]; auto.
  - intros [ip config] uri Hc Ha. unfold main_start. rewrite decide_False by done.
    rewrite Hc. simpl. pose proof (new_bridge_run Parse make new_adapter flags config uri Ha) as Hb.
    split; [intros [e He]|intros u Hu; split; [intros Hf|intros f Hf; split; [intros Hn|]]];
      rewrite Hb, ?He, ?Hu, ?Hf, ?Hn; try done.
    intros a Hn Hp Hfuel Hatt. rewrite Hn. simpl. destruct fuel as [|fuel]; [lia|]. cbn [connect].
    rewrite decide_True by lia. unfold pings, bridge_Ping. simpl.
    destruct (Ping (make a)) as [o r]. simpl in *. by rewrite Hp.
Qed.
End properties.

(** * Concrete runs *)
Module ProgramRuns.
Definition Parse (s : string) : Url.t + string :=
  if decide (s = "consul://") then inl (Url.mk "consul" "" "" s) else inr "parse".

Definition new_adapter : factory → Url.t → outcome (adapter unit) :=
  factory_New (λ _, "") (λ _ _ _ _, None) (λ _, None) (λ _, inr "no etcd") (λ _, inl ()).

Definition flags : Flags.t :=
  {| Flags.hostIp := "192.168.1.102"; Flags.internal := false; Flags.useIpFromLabel := "";
     Flags.refreshInterval := 10; Flags.refreshTtl := 30; Flags.forceTags := "";
     Flags.resyncInterval := 600; Flags.deregister := "on-success"; Flags.retryAttempts := 2;
     Flags.retryInterval := 2000; Flags.cleanup := true; Flags.requireLabel := false;
     Flags.ipLookupSource := "http://ip"; Flags.ipLookupRetries := 2;
     Flags.exitOnIpLookupFailure := true; Flags.args := ["consul://"] |}.

(** The source fails at first; the flags allow two requests. *)
Definition web (address : string) (n : nat) : lookup_answer :=
  if decide (address = "http://ip" ∧ n = 1) then Body "10.0.0.7" else GetFails.

Definition config : Config.t :=
  {| Config.HostIp := "10.0.0.7"; Config.Internal := false; Config.UseIpFromLabel := "";
     Config.ForceTags := ""; Config.RefreshTtl := 30; Config.RefreshInterval := 10;
     Config.DeregisterCheck := "on-success"; Config.Cleanup := true;
     Config.RequireLabel := false; Config.ExitOnIPLookupFailure := true |}.

(** The program over a registry at its first message, and at its event loop. *)
Section runs.
Context {R : Type} `{RA : RegistryAdapter R} (r : R).

Definition up : Program.t R :=
  Program.mk (Initialize (Bridge.init r config))
    (Pushing (SyncMessage.mk false "10.0.0.7")) "10.0.0.7" (IpLookup.mk "http://ip" 2) flags.

Definition waiting : Program.t R :=
  with_sys (Sys.mk (Bridge.init r config) [] 1 [] ChReceive) up.

Definition serving : Program.t R :=
  with_main (Serving [(IpTimer, Waiting); (PruneTimer, Waiting); (RefreshTimer, Waiting);
                      (ResyncTimer, Waiting)])
    (with_sys (received (O := ascending) Fixtures.host Fixtures.docker (SyncMessage.mk false "10.0.0.7")
                 (Program.sys waiting)) waiting).

Lemma up_serving env : Env.docker env Fixtures.docker →
  rtc (pstep (O := ascending) Fixtures.host env) up serving.
Proof.
  intros Hd. eapply rtc_l; [apply pstep_goroutine, gstep_wait|]. apply rtc_once.
  apply (pstep_serve (O := ascending) Fixtures.host env Fixtures.docker (SyncMessage.mk false "10.0.0.7")
           [(IpTimer, 10000000000%Z); (PruneTimer, 10000000000%Z); (RefreshTimer, 10000000000%Z);
            (ResyncTimer, 600000000000%Z)] waiting);
    [exact Hd|reflexivity..].
Qed.
End runs.

Lemma start_up :
  main_start (O := ascending) Parse (λ _, Memory.empty) new_adapter ["registrator"; "consul://"]
    flags web None (λ _ r, r) None 3 = Some (Ok (up Memory.empty)).
Proof. vm_compute. reflexivity. Qed.
End ProgramRuns.

Lemma program_inv_witness :
  let p := on_event (O := ascending) Fixtures.host Fixtures.docker (Event "start" "c1")
             (ProgramRuns.serving Memory.empty) in
  length (Sys.threads (Program.sys p)) = 1 ∧ bridge_inv (Sys.bridge (Program.sys p)).
Proof.
  split; [reflexivity|].
  destruct (program_inv (O := ascending) Fixtures.host ProgramRuns.Parse (λ _, Memory.empty)
    ProgramRuns.new_adapter Env.any ["registrator"; "consul://"] ProgramRuns.flags ProgramRuns.web None
    (λ _ r, r) None 3 (ProgramRuns.up Memory.empty) ProgramRuns.start_up)
    as (uri & u & f & a & config & n & _ & _ & _ & _ & _ & H).
  eapply H. eapply rtc_r; [by apply ProgramRuns.up_serving|]. by eapply pstep_event.
Defined.

Lemma timers_spec_witness :
  timers ProgramRuns.flags =
  Ok [(IpTimer, 10000000000%Z); (PruneTimer, 10000000000%Z); (RefreshTimer, 10000000000%Z);
      (ResyncTimer, 600000000000%Z)].
Proof.
  destruct (timers_spec ProgramRuns.flags) as [H _]. rewrite H; [reflexivity|by compute..].
Defined.

Lemma main_start_spec_witness :
  main_start (O := ascending) ProgramRuns.Parse (λ _, Memory.empty) ProgramRuns.new_adapter
    ["registrator"; "--version"] ProgramRuns.flags ProgramRuns.web None (λ _ r, r) None 0 =
  Some (Exited 0).
Proof.
  destruct (main_start_spec (O := ascending) ProgramRuns.Parse (λ _, Memory.empty)
    ProgramRuns.new_adapter ["registrator"; "--version"] ProgramRuns.flags ProgramRuns.web None
    (λ _ r, r) None 0) as (_ & H & _). apply H; reflexivity.
Defined.
