(* ===== verification/Registry.v ===== *)
(** * The registry behind the bridge: any of the backends

    The field [registry] of the bridge is an interface value: one of the six
    adapters, chosen by the URI. With it the program of Program.v is complete but
    for the clients of third parties, whose states are what the factories dial.
    When these clients' calls return, so do those of every adapter but Eureka's, which
    needs more of AWS than AWS promises (EurekaSafe.v); and hence the process ends in
    one of three ways only. *)
From stdpp Require Import relations.
From S2P Require Import Prelude GoStrings Types Metadata NewService Fixtures Bridge BridgeInv.
From S2P Require Import System Threads Concurrency Sections Interleavings Liveness Main.
From S2P Require Import Backend KvBackends Zookeeper Consul Aws ElbProps Eureka EurekaSafe ExtPoints.
From S2P Require Import Factories Program ProgramProps.

Section registry.
Context {Cc Kc K0 K2 E Cz : Type} `{CC : ConsulClient Cc} `{KC : KvClient Kc} `{KV0 : KvClient K0}.
Context `{KV2 : KvClient K2} `{EC : EurekaClient E} `{ZC : ZkConn Cz} `{O : MapOrder} (cloud : Cloud.t).
(** The time that passes before the [n]-th call. *)
Context (elapsed : nat → Z).

(** ** Dispatch *)
Inductive registry :=
| ConsulRegistry (client : Cc)
| ConsulKVRegistry (path : string) (r : ConsulKV.t path Kc)
| EtcdRegistry (path : string) (r : Etcd.t path K0 K2)
| EurekaRegistry (n : nat) (a : Aws.t E)
| Skydns2Registry (path : string) (r : Skydns2.t path K2)
| ZkRegistry (path : string) (client : Cz).

Definition wrap {S A} (w : S → registry) (op : GoM S A) (s : S) : outcome A * registry :=
  let '(o, s') := op s in (o, w s').

Definition dispatch {A} (op : ∀ S, RegistryAdapter S → GoM S A) : GoM registry A := λ r,
  match r with
  | ConsulRegistry c => wrap ConsulRegistry (op _ Consul.adapter) c
  | ConsulKVRegistry path r => wrap (ConsulKVRegistry path) (op _ ConsulKV.adapter) r
  | EtcdRegistry path r => wrap (EtcdRegistry path) (op _ Etcd.adapter) r
  | EurekaRegistry n a =>
      wrap (EurekaRegistry (1 + n)) (op _ (eureka_adapter cloud))
        (Aws.set_now (Aws.now a + elapsed n)%Z a)
  | Skydns2Registry path r => wrap (Skydns2Registry path) (op _ Skydns2.adapter) r
  | ZkRegistry path c => wrap (ZkRegistry path) (op _ (Zk.adapter path)) c
  end.

#[local] Instance registry_adapter : RegistryAdapter registry := {|
  Ping := dispatch (λ S _, Ping);
  Register s := dispatch (λ S _, Register s);
  Deregister s := dispatch (λ S _, Deregister s);
  Refresh s := dispatch (λ S _, Refresh s);
  Services := dispatch (λ S _, Services)
|}.

(** The registry that a factory's adapter is, with the clients it has dialled. *)
Context (dial_consul : ConsulConfig.t → Cc) (dial_kv : ConsulConfig.t → Kc).
Context (dial_etcd0 : list string → K0) (dial_etcd : list string → K2).
Context (dial_eureka : string → E) (start : Z).

Definition make_registry (a : adapter Cz) : registry :=
  match a with
  | ConsulAdapter config => ConsulRegistry (dial_consul config)
  | ConsulKVAdapter config path => ConsulKVRegistry path (ConsulKV.mk (dial_kv config))
  | EtcdAdapter v0 urls path =>
      EtcdRegistry path (Etcd.mk (if v0 then inl (dial_etcd0 urls) else inr (dial_etcd urls)))
  | EurekaAdapter url => EurekaRegistry 0 (Aws.mk start ∅ ∅ false None (dial_eureka url))
  | Skydns2Adapter urls path => Skydns2Registry path (Skydns2.mk (dial_etcd urls))
  | ZkAdapter c path => ZkRegistry path c
  end.

(** ** Calls return *)
(** A call of a client returns, with or without error. For Eureka's adapter, there is a
    set of states from which its calls return, and which neither they nor time leave. *)
Context (eureka_good : Aws.t E → Prop) `{RE : !RegistrySafe (H := eureka_adapter cloud) eureka_good}.
Context (eureka_waits : ∀ t a, eureka_good a → eureka_good (Aws.set_now t a)).
Context `{L0 : !KvCallsReturn K0} `{L2 : !KvCallsReturn K2} `{Lc : !KvCallsReturn Kc}.
Context (consul_returns : ∀ c : Cc, (∀ reg, is_Ok (consul_ServiceRegister reg c).1 = true) ∧
  (∀ id, is_Ok (consul_ServiceDeregister id c).1 = true) ∧ is_Ok (consul_Services c).1 = true).
Context (zk_returns : ∀ (c : Cz) p, is_Ok (zk_Exists p c).1 = true ∧
  (∀ b e, is_Ok (zk_Create p b e c).1 = true) ∧ is_Ok (zk_Delete p c).1 = true ∧
  is_Ok (zk_Children p c).1 = true).

(** A registry whose calls return: Consul's store under a path, Eureka's in such a
    state, and all others. *)
Definition returning (r : registry) : Prop :=
  match r with
  | ConsulKVRegistry path _ => path ≠ ""
  | EurekaRegistry _ a => eureka_good a
  | _ => True
  end.

Lemma wrap_safe {S A} (w : S → registry) (op : GoM S A) s :
  is_Ok (op s).1 = true → (∀ s', returning (w s')) →
  is_Ok (wrap w op s).1 = true ∧ returning (wrap w op s).2.
Proof using. intros Ho Hw. unfold wrap. destruct (op s) as [o s']. split; [done|apply Hw]. Qed.

Lemma dispatch_safe {A} (op : ∀ S, RegistryAdapter S → GoM S A) :
  (∀ c : Cc, is_Ok (op Cc Consul.adapter c).1 = true) →
  (∀ path (r : ConsulKV.t path Kc), path ≠ "" → is_Ok (op _ ConsulKV.adapter r).1 = true) →
  (∀ path (r : Etcd.t path K0 K2), is_Ok (op _ Etcd.adapter r).1 = true) →
  safe_call eureka_good (op (Aws.t E) (eureka_adapter cloud)) →
  (∀ path (r : Skydns2.t path K2), is_Ok (op _ Skydns2.adapter r).1 = true) →
  (∀ path (c : Cz), is_Ok (op Cz (Zk.adapter path) c).1 = true) →
  safe_call returning (dispatch op).
Proof using eureka_waits.
  intros H1 H2 H3 He H4 H5 r Hr. destruct r as [| | |n a| |]; cbn [dispatch returning] in *;
    try (apply wrap_safe; auto; done).
  destruct (He (Aws.set_now (Aws.now a + elapsed n)%Z a)) as [Ho Hok]; [by apply eureka_waits|].
  unfold wrap. destruct (op _ _ _) as [o a']. by split.
Qed.

(** *** The calls, one by one *)
Lemma buildCheck_full s : full_origin s → is_Ok (buildCheck s) = true.
Proof using.
  intros Hs. destruct (check_kind_spec s (or_introl Hs)) as (c & Hc & _). unfold buildCheck.
  rewrite Hc. simpl. destruct c; [|done]. by case_decide.
Qed.

Lemma consul_Register_full s c : full_origin s → is_Ok (Consul.Register s c : outcome error * Cc).1 = true.
Proof using consul_returns.
  intros Hs%buildCheck_full. unfold Consul.Register, Consul.registration.
  destruct (buildCheck s) as [check| | |]; try done. simpl. apply consul_returns.
Qed.

Lemma consul_Services_full c : is_Ok (Consul.Services c : outcome _ * Cc).1 = true.
Proof using consul_returns.
  unfold Consul.Services, mbind, GoM_bind. destruct (consul_returns c) as (_ & _ & Hs).
  destruct (consul_Services c) as [[[|]| | |] c']; done.
Qed.

(** A call of ZooKeeper returns, and something is done with its answer. *)
Lemma bind_returns {S A B} (op : GoM S A) (k : A → GoM S B) s :
  is_Ok (op s).1 = true → (∀ a s', is_Ok (k a s').1 = true) → is_Ok ((op ≫= k) s).1 = true.
Proof using. intros Ho Hk. unfold mbind, GoM_bind. destruct (op s) as [[a| | |] s']; [apply Hk|done..]. Qed.

Lemma zk_Register_full path s (c : Cz) : is_Ok (Zk.Register path s c).1 = true.
Proof using zk_returns.
  apply bind_returns; [apply zk_returns|]. intros [ex [e|]] c1; [done|].
  apply bind_returns; [destruct ex; [done|apply zk_returns]|]. intros _ c2.
  apply bind_returns; [apply zk_returns|done].
Qed.

Lemma zk_Deregister_full path s (c : Cz) : is_Ok (Zk.Deregister path s c).1 = true.
Proof using zk_returns.
  apply bind_returns; [apply zk_returns|]. intros _ c1.
  apply bind_returns; [apply zk_returns|]. intros [kids err] c2.
  apply bind_returns; [case_decide; [apply zk_returns|done]|done].
Qed.

#[local] Instance registry_safe : RegistrySafe returning.
Proof.
  split.
  - assert (∀ {S A} (w : S → registry) (op : GoM S A) s,
      (∀ s', returning (w s')) → returning (wrap w op s).2) as Hwrap.
    { intros S A w op s Hw. unfold wrap. destruct (op s). apply Hw. }
    intros r Hr. destruct r as [| | |n a| |]; simpl in Hr; try (by apply Hwrap).
    apply (eureka_waits (Aws.now a + elapsed n)%Z), (Ping_safe (RegistrySafe := RE)) in Hr.
    simpl in *. unfold wrap. by destruct (eureka_Ping _).
  - intros s Hs. apply dispatch_safe; intros.
    + by apply consul_Register_full.
    + pose proof (consulkv_returns (path := path) (C := Kc) ltac:(done)). apply Register_returns.
    + apply Register_returns.
    + by apply (Register_safe (RegistrySafe := RE)).
    + apply Register_returns.
    + apply zk_Register_full.
  - intros s. apply dispatch_safe; intros.
    + apply consul_returns.
    + pose proof (consulkv_returns (path := path) (C := Kc) ltac:(done)). apply Deregister_returns.
    + apply Deregister_returns.
    + apply (Deregister_safe (RegistrySafe := RE)).
    + apply Deregister_returns.
    + apply zk_Deregister_full.
  - intros s. apply dispatch_safe; intros; try done.
    + apply Refresh_returns.
    + apply (Refresh_safe (RegistrySafe := RE)).
    + apply Refresh_returns.
    + apply zk_Register_full.
  - apply dispatch_safe; intros; try done. apply consul_Services_full.
Qed.

(** ** The whole program *)
Context (host : Host.t) (Parse : string → Url.t + string) (getenv : string → string).
Context (SetupTLSConfig : string → string → string → string → error).
Context (NewClient : ConsulConfig.t → error) (http_version : string → string + string).
Context (zk_Connect : string → Cz + string).
Local Abbreviation new_adapter :=
  (factory_New getenv SetupTLSConfig NewClient http_version zk_Connect).

(** A URI with a path, if it is for Consul's store. *)
Definition returning_uri (u : Url.t) : Prop :=
  (Url.Scheme u = "consulkv" → Url.Path u ≠ "") ∧
  (Url.Scheme u = "consulkv-unix" → ∀ sock, Url.Path u ≠ sock +:+ ":").

Lemma scheme_eureka k : schemes !! k = Some EurekaFactory → k = "eureka".
Proof using.
  intros Hk%elem_of_list_to_map_2.
  repeat (apply elem_of_cons in Hk as [Heq|Hk]; [by simplify_eq|]). by apply elem_of_nil in Hk.
Qed.

Lemma scheme_consulkv k : schemes !! k = Some ConsulKVFactory →
  k = "consulkv" ∨ k = "consulkv-unix".
Proof using.
  intros Hk%elem_of_list_to_map_2.
  repeat (apply elem_of_cons in Hk as [Heq|Hk]; [simplify_eq; by auto|]). by apply elem_of_nil in Hk.
Qed.

Lemma consulkv_path u a : Url.Scheme u = "consulkv" ∨ Url.Scheme u = "consulkv-unix" →
  new_adapter ConsulKVFactory u = Ok a →
  ∃ config path, a = ConsulKVAdapter config path ∧
    (Url.Scheme u = "consulkv" ∧ path = Url.Path u ∨
     Url.Scheme u = "consulkv-unix" ∧ ∃ sock, Url.Path u = sock +:+ ":" +:+ path).
Proof using.
  intros Hs. cbn [factory_New]. unfold consulkv_New, SplitN2. case_decide as Hu.
  - destruct (cut_spec (Url.Path u) ":") as [[_ ->]|(p & t & -> & _ & ->)]; [done|]. simpl.
    destruct (NewClient _); [done|]. intros [= <-]. eexists _, _. split; [done|]. right. eauto.
  - destruct Hs as [Hs|]; [|done]. case_decide; simpl; (destruct (NewClient _); [done|]);
      intros [= <-]; eexists _, _; (split; [done|]); by left.
Qed.

Lemma make_returning u f a : schemes !! Url.Scheme u = Some f → new_adapter f u = Ok a →
  returning_uri u →
  (Url.Scheme u = "eureka" → ∀ url, eureka_good (Aws.mk start ∅ ∅ false None (dial_eureka url))) →
  returning (make_registry a).
Proof using.
  intros Hf Hn (H2 & H3) H4. destruct f; cbn [factory_New] in Hn.
  - revert Hn. unfold consul_New. go_unfold. repeat case_match; by intros [= <-] || done.
  - destruct (consulkv_path u a (scheme_consulkv _ Hf) Hn) as (config & path & -> & Hp). simpl.
    destruct Hp as [[Hs ->]|(Hs & sock & Hp)]; [by apply H2|]. intros ->. by apply (H3 Hs sock).
  - revert Hn. unfold etcd_New. case_match; by intros [= <-] || done.
  - injection Hn as <-. by apply H4, scheme_eureka.
  - revert Hn. unfold skydns2_New. go_unfold. repeat case_match; by intros [= <-] || done.
  - revert Hn. unfold zookeeper_New. case_match; [|done].
    match goal with |- context [let '(_, _) := ?m in _] => destruct m as [[[]| | |] c'] end;
      by intros [= <-] || done.
Qed.

(** How the process can end, with a registry in such a state. *)
Definition ends_well (flags : Flags.t) (p' : Program.t registry) (c : Z) : Prop :=
  c = 0%Z ∧ (∃ ts, Program.main p' = Serving ts) ∨
  c = 1%Z ∧ (timers flags = Panicked ∨
             ∃ q, (q ∈ working p' ∨ q ∈ Sys.threads (Program.sys p') ∨
                   Sys.chan (Program.sys p') = ChHandle q) ∧ exits (Sys.bridge (Program.sys p')) q) ∨
  c = 2%Z ∧ Flags.exitOnIpLookupFailure flags = true ∧ Flags.ipLookupSource flags ≠ "".

Lemma program_ends_returning osArgs flags web dockerErr idle listenErr fuel p p' c :
  (∀ n r, returning r → returning (idle n r)) →
  (∀ uri u, Flags.args flags = [uri] → Parse uri = inl u → returning_uri u ∧
     (Url.Scheme u = "eureka" → ∀ url, eureka_good (Aws.mk start ∅ ∅ false None (dial_eureka url)))) →
  main_start Parse make_registry new_adapter osArgs flags web dockerErr idle listenErr fuel =
    Some (Ok p) →
  rtc (pstep host handled) p p' → ends host p' c → ends_well flags p' c.
Proof.
  intros Hidle Huri. apply (program_ends_good host Parse make_registry new_adapter returning); [done|].
  intros uri u f a Ha Hu Hf Hn. destruct (Huri uri u Ha Hu). eapply make_returning; eauto.
Qed.
End registry.

(** Eureka's backend, when all that its adapter asks of AWS is there. *)
Lemma eureka_starts {E} start (e : E) : eureka_ok (Aws.mk start ∅ ∅ false None e).
Proof. by split. Qed.

Lemma eureka_waits {E} t (a : Aws.t E) : eureka_ok a → eureka_ok (Aws.set_now t a).
Proof. done. Qed.

Section whole.
Context {Cc Kc K0 K2 E Cz : Type} `{CC : ConsulClient Cc} `{KC : KvClient Kc} `{KV0 : KvClient K0}.
Context `{KV2 : KvClient K2} `{EC : EurekaClient E} `{ZC : ZkConn Cz} `{O : MapOrder} (cloud : Cloud.t).
Context (elapsed : nat → Z).
Context (dial_consul : ConsulConfig.t → Cc) (dial_kv : ConsulConfig.t → Kc).
Context (dial_etcd0 : list string → K0) (dial_etcd : list string → K2).
Context (dial_eureka : string → E) (start : Z).
Context `{L0 : !KvCallsReturn K0} `{L2 : !KvCallsReturn K2} `{Lc : !KvCallsReturn Kc}.
Context (consul_returns : ∀ c : Cc, (∀ reg, is_Ok (consul_ServiceRegister reg c).1 = true) ∧
  (∀ id, is_Ok (consul_ServiceDeregister id c).1 = true) ∧ is_Ok (consul_Services c).1 = true).
Context (zk_returns : ∀ (c : Cz) p, is_Ok (zk_Exists p c).1 = true ∧
  (∀ b e, is_Ok (zk_Create p b e c).1 = true) ∧ is_Ok (zk_Delete p c).1 = true ∧
  is_Ok (zk_Children p c).1 = true).
Context (host : Host.t) (Parse : string → Url.t + string) (getenv : string → string).
Context (SetupTLSConfig : string → string → string → string → error).
Context (NewClient : ConsulConfig.t → error) (http_version : string → string + string).
Context (zk_Connect : string → Cz + string).

#[local] Instance whole_adapter :
    RegistryAdapter (registry (Cc := Cc) (Kc := Kc) (K0 := K0) (K2 := K2) (E := E) (Cz := Cz)) :=
  registry_adapter cloud elapsed.
Local Abbreviation new_adapter :=
  (factory_New getenv SetupTLSConfig NewClient http_version zk_Connect).
Local Abbreviation make :=
  (make_registry dial_consul dial_kv dial_etcd0 dial_etcd dial_eureka start).

(** The same for all six backends, if the calls of Eureka's client return and AWS's
    answers are complete, which AWS does not promise. *)
Lemma program_ends_eureka `{ER : !EurekaCallsReturn E} (Hcloud : complete cloud)
    osArgs flags web dockerErr idle listenErr fuel p p' c :
  (∀ n r, returning eureka_ok r → returning eureka_ok (idle n r)) →
  (∀ uri u, Flags.args flags = [uri] → Parse uri = inl u → returning_uri u) →
  main_start Parse make new_adapter osArgs flags web dockerErr idle listenErr fuel = Some (Ok p) →
  rtc (pstep host handled) p p' → ends host p' c → ends_well flags p' c.
Proof.
  intros Hidle Huri. pose proof (eureka_safe cloud Hcloud).
  apply (program_ends_returning cloud elapsed dial_consul dial_kv dial_etcd0 dial_etcd dial_eureka start
    eureka_ok eureka_waits consul_returns zk_returns host Parse getenv SetupTLSConfig NewClient
    http_version zk_Connect); [done|]. intros uri u Ha Hu. split; [by eapply Huri|].
  intros _ url. apply eureka_starts.
Qed.

(** C3: the program as a whole, with any backend but Eureka. The URI names a scheme
    other than eureka and, for Consul's store, a path; the calls of the backend's client
    return, with or without error; and whatever else happens meanwhile leaves the
    backend the one it is. Docker's answers are ones the code can take: IDs of twelve
    characters at least, those in a network mode too, a name for each container, a label
    map if it has an environment, and no entry of that without an equals sign. Once
    [main] has got to its first sync message, the process then ends with code 0 when the
    events are over; with code 1 when a goroutine calls [log.Fatal], or when [main]
    panics on a timer whose period is no positive duration; with code 2 when the address
    lookup fails and the flags ask to exit then; and in no other way, so not by a panic
    of a goroutine. *)
Theorem program_ends osArgs flags web dockerErr idle listenErr fuel p p' c :
  (∀ n r, returning (λ _, False) r → returning (λ _, False) (idle n r)) →
  (∀ uri u, Flags.args flags = [uri] → Parse uri = inl u →
     Url.Scheme u ≠ "eureka" ∧ returning_uri u) →
  main_start Parse make new_adapter osArgs flags web dockerErr idle listenErr fuel = Some (Ok p) →
  rtc (pstep host handled) p p' → ends host p' c →
  c = 0%Z ∧ (∃ ts, Program.main p' = Serving ts) ∨
  c = 1%Z ∧ (timers flags = Panicked ∨
             ∃ q, (q ∈ working p' ∨ q ∈ Sys.threads (Program.sys p') ∨
                   Sys.chan (Program.sys p') = ChHandle q) ∧ exits (Sys.bridge (Program.sys p')) q) ∨
  c = 2%Z ∧ Flags.exitOnIpLookupFailure flags = true ∧ Flags.ipLookupSource flags ≠ "".
Proof.
  intros Hidle Huri.
  assert (RegistrySafe (H := eureka_adapter cloud) (λ _, False)) as RE by (by repeat split).
  apply (program_ends_returning cloud elapsed dial_consul dial_kv dial_etcd0 dial_etcd dial_eureka start
    (λ _, False) (λ _ _ H, H) consul_returns zk_returns host Parse getenv SetupTLSConfig NewClient
    http_version zk_Connect); [done|]. intros uri u Ha Hu. destruct (Huri uri u Ha Hu). by split.
Qed.
End whole.

(** * Concrete runs *)
Module RegistryRuns.
(** A Consul agent that answers every request, and knows of no service. *)
#[global] Instance agent : ConsulClient unit := {|
  consul_Leader c := (Ok ("10.0.0.1:8300", None), c);
  consul_ServiceRegister _ c := (Ok None, c);
  consul_ServiceDeregister _ c := (Ok None, c);
  consul_Services c := (Ok (inl ∅), c)
|}.

Abbreviation registry :=
  (@Registry.registry unit KvRuns.kv KvRuns.kv KvRuns.kv unit unit).
Definition adapter : RegistryAdapter registry := registry_adapter (O := ascending) (ElbRuns.cloud false) (λ _, second).
Definition make : Factories.adapter unit → registry :=
  make_registry (λ _, ()) (λ _, ∅) (λ _, ∅) (λ _, ∅) (λ _, ()) 1000.

Definition up : Program.t registry := ProgramRuns.up (ConsulRegistry ()).
Definition serving : Program.t registry := ProgramRuns.serving (RA := adapter) (ConsulRegistry ()).

Lemma registry_up :
  main_start (RA := adapter) (O := ascending) ProgramRuns.Parse make ProgramRuns.new_adapter
    ["registrator"; "consul://"] ProgramRuns.flags ProgramRuns.web None (λ _ r, r) None 3 =
  Some (Ok up).
Proof. vm_compute. reflexivity. Qed.

(** Two pages of attached groups, listeners that forward, and a balancer. *)
Lemma cloud_complete : complete (ElbRuns.cloud false).
Proof.
  assert (page_ok ElbRuns.page1 ∧ page_ok ElbRuns.page2 ∧ page_ok (TgPage.mk [Some ElbRuns.tg_b] None))
    as (H1 & H2 & H3).
  { split_and!; intros tg; simpl; rewrite ?elem_of_cons, elem_of_nil; intros Htg;
      destruct_or?; simplify_eq; by eexists _, _. }
  split.
  - done.
  - intros t r arn ts [= <-] [[=]|Hin%elem_of_nil]%elem_of_cons. done.
  - intros t r p [= <-]. by eexists.
  - intros t r [arns size mark] p Hp. simpl in Hp. destruct arns, mark; by simplify_eq.
  - intros t r arn p [= <-]. by eexists _, _.
  - by intros t r arn arns lbs [= <-].
  - intros t r arn ls [= <-]. repeat constructor; intros [[=]|Hin%elem_of_nil]%elem_of_cons; done.
Qed.

#[global] Instance no_eureka_calls : EurekaCallsReturn unit.
Proof. by split. Qed.

Lemma agent_returns (c : unit) : (∀ reg, is_Ok (consul_ServiceRegister reg c).1 = true) ∧
  (∀ id, is_Ok (consul_ServiceDeregister id c).1 = true) ∧ is_Ok (consul_Services c).1 = true.
Proof. by repeat split. Qed.
Lemma zk_returns (c : unit) (p : string) : is_Ok (zk_Exists p c).1 = true ∧
  (∀ b e, is_Ok (zk_Create p b e c).1 = true) ∧ is_Ok (zk_Delete p c).1 = true ∧
  is_Ok (zk_Children p c).1 = true.
Proof. by repeat split. Qed.

Lemma uri_returning uri u : Flags.args ProgramRuns.flags = [uri] →
  ProgramRuns.Parse uri = inl u → Url.Scheme u ≠ "eureka" ∧ returning_uri u.
Proof. intros [= <-] [= <-]. by repeat split. Qed.

(** The address source does not answer any more. *)
Lemma lookup_fails : ends (RA := adapter) (O := ascending) Fixtures.host serving 2.
Proof.
  eapply (ends_lookup _ serving (λ _ _, GetFails) _ IpTimer); [reflexivity|left|reflexivity].
Qed.
End RegistryRuns.

Lemma program_ends_witness :
  ends (RA := RegistryRuns.adapter) (O := ascending) Fixtures.host RegistryRuns.serving 2 ∧
  Flags.exitOnIpLookupFailure ProgramRuns.flags = true.
Proof.
  split; [exact RegistryRuns.lookup_fails|].
  destruct (program_ends (O := ascending) (ElbRuns.cloud false) (λ _, second) (λ _, ()) (λ _, ∅ : KvRuns.kv)
    (λ _, ∅ : KvRuns.kv) (λ _, ∅ : KvRuns.kv) (λ _, ()) 1000 RegistryRuns.agent_returns
    RegistryRuns.zk_returns Fixtures.host ProgramRuns.Parse (λ _, "")
    (λ _ _ _ _, None) (λ _, None) (λ _, inr "no etcd") (λ _, inl ())
    ["registrator"; "consul://"] ProgramRuns.flags ProgramRuns.web None (λ _ r, r) None 3
    RegistryRuns.up RegistryRuns.serving 2 ltac:(done) RegistryRuns.uri_returning
    RegistryRuns.registry_up
    (ProgramRuns.up_serving (RA := RegistryRuns.adapter) (ConsulRegistry ()) handled
       LiveRuns.docker_is_handled) RegistryRuns.lookup_fails)
    as [[H _]|[[H _]|(_ & H & _)]]; [discriminate H..|exact H].
Defined.
